(** * OrderMatching: a shallow embedding of the cached order matcher

    The development follows [CachedOrders/OrderCache.h] (class [Order], the
    declarations of [OrderCache]) and the implementation file of
    [OrderCache] ([addOrder], [cancelOrder], [cancelOrdersForUser],
    [cancelOrdersForSecIdWithMinimumQty], [getMatchingSizeForSecurity],
    [getAllOrders], [cancelSingleOrder], [cancelOrders],
    [matchOrderInCache], [getMatchedQuantityInCache]).

    Modelling choices.
    - [unsigned int] is a [Z] in [0, 2^32); every [+=] and [-=] of the
      source is written with its wrap-around ([wrap32]).
    - [std::string] is [string]; [==] on strings is [String.eqb].
    - [std::unordered_map] is [gmap], [std::unordered_set<std::string>] is
      [gset string]; [operator[]] on a map default-constructs a missing
      entry and that insertion is kept ([touch]).
    - [std::list<Order> _orders] is a [list Order], front first.  An
      [order_ptr] (a [std::list<Order>::iterator]) is modelled by the order
      id stored in the node it points to: [addOrder] refuses a second node
      with an id already present, so in every cache built by the public
      operations an id names exactly one node.  Dereferencing is [deref];
      a mutation through the iterator is [modify].
    - The header ships with [USE_CACHED_MATCHING_AT_ADD_ORDER] defined and
      [THROW_EXCEPTIONS], [EXTENDED_INTERFACE] and [_DEBUG] undefined.  The
      first macro is the parameter [eager] below (so that both matching
      modes can be compared); the others are taken as shipped: validation
      failures return silently, no match log is kept, nothing is printed.
    - [std::thread::hardware_concurrency()] is a value of the machine the
      program runs on; the functions that read it take it as their first
      argument, [hardware_concurrency].  The standard lets it be 0.
    - The per-order mutex only serialises threads; with [lockOrder = false]
      it is never taken, and it carries no data, so it is left out. *)

From stdpp Require Import gmap strings list fin_maps.
From Stdlib Require Import ZArith Lia.

Local Open Scope Z_scope.

(** ** Machine integers *)

Definition UINT_MODULUS : Z := 4294967296.

(** Arithmetic on [unsigned int] is modulo 2^32. *)
Definition wrap32 (z : Z) : Z := z mod UINT_MODULUS.

(** [unsigned int -> int] and back, as on two's complement targets. *)
Definition to_int (z : Z) : Z :=
  if z <? 2147483648 then z else z - UINT_MODULUS.

Definition to_uint (z : Z) : Z := wrap32 z.

Definition is_uint (z : Z) : Prop := 0 <= z < UINT_MODULUS.

(** ** class Order *)

Record Order := mkOrder {
  orderId : string;
  securityId : string;
  side : string;
  qty : Z;
  user : string;
  company : string;
  workingQty : Z
}.

(** The constructor [Order(ordId, secId, side, qty, user, company)]:
    [m_workingQty = qty]. *)
Definition Order_new (ordId secId sd : string) (q : Z)
    (usr comp : string) : Order :=
  mkOrder ordId secId sd q usr comp q.

Definition set_workingQty (w : Z) (o : Order) : Order :=
  mkOrder (orderId o) (securityId o) (side o) (qty o)
          (user o) (company o) w.

Definition filledQty (o : Order) : Z := wrap32 (qty o - workingQty o).

(** [fillLots]: [if (m_workingQty > qty) m_workingQty -= qty;
    else m_workingQty = 0;] *)
Definition fillLots (n : Z) (o : Order) : Order :=
  if n <? workingQty o
  then set_workingQty (wrap32 (workingQty o - n)) o
  else set_workingQty 0 o.

(** [unfillLots]: [m_workingQty += qty;
    if (m_workingQty > m_qty) m_workingQty = m_qty;] *)
Definition unfillLots (n : Z) (o : Order) : Order :=
  let w := wrap32 (workingQty o + n) in
  if qty o <? w then set_workingQty (qty o) o else set_workingQty w o.

Definition isFilled (o : Order) : bool := workingQty o =? 0.

Definition resetFills (o : Order) : Order := set_workingQty (qty o) o.

(** [isBuySide]: [ptr->side() != "Sell"]. *)
Definition isBuySide (o : Order) : bool := negb (String.eqb (side o) "Sell").

(** The class invariant of [Order]: what the constructor establishes and
    every public mutator keeps. *)
Definition Order_ok (o : Order) : Prop :=
  0 <= workingQty o <= qty o /\ qty o < UINT_MODULUS.

(** ** The node store [std::list<Order>] and iterators into it *)

Abbreviation order_ptr := string (only parsing).

Definition points_to (p : order_ptr) (o : Order) : bool :=
  String.eqb (orderId o) p.

(** [*ptr] *)
Definition deref (os : list Order) (p : order_ptr) : option Order :=
  List.find (points_to p) os.

(** A mutation [ptr->f()] of the node [ptr] points to. *)
Definition modify (p : order_ptr) (f : Order -> Order)
    (os : list Order) : list Order :=
  List.map (fun o => if points_to p o then f o else o) os.

(** [_orders.erase(ptr)]: unlinks the one node [ptr] points to. *)
Fixpoint list_erase (p : order_ptr) (os : list Order) : list Order :=
  match os with
  | [] => []
  | o :: rest => if points_to p o then rest else o :: list_erase p rest
  end.

(** ** [std::remove_if] followed by the one-iterator [vector::erase]

    [index.erase(std::remove_if(index.begin(), index.end(), pred))] calls
    the overload of [erase] that takes a single position.  [remove_if]
    moves the elements that do not satisfy [pred] to the front, in order,
    and returns the position after them; the slots from there on keep what
    they held (the elements are iterators, a move is a copy).  [erase]
    then removes the single element at that position.  When nothing
    satisfies [pred] the position is [end()], where [erase] is undefined;
    the model leaves the vector as it is. *)
Definition remove_if {A} (pred : A -> bool) (l : list A) : list A * nat :=
  let kept := List.filter (fun x => negb (pred x)) l in
  (kept ++ drop (length kept) l, length kept).

Definition erase_at {A} (pos : nat) (l : list A) : list A :=
  take pos l ++ drop (S pos) l.

Definition erase_remove_if {A} (pred : A -> bool) (l : list A) : list A :=
  let '(l', pos) := remove_if pred l in erase_at pos l'.

(** ** class OrderCache *)

Record OrderCache := mkOrderCache {
  _multiThread : bool;
  _orders : list Order;
  _orderIndex : gmap string order_ptr;
  _userOrdersIndex : gmap string (gset string);
  _securityOrdersIndex : gmap string (gset string);
  _securityLongOrdersIndex : gmap string (list order_ptr);
  _securityShortOrdersIndex : gmap string (list order_ptr);
  _matchedQuantity : gmap string Z
}.

(** A default-constructed [OrderCache]. *)
Definition empty_cache : OrderCache :=
  mkOrderCache true [] ∅ ∅ ∅ ∅ ∅ ∅.

(** [setMultiThread]: [_multiThread = value]. *)
Definition set_multiThread (b : bool) (c : OrderCache) : OrderCache :=
  mkOrderCache b (_orders c) (_orderIndex c) (_userOrdersIndex c)
    (_securityOrdersIndex c) (_securityLongOrdersIndex c)
    (_securityShortOrdersIndex c) (_matchedQuantity c).

Definition set_orders (os : list Order) (c : OrderCache) : OrderCache :=
  mkOrderCache (_multiThread c) os (_orderIndex c) (_userOrdersIndex c)
    (_securityOrdersIndex c) (_securityLongOrdersIndex c)
    (_securityShortOrdersIndex c) (_matchedQuantity c).

Definition set_orderIndex (m : gmap string order_ptr)
    (c : OrderCache) : OrderCache :=
  mkOrderCache (_multiThread c) (_orders c) m (_userOrdersIndex c)
    (_securityOrdersIndex c) (_securityLongOrdersIndex c)
    (_securityShortOrdersIndex c) (_matchedQuantity c).

Definition set_userOrdersIndex (m : gmap string (gset string))
    (c : OrderCache) : OrderCache :=
  mkOrderCache (_multiThread c) (_orders c) (_orderIndex c) m
    (_securityOrdersIndex c) (_securityLongOrdersIndex c)
    (_securityShortOrdersIndex c) (_matchedQuantity c).

Definition set_securityOrdersIndex (m : gmap string (gset string))
    (c : OrderCache) : OrderCache :=
  mkOrderCache (_multiThread c) (_orders c) (_orderIndex c)
    (_userOrdersIndex c) m (_securityLongOrdersIndex c)
    (_securityShortOrdersIndex c) (_matchedQuantity c).

Definition set_securityLongOrdersIndex (m : gmap string (list order_ptr))
    (c : OrderCache) : OrderCache :=
  mkOrderCache (_multiThread c) (_orders c) (_orderIndex c)
    (_userOrdersIndex c) (_securityOrdersIndex c) m
    (_securityShortOrdersIndex c) (_matchedQuantity c).

Definition set_securityShortOrdersIndex (m : gmap string (list order_ptr))
    (c : OrderCache) : OrderCache :=
  mkOrderCache (_multiThread c) (_orders c) (_orderIndex c)
    (_userOrdersIndex c) (_securityOrdersIndex c)
    (_securityLongOrdersIndex c) m (_matchedQuantity c).

Definition set_matchedQuantity (m : gmap string Z)
    (c : OrderCache) : OrderCache :=
  mkOrderCache (_multiThread c) (_orders c) (_orderIndex c)
    (_userOrdersIndex c) (_securityOrdersIndex c)
    (_securityLongOrdersIndex c) (_securityShortOrdersIndex c) m.

(** [m[k]] used as an lvalue: a missing entry is default-constructed and
    stays in the map. *)
Definition touch {V} (dflt : V) (k : string) (m : gmap string V)
    : gmap string V :=
  match m !! k with
  | Some _ => m
  | None => <[k := dflt]> m
  end.

(** The value [m[k]] refers to. *)
Definition at_key {V} (dflt : V) (k : string) (m : gmap string V) : V :=
  default dflt (m !! k).

(** [m.insert({k, v})]: no effect when [k] is already a key. *)
Definition umap_insert {V} (k : string) (v : V) (m : gmap string V)
    : gmap string V :=
  match m !! k with
  | Some _ => m
  | None => <[k := v]> m
  end.

(** [exists]: [_orderIndex.count(orderId) > 0]. *)
Definition exists_ (c : OrderCache) (id : string) : bool :=
  bool_decide (is_Some (_orderIndex c !! id)).

(** [size]: [_orderIndex.size()]. *)
Definition size_ (c : OrderCache) : nat := size (_orderIndex c).

(** [getMatchedQuantityInCache]. *)
Definition getMatchedQuantityInCache (c : OrderCache) (sec : string) : Z :=
  match _matchedQuantity c !! sec with
  | None => 0
  | Some v => v
  end.

(** *** The matcher *)

(** The [for] loop of [matchOrderInCache] over the copied vector
    [counterParties].  [order] and every candidate are read through their
    iterators at each turn.  An iterator that points to no node cannot be
    followed (undefined in the source; it does not occur in a cache built
    by the public operations): the model stops the loop there. *)
Fixpoint match_loop (order : order_ptr) (counterParties : list order_ptr)
    (os : list Order) (matchedQuantity : Z) : list Order * Z :=
  match counterParties with
  | [] => (os, matchedQuantity)
  | counterPartyOrder :: rest =>
    match deref os order, deref os counterPartyOrder with
    | Some o, Some cp =>
      if isFilled cp || String.eqb (company o) (company cp)
      then match_loop order rest os matchedQuantity
      else
        let q := Z.min (workingQty o) (workingQty cp) in
        if q =? 0 then match_loop order rest os matchedQuantity
        else
          let os1 := modify order (fillLots q) os in
          let os2 := modify counterPartyOrder (fillLots q) os1 in
          let matched' := wrap32 (matchedQuantity + q) in
          match deref os2 order with
          | Some o' =>
            if isFilled o' then (os2, matched')
            else match_loop order rest os2 matched'
          | None => (os2, matched')
          end
    | _, _ => (os, matchedQuantity)
    end
  end.

(** [matchOrderInCache(order, lockOrder)]; returns the matched quantity
    and the cache after the call. *)
Definition matchOrderInCache (order : order_ptr) (c : OrderCache)
    : Z * OrderCache :=
  match deref (_orders c) order with
  | None => (0, c)
  | Some o =>
    if isFilled o then (0, c)
    else
      let isBuy := isBuySide o in
      let sec := securityId o in
      let c1 :=
        if isBuy
        then set_securityShortOrdersIndex
               (touch [] sec (_securityShortOrdersIndex c)) c
        else set_securityLongOrdersIndex
               (touch [] sec (_securityLongOrdersIndex c)) c in
      let counterParties :=
        if isBuy then at_key [] sec (_securityShortOrdersIndex c1)
        else at_key [] sec (_securityLongOrdersIndex c1) in
      if (length counterParties =? 0)%nat then (0, c1)
      else
        let '(os', matchedQuantity) :=
          match_loop order counterParties (_orders c1) 0 in
        let mq := touch 0 sec (_matchedQuantity c1) in
        (matchedQuantity,
         set_matchedQuantity
           (<[sec := wrap32 (at_key 0 sec mq + matchedQuantity)]> mq)
           (set_orders os' c1))
  end.

(** *** The public operations *)

(** [addOrder].  [eager] stands for [USE_CACHED_MATCHING_AT_ADD_ORDER]. *)
Definition addOrder (eager : bool) (order : Order) (c : OrderCache)
    : OrderCache :=
  if exists_ c (orderId order) then c
  else
    let ptr : order_ptr := orderId order in
    let c1 := set_orders (order :: _orders c) c in
    let c2 := set_orderIndex
                (umap_insert (orderId order) ptr (_orderIndex c1)) c1 in
    let ui := touch ∅ (user order) (_userOrdersIndex c2) in
    let c3 := set_userOrdersIndex
                (<[user order := at_key ∅ (user order) ui ∪ {[orderId order]}]> ui)
                c2 in
    let si := touch ∅ (securityId order) (_securityOrdersIndex c3) in
    let c4 := set_securityOrdersIndex
                (<[securityId order :=
                     at_key ∅ (securityId order) si ∪ {[orderId order]}]> si)
                c3 in
    let c5 :=
      if isBuySide order
      then
        let li := touch [] (securityId order) (_securityLongOrdersIndex c4) in
        set_securityLongOrdersIndex
          (<[securityId order := at_key [] (securityId order) li ++ [ptr]]> li)
          c4
      else
        let shi := touch [] (securityId order) (_securityShortOrdersIndex c4) in
        set_securityShortOrdersIndex
          (<[securityId order := at_key [] (securityId order) shi ++ [ptr]]> shi)
          c4 in
    if eager then snd (matchOrderInCache ptr c5) else c5.

(** [cancelSingleOrder(orderId, minQty, lockOrder)]. *)
Definition cancelSingleOrder (id : string) (minQty : Z) (c : OrderCache)
    : OrderCache :=
  match _orderIndex c !! id with
  | None => c
  | Some ptr =>
    match deref (_orders c) ptr with
    | None => c
    | Some o =>
      if (0 <? minQty) && (qty o <? minQty) then c
      else
        let ui := touch ∅ (user o) (_userOrdersIndex c) in
        let c1 := set_userOrdersIndex
                    (<[user o := at_key ∅ (user o) ui ∖ {[id]}]> ui) c in
        let si := touch ∅ (securityId o) (_securityOrdersIndex c1) in
        let c2 := set_securityOrdersIndex
                    (<[securityId o := at_key ∅ (securityId o) si ∖ {[id]}]> si)
                    c1 in
        let pred := fun p : order_ptr => String.eqb p id in
        let c3 :=
          if isBuySide o
          then
            let li := touch [] (securityId o) (_securityLongOrdersIndex c2) in
            set_securityLongOrdersIndex
              (<[securityId o :=
                   erase_remove_if pred (at_key [] (securityId o) li)]> li) c2
          else
            let shi := touch [] (securityId o) (_securityShortOrdersIndex c2) in
            set_securityShortOrdersIndex
              (<[securityId o :=
                   erase_remove_if pred (at_key [] (securityId o) shi)]> shi) c2 in
        let c4 := set_orderIndex (delete id (_orderIndex c3)) c3 in
        set_orders (list_erase ptr (_orders c4)) c4
    end
  end.

(** [cancelOrder]: [cancelSingleOrder(orderId, false)], that is
    [minQty = 0]. *)
Definition cancelOrder (id : string) (c : OrderCache) : OrderCache :=
  cancelSingleOrder id 0 c.

(** The serial loop of [cancelOrders],
    [for (auto& orderId : orders) cancelSingleOrder(orderId, minQty, false);],
    over the ids in the iteration order of the set. *)
Definition cancelOrders_list (ids : list string) (minQty : Z)
    (c : OrderCache) : OrderCache :=
  foldl (fun acc id => cancelSingleOrder id minQty acc) c ids.

(** The chunk size that [cancelOrders] computes for [size] ids and
    [nthreads] threads:
    [(nthreads == 1 || size <= nthreads) ? size : 1 + ((size - 1) / nthreads)].
    With [nthreads = 0] and at least one id the division is by zero:
    [None]. *)
Definition cancelOrders_chunkSize (nthreads size : Z) : option Z :=
  if (nthreads =? 1) || (size <=? nthreads) then Some size
  else if nthreads =? 0 then None
  else Some (wrap32 (1 + wrap32 (size - 1) / nthreads)).

(** [cancelOrders].  [hardware_concurrency] is what
    [std::thread::hardware_concurrency()] returns on the machine, 0 when
    the number of threads is not known.  The function first computes
    [size = (unsigned int)orders.size()],
    [nthreads = _multiThread ? hardware_concurrency() : 1] and the chunk
    size; the call ends there ([None]) when that divides by zero.  Then
    the source forces [singleThreadDelete = true], so the ids are
    cancelled one after the other by the serial loop, in the iteration
    order of the set (here the order of [elements]). *)
Definition cancelOrders (hardware_concurrency : Z) (orders : gset string)
    (minQty : Z) (c : OrderCache) : option OrderCache :=
  let n := wrap32 (Z.of_nat (size orders)) in
  let nthreads := if _multiThread c then hardware_concurrency else 1 in
  match cancelOrders_chunkSize nthreads n with
  | None => None
  | Some _ => Some (cancelOrders_list (elements orders) minQty c)
  end.

(** [cancelOrdersForUser]. *)
Definition cancelOrdersForUser (hardware_concurrency : Z) (usr : string)
    (c : OrderCache) : option OrderCache :=
  match _userOrdersIndex c !! usr with
  | None => Some c
  | Some ordersKeys => cancelOrders hardware_concurrency ordersKeys 0 c
  end.

(** [cancelOrdersForSecIdWithMinimumQty]. *)
Definition cancelOrdersForSecIdWithMinimumQty (hardware_concurrency : Z)
    (sec : string) (minQty : Z) (c : OrderCache) : option OrderCache :=
  match _securityOrdersIndex c !! sec with
  | None => Some c
  | Some ordersKeys => cancelOrders hardware_concurrency ordersKeys minQty c
  end.

(** The serial loop of the lazy [getMatchingSizeForSecurity]:
    [for (order : _securityLongOrdersIndex[securityId])
       qty += matchOrderInCache(order, false);] with [int qty]. *)
Fixpoint lazy_loop (longs : list order_ptr) (qty_ : Z) (c : OrderCache)
    : Z * OrderCache :=
  match longs with
  | [] => (qty_, c)
  | order :: rest =>
    let '(m, c') := matchOrderInCache order c in
    lazy_loop rest (to_int (wrap32 (to_uint qty_ + m))) c'
  end.

(** [getMatchingSizeForSecurity].  With [eager] the value is read from
    the cache.  Without it the serial branch ([!_multiThread || size() < 2])
    runs [lazy_loop]; the other branch starts one thread per buy order and
    is outside this model: the result is [None] there. *)
Definition getMatchingSizeForSecurity (eager : bool) (sec : string)
    (c : OrderCache) : option (Z * OrderCache) :=
  match _securityOrdersIndex c !! sec with
  | None => Some (0, c)
  | Some _ =>
    if eager
    then Some (to_uint (to_int (getMatchedQuantityInCache c sec)), c)
    else if negb (_multiThread c) || (size_ c <? 2)%nat
    then
      let c1 := set_securityLongOrdersIndex
                  (touch [] sec (_securityLongOrdersIndex c)) c in
      let '(q, c2) :=
        lazy_loop (at_key [] sec (_securityLongOrdersIndex c1)) 0 c1 in
      Some (to_uint q, c2)
    else None
  end.

(** [getAllOrders]: [std::vector<Order>(_orders.cbegin(), _orders.cend())]. *)
Definition getAllOrders (c : OrderCache) : list Order := _orders c.

(** ** Sequences of calls *)

Definition add_all (eager : bool) (os : list Order) (c : OrderCache)
    : OrderCache :=
  foldl (fun acc o => addOrder eager o acc) c os.

Definition query (eager : bool) (sec : string) (c : OrderCache) : option Z :=
  fst <$> getMatchingSizeForSecurity eager sec c.

Inductive Op : Type :=
  | OpAdd (o : Order)
  | OpCancel (id : string)
  | OpCancelUser (usr : string)
  | OpCancelSec (sec : string) (minQty : Z)
  | OpQuery (sec : string).

(** One call; a query also yields its return value.  [None] when a
    batch cancel divides by zero in [cancelOrders], and when a lazy query
    takes the threaded branch, which is not modelled. *)
Definition step (hardware_concurrency : Z) (eager : bool) (op : Op)
    (c : OrderCache) : option (option Z * OrderCache) :=
  match op with
  | OpAdd o => Some (None, addOrder eager o c)
  | OpCancel id => Some (None, cancelOrder id c)
  | OpCancelUser u =>
    match cancelOrdersForUser hardware_concurrency u c with
    | Some c' => Some (None, c')
    | None => None
    end
  | OpCancelSec s m =>
    match cancelOrdersForSecIdWithMinimumQty hardware_concurrency s m c with
    | Some c' => Some (None, c')
    | None => None
    end
  | OpQuery s =>
    match getMatchingSizeForSecurity eager s c with
    | Some (v, c') => Some (Some v, c')
    | None => None
    end
  end.

(** A sequence of calls: the values returned by its queries, in order,
    and the final cache. *)
Fixpoint run (hardware_concurrency : Z) (eager : bool) (ops : list Op)
    (c : OrderCache) : option (list Z * OrderCache) :=
  match ops with
  | [] => Some ([], c)
  | op :: rest =>
    match step hardware_concurrency eager op c with
    | None => None
    | Some (out, c') =>
      match run hardware_concurrency eager rest c' with
      | None => None
      | Some (outs, c'') =>
        Some (match out with Some v => v :: outs | None => outs end, c'')
      end
    end
  end.

(** What a caller can require of the arguments of a call: an [Order]
    argument satisfies the class invariant, a threshold is an
    [unsigned int]. *)
Definition Op_ok (op : Op) : Prop :=
  match op with
  | OpAdd o => Order_ok o
  | OpCancelSec _ m => is_uint m
  | _ => True
  end.

(** ** Well-formed caches

    The representation invariant of [OrderCache]: what the empty cache
    satisfies and every operation keeps.  [_orders] is the authority; each
    index is determined by it. *)

Definition ids (os : list Order) : list string := List.map orderId os.

Definition on_side (buy : bool) (sec : string) (o : Order) : bool :=
  Bool.eqb (isBuySide o) buy && String.eqb (securityId o) sec.

(** The orders of one side of one security, oldest first ([_orders] has
    the newest order in front). *)
Definition side_list (buy : bool) (sec : string) (os : list Order)
    : list order_ptr :=
  rev (ids (List.filter (on_side buy sec) os)).

Record wf (c : OrderCache) : Prop := mk_wf {
  wf_nodup : NoDup (ids (_orders c));
  wf_ok : Forall Order_ok (_orders c);
  wf_index : forall i p,
    _orderIndex c !! i = Some p <-> p = i /\ In i (ids (_orders c));
  wf_user : forall u i,
    i ∈ at_key ∅ u (_userOrdersIndex c) <->
    exists o, In o (_orders c) /\ orderId o = i /\ user o = u;
  wf_sec : forall s i,
    i ∈ at_key ∅ s (_securityOrdersIndex c) <->
    exists o, In o (_orders c) /\ orderId o = i /\ securityId o = s;
  wf_long : forall s,
    at_key [] s (_securityLongOrdersIndex c) = side_list true s (_orders c);
  wf_short : forall s,
    at_key [] s (_securityShortOrdersIndex c) = side_list false s (_orders c);
  wf_matched : forall s v, _matchedQuantity c !! s = Some v -> is_uint v
}.

(** The fields of an order that never change after construction: the order
    with its working quantity blanked. *)
Definition static (o : Order) : Order := set_workingQty 0 o.

Definition statics (os : list Order) : list Order := List.map static os.

(** [x'] is [x] after some fills: same immutable fields, no more working
    lots than before. *)
Definition reduced (x x' : Order) : Prop :=
  static x' = static x /\ workingQty x' <= workingQty x.

(** Whether [cancelSingleOrder] with threshold [minQty] goes on to remove
    the order: the guard [minQty > 0 && ptr->qty() < minQty] is false. *)
Definition passes_minQty (minQty : Z) (o : Order) : bool :=
  negb ((0 <? minQty) && (qty o <? minQty)).

(** Whether the id of [o] is among [l]. *)
Definition in_ids (l : list string) (o : Order) : bool :=
  existsb (fun id => points_to id o) l.

(** [x] is a possible counterparty of [o]: same security, other side,
    another company. *)
Definition eligible (o x : Order) : bool :=
  on_side (negb (isBuySide o)) (securityId o) x &&
  negb (String.eqb (company o) (company x)).

(** ** The book of a call sequence

    The accepted and not yet cancelled orders that a sequence of calls
    describes, oldest first, computed apart from the cache. *)

Definition has_id (id : string) (b : list Order) : bool :=
  existsb (fun o => String.eqb (orderId o) id) b.

Definition book_step (op : Op) (b : list Order) : list Order :=
  match op with
  | OpAdd o => if has_id (orderId o) b then b else b ++ [o]
  | OpCancel id => List.filter (fun o => negb (String.eqb (orderId o) id)) b
  | OpCancelUser u => List.filter (fun o => negb (String.eqb (user o) u)) b
  | OpCancelSec s m =>
    List.filter (fun o => negb (String.eqb (securityId o) s && (m <=? qty o))) b
  | OpQuery _ => b
  end.

Definition book (ops : list Op) : list Order :=
  foldl (fun b op => book_step op b) [] ops.

(** The orders a sequence of [addOrder] calls leaves in the cache, newest
    first, as they were passed in. *)
Definition accept (acc : list Order) (o : Order) : list Order :=
  if has_id (orderId o) acc then acc else o :: acc.

Definition accepted (os : list Order) : list Order := foldl accept [] os.

(** ** The matcher in the words of the specification

    A second description of one matcher call, written from the
    specification (section 4.3) and not from the code, to be compared with
    [matchOrderInCache].  It works on a snapshot: the list [L] of the
    candidate records, the company [C] and the working quantity [w] of the
    subject order [O]. *)

(** [L]: the orders on the side opposite to [o] of [o]'s security, in
    insertion order. *)
Definition candidates (o : Order) (os : list Order) : list Order :=
  rev (List.filter (on_side (negb (isBuySide o)) (securityId o)) os).

(** The pairings of one call, in order: for each candidate [X], skip it if
    it is filled or of company [C]; otherwise take
    [m = min (O.working_qty, X.working_qty)], skip if [m = 0], else pair
    [m] lots; stop as soon as [O] is filled. *)
Fixpoint spec_scan (C : string) (w : Z) (L : list Order)
    : list (order_ptr * Z) :=
  match L with
  | [] => []
  | X :: rest =>
    if w =? 0 then []
    else if isFilled X || String.eqb (company X) C then spec_scan C w rest
    else
      let m := Z.min w (workingQty X) in
      if m =? 0 then spec_scan C w rest
      else (orderId X, m) :: spec_scan C (w - m) rest
  end.

(** The running match count: the sum of the paired amounts. *)
Definition spec_total (pairs : list (order_ptr * Z)) : Z :=
  foldr (fun p s => snd p + s) 0 pairs.

(** [fill(n)]: [working_qty := max(0, working_qty - n)]. *)
Definition spec_fill_order (n : Z) (o : Order) : Order :=
  set_workingQty (Z.max 0 (workingQty o - n)) o.

(** [O.fill(m); X.fill(m)] for each pairing. *)
Definition spec_fill (O : order_ptr) (pairs : list (order_ptr * Z))
    (os : list Order) : list Order :=
  foldl (fun acc p =>
           modify (fst p) (spec_fill_order (snd p))
             (modify O (spec_fill_order (snd p)) acc))
        os pairs.

(** ** Matching as a sequence of pairings

    One turn of the matcher's loop looks at a pair (subject, candidate).
    [trade_qty] is the quantity that turn moves, [trade] its effect on the
    store.  A call sequence then amounts to a list of pairings, each
    labelled with its security; eager and lazy matching differ only in the
    order of that list. *)

Definition trade_qty (x y : order_ptr) (st : list Order) : Z :=
  match deref st x, deref st y with
  | Some a, Some b =>
    if isFilled a || isFilled b || String.eqb (company a) (company b) then 0
    else Z.min (workingQty a) (workingQty b)
  | _, _ => 0
  end.

Definition trade (x y : order_ptr) (st : list Order) : list Order :=
  let q := trade_qty x y st in
  if q =? 0 then st else modify y (fillLots q) (modify x (fillLots q) st).

(** A pairing: security, subject, candidate. *)
Abbreviation pairing := (string * string * string)%type (only parsing).

(** One pairing, on a store and the lots matched so far for security
    [s]. *)
Definition step_pairing (s : string) (p : pairing) (a : list Order * Z)
    : list Order * Z :=
  let '(t, x, y) := p in
  (trade x y (fst a),
   if String.eqb t s then snd a + trade_qty x y (fst a) else snd a).

Definition run_pairings (s : string) (P : list pairing) (a : list Order * Z)
    : list Order * Z :=
  foldl (fun acc p => step_pairing s p acc) a P.

Definition against (t : string) (x : order_ptr) (ys : list order_ptr)
    : list pairing :=
  List.map (fun y => (t, x, y)) ys.

(** The pairings of eager matching, for a list of accepted orders given
    newest first: each order, when it arrives, against the older orders on
    the other side of its security, oldest first. *)
Fixpoint pairsE (os : list Order) : list pairing :=
  match os with
  | [] => []
  | o :: rest =>
    pairsE rest ++
    against (securityId o) (orderId o)
      (side_list (negb (isBuySide o)) (securityId o) rest)
  end.

(** The pairings of one lazy query of security [s]: each buy order, oldest
    first, against the sell orders, oldest first. *)
Definition pairsL (s : string) (os : list Order) : list pairing :=
  flat_map (fun b => against s b (side_list false s os)) (side_list true s os).

Definition label_is (s : string) (p : pairing) : bool :=
  String.eqb (fst (fst p)) s.

(** Two pairings that share no order. *)
Definition apart (p q : pairing) : Prop :=
  snd (fst p) <> snd (fst q) /\ snd (fst p) <> snd q /\
  snd p <> snd (fst q) /\ snd p <> snd q.

(** What eager matching has done after the accepted orders [os0] (newest
    first): the order list and, for every security, the cached count are
    those of the run of [pairsE os0]. *)
Definition eager_inv (c : OrderCache) (os0 : list Order) : Prop :=
  wf c /\ NoDup (ids os0) /\
  forall s,
    _orders c = fst (run_pairings s (pairsE os0) (os0, 0)) /\
    getMatchedQuantityInCache c s =
    wrap32 (snd (run_pairings s (pairsE os0) (os0, 0))).

(** Lazy mode before any query: the orders as passed in, threads off. *)
Definition lazy_inv (c : OrderCache) (os0 : list Order) : Prop :=
  wf c /\ _orders c = os0 /\ _multiThread c = false.

(** ** Orders and call sequences of the specification and of the tests *)

(** Scenario A of the specification (test U6 of the repository). *)
Definition scenarioA : list Order :=
  [ Order_new "OrdId1" "SecId1" "Buy" 1000 "User1" "CompanyA";
    Order_new "OrdId2" "SecId2" "Sell" 3000 "User2" "CompanyB";
    Order_new "OrdId3" "SecId1" "Sell" 500 "User3" "CompanyA";
    Order_new "OrdId4" "SecId2" "Buy" 600 "User4" "CompanyC";
    Order_new "OrdId5" "SecId2" "Buy" 100 "User5" "CompanyB";
    Order_new "OrdId6" "SecId3" "Buy" 1000 "User6" "CompanyD";
    Order_new "OrdId7" "SecId2" "Buy" 2000 "User7" "CompanyE";
    Order_new "OrdId8" "SecId2" "Sell" 5000 "User8" "CompanyE" ].

(** Scenarios B and C of the specification (tests U7 and U8), and the
    tests O2 and M2 of the repository. *)
Definition scenarioB : list Order :=
  [ Order_new "OrdId1" "SecId1" "Sell" 100 "User10" "Company2";
    Order_new "OrdId2" "SecId3" "Sell" 200 "User8" "Company2";
    Order_new "OrdId3" "SecId1" "Buy" 300 "User13" "Company2";
    Order_new "OrdId4" "SecId2" "Sell" 400 "User12" "Company2";
    Order_new "OrdId5" "SecId3" "Sell" 500 "User7" "Company2";
    Order_new "OrdId6" "SecId3" "Buy" 600 "User3" "Company1";
    Order_new "OrdId7" "SecId1" "Sell" 700 "User10" "Company2";
    Order_new "OrdId8" "SecId1" "Sell" 800 "User2" "Company1";
    Order_new "OrdId9" "SecId2" "Buy" 900 "User6" "Company2";
    Order_new "OrdId10" "SecId2" "Sell" 1000 "User5" "Company1";
    Order_new "OrdId11" "SecId1" "Sell" 1100 "User13" "Company2";
    Order_new "OrdId12" "SecId2" "Buy" 1200 "User9" "Company2";
    Order_new "OrdId13" "SecId1" "Sell" 1300 "User1" "Company1" ].

Definition scenarioC : list Order :=
  [ Order_new "OrdId1" "SecId3" "Sell" 100 "User1" "Company1";
    Order_new "OrdId2" "SecId3" "Sell" 200 "User3" "Company2";
    Order_new "OrdId3" "SecId1" "Buy" 300 "User2" "Company1";
    Order_new "OrdId4" "SecId3" "Sell" 400 "User5" "Company2";
    Order_new "OrdId5" "SecId2" "Sell" 500 "User2" "Company1";
    Order_new "OrdId6" "SecId2" "Buy" 600 "User3" "Company2";
    Order_new "OrdId7" "SecId2" "Sell" 700 "User1" "Company1";
    Order_new "OrdId8" "SecId1" "Sell" 800 "User2" "Company1";
    Order_new "OrdId9" "SecId1" "Buy" 900 "User5" "Company2";
    Order_new "OrdId10" "SecId1" "Sell" 1000 "User1" "Company1";
    Order_new "OrdId11" "SecId2" "Sell" 1100 "User6" "Company2" ].

(** Scenario F of the specification (test C2 of the repository). *)
Definition scenarioF : list Order :=
  [ Order_new "1" "SecId1" "Buy" 200 "User1" "Company1";
    Order_new "2" "SecId1" "Sell" 500 "User2" "Company1";
    Order_new "3" "SecId1" "Buy" 300 "User3" "Company2" ].

Definition testO2 : list Order :=
  [ Order_new "1" "SecId2" "Buy" 7000 "User1" "CompanyA";
    Order_new "2" "SecId2" "Sell" 3000 "User2" "CompanyB";
    Order_new "3" "SecId2" "Sell" 4000 "User3" "CompanyC";
    Order_new "4" "SecId2" "Buy" 500 "User4" "CompanyD";
    Order_new "5" "SecId2" "Sell" 500 "User5" "CompanyE" ].

Definition testM2 : list Order :=
  [ Order_new "1" "SecId2" "Buy" 6000 "User1" "CompanyA";
    Order_new "2" "SecId2" "Sell" 2000 "User2" "CompanyB";
    Order_new "3" "SecId2" "Sell" 3000 "User3" "CompanyC";
    Order_new "4" "SecId2" "Buy" 1000 "User4" "CompanyD";
    Order_new "5" "SecId2" "Sell" 1500 "User5" "CompanyE" ].

(** A call sequence with adds, a duplicate add, cancels and a query. *)
Definition sample_calls : list Op :=
  [ OpAdd (Order_new "1" "SecId1" "Buy" 200 "User1" "Company1");
    OpAdd (Order_new "2" "SecId1" "Sell" 500 "User2" "Company1");
    OpAdd (Order_new "3" "SecId1" "Buy" 300 "User3" "Company2");
    OpAdd (Order_new "2" "SecId2" "Buy" 10 "User1" "Company3");
    OpAdd (Order_new "4" "SecId2" "Sell" 40 "User1" "Company3");
    OpQuery "SecId1";
    OpCancel "2";
    OpAdd (Order_new "5" "SecId2" "Buy" 70 "User4" "Company4");
    OpCancelUser "User3" ].

(** Calls on which the two matching modes return different values: an
    order that has been matched is cancelled before the query; and, with
    threads off, the same security is queried twice. *)
Definition calls_with_cancel : list Op :=
  [ OpAdd (Order_new "B1" "SecId1" "Buy" 100 "User1" "CompanyA");
    OpAdd (Order_new "S1" "SecId1" "Sell" 100 "User2" "CompanyB");
    OpCancel "S1";
    OpQuery "SecId1" ].

Definition calls_with_two_queries : list Op :=
  [ OpAdd (Order_new "B1" "SecId1" "Buy" 100 "User1" "CompanyA");
    OpAdd (Order_new "S1" "SecId1" "Sell" 100 "User2" "CompanyB");
    OpQuery "SecId1";
    OpQuery "SecId1" ].


(** ** Further members, not needed by the matcher itself *)

(** [getOrder] (and [operator[]], which forwards to it):
    [return *_orderIndex.at(orderId);].  [at] throws [std::out_of_range]
    for a key that is not in the map; that is [None] here. *)
Definition getOrder (id : string) (c : OrderCache) : option Order :=
  match _orderIndex c !! id with
  | None => None
  | Some ptr => deref (_orders c) ptr
  end.

(** ** [utils::chunks]

    [chunks(begin, end, chunkSize, functor, maxChunks)] walks the range in
    steps of [chunkSize] and calls [functor(chunkBegin, chunkEnd)] on each
    step.  The range is a list, a call of [functor] is recorded as the
    sub-list between its two iterators, and the result is the list of the
    calls in order.  The [do ... while] loop is bounded by [fuel]; [None]
    when the fuel runs out, or when [chunkSize] is negative
    ([std::advance] then walks backwards from [begin]). *)
Fixpoint chunks_loop {A} (fuel : nat) (rest : list A)
    (chunkSize maxChunks counter : Z) : option (list (list A)) :=
  match fuel with
  | O => None
  | S fuel' =>
    if chunkSize <? 0 then None
    else
      let n := if Z.of_nat (length rest) <? chunkSize
               then length rest else Z.to_nat chunkSize in
      let chunk := take n rest in
      let rest' := drop n rest in
      if (0 <? Z.of_nat (length rest')) && (counter <? maxChunks)
      then option_map (cons chunk)
             (chunks_loop fuel' rest' chunkSize maxChunks (wrap32 (counter + 1)))
      else Some [chunk]
  end.

Definition UINT_MAX : Z := 4294967295.

Definition chunks {A} (fuel : nat) (l : list A) (chunkSize maxChunks : Z)
    : option (list (list A)) :=
  chunks_loop fuel l chunkSize maxChunks 1.

(** ** Totals over one side of one security *)

Definition sum_on (f : Order -> Z) (buy : bool) (sec : string)
    (os : list Order) : Z :=
  foldr (fun o acc => f o + acc) 0 (List.filter (on_side buy sec) os).

(** ** Comparing caches *)

(** Two caches whose index maps have the same keys.  (The ids stored under
    a key are determined by the order list in a well-formed cache; which
    keys are present is not, as [cancelSingleOrder] leaves keys behind.) *)
Definition same_keys (c c' : OrderCache) : Prop :=
  (forall k, is_Some (_userOrdersIndex c' !! k) <->
             is_Some (_userOrdersIndex c !! k)) /\
  (forall k, is_Some (_securityOrdersIndex c' !! k) <->
             is_Some (_securityOrdersIndex c !! k)) /\
  (forall k, is_Some (_securityLongOrdersIndex c' !! k) <->
             is_Some (_securityLongOrdersIndex c !! k)) /\
  (forall k, is_Some (_securityShortOrdersIndex c' !! k) <->
             is_Some (_securityShortOrdersIndex c !! k)).

(** The three cancelling calls, and the orders each of them leaves in the
    cache. *)
Definition is_cancel (op : Op) : bool :=
  match op with
  | OpCancel _ | OpCancelUser _ | OpCancelSec _ _ => true
  | _ => false
  end.

Definition survives (op : Op) (o : Order) : bool :=
  match op with
  | OpCancel id => negb (String.eqb (orderId o) id)
  | OpCancelUser u => negb (String.eqb (user o) u)
  | OpCancelSec s m => negb (String.eqb (securityId o) s && (m <=? qty o))
  | _ => true
  end.

(** ** Orders that could still trade *)

(** [x] and [y] are on opposite sides of one security, belong to
    different companies, and both still have working lots: the matcher
    would pair them if it looked at them now. *)
Definition can_trade (x y : Order) : bool :=
  eligible x y && negb (isFilled x) && negb (isFilled y).

(** No two orders of security [s] in the list could still trade. *)
Definition settled_for (s : string) (os : list Order) : Prop :=
  forall x y, In x os -> In y os -> securityId x = s -> can_trade x y = false.

Definition settled (os : list Order) : Prop :=
  forall x y, In x os -> In y os -> can_trade x y = false.

(** The working lots that the possible counterparties of [o] in the list
    still offer. *)
Definition lots_available (o : Order) (os : list Order) : Z :=
  foldr (fun y acc => workingQty y + acc) 0 (List.filter (eligible o) os).

(** ** The extended interface

    With [EXTENDED_INTERFACE] defined the matcher keeps a log of the
    pairs it fills, [_orderMatches], read by [getAllOrderMatches] and
    [getOrderMatchesBySecurity].  The header ships with the macro
    undefined; this section models the code as it is compiled when the
    macro is defined, next to the shipped configuration above. *)

(** class OrderFill *)
Record OrderFill := mkOrderFill {
  buyOrderId : string;
  sellOrderId : string;
  fill_qty : Z
}.

(** An [OrderCache] together with its [_orderMatches] list. *)
Record OrderCacheX := mkOrderCacheX {
  base : OrderCache;
  _orderMatches : list OrderFill
}.

Definition empty_cache_x : OrderCacheX := mkOrderCacheX empty_cache [].

(** The loop of [matchOrderInCache] with the block under
    [#ifdef EXTENDED_INTERFACE]: after the two [fillLots] calls and
    [matchedQuantity += qty], an [OrderFill] with the buy order first is
    pushed to the back of [_orderMatches]. *)
Fixpoint match_loop_x (order : order_ptr) (counterParties : list order_ptr)
    (os : list Order) (matchedQuantity : Z) (isBuy : bool)
    (log : list OrderFill) : list Order * Z * list OrderFill :=
  match counterParties with
  | [] => (os, matchedQuantity, log)
  | counterPartyOrder :: rest =>
    match deref os order, deref os counterPartyOrder with
    | Some o, Some cp =>
      if isFilled cp || String.eqb (company o) (company cp)
      then match_loop_x order rest os matchedQuantity isBuy log
      else
        let q := Z.min (workingQty o) (workingQty cp) in
        if q =? 0 then match_loop_x order rest os matchedQuantity isBuy log
        else
          let os1 := modify order (fillLots q) os in
          let os2 := modify counterPartyOrder (fillLots q) os1 in
          let matched' := wrap32 (matchedQuantity + q) in
          let filledOrder :=
            if isBuy then mkOrderFill (orderId o) (orderId cp) q
            else mkOrderFill (orderId cp) (orderId o) q in
          let log' := log ++ [filledOrder] in
          match deref os2 order with
          | Some o' =>
            if isFilled o' then (os2, matched', log')
            else match_loop_x order rest os2 matched' isBuy log'
          | None => (os2, matched', log')
          end
    | _, _ => (os, matchedQuantity, log)
    end
  end.

Definition matchOrderInCache_x (order : order_ptr) (cx : OrderCacheX)
    : Z * OrderCacheX :=
  let c := base cx in
  match deref (_orders c) order with
  | None => (0, cx)
  | Some o =>
    if isFilled o then (0, cx)
    else
      let isBuy := isBuySide o in
      let sec := securityId o in
      let c1 :=
        if isBuy
        then set_securityShortOrdersIndex
               (touch [] sec (_securityShortOrdersIndex c)) c
        else set_securityLongOrdersIndex
               (touch [] sec (_securityLongOrdersIndex c)) c in
      let counterParties :=
        if isBuy then at_key [] sec (_securityShortOrdersIndex c1)
        else at_key [] sec (_securityLongOrdersIndex c1) in
      if (length counterParties =? 0)%nat
      then (0, mkOrderCacheX c1 (_orderMatches cx))
      else
        let '(os', matchedQuantity, log') :=
          match_loop_x order counterParties (_orders c1) 0 isBuy
            (_orderMatches cx) in
        let mq := touch 0 sec (_matchedQuantity c1) in
        (matchedQuantity,
         mkOrderCacheX
           (set_matchedQuantity
              (<[sec := wrap32 (at_key 0 sec mq + matchedQuantity)]> mq)
              (set_orders os' c1))
           log')
  end.

(** [addOrder] with both [USE_CACHED_MATCHING_AT_ADD_ORDER] and
    [EXTENDED_INTERFACE]: the order is stored and indexed as without
    matching ([addOrder false]), then matched. *)
Definition addOrder_x (order : Order) (cx : OrderCacheX) : OrderCacheX :=
  if exists_ (base cx) (orderId order) then cx
  else snd (matchOrderInCache_x (orderId order)
              (mkOrderCacheX (addOrder false order (base cx))
                 (_orderMatches cx))).

Definition add_all_x (os : list Order) (cx : OrderCacheX) : OrderCacheX :=
  foldl (fun acc o => addOrder_x o acc) cx os.

(** [getAllOrderMatches]:
    [std::vector<OrderFill>(_orderMatches.cbegin(), _orderMatches.cend())]. *)
Definition getAllOrderMatches (cx : OrderCacheX) : list OrderFill :=
  _orderMatches cx.

(** [getOrderMatchesBySecurity]: empty for a security without an index
    entry and when matching is not done at insertion; otherwise the
    whole of [_orderMatches]. *)
Definition getOrderMatchesBySecurity (eager : bool) (sec : string)
    (cx : OrderCacheX) : list OrderFill :=
  match _securityOrdersIndex (base cx) !! sec with
  | None => []
  | Some _ => if eager then _orderMatches cx else []
  end.

(** Whether a fill names the order [p], and the lots of the fills of a
    log that name it. *)
Definition names (p : string) (f : OrderFill) : bool :=
  String.eqb (buyOrderId f) p || String.eqb (sellOrderId f) p.

Definition filled_by (p : string) (log : list OrderFill) : Z :=
  foldr (fun f acc => fill_qty f + acc) 0 (List.filter (names p) log).
(** * Proofs *)

(** ** Machine integers *)

Lemma wrap32_small z : is_uint z -> wrap32 z = z.
Proof. intros H. apply Z.mod_small. exact H. Qed.

Lemma wrap32_uint z : is_uint (wrap32 z).
Proof. unfold is_uint, wrap32, UINT_MODULUS. apply Z.mod_pos_bound. lia. Qed.

Lemma to_uint_to_int z : is_uint z -> to_uint (to_int z) = z.
Proof.
  unfold is_uint, to_uint, to_int, wrap32, UINT_MODULUS. intros H.
  destruct (Z.ltb_spec z 2147483648).
  - apply Z.mod_small. lia.
  - replace (z - 4294967296) with (z + (-1) * 4294967296) by lia.
    rewrite Z.mod_add by lia. apply Z.mod_small. lia.
Qed.

(** ** Nodes and iterators *)

Lemma points_to_true p o : points_to p o = true <-> orderId o = p.
Proof. apply String.eqb_eq. Qed.

Lemma points_to_false p o : points_to p o = false <-> orderId o <> p.
Proof. apply String.eqb_neq. Qed.

Lemma deref_Some os p o :
  deref os p = Some o -> In o os /\ orderId o = p.
Proof.
  unfold deref. intros H. apply find_some in H as [Hin Hp].
  split; [exact Hin | now apply points_to_true].
Qed.

Lemma deref_None os p : deref os p = None <-> ~ In p (ids os).
Proof.
  unfold deref, ids. induction os as [|o os IH]; simpl.
  - tauto.
  - destruct (points_to p o) eqn:E.
    + apply points_to_true in E. split; [discriminate | intros H; exfalso; auto].
    + apply points_to_false in E. rewrite IH. tauto.
Qed.

Lemma deref_In os o :
  NoDup (ids os) -> In o os -> deref os (orderId o) = Some o.
Proof.
  unfold deref, ids. induction os as [|x os IH]; simpl; [tauto|].
  intros Hnd [->|Hin].
  - now rewrite (proj2 (points_to_true _ _) eq_refl).
  - apply NoDup_cons in Hnd as [Hx Hnd].
    destruct (points_to (orderId o) x) eqn:E.
    + apply points_to_true in E. exfalso. apply Hx.
      rewrite E. apply list_elem_of_In. now apply in_map.
    + auto.
Qed.

Lemma deref_is_Some os p : In p (ids os) -> is_Some (deref os p).
Proof.
  intros H. destruct (deref os p) eqn:E; [eauto|].
  now apply deref_None in E.
Qed.

Lemma ids_modify p f os :
  (forall o, orderId (f o) = orderId o) -> ids (modify p f os) = ids os.
Proof.
  intros Hf. unfold ids, modify. rewrite List.map_map.
  apply List.map_ext. intros o. destruct (points_to p o); auto.
Qed.

Lemma list_erase_filter p os :
  NoDup (ids os) ->
  list_erase p os = List.filter (fun o => negb (points_to p o)) os.
Proof.
  induction os as [|o os IH]; simpl; [reflexivity|].
  intros Hnd. apply NoDup_cons in Hnd as [Ho Hnd].
  destruct (points_to p o) eqn:E; simpl.
  - apply points_to_true in E. subst p.
    clear IH. induction os as [|x os IH]; simpl; [reflexivity|].
    simpl in Ho. apply not_elem_of_cons in Ho as [Hne Ho].
    apply NoDup_cons in Hnd as [_ Hnd].
    rewrite (proj2 (points_to_false (orderId o) x)) by congruence.
    simpl. f_equal. auto.
  - f_equal. auto.
Qed.

(** ** [erase(remove_if(...))] with exactly one match is a filter *)

Lemma filter_none {A} (f : A -> bool) (l : list A) :
  (forall x, In x l -> f x = true) -> List.filter f l = l.
Proof.
  induction l as [|x l IH]; simpl; intros H; [reflexivity|].
  rewrite (H x) by auto. f_equal. auto.
Qed.

Lemma erase_remove_if_split {A} (pred : A -> bool) l1 x l2 :
  (forall y, In y l1 -> pred y = false) ->
  (forall y, In y l2 -> pred y = false) ->
  pred x = true ->
  erase_remove_if pred (l1 ++ x :: l2) = l1 ++ l2.
Proof.
  intros H1 H2 Hx. unfold erase_remove_if, remove_if, erase_at.
  rewrite List.filter_app. simpl. rewrite Hx. simpl.
  rewrite (filter_none _ l1) by (intros y Hy; now rewrite H1).
  rewrite (filter_none _ l2) by (intros y Hy; now rewrite H2).
  set (k := l1 ++ l2).
  assert (Hlen : length (l1 ++ x :: l2) = S (length k)).
  { unfold k. rewrite !length_app. simpl. lia. }
  rewrite take_app_length.
  rewrite drop_app_ge by lia.
  rewrite drop_ge.
  - rewrite app_nil_r. reflexivity.
  - rewrite length_drop. lia.
Qed.

Lemma erase_remove_if_unique (x : string) (l : list string) :
  NoDup l -> In x l ->
  erase_remove_if (fun p => String.eqb p x) l =
  List.filter (fun p => negb (String.eqb p x)) l.
Proof.
  intros Hnd Hin. apply list_elem_of_In, list_elem_of_split in Hin
    as (l1 & l2 & ->).
  apply NoDup_app in Hnd as (Hnd1 & Hdisj & Hnd2).
  apply NoDup_cons in Hnd2 as [Hx2 _].
  assert (H1 : forall y, In y l1 -> String.eqb y x = false).
  { intros y Hy. apply String.eqb_neq. intros ->.
    apply (Hdisj x); [now apply list_elem_of_In | left]. }
  assert (H2 : forall y, In y l2 -> String.eqb y x = false).
  { intros y Hy. apply String.eqb_neq. intros ->.
    apply Hx2. now apply list_elem_of_In. }
  rewrite erase_remove_if_split; auto using String.eqb_refl.
  rewrite List.filter_app. simpl. rewrite String.eqb_refl. simpl.
  rewrite (filter_none _ l1) by (intros y Hy; now rewrite H1).
  rewrite (filter_none _ l2) by (intros y Hy; now rewrite H2).
  reflexivity.
Qed.

(** ** Map entries reached through [operator[]] *)

Lemma at_key_touch {V} (d : V) k k' (m : gmap string V) :
  at_key d k' (touch d k m) = at_key d k' m.
Proof.
  unfold at_key, touch. destruct (m !! k) eqn:E; [reflexivity|].
  destruct (decide (k = k')) as [<-|Hne].
  - now rewrite lookup_insert_eq, E.
  - now rewrite lookup_insert_ne.
Qed.

Lemma at_key_insert {V} (d : V) k k' v (m : gmap string V) :
  at_key d k' (<[k := v]> m) = if decide (k = k') then v else at_key d k' m.
Proof.
  unfold at_key. destruct (decide (k = k')) as [<-|Hne].
  - now rewrite lookup_insert_eq.
  - now rewrite lookup_insert_ne.
Qed.

Lemma at_key_insert_touch {V} (d : V) k k' v (m : gmap string V) :
  at_key d k' (<[k := v]> (touch d k m)) =
  if decide (k = k') then v else at_key d k' m.
Proof.
  rewrite at_key_insert. destruct (decide (k = k')); [reflexivity|].
  apply at_key_touch.
Qed.

Lemma touch_is_Some {V} (d : V) k (m : gmap string V) :
  is_Some (touch d k m !! k).
Proof.
  unfold touch. destruct (m !! k) eqn:E; [eauto|].
  rewrite lookup_insert_eq. eauto.
Qed.

Lemma touch_lookup_ne {V} (d : V) k k' (m : gmap string V) :
  k <> k' -> touch d k m !! k' = m !! k'.
Proof.
  intros Hne. unfold touch. destruct (m !! k); [reflexivity|].
  now rewrite lookup_insert_ne.
Qed.

(** ** The immutable part of the store *)

Lemma static_fillLots q o : static (fillLots q o) = static o.
Proof. unfold fillLots. destruct (q <? workingQty o); reflexivity. Qed.

Lemma orderId_fillLots q o : orderId (fillLots q o) = orderId o.
Proof. unfold fillLots. destruct (q <? workingQty o); reflexivity. Qed.

Create HintDb node_db.

#[export] Hint Resolve orderId_fillLots : node_db.

Lemma statics_modify p q os :
  statics (modify p (fillLots q) os) = statics os.
Proof.
  unfold statics, modify. rewrite List.map_map. apply List.map_ext.
  intros o. destruct (points_to p o); [apply static_fillLots | reflexivity].
Qed.

Lemma ids_statics os : ids (statics os) = ids os.
Proof. unfold ids, statics. rewrite List.map_map. reflexivity. Qed.

Lemma statics_ids os os' : statics os = statics os' -> ids os = ids os'.
Proof. intros H. rewrite <- (ids_statics os), H. apply ids_statics. Qed.

Lemma on_side_static b s o : on_side b s (static o) = on_side b s o.
Proof. reflexivity. Qed.

Lemma filter_statics (f : Order -> bool) os :
  (forall o, f (static o) = f o) ->
  List.filter f (statics os) = statics (List.filter f os).
Proof.
  intros Hf. induction os as [|o os IH]; simpl; [reflexivity|].
  rewrite Hf. destruct (f o); simpl; now rewrite IH.
Qed.

Lemma side_list_statics b s os : side_list b s (statics os) = side_list b s os.
Proof.
  unfold side_list. rewrite filter_statics by apply on_side_static.
  now rewrite ids_statics.
Qed.

Lemma side_list_statics_eq b s os os' :
  statics os = statics os' -> side_list b s os = side_list b s os'.
Proof.
  intros H. rewrite <- (side_list_statics b s os), H. apply side_list_statics.
Qed.

Lemma In_statics (P : Order -> Prop) os :
  (forall o, P (static o) <-> P o) ->
  (exists o, In o os /\ P o) <-> (exists o, In o (statics os) /\ P o).
Proof.
  intros HP. unfold statics. split.
  - intros (o & Hin & Ho). exists (static o). split; [now apply in_map|].
    now apply HP.
  - intros (o & Hin & Ho). apply in_map_iff in Hin as (o' & <- & Hin).
    exists o'. split; [assumption | now apply HP].
Qed.

Lemma In_statics_eq (P : Order -> Prop) os os' :
  (forall o, P (static o) <-> P o) -> statics os = statics os' ->
  (exists o, In o os /\ P o) <-> (exists o, In o os' /\ P o).
Proof.
  intros HP H. rewrite (In_statics P os), (In_statics P os') by assumption.
  now rewrite H.
Qed.

(** ** The class invariant of [Order] *)

Lemma Order_new_ok i s sd q u cp : is_uint q -> Order_ok (Order_new i s sd q u cp).
Proof. unfold is_uint, Order_ok. simpl. lia. Qed.

Lemma fillLots_workingQty n o :
  Order_ok o -> 0 <= n ->
  workingQty (fillLots n o) = Z.max 0 (workingQty o - n).
Proof.
  unfold Order_ok, fillLots. intros [Hw Hq] Hn.
  destruct (Z.ltb_spec n (workingQty o)); simpl.
  - rewrite wrap32_small by (unfold is_uint; lia). lia.
  - lia.
Qed.

Lemma fillLots_ok n o : Order_ok o -> 0 <= n -> Order_ok (fillLots n o).
Proof.
  intros Hok Hn. pose proof (fillLots_workingQty n o Hok Hn) as Hw.
  unfold Order_ok in *.
  replace (qty (fillLots n o)) with (qty o)
    by (unfold fillLots; destruct (n <? workingQty o); reflexivity).
  lia.
Qed.

Lemma unfillLots_ok n o : Order_ok o -> Order_ok (unfillLots n o).
Proof.
  unfold Order_ok, unfillLots. intros [Hw Hq].
  pose proof (wrap32_uint (workingQty o + n)) as Hu. unfold is_uint in Hu.
  destruct (Z.ltb_spec (qty o) (wrap32 (workingQty o + n))); simpl; lia.
Qed.

Lemma resetFills_ok o : Order_ok o -> Order_ok (resetFills o).
Proof. unfold Order_ok, resetFills. simpl. lia. Qed.

Lemma modify_ok p f os :
  (forall o, Order_ok o -> Order_ok (f o)) ->
  Forall Order_ok os -> Forall Order_ok (modify p f os).
Proof.
  intros Hf H. unfold modify. apply Forall_forall. intros x Hx.
  apply list_elem_of_In, in_map_iff in Hx as (o & <- & Hin).
  rewrite Forall_forall in H. specialize (H o (proj2 (list_elem_of_In _ _) Hin)).
  destruct (points_to p o); auto.
Qed.

(** Filling nodes keeps the class invariant of every node. *)
Ltac fills_ok :=
  repeat (apply modify_ok;
          [intros; apply fillLots_ok; [assumption | lia] |]);
  try assumption.

Lemma deref_ok os p o : Forall Order_ok os -> deref os p = Some o -> Order_ok o.
Proof.
  intros H Hd. apply deref_Some in Hd as [Hin _].
  rewrite Forall_forall in H. apply H. now apply list_elem_of_In.
Qed.

(** ** The matcher only changes working quantities *)

Lemma match_loop_statics order cps : forall os m,
  statics (fst (match_loop order cps os m)) = statics os.
Proof.
  induction cps as [|cp rest IH]; intros os m; simpl; [reflexivity|].
  destruct (deref os order) as [o|]; [|reflexivity].
  destruct (deref os cp) as [c|]; [|reflexivity].
  destruct (isFilled c || String.eqb (company o) (company c)); [apply IH|].
  destruct (Z.min (workingQty o) (workingQty c) =? 0); [apply IH|].
  set (os2 := modify cp _ (modify order _ os)).
  assert (H2 : statics os2 = statics os)
    by (unfold os2; now rewrite !statics_modify).
  destruct (deref os2 order) as [o'|]; [|exact H2].
  destruct (isFilled o'); [exact H2|]. now rewrite IH.
Qed.

Lemma match_loop_ok order cps : forall os m,
  Forall Order_ok os -> Forall Order_ok (fst (match_loop order cps os m)).
Proof.
  induction cps as [|cp rest IH]; intros os m Hok; simpl; [assumption|].
  destruct (deref os order) as [o|] eqn:Eo; [|assumption].
  destruct (deref os cp) as [c|] eqn:Ec; [|assumption].
  destruct (isFilled c || String.eqb (company o) (company c)); [now apply IH|].
  destruct (Z.min (workingQty o) (workingQty c) =? 0); [now apply IH|].
  set (os2 := modify cp _ (modify order _ os)).
  assert (H2 : Forall Order_ok os2).
  { pose proof (deref_ok _ _ _ Hok Eo) as [Ho _].
    pose proof (deref_ok _ _ _ Hok Ec) as [Hc _].
    unfold os2. fills_ok. }
  destruct (deref os2 order) as [o'|]; [|exact H2].
  destruct (isFilled o'); [exact H2|]. now apply IH.
Qed.

(** ** The invariant holds initially and is kept by every operation *)

Lemma wf_empty : wf empty_cache.
Proof.
  split; simpl.
  - constructor.
  - constructor.
  - intros i p. rewrite lookup_empty. split; [discriminate | intros [_ []]].
  - intros u i. unfold at_key. rewrite lookup_empty. simpl. split.
    + intros H. now apply not_elem_of_empty in H.
    + intros (o & [] & _).
  - intros u i. unfold at_key. rewrite lookup_empty. simpl. split.
    + intros H. now apply not_elem_of_empty in H.
    + intros (o & [] & _).
  - intros s. unfold at_key. now rewrite lookup_empty.
  - intros s. unfold at_key. now rewrite lookup_empty.
  - intros s v. rewrite lookup_empty. discriminate.
Qed.

Lemma wf_set_orders c os' :
  wf c -> statics os' = statics (_orders c) -> Forall Order_ok os' ->
  wf (set_orders os' c).
Proof.
  intros [Hnd Hok Hidx Hu Hs Hl Hsh Hm] Hst Hok'.
  pose proof (statics_ids _ _ Hst) as Hids.
  split; simpl.
  - now rewrite Hids.
  - assumption.
  - intros i p. now rewrite Hids.
  - intros u i. rewrite Hu.
    symmetry. apply (In_statics_eq (fun o => orderId o = i /\ user o = u));
      [intros o; reflexivity | assumption].
  - intros s i. rewrite Hs.
    symmetry.
    apply (In_statics_eq (fun o => orderId o = i /\ securityId o = s));
      [intros o; reflexivity | assumption].
  - intros s. rewrite Hl. symmetry. now apply side_list_statics_eq.
  - intros s. rewrite Hsh. symmetry. now apply side_list_statics_eq.
  - assumption.
Qed.

Lemma wf_touch_long c s :
  wf c ->
  wf (set_securityLongOrdersIndex (touch [] s (_securityLongOrdersIndex c)) c).
Proof.
  intros [Hnd Hok Hidx Hu Hs Hl Hsh Hm]. split; simpl; try assumption.
  intros s'. now rewrite at_key_touch.
Qed.

Lemma wf_touch_short c s :
  wf c ->
  wf (set_securityShortOrdersIndex (touch [] s (_securityShortOrdersIndex c)) c).
Proof.
  intros [Hnd Hok Hidx Hu Hs Hl Hsh Hm]. split; simpl; try assumption.
  intros s'. now rewrite at_key_touch.
Qed.

Lemma wf_set_matched c mq :
  wf c -> (forall s v, mq !! s = Some v -> is_uint v) ->
  wf (set_matchedQuantity mq c).
Proof.
  intros [Hnd Hok Hidx Hu Hs Hl Hsh Hm] H. split; simpl; assumption.
Qed.

Lemma matched_insert_uint s z (mq : gmap string Z) :
  (forall k v, mq !! k = Some v -> is_uint v) ->
  forall k v, <[s := wrap32 z]> (touch 0 s mq) !! k = Some v -> is_uint v.
Proof.
  intros H k v. destruct (decide (s = k)) as [<-|Hne].
  - rewrite lookup_insert_eq. intros [= <-]. apply wrap32_uint.
  - rewrite lookup_insert_ne, touch_lookup_ne by assumption. apply H.
Qed.

Lemma matchOrderInCache_wf order c :
  wf c -> wf (snd (matchOrderInCache order c)).
Proof.
  intros Hwf. unfold matchOrderInCache.
  destruct (deref (_orders c) order) as [o|]; [|assumption].
  destruct (isFilled o); [assumption|].
  set (c1 := if isBuySide o then set_securityShortOrdersIndex _ c else _).
  assert (Hwf1 : wf c1).
  { unfold c1. destruct (isBuySide o);
      [now apply wf_touch_short | now apply wf_touch_long]. }
  clearbody c1.
  destruct (length _ =? 0)%nat; [assumption|].
  destruct (match_loop _ _ _ _) as [os' m] eqn:E. simpl.
  apply wf_set_matched.
  - apply wf_set_orders; [assumption| |].
    + change os' with (fst (os', m)). rewrite <- E. apply match_loop_statics.
    + change os' with (fst (os', m)). rewrite <- E.
      apply match_loop_ok, Hwf1.
  - apply matched_insert_uint. apply Hwf1.
Qed.

Lemma exists_false c i :
  wf c -> exists_ c i = false <-> ~ In i (ids (_orders c)).
Proof.
  intros Hwf. unfold exists_. rewrite bool_decide_eq_false. split.
  - intros H Hin. apply H. exists i. now apply (wf_index c Hwf).
  - intros H [p Hp]. apply (wf_index c Hwf) in Hp as [_ Hin]. auto.
Qed.

Lemma exists_true c i :
  wf c -> exists_ c i = true <-> In i (ids (_orders c)).
Proof.
  intros Hwf. unfold exists_. rewrite bool_decide_eq_true. split.
  - intros [p Hp]. now apply (wf_index c Hwf) in Hp as [_ Hin].
  - intros Hin. exists i. now apply (wf_index c Hwf).
Qed.

Lemma side_list_cons b s o os :
  side_list b s (o :: os) =
  if on_side b s o then side_list b s os ++ [orderId o] else side_list b s os.
Proof. unfold side_list. simpl. destruct (on_side b s o); reflexivity. Qed.

Lemma on_side_true b s o :
  on_side b s o = true <-> isBuySide o = b /\ securityId o = s.
Proof.
  unfold on_side. rewrite andb_true_iff, Bool.eqb_true_iff, String.eqb_eq.
  tauto.
Qed.

Lemma index_add_spec (proj : Order -> string) o os
    (m : gmap string (gset string)) :
  (forall u i, i ∈ at_key ∅ u m <->
     exists x, In x os /\ orderId x = i /\ proj x = u) ->
  forall u i,
    i ∈ at_key ∅ u
          (<[proj o := at_key ∅ (proj o) (touch ∅ (proj o) m) ∪ {[orderId o]}]>
             (touch ∅ (proj o) m)) <->
    exists x, In x (o :: os) /\ orderId x = i /\ proj x = u.
Proof.
  intros H u i. rewrite at_key_insert_touch, at_key_touch.
  destruct (decide (proj o = u)) as [<-|Hne].
  - rewrite elem_of_union, elem_of_singleton, H. split.
    + intros [(x & Hx & Hi & Hux)|Hi].
      * exists x. simpl. auto.
      * exists o. simpl. auto.
    + intros (x & [<-|Hx] & Hi & Hux); [now right|]. left. eauto.
  - rewrite H. split.
    + intros (x & Hx & Hi & Hux). exists x. simpl. auto.
    + intros (x & [<-|Hx] & Hi & Hux); [contradiction|]. eauto.
Qed.

Lemma side_add_spec b o os (m : gmap string (list order_ptr)) :
  isBuySide o = b ->
  (forall s, at_key [] s m = side_list b s os) ->
  forall s,
    at_key [] s
      (<[securityId o :=
           at_key [] (securityId o) (touch [] (securityId o) m) ++ [orderId o]]>
         (touch [] (securityId o) m)) =
    side_list b s (o :: os).
Proof.
  intros Hb H s. rewrite at_key_insert_touch, at_key_touch, side_list_cons.
  destruct (decide (securityId o = s)) as [<-|Hne].
  - rewrite (proj2 (on_side_true b _ o)) by auto. now rewrite H.
  - destruct (on_side b s o) eqn:E; [|apply H].
    apply on_side_true in E as [_ E]. contradiction.
Qed.

Lemma side_add_other b o os s :
  isBuySide o <> b -> side_list b s (o :: os) = side_list b s os.
Proof.
  intros Hb. rewrite side_list_cons.
  destruct (on_side b s o) eqn:E; [|reflexivity].
  apply on_side_true in E as [E _]. contradiction.
Qed.

(** The indexing part of [addOrder], before any matching. *)
Lemma addOrder_lazy_wf o c :
  wf c -> Order_ok o -> wf (addOrder false o c).
Proof.
  intros Hwf Hoo. unfold addOrder.
  destruct (exists_ c (orderId o)) eqn:Ex; [assumption|].
  apply (exists_false c _ Hwf) in Ex.
  destruct Hwf as [Hnd Hok Hidx Hu Hs Hl Hsh Hm].
  assert (Hnone : _orderIndex c !! orderId o = None).
  { destruct (_orderIndex c !! orderId o) eqn:E; [|reflexivity].
    apply Hidx in E as [_ E]. contradiction. }
  assert (Hidx' : forall i p,
    umap_insert (orderId o) (orderId o) (_orderIndex c) !! i = Some p <->
    p = i /\ In i (ids (o :: _orders c))).
  { intros i p. unfold umap_insert. rewrite Hnone.
    destruct (decide (orderId o = i)) as [<-|Hne].
    - rewrite lookup_insert_eq. simpl. split.
      + intros [= <-]. auto.
      + intros [-> _]. reflexivity.
    - rewrite lookup_insert_ne by assumption. rewrite Hidx. simpl. split.
      + intros [-> H]. auto.
      + intros [-> [H|H]]; [contradiction|auto]. }
  assert (Hnd' : NoDup (ids (o :: _orders c))).
  { simpl. apply NoDup_cons. split; [now rewrite list_elem_of_In | assumption]. }
  destruct (isBuySide o) eqn:Eb; split; simpl; try assumption.
  all: try (constructor; assumption).
  all: try (apply (index_add_spec user); assumption).
  all: try (apply (index_add_spec securityId); assumption).
  - now apply side_add_spec.
  - intros s. rewrite side_add_other by congruence. apply Hsh.
  - intros s. rewrite side_add_other by congruence. apply Hl.
  - now apply side_add_spec.
Qed.

Lemma addOrder_eager_lazy o c :
  addOrder true o c =
  if exists_ c (orderId o) then c
  else snd (matchOrderInCache (orderId o) (addOrder false o c)).
Proof. unfold addOrder. destruct (exists_ c (orderId o)); reflexivity. Qed.

Lemma addOrder_wf eager o c :
  wf c -> Order_ok o -> wf (addOrder eager o c).
Proof.
  intros Hwf Hoo. destruct eager; [|now apply addOrder_lazy_wf].
  rewrite addOrder_eager_lazy. destruct (exists_ c (orderId o)); [assumption|].
  apply matchOrderInCache_wf. now apply addOrder_lazy_wf.
Qed.

(** ** Cancelling one order *)

Lemma NoDup_ids_inj os x y :
  NoDup (ids os) -> In x os -> In y os -> orderId x = orderId y -> x = y.
Proof.
  intros Hnd Hx Hy He. apply (deref_In os) in Hx, Hy; try assumption.
  rewrite He in Hx. congruence.
Qed.

Lemma filter_filter_comm {A} (f g : A -> bool) l :
  List.filter f (List.filter g l) = List.filter g (List.filter f l).
Proof.
  induction l as [|x l IH]; simpl; [reflexivity|].
  destruct (f x) eqn:Ef, (g x) eqn:Eg; simpl; rewrite ?Ef, ?Eg, IH; reflexivity.
Qed.

Lemma filter_ext_in' {A} (f g : A -> bool) l :
  (forall x, In x l -> f x = g x) -> List.filter f l = List.filter g l.
Proof.
  induction l as [|x l IH]; simpl; intros H; [reflexivity|].
  rewrite (H x), IH by auto. reflexivity.
Qed.

Lemma NoDup_ids_filter f os : NoDup (ids os) -> NoDup (ids (List.filter f os)).
Proof.
  unfold ids. induction os as [|o os IH]; simpl; [auto|].
  rewrite NoDup_cons. intros [Ho Hnd]. destruct (f o); simpl; auto.
  apply NoDup_cons. split; auto.
  intros Hin. apply Ho. apply list_elem_of_In in Hin. apply list_elem_of_In.
  apply in_map_iff in Hin as (x & Hx & Hin). apply in_map_iff.
  exists x. split; [assumption|]. now apply filter_In in Hin as [Hin _].
Qed.

Lemma NoDup_rev_list {A} (l : list A) : NoDup l -> NoDup (rev l).
Proof.
  intros H. now rewrite <- (Permutation.Permutation_rev l).
Qed.

Lemma NoDup_side_list b s os : NoDup (ids os) -> NoDup (side_list b s os).
Proof.
  intros H. unfold side_list. apply NoDup_rev_list. now apply NoDup_ids_filter.
Qed.

Lemma In_side_list b s os i :
  In i (side_list b s os) <->
  exists o, In o os /\ orderId o = i /\ on_side b s o = true.
Proof.
  unfold side_list, ids. rewrite <- in_rev, in_map_iff. split.
  - intros (o & Hi & Hin). apply filter_In in Hin as [Hin Hs]. eauto.
  - intros (o & Hin & Hi & Hs). exists o. split; [assumption|].
    apply filter_In. auto.
Qed.

Lemma side_list_remove b s id os :
  List.filter (fun p => negb (String.eqb p id)) (side_list b s os) =
  side_list b s (List.filter (fun o => negb (points_to id o)) os).
Proof.
  unfold side_list, ids. rewrite filter_rev. f_equal.
  rewrite filter_map_swap. f_equal. apply filter_filter_comm.
Qed.

Lemma side_list_remove_other b s id os :
  (forall x, In x os -> orderId x = id -> on_side b s x = false) ->
  side_list b s (List.filter (fun o => negb (points_to id o)) os) =
  side_list b s os.
Proof.
  intros H. unfold side_list. do 2 f_equal. rewrite filter_filter_comm.
  apply filter_none. intros x Hx. apply filter_In in Hx as [Hx Hs].
  destruct (points_to id x) eqn:E; [|reflexivity].
  apply points_to_true in E. rewrite (H x Hx E) in Hs. discriminate.
Qed.

Lemma index_remove_spec (proj : Order -> string) o os
    (m : gmap string (gset string)) :
  NoDup (ids os) -> In o os ->
  (forall u i, i ∈ at_key ∅ u m <->
     exists x, In x os /\ orderId x = i /\ proj x = u) ->
  forall u i,
    i ∈ at_key ∅ u
          (<[proj o := at_key ∅ (proj o) (touch ∅ (proj o) m) ∖ {[orderId o]}]>
             (touch ∅ (proj o) m)) <->
    exists x, In x (List.filter (fun x => negb (points_to (orderId o) x)) os)
              /\ orderId x = i /\ proj x = u.
Proof.
  intros Hnd Ho H u i. rewrite at_key_insert_touch, at_key_touch.
  assert (Hf : forall x, In x (List.filter
                 (fun x => negb (points_to (orderId o) x)) os) <->
               In x os /\ orderId x <> orderId o).
  { intros x. rewrite filter_In, negb_true_iff, points_to_false. tauto. }
  destruct (decide (proj o = u)) as [<-|Hne].
  - rewrite elem_of_difference, elem_of_singleton, H. split.
    + intros [(x & Hx & Hi & Hux) Hni]. exists x. rewrite Hf.
      repeat split; congruence.
    + intros (x & Hx & Hi & Hux). apply Hf in Hx as [Hx Hni].
      split; [eauto | congruence].
  - rewrite H. split.
    + intros (x & Hx & Hi & Hux). exists x. rewrite Hf.
      repeat split; try assumption. intros He.
      apply Hne. rewrite <- Hux. f_equal. symmetry.
      now apply (NoDup_ids_inj os).
    + intros (x & Hx & Hi & Hux). apply Hf in Hx as [Hx _]. eauto.
Qed.

Lemma side_remove_spec b o os (m : gmap string (list order_ptr)) :
  NoDup (ids os) -> In o os -> isBuySide o = b ->
  (forall s, at_key [] s m = side_list b s os) ->
  forall s,
    at_key [] s
      (<[securityId o :=
           erase_remove_if (fun p => String.eqb p (orderId o))
             (at_key [] (securityId o) (touch [] (securityId o) m))]>
         (touch [] (securityId o) m)) =
    side_list b s (List.filter (fun x => negb (points_to (orderId o) x)) os).
Proof.
  intros Hnd Ho Hb H s. rewrite at_key_insert_touch, at_key_touch.
  destruct (decide (securityId o = s)) as [<-|Hne].
  - rewrite H, erase_remove_if_unique.
    + apply side_list_remove.
    + now apply NoDup_side_list.
    + apply In_side_list. exists o. repeat split; auto.
      now apply on_side_true.
  - rewrite H. symmetry. apply side_list_remove_other.
    intros x Hx Hi. rewrite (NoDup_ids_inj os x o) by auto.
    destruct (on_side b s o) eqn:E; [|reflexivity].
    apply on_side_true in E as [_ E]. contradiction.
Qed.

Lemma side_remove_other b o os s :
  NoDup (ids os) -> In o os -> isBuySide o <> b ->
  side_list b s (List.filter (fun x => negb (points_to (orderId o) x)) os) =
  side_list b s os.
Proof.
  intros Hnd Ho Hb. apply side_list_remove_other.
  intros x Hx Hi. rewrite (NoDup_ids_inj os x o) by auto.
  destruct (on_side b s o) eqn:E; [|reflexivity].
  apply on_side_true in E as [E _]. contradiction.
Qed.

(** What [cancelSingleOrder] does when the id is live and passes the
    threshold. *)
Lemma cancelSingleOrder_live id m c o :
  wf c -> In o (_orders c) -> orderId o = id -> passes_minQty m o = true ->
  cancelSingleOrder id m c =
  let ui := touch ∅ (user o) (_userOrdersIndex c) in
  let si := touch ∅ (securityId o) (_securityOrdersIndex c) in
  let li := touch [] (securityId o) (_securityLongOrdersIndex c) in
  let shi := touch [] (securityId o) (_securityShortOrdersIndex c) in
  let pred := fun p : order_ptr => String.eqb p id in
  mkOrderCache (_multiThread c)
    (List.filter (fun x => negb (points_to id x)) (_orders c))
    (delete id (_orderIndex c))
    (<[user o := at_key ∅ (user o) ui ∖ {[id]}]> ui)
    (<[securityId o := at_key ∅ (securityId o) si ∖ {[id]}]> si)
    (if isBuySide o
     then <[securityId o := erase_remove_if pred (at_key [] (securityId o) li)]> li
     else _securityLongOrdersIndex c)
    (if isBuySide o
     then _securityShortOrdersIndex c
     else <[securityId o := erase_remove_if pred (at_key [] (securityId o) shi)]> shi)
    (_matchedQuantity c).
Proof.
  intros Hwf Ho Hid Hp. subst id. unfold cancelSingleOrder.
  assert (Hidx : _orderIndex c !! orderId o = Some (orderId o)).
  { apply (wf_index c Hwf). split; [reflexivity|]. now apply in_map. }
  rewrite Hidx, (deref_In _ o (wf_nodup c Hwf) Ho).
  unfold passes_minQty in Hp. apply negb_true_iff in Hp. rewrite Hp.
  destruct (isBuySide o); simpl;
    rewrite list_erase_filter by apply Hwf; reflexivity.
Qed.

Lemma cancelSingleOrder_skip id m c o :
  wf c -> In o (_orders c) -> orderId o = id -> passes_minQty m o = false ->
  cancelSingleOrder id m c = c.
Proof.
  intros Hwf Ho Hid Hp. subst id. unfold cancelSingleOrder.
  assert (Hidx : _orderIndex c !! orderId o = Some (orderId o)).
  { apply (wf_index c Hwf). split; [reflexivity|]. now apply in_map. }
  rewrite Hidx, (deref_In _ o (wf_nodup c Hwf) Ho).
  unfold passes_minQty in Hp. apply negb_false_iff in Hp. now rewrite Hp.
Qed.

Lemma cancelSingleOrder_absent id m c :
  wf c -> ~ In id (ids (_orders c)) -> cancelSingleOrder id m c = c.
Proof.
  intros Hwf Hni. unfold cancelSingleOrder.
  destruct (_orderIndex c !! id) eqn:E; [|reflexivity].
  apply (wf_index c Hwf) in E as [_ E]. contradiction.
Qed.

Lemma In_ids os i : In i (ids os) <-> exists o, In o os /\ orderId o = i.
Proof.
  unfold ids. rewrite in_map_iff. split; intros (o & H1 & H2); eauto.
Qed.

Lemma cancelSingleOrder_orders id m c :
  wf c ->
  _orders (cancelSingleOrder id m c) =
  List.filter (fun o => negb (points_to id o && passes_minQty m o)) (_orders c).
Proof.
  intros Hwf. destruct (deref (_orders c) id) as [o|] eqn:Ed.
  - apply deref_Some in Ed as [Ho Hid].
    destruct (passes_minQty m o) eqn:Hp.
    + rewrite (cancelSingleOrder_live id m c o) by assumption. simpl.
      apply filter_ext_in'. intros x Hx.
      destruct (points_to id x) eqn:E; [|reflexivity].
      apply points_to_true in E.
      rewrite (NoDup_ids_inj _ x o (wf_nodup c Hwf)) by congruence.
      now rewrite Hp.
    + rewrite (cancelSingleOrder_skip id m c o) by assumption.
      symmetry. apply filter_none. intros x Hx.
      destruct (points_to id x) eqn:E; [|reflexivity].
      apply points_to_true in E.
      rewrite (NoDup_ids_inj _ x o (wf_nodup c Hwf)) by congruence.
      now rewrite Hp.
  - apply deref_None in Ed. rewrite cancelSingleOrder_absent by assumption.
    symmetry. apply filter_none. intros x Hx.
    destruct (points_to id x) eqn:E; [|reflexivity].
    apply points_to_true in E. exfalso. apply Ed. apply In_ids. eauto.
Qed.

Lemma cancelSingleOrder_wf id m c : wf c -> wf (cancelSingleOrder id m c).
Proof.
  intros Hwf. destruct (deref (_orders c) id) as [o|] eqn:Ed.
  2:{ apply deref_None in Ed. now rewrite cancelSingleOrder_absent. }
  apply deref_Some in Ed as [Ho Hid].
  destruct (passes_minQty m o) eqn:Hp.
  2:{ now rewrite (cancelSingleOrder_skip id m c o). }
  rewrite (cancelSingleOrder_live id m c o) by assumption. subst id.
  destruct Hwf as [Hnd Hok Hidx Hu Hs Hl Hsh Hm].
  assert (Hf : forall x, In x (List.filter
                 (fun x => negb (points_to (orderId o) x)) (_orders c)) <->
               In x (_orders c) /\ orderId x <> orderId o).
  { intros x. rewrite filter_In, negb_true_iff, points_to_false. tauto. }
  split; simpl.
  - now apply NoDup_ids_filter.
  - apply Forall_forall. intros x Hx. apply list_elem_of_In, Hf in Hx as [Hx _].
    rewrite Forall_forall in Hok. apply Hok. now apply list_elem_of_In.
  - intros i p. destruct (decide (orderId o = i)) as [<-|Hne].
    + rewrite lookup_delete_eq. split; [discriminate|].
      intros [_ Hin]. apply In_ids in Hin as (x & Hx & Hi).
      apply Hf in Hx as [_ Hx]. contradiction.
    + rewrite lookup_delete_ne by assumption. rewrite Hidx, !In_ids.
      split; intros [-> (x & Hx & Hi)]; (split; [reflexivity|]); exists x.
      * rewrite Hf. repeat split; congruence.
      * apply Hf in Hx as [Hx _]. auto.
  - now apply (index_remove_spec user).
  - now apply (index_remove_spec securityId).
  - destruct (isBuySide o) eqn:Eb.
    + now apply side_remove_spec.
    + intros s. rewrite side_remove_other by (auto; congruence). apply Hl.
  - destruct (isBuySide o) eqn:Eb.
    + intros s. rewrite side_remove_other by (auto; congruence). apply Hsh.
    + now apply side_remove_spec.
  - assumption.
Qed.

(** ** Cancelling a set of orders *)

Lemma cancelOrders_list_wf l m c : wf c -> wf (cancelOrders_list l m c).
Proof.
  revert c. induction l as [|id l IH]; intros c Hwf; simpl; [assumption|].
  apply IH. now apply cancelSingleOrder_wf.
Qed.

Lemma filter_filter {A} (f g : A -> bool) l :
  List.filter f (List.filter g l) = List.filter (fun x => g x && f x) l.
Proof.
  induction l as [|x l IH]; simpl; [reflexivity|].
  destruct (g x); simpl; [destruct (f x)|]; now rewrite IH.
Qed.

Lemma in_ids_true l o : in_ids l o = true <-> In (orderId o) l.
Proof.
  unfold in_ids. rewrite existsb_exists. split.
  - intros (id & Hin & Hp). apply points_to_true in Hp. now subst.
  - intros Hin. exists (orderId o). split; [assumption|].
    now apply points_to_true.
Qed.

Lemma cancelOrders_list_orders l m c :
  wf c ->
  _orders (cancelOrders_list l m c) =
  List.filter (fun o => negb (in_ids l o && passes_minQty m o)) (_orders c).
Proof.
  revert c. induction l as [|id l IH]; intros c Hwf; simpl.
  - symmetry. now apply filter_none.
  - rewrite IH by now apply cancelSingleOrder_wf.
    rewrite cancelSingleOrder_orders by assumption.
    rewrite filter_filter. apply filter_ext_in'. intros o _.
    destruct (points_to id o), (in_ids l o), (passes_minQty m o); reflexivity.
Qed.

Lemma at_key_Some {V} (d : V) k (m : gmap string V) v :
  m !! k = Some v -> at_key d k m = v.
Proof. unfold at_key. now intros ->. Qed.

Lemma at_key_None {V} (d : V) k (m : gmap string V) :
  m !! k = None -> at_key d k m = d.
Proof. unfold at_key. now intros ->. Qed.

Lemma passes_minQty_le m o :
  Order_ok o -> passes_minQty m o = (m <=? qty o).
Proof.
  unfold Order_ok, passes_minQty. intros [Hw Hq].
  destruct (Z.ltb_spec 0 m), (Z.ltb_spec (qty o) m), (Z.leb_spec m (qty o));
    simpl; try reflexivity; lia.
Qed.

Lemma passes_minQty_0 o : passes_minQty 0 o = true.
Proof. reflexivity. Qed.

(** [cancelOrders] either stops at its division or runs the serial
    loop. *)
Lemma cancelOrders_Some hw keys m c c' :
  cancelOrders hw keys m c = Some c' ->
  c' = cancelOrders_list (elements keys) m c.
Proof.
  unfold cancelOrders. destruct (cancelOrders_chunkSize _ _); [|discriminate].
  now intros [= <-].
Qed.

Lemma cancelOrders_chunkSize_None nthreads n :
  cancelOrders_chunkSize nthreads n = None <-> nthreads = 0 /\ 0 < n.
Proof.
  unfold cancelOrders_chunkSize.
  destruct (Z.eqb_spec nthreads 1), (Z.leb_spec n nthreads),
    (Z.eqb_spec nthreads 0); simpl; split; try discriminate; try reflexivity;
    try lia; intros; exfalso; lia.
Qed.

Lemma cancelOrders_None hw keys m c :
  cancelOrders hw keys m c = None <->
  _multiThread c = true /\ hw = 0 /\ wrap32 (Z.of_nat (size keys)) <> 0.
Proof.
  unfold cancelOrders.
  pose proof (cancelOrders_chunkSize_None
    (if _multiThread c then hw else 1) (wrap32 (Z.of_nat (size keys)))) as H.
  pose proof (Z.mod_pos_bound (Z.of_nat (size keys)) UINT_MODULUS eq_refl)
    as Hb. fold (wrap32 (Z.of_nat (size keys))) in Hb.
  destruct (cancelOrders_chunkSize _ _) as [k|].
  - split; [discriminate|]. intros (Hmt & Hhw & Hn). rewrite Hmt in H.
    assert (Some k = None) by (apply H; lia). discriminate.
  - destruct (proj1 H eq_refl) as [Hn Hp].
    split; [intros _|reflexivity].
    destruct (_multiThread c); [|discriminate].
    repeat split; [assumption | lia].
Qed.

Lemma cancelOrders_returns hw keys m c :
  (_multiThread c = true -> hw <> 0) ->
  cancelOrders hw keys m c = Some (cancelOrders_list (elements keys) m c).
Proof.
  intros Hhw. destruct (cancelOrders hw keys m c) as [c'|] eqn:E.
  - now rewrite (cancelOrders_Some _ _ _ _ _ E).
  - apply cancelOrders_None in E as (Hmt & H0 & _). now destruct (Hhw Hmt).
Qed.

Lemma cancelOrdersForUser_Some hw u c c' :
  cancelOrdersForUser hw u c = Some c' ->
  c' = match _userOrdersIndex c !! u with
       | None => c
       | Some keys => cancelOrders_list (elements keys) 0 c
       end.
Proof.
  unfold cancelOrdersForUser. destruct (_userOrdersIndex c !! u).
  - apply cancelOrders_Some.
  - now intros [= <-].
Qed.

Lemma cancelOrdersForSecIdWithMinimumQty_Some hw s m c c' :
  cancelOrdersForSecIdWithMinimumQty hw s m c = Some c' ->
  c' = match _securityOrdersIndex c !! s with
       | None => c
       | Some keys => cancelOrders_list (elements keys) m c
       end.
Proof.
  unfold cancelOrdersForSecIdWithMinimumQty.
  destruct (_securityOrdersIndex c !! s).
  - apply cancelOrders_Some.
  - now intros [= <-].
Qed.

Lemma cancelOrdersForUser_returns hw u c :
  (_multiThread c = true -> hw <> 0) ->
  exists c', cancelOrdersForUser hw u c = Some c'.
Proof.
  intros Hhw. unfold cancelOrdersForUser.
  destruct (_userOrdersIndex c !! u); [|eauto].
  rewrite cancelOrders_returns by assumption. eauto.
Qed.

Lemma cancelOrdersForSecIdWithMinimumQty_returns hw s m c :
  (_multiThread c = true -> hw <> 0) ->
  exists c', cancelOrdersForSecIdWithMinimumQty hw s m c = Some c'.
Proof.
  intros Hhw. unfold cancelOrdersForSecIdWithMinimumQty.
  destruct (_securityOrdersIndex c !! s); [|eauto].
  rewrite cancelOrders_returns by assumption. eauto.
Qed.

Lemma cancelOrders_wf hw keys m c c' :
  wf c -> cancelOrders hw keys m c = Some c' -> wf c'.
Proof.
  intros Hwf E. rewrite (cancelOrders_Some _ _ _ _ _ E).
  now apply cancelOrders_list_wf.
Qed.

Lemma cancelOrdersForUser_wf hw u c c' :
  wf c -> cancelOrdersForUser hw u c = Some c' -> wf c'.
Proof.
  intros Hwf E. rewrite (cancelOrdersForUser_Some _ _ _ _ E).
  destruct (_userOrdersIndex c !! u);
    [now apply cancelOrders_list_wf | assumption].
Qed.

Lemma cancelOrdersForSecIdWithMinimumQty_wf hw s m c c' :
  wf c -> cancelOrdersForSecIdWithMinimumQty hw s m c = Some c' -> wf c'.
Proof.
  intros Hwf E. rewrite (cancelOrdersForSecIdWithMinimumQty_Some _ _ _ _ _ E).
  destruct (_securityOrdersIndex c !! s);
    [now apply cancelOrders_list_wf | assumption].
Qed.

Lemma cancelOrdersForUser_orders hw u c c' :
  wf c -> cancelOrdersForUser hw u c = Some c' ->
  _orders c' =
  List.filter (fun o => negb (String.eqb (user o) u)) (_orders c).
Proof.
  intros Hwf Ec. rewrite (cancelOrdersForUser_Some _ _ _ _ Ec). clear Ec c'.
  assert (Hkey : forall o, In o (_orders c) ->
            (orderId o ∈ at_key ∅ u (_userOrdersIndex c) <-> user o = u)).
  { intros o Ho. rewrite (wf_user c Hwf). split.
    - intros (x & Hx & Hi & Hu).
      now rewrite <- (NoDup_ids_inj _ x o (wf_nodup c Hwf)).
    - intros Hu. eauto. }
  destruct (_userOrdersIndex c !! u) as [keys|] eqn:E.
  - rewrite cancelOrders_list_orders by assumption.
    apply filter_ext_in'. intros o Ho. rewrite passes_minQty_0, andb_true_r.
    f_equal. apply eq_true_iff_eq.
    rewrite in_ids_true, <- list_elem_of_In, elem_of_elements, String.eqb_eq.
    rewrite <- (at_key_Some ∅ u _ keys E). now apply Hkey.
  - symmetry. apply filter_none. intros o Ho. apply negb_true_iff.
    apply String.eqb_neq. intros Hu. apply (Hkey o Ho) in Hu.
    rewrite (at_key_None _ _ _ E) in Hu. now apply not_elem_of_empty in Hu.
Qed.

Lemma cancelOrdersForSecIdWithMinimumQty_orders hw s m c c' :
  wf c -> cancelOrdersForSecIdWithMinimumQty hw s m c = Some c' ->
  _orders c' =
  List.filter (fun o => negb (String.eqb (securityId o) s && (m <=? qty o)))
    (_orders c).
Proof.
  intros Hwf Ec.
  rewrite (cancelOrdersForSecIdWithMinimumQty_Some _ _ _ _ _ Ec). clear Ec c'.
  assert (Hkey : forall o, In o (_orders c) ->
            (orderId o ∈ at_key ∅ s (_securityOrdersIndex c) <->
             securityId o = s)).
  { intros o Ho. rewrite (wf_sec c Hwf). split.
    - intros (x & Hx & Hi & Hs).
      now rewrite <- (NoDup_ids_inj _ x o (wf_nodup c Hwf)).
    - intros Hs. eauto. }
  destruct (_securityOrdersIndex c !! s) as [keys|] eqn:E.
  - rewrite cancelOrders_list_orders by assumption.
    apply filter_ext_in'. intros o Ho.
    rewrite passes_minQty_le.
    2:{ pose proof (wf_ok c Hwf) as Hok. rewrite Forall_forall in Hok.
        apply Hok. now apply list_elem_of_In. }
    do 2 f_equal. apply eq_true_iff_eq.
    rewrite in_ids_true, <- list_elem_of_In, elem_of_elements, String.eqb_eq.
    rewrite <- (at_key_Some ∅ s _ keys E). now apply Hkey.
  - symmetry. apply filter_none. intros o Ho. apply negb_true_iff.
    apply andb_false_iff. left.
    apply String.eqb_neq. intros Hs. apply (Hkey o Ho) in Hs.
    rewrite (at_key_None _ _ _ E) in Hs. now apply not_elem_of_empty in Hs.
Qed.

(** The iteration order of the [unordered_set] does not matter for the
    orders that remain. *)
Lemma cancelOrders_list_perm l l' m c :
  wf c -> l ≡ₚ l' ->
  _orders (cancelOrders_list l m c) = _orders (cancelOrders_list l' m c).
Proof.
  intros Hwf Hp. rewrite !cancelOrders_list_orders by assumption.
  apply filter_ext_in'. intros o _. do 2 f_equal. apply eq_true_iff_eq.
  rewrite !in_ids_true, <- !list_elem_of_In. now rewrite Hp.
Qed.

(** ** Every cache built by the public operations is well formed *)

Lemma add_all_wf eager os c :
  wf c -> Forall Order_ok os -> wf (add_all eager os c).
Proof.
  unfold add_all. revert c. induction os as [|o os IH]; intros c Hwf Hok; simpl.
  - assumption.
  - apply Forall_cons in Hok as [Ho Hok]. apply IH; [|assumption].
    now apply addOrder_wf.
Qed.

Lemma lazy_loop_wf longs : forall q c, wf c -> wf (snd (lazy_loop longs q c)).
Proof.
  induction longs as [|p rest IH]; intros q c Hwf; simpl; [assumption|].
  pose proof (matchOrderInCache_wf p c Hwf) as H.
  destruct (matchOrderInCache p c) as [m c']. now apply IH.
Qed.

Lemma getMatchingSizeForSecurity_wf eager s c v c' :
  wf c -> getMatchingSizeForSecurity eager s c = Some (v, c') -> wf c'.
Proof.
  intros Hwf. unfold getMatchingSizeForSecurity.
  destruct (_securityOrdersIndex c !! s); [|now intros [= _ <-]].
  destruct eager; [now intros [= _ <-]|].
  destruct (negb (_multiThread c) || (size_ c <? 2)%nat); [|discriminate].
  pose proof (lazy_loop_wf
    (at_key [] s (touch [] s (_securityLongOrdersIndex c))) 0 _
    (wf_touch_long c s Hwf)) as H.
  simpl in *.
  destruct (lazy_loop _ _ _) as [q c2]. now intros [= _ <-].
Qed.

Lemma getMatchingSizeForSecurity_eager s c :
  getMatchingSizeForSecurity true s c =
  Some (match _securityOrdersIndex c !! s with
        | None => 0
        | Some _ => to_uint (to_int (getMatchedQuantityInCache c s))
        end, c).
Proof.
  unfold getMatchingSizeForSecurity.
  destruct (_securityOrdersIndex c !! s); reflexivity.
Qed.

Lemma step_wf hw eager op c out c' :
  wf c -> Op_ok op -> step hw eager op c = Some (out, c') -> wf c'.
Proof.
  intros Hwf Hop. destruct op; simpl.
  - intros [= _ <-]. now apply addOrder_wf.
  - intros [= _ <-]. now apply cancelSingleOrder_wf.
  - destruct (cancelOrdersForUser hw usr c) as [c1|] eqn:E; [|discriminate].
    intros [= _ <-]. eapply cancelOrdersForUser_wf; eassumption.
  - destruct (cancelOrdersForSecIdWithMinimumQty hw sec minQty c)
      as [c1|] eqn:E; [|discriminate].
    intros [= _ <-]. eapply cancelOrdersForSecIdWithMinimumQty_wf; eassumption.
  - destruct (getMatchingSizeForSecurity eager sec c) as [[v c1]|] eqn:E;
      [|discriminate].
    intros [= _ <-]. eapply getMatchingSizeForSecurity_wf; eassumption.
Qed.

Lemma run_wf hw eager ops : forall c outs c',
  wf c -> Forall Op_ok ops -> run hw eager ops c = Some (outs, c') -> wf c'.
Proof.
  induction ops as [|op ops IH]; intros c outs c' Hwf Hok; simpl.
  - now intros [= _ <-].
  - apply Forall_cons in Hok as [Hop Hok].
    destruct (step hw eager op c) as [[out c1]|] eqn:E; [|discriminate].
    destruct (run hw eager ops c1) as [[outs1 c2]|] eqn:E2; [|discriminate].
    intros [= _ <-]. eapply IH; [|eassumption|eassumption].
    eapply step_wf; eassumption.
Qed.

(** In the shipped (eager) configuration every call returns, on a
    machine whose [hardware_concurrency()] is not 0. *)
Lemma run_eager_total hw ops :
  hw <> 0 -> forall c, exists outs c', run hw true ops c = Some (outs, c').
Proof.
  intros Hhw. induction ops as [|op ops IH]; intros c; simpl; [eauto|].
  assert (Hs : exists out c1, step hw true op c = Some (out, c1)).
  { destruct op; simpl; eauto.
    - destruct (cancelOrdersForUser_returns hw usr c) as [c1 ->]; eauto.
    - destruct (cancelOrdersForSecIdWithMinimumQty_returns hw sec minQty c)
        as [c1 ->]; eauto.
    - rewrite getMatchingSizeForSecurity_eager. eauto. }
  destruct Hs as (out & c1 & ->).
  destruct (IH c1) as (outs & c2 & ->). eauto.
Qed.


Lemma has_id_true id b : has_id id b = true <-> In id (ids b).
Proof.
  unfold has_id. rewrite existsb_exists, In_ids.
  split; intros (o & Ho & Hi); exists o; (split; [assumption|]);
    now apply String.eqb_eq.
Qed.

(** ** What the matcher leaves alone *)

Lemma matchOrderInCache_frame order c :
  let c' := snd (matchOrderInCache order c) in
  _multiThread c' = _multiThread c /\
  _orderIndex c' = _orderIndex c /\
  _userOrdersIndex c' = _userOrdersIndex c /\
  _securityOrdersIndex c' = _securityOrdersIndex c /\
  (forall s, at_key [] s (_securityLongOrdersIndex c') =
             at_key [] s (_securityLongOrdersIndex c)) /\
  (forall s, at_key [] s (_securityShortOrdersIndex c') =
             at_key [] s (_securityShortOrdersIndex c)).
Proof.
  unfold matchOrderInCache.
  destruct (deref (_orders c) order) as [o|]; [|simpl; auto 10].
  destruct (isFilled o); [simpl; auto 10|].
  destruct (isBuySide o); simpl.
  - destruct (length _ =? 0)%nat; [|destruct (match_loop _ _ _ _)]; simpl;
      repeat split; auto; intros s; apply at_key_touch.
  - destruct (length _ =? 0)%nat; [|destruct (match_loop _ _ _ _)]; simpl;
      repeat split; auto; intros s; apply at_key_touch.
Qed.

Lemma matchOrderInCache_statics order c :
  statics (_orders (snd (matchOrderInCache order c))) = statics (_orders c).
Proof.
  unfold matchOrderInCache.
  destruct (deref (_orders c) order) as [o|]; [|reflexivity].
  destruct (isFilled o); [reflexivity|].
  destruct (isBuySide o); simpl.
  - destruct (length _ =? 0)%nat; [reflexivity|].
    destruct (match_loop _ _ _ _) as [os' m] eqn:E. simpl.
    change os' with (fst (os', m)). rewrite <- E. apply match_loop_statics.
  - destruct (length _ =? 0)%nat; [reflexivity|].
    destruct (match_loop _ _ _ _) as [os' m] eqn:E. simpl.
    change os' with (fst (os', m)). rewrite <- E. apply match_loop_statics.
Qed.

Lemma addOrder_new_statics eager o c :
  exists_ c (orderId o) = false ->
  statics (_orders (addOrder eager o c)) = static o :: statics (_orders c).
Proof.
  intros Ex. destruct eager.
  - rewrite addOrder_eager_lazy, Ex, matchOrderInCache_statics.
    unfold addOrder. rewrite Ex. destruct (isBuySide o); reflexivity.
  - unfold addOrder. rewrite Ex. destruct (isBuySide o); reflexivity.
Qed.

Lemma addOrder_dup eager o c :
  exists_ c (orderId o) = true -> addOrder eager o c = c.
Proof. intros Ex. unfold addOrder. now rewrite Ex. Qed.

Lemma addOrder_new_user_index eager o c :
  exists_ c (orderId o) = false ->
  _userOrdersIndex (addOrder eager o c) =
  <[user o := at_key ∅ (user o) (_userOrdersIndex c) ∪ {[orderId o]}]>
    (touch ∅ (user o) (_userOrdersIndex c)).
Proof.
  intros Ex.
  assert (H : _userOrdersIndex (addOrder false o c) =
    <[user o := at_key ∅ (user o) (_userOrdersIndex c) ∪ {[orderId o]}]>
      (touch ∅ (user o) (_userOrdersIndex c))).
  { unfold addOrder. rewrite Ex.
    destruct (isBuySide o); simpl; now rewrite at_key_touch. }
  destruct eager; [|exact H].
  rewrite addOrder_eager_lazy, Ex.
  now destruct (matchOrderInCache_frame (orderId o) (addOrder false o c))
    as (_ & _ & -> & _).
Qed.

Lemma addOrder_new_security_index eager o c :
  exists_ c (orderId o) = false ->
  _securityOrdersIndex (addOrder eager o c) =
  <[securityId o :=
      at_key ∅ (securityId o) (_securityOrdersIndex c) ∪ {[orderId o]}]>
    (touch ∅ (securityId o) (_securityOrdersIndex c)).
Proof.
  intros Ex.
  assert (H : _securityOrdersIndex (addOrder false o c) =
    <[securityId o :=
        at_key ∅ (securityId o) (_securityOrdersIndex c) ∪ {[orderId o]}]>
      (touch ∅ (securityId o) (_securityOrdersIndex c))).
  { unfold addOrder. rewrite Ex.
    destruct (isBuySide o); simpl; now rewrite at_key_touch. }
  destruct eager; [|exact H].
  rewrite addOrder_eager_lazy, Ex.
  now destruct (matchOrderInCache_frame (orderId o) (addOrder false o c))
    as (_ & _ & _ & -> & _).
Qed.

(** ** Reading and writing through iterators *)

Lemma deref_modify p p' f os :
  (forall o, orderId (f o) = orderId o) ->
  deref (modify p f os) p' =
  if String.eqb p p' then option_map f (deref os p') else deref os p'.
Proof.
  intros Hf. unfold deref, modify.
  induction os as [|x os IH]; simpl.
  - destruct (String.eqb p p'); reflexivity.
  - assert (Hpt : points_to p' (if points_to p x then f x else x) =
                  points_to p' x).
    { unfold points_to. destruct (String.eqb (orderId x) p); [|reflexivity].
      now rewrite Hf. }
    rewrite Hpt. destruct (points_to p' x) eqn:E'; [|exact IH].
    apply points_to_true in E'. unfold points_to. rewrite E'.
    rewrite (String.eqb_sym p' p). destruct (String.eqb p p'); reflexivity.
Qed.

Lemma deref_modify_same p f os o :
  (forall o, orderId (f o) = orderId o) ->
  deref os p = Some o -> deref (modify p f os) p = Some (f o).
Proof.
  intros Hf H. rewrite deref_modify by assumption.
  now rewrite String.eqb_refl, H.
Qed.

Lemma deref_modify_other p p' f os :
  (forall o, orderId (f o) = orderId o) ->
  p <> p' -> deref (modify p f os) p' = deref os p'.
Proof.
  intros Hf H. rewrite deref_modify by assumption.
  now rewrite (proj2 (String.eqb_neq p p')).
Qed.

Lemma In_modify_other p f os x :
  In x os -> orderId x <> p -> In x (modify p f os).
Proof.
  intros Hin Hne. unfold modify. apply in_map_iff. exists x.
  split; [|assumption]. now rewrite (proj2 (points_to_false p x)).
Qed.

Lemma fillLots_exact n o :
  0 <= n <= workingQty o -> workingQty o < UINT_MODULUS ->
  workingQty (fillLots n o) = workingQty o - n.
Proof.
  intros Hn Hw. unfold fillLots.
  destruct (Z.ltb_spec n (workingQty o)); simpl.
  - apply wrap32_small. unfold is_uint. lia.
  - lia.
Qed.

Lemma company_fillLots n o : company (fillLots n o) = company o.
Proof. unfold fillLots. destruct (n <? workingQty o); reflexivity. Qed.

(** ** The running count of the matcher *)

Lemma match_loop_total order cps : forall os acc o,
  Forall Order_ok os -> deref os order = Some o ->
  0 <= acc -> acc + workingQty o < UINT_MODULUS ->
  exists o',
    deref (fst (match_loop order cps os acc)) order = Some o' /\
    0 <= workingQty o' <= workingQty o /\
    snd (match_loop order cps os acc) = acc + workingQty o - workingQty o'.
Proof.
  induction cps as [|cp rest IH]; intros os acc o Hok Ho Hacc Hsum; simpl.
  { exists o. pose proof (deref_ok _ _ _ Hok Ho) as [Hw _]. repeat split; auto; lia. }
  rewrite Ho.
  pose proof (deref_ok _ _ _ Hok Ho) as [Hw Hq].
  destruct (deref os cp) as [c|] eqn:Ec.
  2:{ exists o. simpl. repeat split; auto; lia. }
  pose proof (deref_ok _ _ _ Hok Ec) as [Hwc Hqc].
  destruct (isFilled c || String.eqb (company o) (company c)) eqn:Eskip;
    [now apply IH|].
  destruct (Z.eqb_spec (Z.min (workingQty o) (workingQty c)) 0) as [E0|E0];
    [now apply IH|].
  set (q := Z.min (workingQty o) (workingQty c)) in *.
  assert (Hne : cp <> order).
  { intros ->. rewrite Ho in Ec. injection Ec as <-.
    rewrite String.eqb_refl, orb_true_r in Eskip. discriminate. }
  set (os2 := modify cp (fillLots q) (modify order (fillLots q) os)).
  assert (Ho2 : deref os2 order = Some (fillLots q o)).
  { unfold os2. rewrite deref_modify_other by auto with node_db.
    apply deref_modify_same; auto with node_db. }
  assert (Hok2 : Forall Order_ok os2).
  { unfold os2.
    fills_ok. }
  assert (Hwq : workingQty (fillLots q o) = workingQty o - q)
    by (apply fillLots_exact; lia).
  assert (Hacc' : wrap32 (acc + q) = acc + q)
    by (apply wrap32_small; unfold is_uint; lia).
  rewrite Ho2, Hacc'.
  destruct (isFilled (fillLots q o)) eqn:Ef.
  - exists (fillLots q o). simpl. rewrite Ho2. repeat split; lia.
  - destruct (IH os2 (acc + q) (fillLots q o) Hok2 Ho2) as (o' & H1 & H2 & H3);
      [lia | lia |].
    exists o'. repeat split; try assumption; lia.
Qed.

(** ** Which nodes the matcher can change *)

Lemma reduced_refl os : Forall2 reduced os os.
Proof.
  induction os; constructor; [|assumption]. unfold reduced. split; [auto|lia].
Qed.

Lemma reduced_trans os1 : forall os2 os3,
  Forall2 reduced os1 os2 -> Forall2 reduced os2 os3 -> Forall2 reduced os1 os3.
Proof.
  induction os1 as [|x os1 IH]; intros os2 os3 H12 H23.
  - inversion H12; subst. inversion H23; subst. constructor.
  - inversion H12 as [|? y ? os2' [Hxy1 Hxy2] H12']; subst.
    inversion H23 as [|? z ? os3' [Hyz1 Hyz2] H23']; subst.
    constructor; [|eapply IH; eassumption].
    unfold reduced. split; [congruence|lia].
Qed.

Lemma reduced_modify p q os :
  Forall Order_ok os -> 0 <= q -> Forall2 reduced os (modify p (fillLots q) os).
Proof.
  intros Hok Hq. unfold modify.
  induction Hok as [|x os Hx Hok IH]; simpl; constructor; [|assumption].
  unfold reduced. destruct (points_to p x); [|split; [auto|lia]].
  split; [apply static_fillLots|].
  pose proof (fillLots_workingQty q x Hx Hq) as Hfw.
  destruct Hx as [Hw _]. lia.
Qed.

Lemma match_loop_decreases order cps : forall os acc,
  Forall Order_ok os ->
  Forall2 reduced os (fst (match_loop order cps os acc)).
Proof.
  induction cps as [|cp rest IH]; intros os acc Hok; simpl;
    [apply reduced_refl|].
  destruct (deref os order) as [o|] eqn:Eo; [|apply reduced_refl].
  destruct (deref os cp) as [c|] eqn:Ec; [|apply reduced_refl].
  destruct (isFilled c || String.eqb (company o) (company c)); [now apply IH|].
  destruct (Z.min (workingQty o) (workingQty c) =? 0); [now apply IH|].
  pose proof (deref_ok _ _ _ Hok Eo) as [Hw _].
  pose proof (deref_ok _ _ _ Hok Ec) as [Hwc _].
  set (q := Z.min (workingQty o) (workingQty c)).
  assert (Hq : 0 <= q) by (unfold q; lia).
  set (os1 := modify order (fillLots q) os).
  assert (Hok1 : Forall Order_ok os1)
    by (apply modify_ok; [intros; now apply fillLots_ok|assumption]).
  set (os2 := modify cp (fillLots q) os1).
  assert (Hok2 : Forall Order_ok os2)
    by (apply modify_ok; [intros; now apply fillLots_ok|assumption]).
  assert (H2 : Forall2 reduced os os2).
  { eapply reduced_trans; [apply (reduced_modify order q os Hok Hq)|].
    apply (reduced_modify cp q os1 Hok1 Hq). }
  destruct (deref os2 order) as [o'|]; [|exact H2].
  destruct (isFilled o'); [exact H2|].
  eapply reduced_trans; [exact H2|]. now apply IH.
Qed.

Lemma match_loop_keeps order cps : forall os acc o x,
  NoDup (ids os) -> deref os order = Some o ->
  In x os -> orderId x <> order ->
  (~ In (orderId x) cps \/ company o = company x) ->
  In x (fst (match_loop order cps os acc)).
Proof.
  induction cps as [|cp rest IH]; intros os acc o x Hnd Ho Hx Hne Hel; simpl;
    [assumption|].
  rewrite Ho.
  assert (Hel' : ~ In (orderId x) rest \/ company o = company x).
  { destruct Hel as [Hel|Hel]; [left|now right]. intros H. apply Hel. now right. }
  destruct (deref os cp) as [c|] eqn:Ec; [|assumption].
  destruct (isFilled c || String.eqb (company o) (company c)) eqn:Eskip;
    [now apply (IH os acc o)|].
  destruct (Z.min (workingQty o) (workingQty c) =? 0); [now apply (IH os acc o)|].
  set (q := Z.min (workingQty o) (workingQty c)).
  assert (Hcp : cp <> order).
  { intros ->. rewrite Ho in Ec. injection Ec as <-.
    rewrite String.eqb_refl, orb_true_r in Eskip. discriminate. }
  assert (Hxcp : orderId x <> cp).
  { intros E. apply deref_Some in Ec as [Hc Hic].
    assert (x = c) by (apply (NoDup_ids_inj os); auto; congruence). subst c.
    apply orb_false_iff in Eskip as [_ Eskip]. apply String.eqb_neq in Eskip.
    destruct Hel as [Hel|Hel]; [apply Hel; now left | contradiction]. }
  set (os2 := modify cp (fillLots q) (modify order (fillLots q) os)).
  assert (Hx2 : In x os2).
  { unfold os2. apply In_modify_other; [|assumption].
    now apply In_modify_other. }
  assert (Ho2 : deref os2 order = Some (fillLots q o)).
  { unfold os2. rewrite deref_modify_other by auto with node_db.
    apply deref_modify_same; auto with node_db. }
  rewrite Ho2. destruct (isFilled (fillLots q o)); [exact Hx2|].
  apply (IH os2 _ (fillLots q o)); auto.
  - unfold os2. now rewrite !ids_modify by apply orderId_fillLots.
  - now rewrite company_fillLots.
Qed.

(** ** One call of the matcher *)

Lemma getMatched_uint c q : wf c -> is_uint (getMatchedQuantityInCache c q).
Proof.
  intros Hwf. unfold getMatchedQuantityInCache.
  destruct (_matchedQuantity c !! q) eqn:E.
  - now apply (wf_matched c Hwf q).
  - unfold is_uint, UINT_MODULUS. lia.
Qed.

Lemma getMatched_at_key c q :
  getMatchedQuantityInCache c q = at_key 0 q (_matchedQuantity c).
Proof.
  unfold getMatchedQuantityInCache, at_key.
  destruct (_matchedQuantity c !! q); reflexivity.
Qed.

Lemma counterParties_side_list c o :
  wf c ->
  (if isBuySide o
   then at_key [] (securityId o)
          (touch [] (securityId o) (_securityShortOrdersIndex c))
   else at_key [] (securityId o)
          (touch [] (securityId o) (_securityLongOrdersIndex c))) =
  side_list (negb (isBuySide o)) (securityId o) (_orders c).
Proof.
  intros Hwf. destruct (isBuySide o); rewrite at_key_touch; simpl.
  - apply (wf_short c Hwf).
  - apply (wf_long c Hwf).
Qed.

(** The shape of [matchOrderInCache] on a well-formed cache: either it
    returns at once, or it runs the loop over the opposite side list. *)
Lemma matchOrderInCache_unfold order c o :
  wf c -> deref (_orders c) order = Some o ->
  let cps := side_list (negb (isBuySide o)) (securityId o) (_orders c) in
  let r := match_loop order cps (_orders c) 0 in
  (isFilled o = true \/ cps = []) /\
    fst (matchOrderInCache order c) = 0 /\
    _orders (snd (matchOrderInCache order c)) = _orders c /\
    _matchedQuantity (snd (matchOrderInCache order c)) = _matchedQuantity c
  \/
  isFilled o = false /\ cps <> [] /\
    fst (matchOrderInCache order c) = snd r /\
    _orders (snd (matchOrderInCache order c)) = fst r /\
    _matchedQuantity (snd (matchOrderInCache order c)) =
      <[securityId o :=
          wrap32 (getMatchedQuantityInCache c (securityId o) + snd r)]>
        (touch 0 (securityId o) (_matchedQuantity c)).
Proof.
  intros Hwf Ho. cbv zeta. unfold matchOrderInCache. rewrite Ho.
  destruct (isFilled o) eqn:Ef; [left; auto|].
  pose proof (counterParties_side_list c o Hwf) as Hcp.
  set (cps := side_list (negb (isBuySide o)) (securityId o) (_orders c)) in *.
  assert (Hlen : (length cps =? 0)%nat = true -> cps = []).
  { intros H. apply Nat.eqb_eq in H. now destruct cps. }
  assert (Hlen' : (length cps =? 0)%nat = false -> cps <> []).
  { intros H ->. discriminate. }
  destruct (isBuySide o) eqn:Eb; cbn -[match_loop] in *; rewrite Hcp;
    (destruct (length cps =? 0)%nat eqn:El; cbn -[match_loop];
     [left; auto|]);
    right; destruct (match_loop order cps (_orders c) 0) as [os' m];
    cbn -[match_loop]; rewrite at_key_touch, <- getMatched_at_key; auto.
Qed.

Lemma matchOrderInCache_cache order c o :
  wf c -> deref (_orders c) order = Some o ->
  let m := fst (matchOrderInCache order c) in
  0 <= m <= workingQty o /\
  forall q,
    getMatchedQuantityInCache (snd (matchOrderInCache order c)) q =
    if String.eqb q (securityId o)
    then wrap32 (getMatchedQuantityInCache c q + m)
    else getMatchedQuantityInCache c q.
Proof.
  intros Hwf Ho. cbv zeta.
  pose proof (deref_ok _ _ _ (wf_ok c Hwf) Ho) as [Hw Hq].
  destruct (matchOrderInCache_unfold order c o Hwf Ho)
    as [(_ & -> & _ & Hmq)|(Ef & _ & -> & _ & Hmq)].
  - split; [lia|]. intros q. unfold getMatchedQuantityInCache at 1.
    rewrite Hmq. fold (getMatchedQuantityInCache c q).
    destruct (String.eqb q (securityId o)); [|reflexivity].
    rewrite Z.add_0_r. symmetry. apply wrap32_small. now apply getMatched_uint.
  - destruct (match_loop_total order
      (side_list (negb (isBuySide o)) (securityId o) (_orders c))
      (_orders c) 0 o (wf_ok c Hwf) Ho) as (o' & _ & Hw' & Hr); [lia|lia|].
    split; [lia|]. intros q. unfold getMatchedQuantityInCache at 1.
    rewrite Hmq. destruct (String.eqb_spec q (securityId o)) as [->|Hne].
    + now rewrite lookup_insert_eq.
    + rewrite lookup_insert_ne, touch_lookup_ne by congruence. reflexivity.
Qed.

Lemma matchOrderInCache_reduced order c :
  wf c -> Forall2 reduced (_orders c) (_orders (snd (matchOrderInCache order c))).
Proof.
  intros Hwf. destruct (deref (_orders c) order) as [o|] eqn:Ho.
  - destruct (matchOrderInCache_unfold order c o Hwf Ho)
      as [(_ & _ & -> & _)|(_ & _ & _ & -> & _)].
    + apply reduced_refl.
    + apply match_loop_decreases, Hwf.
  - unfold matchOrderInCache. rewrite Ho. apply reduced_refl.
Qed.

Lemma eligible_false_cps o x os :
  NoDup (ids os) -> In x os -> eligible o x = false ->
  ~ In (orderId x) (side_list (negb (isBuySide o)) (securityId o) os) \/
  company o = company x.
Proof.
  intros Hnd Hx He. unfold eligible in He.
  apply andb_false_iff in He as [He|He].
  - left. intros Hin. apply In_side_list in Hin as (y & Hy & Hi & Hs).
    rewrite (NoDup_ids_inj os y x) in Hs by auto. congruence.
  - right. apply negb_false_iff in He. now apply String.eqb_eq.
Qed.

Lemma matchOrderInCache_keeps order c o x :
  wf c -> deref (_orders c) order = Some o ->
  In x (_orders c) -> orderId x <> order -> eligible o x = false ->
  In x (_orders (snd (matchOrderInCache order c))).
Proof.
  intros Hwf Ho Hx Hne He.
  destruct (matchOrderInCache_unfold order c o Hwf Ho)
    as [(_ & _ & -> & _)|(_ & _ & _ & -> & _)]; [assumption|].
  apply (match_loop_keeps order _ (_orders c) 0 o); auto.
  - apply Hwf.
  - apply eligible_false_cps; auto. apply Hwf.
Qed.

(** ** Fields that an add or a cancel leaves alone *)

Lemma cancelSingleOrder_matched id m c :
  _matchedQuantity (cancelSingleOrder id m c) = _matchedQuantity c /\
  _multiThread (cancelSingleOrder id m c) = _multiThread c.
Proof.
  unfold cancelSingleOrder.
  destruct (_orderIndex c !! id); [|auto].
  destruct (deref (_orders c) _) as [o|]; [|auto].
  destruct ((0 <? m) && (qty o <? m)); [auto|].
  destruct (isBuySide o); auto.
Qed.

Lemma addOrder_lazy_new o c :
  exists_ c (orderId o) = false ->
  _orders (addOrder false o c) = o :: _orders c /\
  _matchedQuantity (addOrder false o c) = _matchedQuantity c /\
  _multiThread (addOrder false o c) = _multiThread c.
Proof.
  intros Ex. unfold addOrder. rewrite Ex. destruct (isBuySide o); auto.
Qed.

Lemma deref_head o os : deref (o :: os) (orderId o) = Some o.
Proof.
  unfold deref. simpl. now rewrite (proj2 (points_to_true (orderId o) o)).
Qed.

Lemma reduced_orderId x x' : reduced x x' -> orderId x' = orderId x.
Proof. intros [H _]. now apply (f_equal orderId) in H. Qed.

Lemma reduced_statics os os' : Forall2 reduced os os' -> statics os' = statics os.
Proof.
  induction 1 as [|x x' os os' [Hs _] _ IH]; simpl; [reflexivity|].
  now rewrite Hs, IH.
Qed.

(** Indexes of two well-formed caches over the same orders read alike. *)
Lemma wf_same_orders c c' :
  wf c -> wf c' -> statics (_orders c') = statics (_orders c) ->
  _orderIndex c' = _orderIndex c /\
  (forall u, at_key ∅ u (_userOrdersIndex c') =
             at_key ∅ u (_userOrdersIndex c)) /\
  (forall s, at_key ∅ s (_securityOrdersIndex c') =
             at_key ∅ s (_securityOrdersIndex c)) /\
  (forall s, at_key [] s (_securityLongOrdersIndex c') =
             at_key [] s (_securityLongOrdersIndex c)) /\
  (forall s, at_key [] s (_securityShortOrdersIndex c') =
             at_key [] s (_securityShortOrdersIndex c)).
Proof.
  intros Hwf Hwf' Hst. pose proof (statics_ids _ _ Hst) as Hids.
  repeat split.
  - apply map_eq. intros i.
    destruct (_orderIndex c' !! i) as [p|] eqn:E1,
             (_orderIndex c !! i) as [p0|] eqn:E2; try reflexivity.
    + apply (wf_index c' Hwf') in E1 as [-> _].
      apply (wf_index c Hwf) in E2 as [-> _]. reflexivity.
    + apply (wf_index c' Hwf') in E1 as [-> Hin]. rewrite Hids in Hin.
      assert (H : _orderIndex c !! i = Some i) by now apply (wf_index c Hwf).
      congruence.
    + apply (wf_index c Hwf) in E2 as [-> Hin]. rewrite <- Hids in Hin.
      assert (H : _orderIndex c' !! i = Some i) by now apply (wf_index c' Hwf').
      congruence.
  - intros u. apply set_eq. intros i.
    rewrite (wf_user c Hwf), (wf_user c' Hwf').
    apply (In_statics_eq (fun o => orderId o = i /\ user o = u));
      [intros o; reflexivity | assumption].
  - intros s. apply set_eq. intros i.
    rewrite (wf_sec c Hwf), (wf_sec c' Hwf').
    apply (In_statics_eq (fun o => orderId o = i /\ securityId o = s));
      [intros o; reflexivity | assumption].
  - intros s. rewrite (wf_long c Hwf), (wf_long c' Hwf').
    now apply side_list_statics_eq.
  - intros s. rewrite (wf_short c Hwf), (wf_short c' Hwf').
    now apply side_list_statics_eq.
Qed.

(** ** The repository's own tests, on the model *)

Example test_U7_scenarioB :
  let c := add_all true scenarioB empty_cache in
  query true "SecId1" c = Some 300 /\
  query true "SecId2" c = Some 1000 /\
  query true "SecId3" c = Some 600.
Proof. vm_compute. auto. Qed.

Example test_U8_scenarioC :
  let c := add_all true scenarioC empty_cache in
  query true "SecId1" c = Some 900 /\
  query true "SecId2" c = Some 600 /\
  query true "SecId3" c = Some 0.
Proof. vm_compute. auto. Qed.

Example test_O2_M2 :
  query true "SecId2" (add_all true testO2 empty_cache) = Some 7500 /\
  query true "SecId2" (add_all true testM2 empty_cache) = Some 6500.
Proof. vm_compute. auto. Qed.

Example test_C2_scenarioF :
  (fun c => List.map orderId (getAllOrders c)) <$>
    cancelOrdersForSecIdWithMinimumQty 4 "SecId1" 300
      (add_all true scenarioF empty_cache) = Some ["1"].
Proof. vm_compute. reflexivity. Qed.

Example test_X2_order_members :
  let o := Order_new "Ord1" "SecId1" "Buy" 10 "User1" "CompanyA" in
  workingQty (fillLots 6 o) = 4 /\
  filledQty (fillLots 6 o) = 6 /\
  isFilled (fillLots 4 (fillLots 6 o)) = true /\
  workingQty (unfillLots 6 (fillLots 4 (fillLots 6 o))) = 6 /\
  workingQty (resetFills (fillLots 6 o)) = 10.
Proof. vm_compute. auto. Qed.

Example test_U7_scenarioB_lazy :
  let c := add_all false scenarioB (set_multiThread false empty_cache) in
  query false "SecId1" c = Some 300 /\
  query false "SecId2" c = Some 1000 /\
  query false "SecId3" c = Some 600.
Proof. vm_compute. auto. Qed.

(** Any side other than the literal "Sell" is a buy. *)
Example isBuySide_literals :
  isBuySide (Order_new "1" "S" "Buy" 1 "U" "C") = true /\
  isBuySide (Order_new "1" "S" "Sell" 1 "U" "C") = false /\
  isBuySide (Order_new "1" "S" "sell" 1 "U" "C") = true.
Proof. vm_compute. auto. Qed.

(** ** Scenario A *)

(** C1: from an empty cache in eager mode, after the eight orders of
    Scenario A, [getMatchingSizeForSecurity] returns 0 for SecId1, 2700 for
    SecId2 and 0 for SecId3. *)
Theorem scenarioA_matching_sizes :
  let c := add_all true scenarioA empty_cache in
  query true "SecId1" c = Some 0 /\
  query true "SecId2" c = Some 2700 /\
  query true "SecId3" c = Some 0.
Proof. vm_compute. auto. Qed.
(** ** The matcher refines its specification *)

Lemma fillLots_spec n o :
  Order_ok o -> 0 <= n -> fillLots n o = spec_fill_order n o.
Proof.
  intros Hok Hn. pose proof (fillLots_workingQty n o Hok Hn) as Hw.
  unfold spec_fill_order. rewrite <- Hw.
  unfold fillLots. destruct (n <? workingQty o); reflexivity.
Qed.

Lemma modify_fillLots_spec p n os :
  Forall Order_ok os -> 0 <= n ->
  modify p (fillLots n) os = modify p (spec_fill_order n) os.
Proof.
  intros Hok Hn. unfold modify. apply List.map_ext_in. intros x Hx.
  rewrite Forall_forall in Hok.
  rewrite fillLots_spec; [reflexivity| |assumption].
  apply Hok. now apply list_elem_of_In.
Qed.

Lemma spec_scan_0 C L : spec_scan C 0 L = [].
Proof. destruct L; reflexivity. Qed.

Lemma ids_candidates o os :
  ids (candidates o os) = side_list (negb (isBuySide o)) (securityId o) os.
Proof. unfold candidates, side_list, ids. apply map_rev. Qed.

Lemma In_candidates o os X :
  In X (candidates o os) <->
  In X os /\ on_side (negb (isBuySide o)) (securityId o) X = true.
Proof. unfold candidates. rewrite <- in_rev. apply filter_In. Qed.

Lemma match_loop_spec O : forall L os acc o,
  NoDup (ids os) -> Forall Order_ok os ->
  deref os O = Some o -> workingQty o <> 0 ->
  (forall X, In X L -> In X os /\ orderId X <> O) ->
  NoDup (ids L) ->
  0 <= acc -> acc + workingQty o < UINT_MODULUS ->
  match_loop O (ids L) os acc =
  (spec_fill O (spec_scan (company o) (workingQty o) L) os,
   acc + spec_total (spec_scan (company o) (workingQty o) L)).
Proof.
  induction L as [|X rest IH]; intros os acc o Hnd Hok Ho Hw HL HndL Hacc Hsum.
  { simpl. now rewrite Z.add_0_r. }
  assert (HX : In X os /\ orderId X <> O) by (apply HL; now left).
  destruct HX as [HXin HXne].
  assert (Hrest : forall Y, In Y rest -> In Y os /\ orderId Y <> O)
    by (intros Y HY; apply HL; now right).
  simpl in HndL. apply NoDup_cons in HndL as [HXrest HndL].
  pose proof (deref_In os X Hnd HXin) as HdX.
  pose proof (deref_ok _ _ _ Hok Ho) as [Hwo Hqo].
  pose proof (deref_ok _ _ _ Hok HdX) as [HwX HqX].
  cbn [ids List.map match_loop spec_scan]. fold (ids rest).
  rewrite Ho, HdX. rewrite (proj2 (Z.eqb_neq _ _) Hw).
  rewrite (String.eqb_sym (company o) (company X)).
  destruct (isFilled X || String.eqb (company X) (company o)) eqn:Eskip;
    [now apply IH|].
  cbv zeta.
  destruct (Z.eqb_spec (Z.min (workingQty o) (workingQty X)) 0) as [E0|E0];
    [now apply IH|].
  set (m := Z.min (workingQty o) (workingQty X)) in *.
  assert (Hm : 0 < m <= workingQty o) by (unfold m in *; lia).
  set (os1 := modify O (fillLots m) os).
  set (os2 := modify (orderId X) (fillLots m) os1).
  assert (Hok1 : Forall Order_ok os1)
    by fills_ok.
  assert (Hok2 : Forall Order_ok os2)
    by fills_ok.
  assert (Ho2 : deref os2 O = Some (fillLots m o)).
  { unfold os2, os1. rewrite deref_modify_other by auto with node_db.
    apply deref_modify_same; auto with node_db. }
  assert (Hwq : workingQty (fillLots m o) = workingQty o - m)
    by (apply fillLots_exact; lia).
  assert (Hspec2 : os2 =
    modify (orderId X) (spec_fill_order m) (modify O (spec_fill_order m) os)).
  { unfold os2. rewrite modify_fillLots_spec by (auto; lia).
    unfold os1. now rewrite (modify_fillLots_spec O) by (auto; lia). }
  rewrite Ho2, (wrap32_small (acc + m)) by (unfold is_uint; lia).
  unfold isFilled at 1. rewrite Hwq.
  destruct (Z.eqb_spec (workingQty o - m) 0) as [Ef|Ef].
  - rewrite Ef, spec_scan_0. simpl. rewrite Hspec2. f_equal. lia.
  - rewrite (IH os2 (acc + m) (fillLots m o)); try assumption; try lia.
    + rewrite company_fillLots, Hwq. simpl. rewrite Hspec2. f_equal. lia.
    + unfold os2, os1. now rewrite !ids_modify by apply orderId_fillLots.
    + intros Y HY. destruct (Hrest Y HY) as [HYin HYne].
      split; [|assumption]. unfold os2, os1.
      apply In_modify_other; [apply In_modify_other; assumption|].
      intros E. apply HXrest. rewrite <- E. apply list_elem_of_In.
      now apply in_map.
Qed.

Lemma candidates_not_subject c O o X :
  wf c -> deref (_orders c) O = Some o ->
  In X (candidates o (_orders c)) -> In X (_orders c) /\ orderId X <> O.
Proof.
  intros Hwf Ho HX. apply In_candidates in HX as [HXin Hs].
  split; [assumption|]. intros E.
  apply deref_Some in Ho as [Hoin Hoid].
  assert (X = o) by (apply (NoDup_ids_inj (_orders c)); auto;
                     [apply Hwf | congruence]).
  subst X. apply on_side_true in Hs as [Hs _].
  destruct (isBuySide o); discriminate.
Qed.

(** C2: for every well-formed cache and every live order [O] (in
    particular the order [addOrder] has just admitted), one call of the
    matcher does what the specification says.  Its pairings are those of
    [spec_scan] over the opposite-side list of [O]'s security in insertion
    order (filled and same-company candidates skipped, [m = min] of the two
    working quantities, zero skipped, stop when [O] is filled); both sides
    of each pairing are filled by [m] and no other order changes; the
    returned value is the sum of the paired amounts; and that sum is added
    (in [unsigned int] arithmetic) to the match cache of [O]'s security,
    every other security keeping its value; the sum is at most [O]'s working
    quantity, and below 2^32 the addition is exact.  The remaining indexes
    read as before. *)
Theorem matchOrderInCache_refines_spec
    (c : OrderCache) (O : order_ptr) (o : Order) :
  wf c -> deref (_orders c) O = Some o ->
  let pairs :=
    spec_scan (company o) (workingQty o) (candidates o (_orders c)) in
  let r := matchOrderInCache O c in
  fst r = spec_total pairs /\
  _orders (snd r) = spec_fill O pairs (_orders c) /\
  (forall q,
     getMatchedQuantityInCache (snd r) q =
     if String.eqb q (securityId o)
     then wrap32 (getMatchedQuantityInCache c q + spec_total pairs)
     else getMatchedQuantityInCache c q) /\
  0 <= spec_total pairs <= workingQty o /\
  (getMatchedQuantityInCache c (securityId o) + spec_total pairs
     < UINT_MODULUS ->
   getMatchedQuantityInCache (snd r) (securityId o) =
   getMatchedQuantityInCache c (securityId o) + spec_total pairs) /\
  _orderIndex (snd r) = _orderIndex c /\
  _userOrdersIndex (snd r) = _userOrdersIndex c /\
  _securityOrdersIndex (snd r) = _securityOrdersIndex c /\
  (forall s, at_key [] s (_securityLongOrdersIndex (snd r)) =
             at_key [] s (_securityLongOrdersIndex c)) /\
  (forall s, at_key [] s (_securityShortOrdersIndex (snd r)) =
             at_key [] s (_securityShortOrdersIndex c)).
Proof.
  intros Hwf Ho. cbv zeta.
  destruct (matchOrderInCache_frame O c) as (_ & Hi & Hu & Hs & Hl & Hsh).
  cbv zeta in *.
  assert (Hmain :
    fst (matchOrderInCache O c) =
      spec_total (spec_scan (company o) (workingQty o)
                    (candidates o (_orders c))) /\
    _orders (snd (matchOrderInCache O c)) =
      spec_fill O (spec_scan (company o) (workingQty o)
                     (candidates o (_orders c))) (_orders c)).
  { pose proof (deref_ok _ _ _ (wf_ok c Hwf) Ho) as [Hw Hq].
    destruct (matchOrderInCache_unfold O c o Hwf Ho)
      as [(Hearly & -> & -> & _)|(Ef & _ & -> & -> & _)].
    - destruct Hearly as [Ef|Hnil].
      + unfold isFilled in Ef. apply Z.eqb_eq in Ef. rewrite Ef, spec_scan_0.
        split; reflexivity.
      + rewrite <- ids_candidates in Hnil.
        destruct (candidates o (_orders c)); [split; reflexivity|discriminate].
    - rewrite <- ids_candidates.
      rewrite (match_loop_spec O (candidates o (_orders c)) (_orders c) 0 o).
      + split; reflexivity.
      + apply Hwf.
      + apply Hwf.
      + assumption.
      + unfold isFilled in Ef. now apply Z.eqb_neq in Ef.
      + intros X HX. now apply (candidates_not_subject c O o X).
      + rewrite ids_candidates. apply NoDup_side_list, Hwf.
      + lia.
      + lia. }
  destruct Hmain as [Hr Hos].
  destruct (matchOrderInCache_cache O c o Hwf Ho) as [Hm Hq].
  rewrite Hr in Hq, Hm.
  split; [exact Hr|]. split; [exact Hos|]. split; [exact Hq|].
  split; [exact Hm|]. split.
  { intros Hlt. rewrite Hq, String.eqb_refl.
    pose proof (getMatched_uint c (securityId o) Hwf) as Hcache.
    apply wrap32_small. unfold is_uint in *. lia. }
  repeat split; assumption.
Qed.

Lemma matchOrderInCache_refines_spec_witness :
  let c := addOrder false
             (Order_new "OrdId8" "SecId2" "Sell" 5000 "User8" "CompanyE")
             (add_all true (take 7 scenarioA) empty_cache) in
  let o := Order_new "OrdId8" "SecId2" "Sell" 5000 "User8" "CompanyE" in
  wf c /\ deref (_orders c) "OrdId8" = Some o /\
  spec_scan (company o) (workingQty o) (candidates o (_orders c)) =
    [("OrdId5", 100)] /\
  fst (matchOrderInCache "OrdId8" c) = 100.
Proof.
  cbv zeta.
  set (o := Order_new "OrdId8" "SecId2" "Sell" 5000 "User8" "CompanyE").
  set (c := addOrder false o _).
  assert (Hwf : wf c).
  { apply addOrder_wf.
    - apply add_all_wf; [apply wf_empty|].
      repeat constructor; vm_compute; intuition discriminate.
    - vm_compute. intuition discriminate. }
  assert (Hd : deref (_orders c) "OrdId8" = Some o) by (vm_compute; reflexivity).
  split; [exact Hwf|]. split; [exact Hd|]. split; [vm_compute; reflexivity|].
  destruct (matchOrderInCache_refines_spec c "OrdId8" o Hwf Hd) as [H _].
  rewrite H. vm_compute. reflexivity.
Defined.

(** ** Pairings commute when they share no order *)

Lemma modify_comm p p' f g os :
  p <> p' ->
  (forall o, orderId (f o) = orderId o) ->
  (forall o, orderId (g o) = orderId o) ->
  modify p f (modify p' g os) = modify p' g (modify p f os).
Proof.
  intros Hne Hf Hg. unfold modify. rewrite !List.map_map.
  apply List.map_ext. intros o.
  assert (Hpf : forall q x, points_to q (f x) = points_to q x)
    by (intros; unfold points_to; now rewrite Hf).
  assert (Hpg : forall q x, points_to q (g x) = points_to q x)
    by (intros; unfold points_to; now rewrite Hg).
  destruct (points_to p o) eqn:E, (points_to p' o) eqn:E';
    rewrite ?Hpf, ?Hpg, ?E, ?E'; try reflexivity.
  apply points_to_true in E, E'. congruence.
Qed.

Lemma deref_trade_other x y p st :
  p <> x -> p <> y -> deref (trade x y st) p = deref st p.
Proof.
  intros Hx Hy. unfold trade. destruct (trade_qty x y st =? 0); [reflexivity|].
  rewrite !deref_modify_other by auto with node_db. reflexivity.
Qed.

Lemma trade_qty_other x y x' y' st :
  x <> x' -> x <> y' -> y <> x' -> y <> y' ->
  trade_qty x y (trade x' y' st) = trade_qty x y st.
Proof.
  intros H1 H2 H3 H4. unfold trade_qty.
  now rewrite !deref_trade_other by assumption.
Qed.

Lemma trade_comm x y x' y' st :
  x <> x' -> x <> y' -> y <> x' -> y <> y' ->
  trade x y (trade x' y' st) = trade x' y' (trade x y st).
Proof.
  intros H1 H2 H3 H4. unfold trade at 1 3.
  rewrite !trade_qty_other by auto.
  unfold trade.
  destruct (trade_qty x y st =? 0), (trade_qty x' y' st =? 0); try reflexivity.
  rewrite (modify_comm x y') by auto with node_db.
  rewrite (modify_comm x x') by auto with node_db.
  rewrite (modify_comm y y') by auto with node_db.
  rewrite (modify_comm y x') by auto with node_db.
  reflexivity.
Qed.

Lemma trade_qty_sym x y st : trade_qty x y st = trade_qty y x st.
Proof.
  unfold trade_qty. destruct (deref st x) as [a|], (deref st y) as [b|];
    try reflexivity.
  rewrite (String.eqb_sym (company a)), (Z.min_comm (workingQty a)).
  destruct (isFilled a), (isFilled b); reflexivity.
Qed.

Lemma trade_sym x y st : x <> y -> trade x y st = trade y x st.
Proof.
  intros Hne. unfold trade. rewrite (trade_qty_sym y x).
  destruct (trade_qty x y st =? 0); [reflexivity|].
  apply modify_comm; auto with node_db.
Qed.

Section Runs.

(** The security whose matched lots are counted. *)
Variable s : string.

Lemma step_pairing_comm p q a :
  apart p q ->
  step_pairing s p (step_pairing s q a) = step_pairing s q (step_pairing s p a).
Proof.
  destruct p as [[t x] y], q as [[t' x'] y'], a as [st T].
  unfold apart. simpl. intros (H1 & H2 & H3 & H4).
  rewrite (trade_comm x y x' y') by assumption.
  rewrite (trade_qty_other x y x' y') by assumption.
  rewrite (trade_qty_other x' y' x y) by auto.
  f_equal. destruct (String.eqb t s), (String.eqb t' s); lia.
Qed.

Lemma step_pairing_sym t x y a :
  x <> y -> step_pairing s (t, x, y) a = step_pairing s (t, y, x) a.
Proof.
  intros Hne. unfold step_pairing.
  now rewrite (trade_sym x y) by assumption; rewrite (trade_qty_sym x y).
Qed.

Lemma apart_sym p q : apart p q -> apart q p.
Proof. unfold apart. intuition congruence. Qed.

Lemma run_pairings_app P Q a :
  run_pairings s (P ++ Q) a = run_pairings s Q (run_pairings s P a).
Proof. apply foldl_app. Qed.

Lemma run_pairings_comm p Q : forall a,
  (forall q, In q Q -> apart p q) ->
  step_pairing s p (run_pairings s Q a) = run_pairings s Q (step_pairing s p a).
Proof.
  induction Q as [|q Q IH]; intros a H; simpl; [reflexivity|].
  rewrite IH by (intros; apply H; now right).
  f_equal. apply step_pairing_comm, H. now left.
Qed.

Lemma run_pairings_comm_list P Q : forall a,
  (forall p q, In p P -> In q Q -> apart p q) ->
  run_pairings s P (run_pairings s Q a) = run_pairings s Q (run_pairings s P a).
Proof.
  induction P as [|p P IH]; intros a H; simpl; [reflexivity|].
  rewrite <- IH by (intros; apply H; [now right|assumption]).
  f_equal. apply run_pairings_comm. intros q Hq.
  apply H; [now left|assumption].
Qed.

(** Pairings of another security can be moved behind those of [s]. *)
Lemma run_pairings_partition (sel : pairing -> bool) P : forall a,
  (forall p q, In p P -> In q P -> sel p = false -> sel q = true -> apart p q) ->
  run_pairings s P a =
  run_pairings s (List.filter (fun p => negb (sel p)) P)
    (run_pairings s (List.filter sel P) a).
Proof.
  induction P as [|p P IH]; intros a H; simpl; [reflexivity|].
  rewrite IH by (intros; apply H; auto; now right).
  destruct (sel p) eqn:E; simpl; [reflexivity|].
  f_equal. symmetry. apply run_pairings_comm. intros q Hq.
  apply filter_In in Hq as [Hq Hs]. apply H; auto; [now left|now right].
Qed.

(** Pairings of another security do not add to the count of [s]. *)
Lemma run_pairings_unlabelled P : forall a,
  (forall p, In p P -> label_is s p = false) ->
  snd (run_pairings s P a) = snd a.
Proof.
  induction P as [|p P IH]; intros a H; simpl; [reflexivity|].
  rewrite IH by (intros; apply H; now right).
  destruct p as [[t x] y]. simpl.
  specialize (H (t, x, y) (or_introl eq_refl)). unfold label_is in H.
  simpl in H. now rewrite H.
Qed.

End Runs.

(** ** Eager and lazy orders of the pairings of one security *)

Lemma filter_against s t x ys :
  List.filter (label_is s) (against t x ys) =
  if String.eqb t s then against t x ys else [].
Proof.
  unfold against. induction ys as [|y ys IH]; simpl.
  - now destruct (String.eqb t s).
  - unfold label_is at 1. simpl. rewrite IH.
    now destruct (String.eqb t s).
Qed.

Lemma In_against t x ys q :
  In q (against t x ys) -> exists y, In y ys /\ q = (t, x, y).
Proof.
  unfold against. rewrite in_map_iff. intros (y & <- & Hy). eauto.
Qed.

Lemma side_list_ids b s os i : In i (side_list b s os) -> In i (ids os).
Proof.
  intros H. apply In_side_list in H as (o & Ho & Hi & _). apply In_ids. eauto.
Qed.

Lemma side_lists_disjoint s os i :
  NoDup (ids os) ->
  In i (side_list true s os) -> In i (side_list false s os) -> False.
Proof.
  intros Hnd H1 H2.
  apply In_side_list in H1 as (o1 & Ho1 & Hi1 & Hs1).
  apply In_side_list in H2 as (o2 & Ho2 & Hi2 & Hs2).
  assert (o1 = o2) by (apply (NoDup_ids_inj os); auto; congruence). subst o2.
  apply on_side_true in Hs1 as [E1 _]. apply on_side_true in Hs2 as [E2 _].
  congruence.
Qed.

Lemma late_seller s o ss : forall bs a,
  NoDup bs -> ~ In o bs -> ~ In o ss ->
  (forall i, In i bs -> In i ss -> False) ->
  run_pairings s (flat_map (fun b => against s b ss ++ [(s, b, o)]) bs) a =
  run_pairings s (against s o bs)
    (run_pairings s (flat_map (fun b => against s b ss) bs) a).
Proof.
  induction bs as [|b1 bs IH]; intros a Hnd Hob Hos Hdis; [reflexivity|].
  apply NoDup_cons in Hnd as [Hb1 Hnd].
  cbn [flat_map against List.map]. fold (against s o bs).
  rewrite !run_pairings_app. cbn [run_pairings foldl].
  fold (run_pairings s (against s b1 ss) a).
  set (a1 := run_pairings s (against s b1 ss) a).
  change (foldl (fun acc p => step_pairing s p acc)
            (step_pairing s (s, b1, o) a1)
            (flat_map (fun b => against s b ss ++ [(s, b, o)]) bs))
    with (run_pairings s (flat_map (fun b => against s b ss ++ [(s, b, o)]) bs)
            (step_pairing s (s, b1, o) a1)).
  rewrite IH; try assumption.
  2:{ intros H. apply Hob. now right. }
  2:{ intros i Hi. apply Hdis. now right. }
  change (foldl (fun acc p => step_pairing s p acc)
            (step_pairing s (s, o, b1)
               (run_pairings s (flat_map (fun b => against s b ss) bs) a1))
            (against s o bs))
    with (run_pairings s (against s o bs)
            (step_pairing s (s, o, b1)
               (run_pairings s (flat_map (fun b => against s b ss) bs) a1))).
  f_equal.
  rewrite (step_pairing_sym s s o b1) by (intros ->; apply Hob; now left).
  symmetry. apply run_pairings_comm. intros q Hq.
  apply in_flat_map in Hq as (b & Hb & Hq).
  apply In_against in Hq as (x & Hx & ->).
  unfold apart. simpl. repeat split.
  - intros ->. apply Hb1. now apply list_elem_of_In.
  - intros ->. apply (Hdis x); [now left|assumption].
  - intros ->. apply Hob. now right.
  - intros ->. now apply Hos.
Qed.

Lemma on_side_other_security b s o :
  securityId o <> s -> on_side b s o = false.
Proof.
  intros H. destruct (on_side b s o) eqn:E; [|reflexivity].
  apply on_side_true in E as [_ E]. contradiction.
Qed.

Theorem pairs_eager_lazy s os : forall a,
  NoDup (ids os) ->
  run_pairings s (List.filter (label_is s) (pairsE os)) a =
  run_pairings s (pairsL s os) a.
Proof.
  induction os as [|o rest IH]; intros a Hnd; [reflexivity|].
  simpl in Hnd. apply NoDup_cons in Hnd as [Ho Hnd].
  rewrite list_elem_of_In in Ho. fold (ids rest) in Ho, Hnd.
  cbn [pairsE]. rewrite List.filter_app, filter_against, run_pairings_app.
  rewrite IH by assumption.
  unfold pairsL. rewrite !side_list_cons.
  destruct (String.eqb_spec (securityId o) s) as [Es|Es].
  - subst s. destruct (isBuySide o) eqn:Eb.
    + rewrite (proj2 (on_side_true true _ o)) by auto.
      replace (on_side false (securityId o) o) with false
        by (symmetry; unfold on_side; now rewrite Eb).
      rewrite flat_map_app, run_pairings_app. simpl. now rewrite app_nil_r.
    + rewrite (proj2 (on_side_true false _ o)) by auto.
      replace (on_side true (securityId o) o) with false
        by (symmetry; unfold on_side; now rewrite Eb).
      simpl negb.
      set (ss := side_list false (securityId o) rest).
      set (bs := side_list true (securityId o) rest).
      rewrite (flat_map_ext
        (fun b => against (securityId o) b (ss ++ [orderId o]))
        (fun b => against (securityId o) b ss ++ [(securityId o, b, orderId o)])).
      2:{ intros b. unfold against. now rewrite List.map_app. }
      symmetry. apply late_seller.
      * now apply NoDup_side_list.
      * intros H. apply Ho. eapply side_list_ids, H.
      * intros H. apply Ho. eapply side_list_ids, H.
      * intros i. now apply side_lists_disjoint.
  - rewrite !on_side_other_security by assumption. reflexivity.
Qed.

(** Every pairing of [pairsE] joins two accepted orders of the security
    it is labelled with. *)
Lemma pairsE_orders os p :
  In p (pairsE os) ->
  exists ox oy, In ox os /\ In oy os /\
    orderId ox = snd (fst p) /\ orderId oy = snd p /\
    securityId ox = fst (fst p) /\ securityId oy = fst (fst p).
Proof.
  induction os as [|o rest IH]; simpl; [tauto|].
  rewrite in_app_iff. intros [H|H].
  - destruct (IH H) as (ox & oy & Hx & Hy & Hrest). exists ox, oy. auto.
  - apply In_against in H as (y & Hy & ->).
    apply In_side_list in Hy as (oy & Hoy & Hi & Hs).
    apply on_side_true in Hs as [_ Hs].
    exists o, oy. simpl. auto 10.
Qed.

Lemma pairsE_apart s os p q :
  NoDup (ids os) -> In p (pairsE os) -> In q (pairsE os) ->
  label_is s p = false -> label_is s q = true -> apart p q.
Proof.
  intros Hnd Hp Hq Lp Lq.
  destruct (pairsE_orders os p Hp) as (px & py & Hpx & Hpy & Ipx & Ipy & Spx & Spy).
  destruct (pairsE_orders os q Hq) as (qx & qy & Hqx & Hqy & Iqx & Iqy & Sqx & Sqy).
  unfold label_is in Lp, Lq. apply String.eqb_neq in Lp. apply String.eqb_eq in Lq.
  assert (Hd : forall a b, In a os -> In b os ->
            securityId a = fst (fst p) -> securityId b = fst (fst q) ->
            orderId a <> orderId b).
  { intros a b Ha Hb Sa Sb E.
    assert (a = b) by now apply (NoDup_ids_inj os). subst b. congruence. }
  unfold apart. rewrite <- Ipx, <- Ipy, <- Iqx, <- Iqy.
  repeat split; apply Hd; assumption.
Qed.

(** The lots matched for [s] are the same in both orders. *)
Theorem pairs_eager_lazy_total s os st :
  NoDup (ids os) ->
  snd (run_pairings s (pairsE os) (st, 0)) =
  snd (run_pairings s (pairsL s os) (st, 0)).
Proof.
  intros Hnd.
  rewrite (run_pairings_partition s (label_is s)).
  2:{ intros p q Hp Hq Lp Lq. now apply (pairsE_apart s os). }
  rewrite run_pairings_unlabelled.
  2:{ intros p Hp. apply filter_In in Hp as [_ Hp]. now apply negb_true_iff. }
  now rewrite pairs_eager_lazy.
Qed.

(** ** The matcher loop as a run of pairings *)

Lemma run_pairings_cons s p P a :
  run_pairings s (p :: P) a = run_pairings s P (step_pairing s p a).
Proof. reflexivity. Qed.

Lemma run_pairings_shift s P : forall st T,
  run_pairings s P (st, T) =
  (fst (run_pairings s P (st, 0)), T + snd (run_pairings s P (st, 0))).
Proof.
  induction P as [|[[t x] y] P IH]; intros st T; simpl.
  - f_equal. lia.
  - fold (run_pairings s P). destruct (String.eqb t s).
    + rewrite (IH _ (T + _)), (IH _ (0 + _)). simpl. f_equal. lia.
    + apply IH.
Qed.

Lemma run_pairings_fst s s' P : forall st T T',
  fst (run_pairings s P (st, T)) = fst (run_pairings s' P (st, T')).
Proof.
  induction P as [|[[t x] y] P IH]; intros st T T'; simpl; [reflexivity|].
  apply IH.
Qed.

Lemma run_pairings_labelled s t x ys st T :
  snd (run_pairings s (against t x ys) (st, T)) =
  if String.eqb t s
  then T + snd (run_pairings t (against t x ys) (st, 0))
  else T.
Proof.
  destruct (String.eqb_spec t s) as [->|Hne].
  - now rewrite run_pairings_shift.
  - rewrite run_pairings_unlabelled; [reflexivity|].
    intros p Hp. apply In_against in Hp as (y & _ & ->).
    unfold label_is. simpl. now apply String.eqb_neq.
Qed.

Lemma statics_trade x y st : statics (trade x y st) = statics st.
Proof.
  unfold trade. destruct (trade_qty x y st =? 0); [reflexivity|].
  now rewrite !statics_modify.
Qed.

Lemma run_pairings_statics s P : forall a,
  statics (fst (run_pairings s P a)) = statics (fst a).
Proof.
  induction P as [|[[t x] y] P IH]; intros a; simpl; [reflexivity|].
  fold (run_pairings s P). rewrite IH. simpl. apply statics_trade.
Qed.

Lemma trade_qty_filled_subject O y st o :
  deref st O = Some o -> isFilled o = true -> trade_qty O y st = 0.
Proof.
  intros Ho Hf. unfold trade_qty. rewrite Ho.
  destruct (deref st y); [|reflexivity]. now rewrite Hf.
Qed.

Lemma run_pairings_filled_subject s t O o ys st T :
  deref st O = Some o -> isFilled o = true ->
  run_pairings s (against t O ys) (st, T) = (st, T).
Proof.
  intros Ho Hf. induction ys as [|y ys IH]; [reflexivity|].
  cbn [against List.map]. fold (against t O ys).
  rewrite run_pairings_cons. cbn [step_pairing fst snd].
  unfold trade. rewrite (trade_qty_filled_subject O y st o Ho Hf). simpl.
  rewrite Z.add_0_r. destruct (String.eqb t s); exact IH.
Qed.

Lemma deref_modify_is_Some p p' f os :
  (forall o, orderId (f o) = orderId o) ->
  is_Some (deref os p') -> is_Some (deref (modify p f os) p').
Proof.
  intros Hf [o Ho]. rewrite deref_modify by assumption. rewrite Ho.
  destruct (String.eqb p p'); simpl; eauto.
Qed.

Lemma match_loop_pairings t O : forall cps os acc o,
  Forall Order_ok os -> deref os O = Some o ->
  (forall x, In x cps -> x <> O /\ is_Some (deref os x)) ->
  0 <= acc -> acc + workingQty o < UINT_MODULUS ->
  match_loop O cps os acc =
  (fst (run_pairings t (against t O cps) (os, 0)),
   acc + snd (run_pairings t (against t O cps) (os, 0))).
Proof.
  induction cps as [|cp rest IH]; intros os acc o Hok Ho Hcps Hacc Hsum.
  { simpl. f_equal. lia. }
  destruct (Hcps cp (or_introl eq_refl)) as [Hne [c Hc]].
  assert (Hrest : forall x, In x rest -> x <> O /\ is_Some (deref os x))
    by (intros x Hx; apply Hcps; now right).
  pose proof (deref_ok _ _ _ Hok Ho) as [Hwo Hqo].
  pose proof (deref_ok _ _ _ Hok Hc) as [Hwc Hqc].
  cbn [match_loop against List.map]. fold (against t O rest).
  rewrite run_pairings_cons. cbn [step_pairing fst snd].
  rewrite String.eqb_refl, Ho, Hc.
  assert (Hq : trade_qty O cp os =
    if isFilled o || isFilled c || String.eqb (company o) (company c)
    then 0 else Z.min (workingQty o) (workingQty c))
    by (unfold trade_qty; now rewrite Ho, Hc).
  destruct (isFilled c || String.eqb (company o) (company c)) eqn:Eskip.
  { assert (Hq0 : trade_qty O cp os = 0).
    { rewrite Hq. destruct (isFilled o); simpl; [reflexivity|].
      now rewrite Eskip. }
    unfold trade. rewrite Hq0. simpl. now apply (IH os acc o). }
  destruct (Z.eqb_spec (Z.min (workingQty o) (workingQty c)) 0) as [E0|E0].
  { assert (Hq0 : trade_qty O cp os = 0).
    { rewrite Hq. destruct (isFilled o || isFilled c || _); [reflexivity|].
      assumption. }
    unfold trade. rewrite Hq0. simpl. now apply (IH os acc o). }
  set (q := Z.min (workingQty o) (workingQty c)) in *.
  apply orb_false_iff in Eskip as [Efc Ecomp].
  assert (Efo : isFilled o = false).
  { unfold isFilled in *. apply Z.eqb_neq in Efc. apply Z.eqb_neq.
    unfold q in E0. lia. }
  assert (Hqq : trade_qty O cp os = q)
    by (rewrite Hq, Efo, Efc, Ecomp; reflexivity).
  unfold trade. rewrite Hqq. rewrite (proj2 (Z.eqb_neq _ _) E0).
  set (os2 := modify cp (fillLots q) (modify O (fillLots q) os)).
  assert (Hm : 0 < q <= workingQty o) by (unfold q in *; lia).
  assert (Ho2 : deref os2 O = Some (fillLots q o)).
  { unfold os2. rewrite deref_modify_other by auto with node_db.
    apply deref_modify_same; auto with node_db. }
  assert (Hok2 : Forall Order_ok os2).
  { unfold os2.
    fills_ok. }
  assert (Hwq : workingQty (fillLots q o) = workingQty o - q)
    by (apply fillLots_exact; lia).
  rewrite Ho2, (wrap32_small (acc + q)) by (unfold is_uint; lia).
  rewrite (run_pairings_shift t _ os2 (0 + q)).
  destruct (isFilled (fillLots q o)) eqn:Ef.
  - rewrite (run_pairings_filled_subject t t O _ rest os2 0 Ho2 Ef). simpl.
    f_equal. lia.
  - rewrite (IH os2 (acc + q) (fillLots q o)); try assumption; try lia.
    + simpl. f_equal. lia.
    + intros x Hx. destruct (Hrest x Hx) as [Hxne Hxs]. split; [assumption|].
      unfold os2. apply deref_modify_is_Some; [apply orderId_fillLots|].
      apply deref_modify_is_Some; [apply orderId_fillLots|assumption].
Qed.

Lemma side_list_live c O o x :
  wf c -> deref (_orders c) O = Some o ->
  In x (side_list (negb (isBuySide o)) (securityId o) (_orders c)) ->
  x <> O /\ is_Some (deref (_orders c) x).
Proof.
  intros Hwf Ho Hx. rewrite <- ids_candidates in Hx.
  apply In_ids in Hx as (X & HX & <-).
  destruct (candidates_not_subject c O o X Hwf Ho HX) as [HXin HXne].
  split; [assumption|]. apply deref_is_Some, In_ids. eauto.
Qed.

(** One matcher call is the run of the subject against the opposite side
    list. *)
Lemma matchOrderInCache_pairings O c o :
  wf c -> deref (_orders c) O = Some o ->
  let r := run_pairings (securityId o)
             (against (securityId o) O
                (side_list (negb (isBuySide o)) (securityId o) (_orders c)))
             (_orders c, 0) in
  fst (matchOrderInCache O c) = snd r /\
  _orders (snd (matchOrderInCache O c)) = fst r.
Proof.
  intros Hwf Ho. cbv zeta.
  pose proof (deref_ok _ _ _ (wf_ok c Hwf) Ho) as [Hw Hq].
  destruct (matchOrderInCache_unfold O c o Hwf Ho)
    as [(Hearly & -> & -> & _)|(Ef & _ & -> & -> & _)].
  - destruct Hearly as [Ef | ->].
    + now rewrite (run_pairings_filled_subject _ _ O o _ _ 0 Ho Ef).
    + split; reflexivity.
  - rewrite (match_loop_pairings (securityId o) O _ (_orders c) 0 o);
      try assumption; try lia.
    + split; reflexivity.
    + apply Hwf.
    + intros x Hx. now apply (side_list_live c O o x).
Qed.

(** ** Eager matching as a run of pairings *)

Lemma deref_cons_other o st p :
  orderId o <> p -> deref (o :: st) p = deref st p.
Proof.
  intros H. unfold deref. simpl. now rewrite (proj2 (points_to_false p o)).
Qed.

Lemma modify_cons_other o st p f :
  orderId o <> p -> modify p f (o :: st) = o :: modify p f st.
Proof.
  intros H. unfold modify. simpl. now rewrite (proj2 (points_to_false p o)).
Qed.

Lemma trade_qty_cons o st x y :
  orderId o <> x -> orderId o <> y ->
  trade_qty x y (o :: st) = trade_qty x y st.
Proof.
  intros Hx Hy. unfold trade_qty. now rewrite !deref_cons_other.
Qed.

Lemma trade_cons o st x y :
  orderId o <> x -> orderId o <> y ->
  trade x y (o :: st) = o :: trade x y st.
Proof.
  intros Hx Hy. unfold trade. rewrite trade_qty_cons by assumption.
  destruct (trade_qty x y st =? 0); [reflexivity|].
  now rewrite !modify_cons_other.
Qed.

Lemma run_pairings_cons_store s o P : forall st T,
  (forall p, In p P -> orderId o <> snd (fst p) /\ orderId o <> snd p) ->
  run_pairings s P (o :: st, T) =
  (o :: fst (run_pairings s P (st, T)), snd (run_pairings s P (st, T))).
Proof.
  induction P as [|[[t x] y] P IH]; intros st T H; [reflexivity|].
  rewrite !run_pairings_cons. cbn [step_pairing fst snd].
  destruct (H (t, x, y) (or_introl eq_refl)) as [Hx Hy]. simpl in Hx, Hy.
  rewrite trade_cons, trade_qty_cons by assumption.
  apply IH. intros p Hp. apply H. now right.
Qed.

Lemma wrap32_add_l a b : wrap32 (wrap32 a + b) = wrap32 (a + b).
Proof. unfold wrap32, UINT_MODULUS. apply Zplus_mod_idemp_l. Qed.

Lemma eager_inv_statics c os0 :
  eager_inv c os0 -> statics (_orders c) = statics os0.
Proof.
  intros (_ & _ & H). destruct (H ""%string) as [-> _].
  apply run_pairings_statics.
Qed.

Lemma eager_inv_empty : eager_inv empty_cache [].
Proof.
  split; [apply wf_empty|]. split; [constructor|]. intros s. split; reflexivity.
Qed.

Lemma eager_inv_add c os0 o :
  eager_inv c os0 -> Order_ok o ->
  eager_inv (addOrder true o c) (accept os0 o).
Proof.
  intros Hinv Hoo. pose proof (eager_inv_statics c os0 Hinv) as Hst.
  destruct Hinv as (Hwf & Hnd & Hrun).
  pose proof (statics_ids _ _ Hst) as Hids.
  assert (Hex : exists_ c (orderId o) = has_id (orderId o) os0).
  { apply eq_true_iff_eq. rewrite (exists_true c _ Hwf), has_id_true.
    now rewrite Hids. }
  unfold accept. rewrite <- Hex.
  rewrite addOrder_eager_lazy.
  destruct (exists_ c (orderId o)) eqn:Ex;
    [split; [assumption|]; split; [assumption|exact Hrun]|].
  assert (Hni : ~ In (orderId o) (ids os0)).
  { rewrite <- Hids. now apply (exists_false c _ Hwf). }
  destruct (addOrder_lazy_new o c Ex) as (Hos0 & Hmq0 & _).
  pose proof (addOrder_lazy_wf o c Hwf Hoo) as Hwf0.
  set (c0 := addOrder false o c) in *.
  assert (Hd : deref (_orders c0) (orderId o) = Some o)
    by (rewrite Hos0; apply deref_head).
  destruct (matchOrderInCache_pairings (orderId o) c0 o Hwf0 Hd) as [Hm Hos1].
  destruct (matchOrderInCache_cache (orderId o) c0 o Hwf0 Hd) as [_ Hq].
  rewrite Hos0 in Hm, Hos1.
  rewrite side_add_other in Hm, Hos1 by (destruct (isBuySide o); discriminate).
  rewrite (side_list_statics_eq _ _ _ _ Hst) in Hm, Hos1.
  set (t := securityId o) in *.
  set (cps := side_list (negb (isBuySide o)) t os0) in *.
  split; [now apply matchOrderInCache_wf|].
  split.
  { simpl. apply NoDup_cons. split; [now rewrite list_elem_of_In|assumption]. }
  intros s. destruct (Hrun s) as [HR1 HR2].
  cbn [pairsE]. fold t. fold cps. rewrite run_pairings_app.
  rewrite run_pairings_cons_store.
  2:{ intros p Hp.
      destruct (pairsE_orders os0 p Hp) as (ox & oy & Hx & Hy & Ix & Iy & _).
      rewrite <- Ix, <- Iy.
      split; intros E; apply Hni, In_ids; eauto. }
  rewrite <- HR1.
  set (T := snd (run_pairings s (pairsE os0) (os0, 0))) in *.
  split.
  - rewrite Hos1. apply run_pairings_fst.
  - rewrite Hq, run_pairings_labelled, Hm.
    unfold getMatchedQuantityInCache at 1 2. rewrite Hmq0.
    fold (getMatchedQuantityInCache c s). rewrite HR2.
    rewrite (String.eqb_sym s t).
    destruct (String.eqb t s); [apply wrap32_add_l | reflexivity].
Qed.

Lemma eager_inv_add_all os : forall c os0,
  eager_inv c os0 -> Forall Order_ok os ->
  eager_inv (add_all true os c) (foldl accept os0 os).
Proof.
  unfold add_all.
  induction os as [|o os IH]; intros c os0 Hinv Hok; simpl; [assumption|].
  apply Forall_cons in Hok as [Ho Hok]. apply IH; [|assumption].
  now apply eager_inv_add.
Qed.

(** ** Lazy mode: indexing, then one query *)

Lemma wf_set_multiThread b c : wf c -> wf (set_multiThread b c).
Proof. intros [H1 H2 H3 H4 H5 H6 H7 H8]. split; assumption. Qed.

Lemma lazy_inv_add c os0 o :
  lazy_inv c os0 -> Order_ok o ->
  lazy_inv (addOrder false o c) (accept os0 o).
Proof.
  intros (Hwf & Hos & Hmt) Hoo.
  assert (Hex : exists_ c (orderId o) = has_id (orderId o) os0).
  { apply eq_true_iff_eq. rewrite (exists_true c _ Hwf), has_id_true.
    now rewrite Hos. }
  unfold accept. rewrite <- Hex.
  split; [now apply addOrder_lazy_wf|].
  destruct (exists_ c (orderId o)) eqn:Ex.
  - rewrite addOrder_dup by assumption. auto.
  - destruct (addOrder_lazy_new o c Ex) as (H1 & _ & H3).
    split; congruence.
Qed.

Lemma lazy_inv_add_all os : forall c os0,
  lazy_inv c os0 -> Forall Order_ok os ->
  lazy_inv (add_all false os c) (foldl accept os0 os).
Proof.
  unfold add_all.
  induction os as [|o os IH]; intros c os0 Hinv Hok; simpl; [assumption|].
  apply Forall_cons in Hok as [Ho Hok]. apply IH; [|assumption].
  now apply lazy_inv_add.
Qed.

Lemma lazy_loop_pairings s : forall longs q c T,
  wf c ->
  (forall b, In b longs -> In b (side_list true s (_orders c))) ->
  to_uint q = wrap32 T ->
  to_uint (fst (lazy_loop longs q c)) =
  wrap32 (T + snd (run_pairings s
                     (flat_map (fun b => against s b
                                  (side_list false s (_orders c))) longs)
                     (_orders c, 0))).
Proof.
  induction longs as [|b rest IH]; intros q c T Hwf Hlongs Hq.
  { simpl. now rewrite Z.add_0_r. }
  destruct (proj1 (In_side_list true s (_orders c) b)
              (Hlongs b (or_introl eq_refl))) as (ob & Hob & Hid & Hside).
  apply on_side_true in Hside as [Hbuy Hsec].
  assert (Hd : deref (_orders c) b = Some ob)
    by (rewrite <- Hid; apply deref_In; [apply Hwf|assumption]).
  destruct (matchOrderInCache_pairings b c ob Hwf Hd) as [Hm Hos].
  rewrite Hbuy, Hsec in Hm, Hos. simpl negb in Hm, Hos.
  pose proof (matchOrderInCache_wf b c Hwf) as Hwf'.
  pose proof (matchOrderInCache_statics b c) as Hst.
  cbn [lazy_loop flat_map]. rewrite run_pairings_app.
  destruct (matchOrderInCache b c) as [m c'] eqn:E. simpl in Hm, Hos, Hwf', Hst.
  set (ss := side_list false s (_orders c)) in *.
  rewrite (IH _ c' (T + m)).
  - rewrite (side_list_statics_eq false s _ _ Hst). fold ss.
    rewrite (surjective_pairing (run_pairings s (against s b ss) (_orders c, 0))).
    rewrite <- Hm, <- Hos, (run_pairings_shift s _ (_orders c') m).
    simpl. f_equal. lia.
  - assumption.
  - intros b' Hb'. rewrite (side_list_statics_eq true s _ _ Hst).
    apply Hlongs. now right.
  - unfold to_uint in *. rewrite to_uint_to_int by apply wrap32_uint.
    fold (to_uint q). unfold to_uint. rewrite Hq. apply wrap32_add_l.
Qed.

Lemma side_list_nil b s os :
  (forall o, In o os -> securityId o <> s) -> side_list b s os = [].
Proof.
  intros H. unfold side_list.
  replace (List.filter (on_side b s) os) with (@nil Order); [reflexivity|].
  symmetry. induction os as [|o os IH]; simpl; [reflexivity|].
  rewrite on_side_other_security by (apply H; now left).
  apply IH. intros x Hx. apply H. now right.
Qed.

Lemma pairsL_nil s os :
  (forall o, In o os -> securityId o <> s) -> pairsL s os = [].
Proof. intros H. unfold pairsL. now rewrite (side_list_nil true s os H). Qed.

Lemma key_absent_no_orders c s :
  wf c -> _securityOrdersIndex c !! s = None ->
  forall o, In o (_orders c) -> securityId o <> s.
Proof.
  intros Hwf Hk o Ho Hs.
  assert (H : orderId o ∈ at_key ∅ s (_securityOrdersIndex c))
    by (apply (wf_sec c Hwf); eauto).
  rewrite (at_key_None _ _ _ Hk) in H. now apply not_elem_of_empty in H.
Qed.

Lemma statics_no_orders s os os' :
  statics os = statics os' ->
  (forall o, In o os -> securityId o <> s) ->
  forall o, In o os' -> securityId o <> s.
Proof.
  intros Hst H o Ho Hs.
  assert (Hex : exists x, In x os' /\ securityId x = s) by eauto.
  apply (In_statics_eq (fun x => securityId x = s) os os') in Hex
    as (x & Hx & Hxs); [|intros; reflexivity|assumption].
  now apply (H x).
Qed.

(** The value of a query in eager mode, and of the first query in lazy
    mode with threads off, after a sequence of adds. *)
Lemma query_eager_value os s :
  Forall Order_ok os ->
  query true s (add_all true os empty_cache) =
  Some (wrap32 (snd (run_pairings s (pairsE (accepted os)) (accepted os, 0)))).
Proof.
  intros Hok.
  pose proof (eager_inv_add_all os _ _ eager_inv_empty Hok) as Hinv.
  fold (accepted os) in Hinv.
  pose proof (eager_inv_statics _ _ Hinv) as Hst.
  destruct Hinv as (Hwf & Hnd & Hrun). destruct (Hrun s) as [_ Hq].
  unfold query. rewrite getMatchingSizeForSecurity_eager. simpl. f_equal.
  destruct (_securityOrdersIndex (add_all true os empty_cache) !! s) eqn:E.
  - rewrite to_uint_to_int by now apply getMatched_uint. exact Hq.
  - rewrite pairs_eager_lazy_total by assumption.
    rewrite pairsL_nil; [reflexivity|].
    eapply statics_no_orders; [exact Hst|].
    now apply key_absent_no_orders.
Qed.

Lemma query_lazy_value os s :
  Forall Order_ok os ->
  query false s (add_all false os (set_multiThread false empty_cache)) =
  Some (wrap32 (snd (run_pairings s (pairsL s (accepted os)) (accepted os, 0)))).
Proof.
  intros Hok.
  assert (Hinv0 : lazy_inv (set_multiThread false empty_cache) []).
  { split; [apply wf_set_multiThread, wf_empty|]. split; reflexivity. }
  pose proof (lazy_inv_add_all os _ _ Hinv0 Hok) as Hinv.
  fold (accepted os) in Hinv. destruct Hinv as (Hwf & Hos & Hmt).
  set (c := add_all false os (set_multiThread false empty_cache)) in *.
  unfold query, getMatchingSizeForSecurity.
  destruct (_securityOrdersIndex c !! s) eqn:E.
  - rewrite Hmt. cbn [negb orb].
    set (c1 := set_securityLongOrdersIndex _ c).
    assert (Hwf1 : wf c1) by now apply wf_touch_long.
    assert (Hlongs : at_key [] s (_securityLongOrdersIndex c1) =
                     side_list true s (accepted os)).
    { unfold c1. simpl. rewrite at_key_touch, (wf_long c Hwf). now rewrite Hos. }
    rewrite Hlongs.
    pose proof (lazy_loop_pairings s (side_list true s (accepted os)) 0 c1 0 Hwf1)
      as Hl.
    assert (Hos1 : _orders c1 = accepted os) by (unfold c1; simpl; exact Hos).
    rewrite Hos1 in Hl.
    destruct (lazy_loop (side_list true s (accepted os)) 0 c1) as [q c2].
    simpl in *. f_equal. rewrite Hl; [reflexivity|auto|reflexivity].
  - simpl. f_equal. rewrite pairsL_nil; [reflexivity|].
    rewrite <- Hos. now apply key_absent_no_orders.
Qed.

(** ** Eager against lazy matching *)

Lemma run_adds_query hw eager s os : forall c,
  run hw eager (List.map OpAdd os ++ [OpQuery s]) c =
  match getMatchingSizeForSecurity eager s (add_all eager os c) with
  | Some (v, c') => Some ([v], c')
  | None => None
  end.
Proof.
  unfold add_all. induction os as [|o os IH]; intros c; simpl.
  - destruct (getMatchingSizeForSecurity eager s c) as [[v c']|]; reflexivity.
  - rewrite IH.
    destruct (getMatchingSizeForSecurity eager s _) as [[v c']|]; reflexivity.
Qed.

(** Counterexample to C3 as stated.  A buy and a sell of 100 lots match
    when the sell arrives (eager mode); the sell is then cancelled.  The
    eager query returns the cached 100; the lazy query finds no
    counterparty left and returns 0 (one order remains, so the query takes
    its serial branch whatever [_multiThread] is).  Second sequence, with
    threads off: the first lazy query returns 100, the second one 0, while
    eager mode returns 100 twice. *)
Lemma eager_lazy_differ :
  fst <$> run 4 true calls_with_cancel empty_cache = Some [100] /\
  fst <$> run 4 false calls_with_cancel empty_cache = Some [0] /\
  fst <$> run 4 true calls_with_two_queries empty_cache = Some [100; 100] /\
  fst <$> run 4 false calls_with_two_queries
            (set_multiThread false empty_cache) = Some [100; 0].
Proof. vm_compute. auto. Qed.

(** C3 (amended): for every sequence of [addOrder] calls on an empty cache
    (no cancel in between), the first [getMatchingSizeForSecurity] call
    returns the same value in eager mode and in lazy mode, the lazy query
    running its serial loop (multi-threading switched off).  Both values
    are the lots paired for that security, modulo 2^32. *)
Theorem eager_lazy_first_query (hardware_concurrency : Z)
    (os : list Order) (s : string) :
  Forall Order_ok os ->
  exists v c_eager c_lazy,
    run hardware_concurrency true (List.map OpAdd os ++ [OpQuery s])
        empty_cache =
      Some ([v], c_eager) /\
    run hardware_concurrency false (List.map OpAdd os ++ [OpQuery s])
        (set_multiThread false empty_cache) =
      Some ([v], c_lazy) /\
    v = wrap32 (snd (run_pairings s (pairsL s (accepted os))
                       (accepted os, 0))).
Proof.
  intros Hok.
  pose proof (query_eager_value os s Hok) as He.
  pose proof (query_lazy_value os s Hok) as Hl.
  rewrite pairs_eager_lazy_total in He.
  2:{ pose proof (eager_inv_add_all os _ _ eager_inv_empty Hok) as (_ & H & _).
      exact H. }
  unfold query in He, Hl.
  rewrite !run_adds_query.
  destruct (getMatchingSizeForSecurity true s (add_all true os empty_cache))
    as [[v ce]|]; [|discriminate].
  destruct (getMatchingSizeForSecurity false s
              (add_all false os (set_multiThread false empty_cache)))
    as [[v' cl]|]; [|discriminate].
  simpl in He, Hl. injection He as ->. injection Hl as ->.
  do 3 eexists. split; [reflexivity|]. split; reflexivity.
Qed.

Lemma eager_lazy_first_query_witness :
  Forall Order_ok scenarioA /\
  fst <$> run 4 true (List.map OpAdd scenarioA ++ [OpQuery "SecId2"])
            empty_cache = Some [2700] /\
  fst <$> run 4 false (List.map OpAdd scenarioA ++ [OpQuery "SecId2"])
            (set_multiThread false empty_cache) = Some [2700].
Proof.
  assert (Hok : Forall Order_ok scenarioA).
  { repeat constructor; vm_compute; intuition discriminate. }
  split; [exact Hok|].
  destruct (eager_lazy_first_query 4 scenarioA "SecId2" Hok)
    as (v & ce & cl & He & Hl & _).
  rewrite Hl. split; [vm_compute; reflexivity|].
  assert (Hv : Some [v] = Some [2700]).
  { change (Some [v]) with (fst <$> Some ([v], ce)). rewrite <- He.
    vm_compute. reflexivity. }
  simpl. congruence.
Defined.

(** ** Adding an order and cancelling it again *)

(** Counterexample to C4 as stated: a buy of 50 lots is added to a cache
    holding a sell of 100 lots of another company and is cancelled at
    once.  The sell keeps only 50 working lots, and the maps keep an
    (empty) entry for the user of the cancelled order: apart from the match
    cache the state is not the one before the add. *)
Lemma add_then_cancel_changes_state :
  let S := addOrder true
             (Order_new "S1" "SecId1" "Sell" 100 "User1" "CompanyB")
             empty_cache in
  let O := Order_new "B1" "SecId1" "Buy" 50 "User2" "CompanyA" in
  let S' := cancelOrder (orderId O) (addOrder true O S) in
  _orderIndex S !! orderId O = None /\
  List.map workingQty (getAllOrders S) = [100] /\
  List.map workingQty (getAllOrders S') = [50] /\
  _userOrdersIndex S !! "User2" = None /\
  _userOrdersIndex S' !! "User2" = Some ∅ /\
  set_matchedQuantity (_matchedQuantity S) S' <> S.
Proof.
  cbv zeta. repeat split; try (vm_compute; reflexivity).
  intros H. apply (f_equal (fun c => List.map workingQty (_orders c))) in H.
  vm_compute in H. discriminate.
Qed.

(** What [addOrder] followed by [cancelOrder] of the same id restores,
    and the shape of what it does not: orders can only have lost working
    lots, and the match cache of the security has grown by some [m]. *)
Lemma add_then_cancel_frame (eager : bool) (c : OrderCache) (o : Order) :
  wf c -> Order_ok o -> ~ In (orderId o) (ids (getAllOrders c)) ->
  let c' := cancelOrder (orderId o) (addOrder eager o c) in
  wf c' /\
  Forall2 reduced (getAllOrders c) (getAllOrders c') /\
  (forall x, In x (getAllOrders c) -> eligible o x = false ->
             In x (getAllOrders c')) /\
  _multiThread c' = _multiThread c /\
  _orderIndex c' = _orderIndex c /\
  (forall u, at_key ∅ u (_userOrdersIndex c') =
             at_key ∅ u (_userOrdersIndex c)) /\
  (forall s, at_key ∅ s (_securityOrdersIndex c') =
             at_key ∅ s (_securityOrdersIndex c)) /\
  (forall s, at_key [] s (_securityLongOrdersIndex c') =
             at_key [] s (_securityLongOrdersIndex c)) /\
  (forall s, at_key [] s (_securityShortOrdersIndex c') =
             at_key [] s (_securityShortOrdersIndex c)) /\
  exists m, 0 <= m <= workingQty o /\
    (forall q, getMatchedQuantityInCache c' q =
       if String.eqb q (securityId o)
       then wrap32 (getMatchedQuantityInCache c q + m)
       else getMatchedQuantityInCache c q) /\
    (getMatchedQuantityInCache c (securityId o) + m < UINT_MODULUS ->
     forall q, getMatchedQuantityInCache c q <= getMatchedQuantityInCache c' q).
Proof.
  unfold getAllOrders. intros Hwf Hoo Hni. cbv zeta.
  pose proof (proj2 (exists_false c _ Hwf) Hni) as Ex.
  destruct (addOrder_lazy_new o c Ex) as (Hos0 & Hmq0 & Hmt0).
  pose proof (addOrder_lazy_wf o c Hwf Hoo) as Hwf0.
  set (c1 := addOrder eager o c).
  assert (Hwf1 : wf c1) by now apply addOrder_wf.
  (* the order list after the add *)
  assert (H1 : exists o1 os1, _orders c1 = o1 :: os1 /\ reduced o o1 /\
            Forall2 reduced (_orders c) os1 /\
            (forall x, In x (_orders c) -> eligible o x = false -> In x os1) /\
            _multiThread c1 = _multiThread c /\
            exists m, 0 <= m <= workingQty o /\
              forall q, getMatchedQuantityInCache c1 q =
                if String.eqb q (securityId o)
                then wrap32 (getMatchedQuantityInCache c q + m)
                else getMatchedQuantityInCache c q).
  { unfold c1. destruct eager.
    - rewrite addOrder_eager_lazy, Ex.
      pose proof (matchOrderInCache_reduced (orderId o) _ Hwf0) as Hred.
      rewrite Hos0 in Hred.
      inversion Hred as [|? o1 ? os1 Ho1 Hred1 E1 E2]; subst.
      exists o1, os1. split; [reflexivity|]. split; [assumption|].
      split; [assumption|].
      assert (Hd : deref (_orders (addOrder false o c)) (orderId o) = Some o)
        by (rewrite Hos0; apply deref_head).
      split; [|split].
      + intros x Hx He.
        assert (Hxne : orderId x <> orderId o).
        { intros E. apply Hni, In_ids. eauto. }
        pose proof (matchOrderInCache_keeps (orderId o) _ o x Hwf0 Hd) as Hk.
        rewrite Hos0, <- E2 in Hk. destruct Hk as [Hk|Hk]; auto.
        * now right.
        * exfalso. apply Hxne. rewrite <- Hk. now apply reduced_orderId.
      + destruct (matchOrderInCache_frame (orderId o) (addOrder false o c))
          as (-> & _). assumption.
      + destruct (matchOrderInCache_cache (orderId o) _ o Hwf0 Hd) as [Hm Hq].
        eexists. split; [exact Hm|]. intros q. rewrite Hq.
        unfold getMatchedQuantityInCache. now rewrite Hmq0.
    - exists o, (_orders c). split; [assumption|].
      split; [split; [reflexivity|lia]|]. split; [apply reduced_refl|].
      split; [auto|]. split; [assumption|].
      exists 0. destruct Hoo as [Hw _]. split; [lia|]. intros q.
      unfold getMatchedQuantityInCache at 1. rewrite Hmq0.
      fold (getMatchedQuantityInCache c q).
      destruct (String.eqb q (securityId o)); [|reflexivity].
      rewrite Z.add_0_r. symmetry. apply wrap32_small. now apply getMatched_uint. }
  destruct H1 as (o1 & os1 & Hos1 & Ho1 & Hred & Hkeep & Hmt1 & m & Hm & Hq).
  pose proof (reduced_orderId _ _ Ho1) as Hid1.
  (* the order list after the cancel *)
  assert (Hos' : _orders (cancelOrder (orderId o) c1) = os1).
  { unfold cancelOrder. rewrite cancelSingleOrder_orders by assumption.
    rewrite Hos1. simpl.
    rewrite (proj2 (points_to_true (orderId o) o1)) by assumption. simpl.
    apply filter_none. intros x Hx.
    destruct (points_to (orderId o) x) eqn:E; [|reflexivity].
    apply points_to_true in E. exfalso. apply Hni.
    rewrite <- (statics_ids os1 (_orders c)) by now apply reduced_statics.
    apply In_ids. eauto. }
  pose proof (cancelSingleOrder_wf (orderId o) 0 c1 Hwf1) as Hwf'.
  fold (cancelOrder (orderId o) c1) in Hwf'.
  destruct (cancelSingleOrder_matched (orderId o) 0 c1) as [Hmq' Hmt'].
  fold (cancelOrder (orderId o) c1) in Hmq', Hmt'.
  assert (Hst : statics (_orders (cancelOrder (orderId o) c1)) =
                statics (_orders c))
    by (rewrite Hos'; now apply reduced_statics).
  destruct (wf_same_orders c _ Hwf Hwf' Hst) as (Hi & Hu & Hs & Hl & Hsh).
  split; [exact Hwf'|]. rewrite Hos'.
  split; [exact Hred|]. split; [exact Hkeep|].
  split; [congruence|]. split; [exact Hi|].
  split; [exact Hu|]. split; [exact Hs|]. split; [exact Hl|].
  split; [exact Hsh|].
  assert (Hq' : forall q,
    getMatchedQuantityInCache (cancelOrder (orderId o) c1) q =
    if String.eqb q (securityId o)
    then wrap32 (getMatchedQuantityInCache c q + m)
    else getMatchedQuantityInCache c q).
  { intros q. rewrite <- Hq. unfold getMatchedQuantityInCache.
    now rewrite Hmq'. }
  exists m. split; [exact Hm|]. split; [exact Hq'|].
  intros Hlt q. rewrite Hq'.
  destruct (String.eqb_spec q (securityId o)) as [->|Hne]; [|lia].
  pose proof (getMatched_uint c (securityId o) Hwf) as Hu0.
  rewrite wrap32_small by (unfold is_uint in *; lia). lia.
Qed.
(** ** Index entries are created on demand and never pruned *)

(** Counterexample to C5 as stated: one order is added to the empty cache
    and cancelled again.  It was the last live order of its user and of
    its security, yet both maps still contain the key, bound to the empty
    set. *)
Lemma last_cancel_leaves_index_keys :
  let o := Order_new "OrdId1" "SecId1" "Buy" 100 "User1" "Company1" in
  let c := cancelOrder "OrdId1" (addOrder true o empty_cache) in
  getAllOrders c = [] /\
  _userOrdersIndex c !! "User1" = Some ∅ /\
  _userOrdersIndex c !! "User1" <> None /\
  _securityOrdersIndex c !! "SecId1" = Some ∅ /\
  _securityOrdersIndex c !! "SecId1" <> None.
Proof. vm_compute. repeat split; discriminate. Qed.

(** C5 (amended): the entry of a user (of a security) is created by the
    first [addOrder] that names it and from then on holds the ids of the
    live orders of that user (security); [cancelOrder] removes the id from
    the two sets but never removes a key: every key present before the
    cancel is present after it, and after cancelling the last live order
    of a user (security) the key is bound to the empty set. *)
Theorem index_entries_created_not_pruned
    (eager : bool) (c : OrderCache) (o : Order) :
  wf c ->
  (~ In (orderId o) (ids (getAllOrders c)) ->
   let c' := addOrder eager o c in
   (exists ks, _userOrdersIndex c' !! user o = Some ks /\ orderId o ∈ ks) /\
   (exists ks, _securityOrdersIndex c' !! securityId o = Some ks /\
               orderId o ∈ ks)) /\
  (In o (getAllOrders c) ->
   let c' := cancelOrder (orderId o) c in
   (forall u, is_Some (_userOrdersIndex c !! u) ->
              is_Some (_userOrdersIndex c' !! u)) /\
   (forall s, is_Some (_securityOrdersIndex c !! s) ->
              is_Some (_securityOrdersIndex c' !! s)) /\
   _userOrdersIndex c' !! user o =
     Some (at_key ∅ (user o) (_userOrdersIndex c) ∖ {[orderId o]}) /\
   _securityOrdersIndex c' !! securityId o =
     Some (at_key ∅ (securityId o) (_securityOrdersIndex c) ∖ {[orderId o]}) /\
   ((forall x, In x (getAllOrders c) -> user x = user o -> x = o) ->
    _userOrdersIndex c' !! user o = Some ∅) /\
   ((forall x, In x (getAllOrders c) -> securityId x = securityId o -> x = o) ->
    _securityOrdersIndex c' !! securityId o = Some ∅)).
Proof.
  intros Hwf. unfold getAllOrders. split.
  - intros Hni. apply (exists_false c _ Hwf) in Hni. cbv zeta. split.
    + rewrite addOrder_new_user_index by assumption.
      rewrite lookup_insert_eq. eexists. split; [reflexivity|].
      apply elem_of_union_r. now apply elem_of_singleton.
    + rewrite addOrder_new_security_index by assumption.
      rewrite lookup_insert_eq. eexists. split; [reflexivity|].
      apply elem_of_union_r. now apply elem_of_singleton.
  - intros Ho. cbv zeta. unfold cancelOrder.
    rewrite (cancelSingleOrder_live _ 0 c o Hwf Ho eq_refl eq_refl). simpl.
    rewrite !lookup_insert_eq, !at_key_touch.
    assert (Hkeep : forall (m : gmap string (gset string)) k v u,
      is_Some (m !! u) -> is_Some (<[k := v]> (touch ∅ k m) !! u)).
    { intros m k v u Hu. destruct (decide (k = u)) as [<-|Hne].
      - rewrite lookup_insert_eq. eauto.
      - now rewrite lookup_insert_ne, touch_lookup_ne. }
    repeat split; auto.
    + intros Hlast. f_equal. apply set_eq. intros i.
      rewrite elem_of_difference, elem_of_singleton, (wf_user c Hwf). split.
      * intros [(x & Hx & Hi & Hu) Hne]. exfalso. apply Hne.
        rewrite <- Hi. f_equal. now apply Hlast.
      * intros Hi. now apply not_elem_of_empty in Hi.
    + intros Hlast. f_equal. apply set_eq. intros i.
      rewrite elem_of_difference, elem_of_singleton, (wf_sec c Hwf). split.
      * intros [(x & Hx & Hi & Hs) Hne]. exfalso. apply Hne.
        rewrite <- Hi. f_equal. now apply Hlast.
      * intros Hi. now apply not_elem_of_empty in Hi.
Qed.

Lemma index_entries_created_not_pruned_witness :
  let o := Order_new "OrdId1" "SecId1" "Buy" 100 "User1" "Company1" in
  let c := addOrder true o empty_cache in
  wf c /\ In o (getAllOrders c) /\
  _userOrdersIndex (cancelOrder (orderId o) c) !! user o = Some ∅.
Proof.
  set (o := Order_new "OrdId1" "SecId1" "Buy" 100 "User1" "Company1").
  assert (Hwf : wf (addOrder true o empty_cache)).
  { apply addOrder_wf; [apply wf_empty|]. vm_compute. intuition discriminate. }
  assert (Hin : In o (getAllOrders (addOrder true o empty_cache)))
    by (vm_compute; auto).
  cbv zeta. split; [exact Hwf|]. split; [exact Hin|].
  destruct (index_entries_created_not_pruned true _ o Hwf) as [_ H].
  destruct (H Hin) as (_ & _ & _ & _ & Hlast & _).
  apply Hlast. intros x Hx _. vm_compute in Hx.
  destruct Hx as [<-|[]]. reflexivity.
Defined.

(** ** Cancelling one order leaves the match cache alone *)

(** C6: for every well-formed cache and every id present in it,
    [cancelOrder] removes the id from the by-id map, from every by-user and
    by-security set, from every buy and sell list and from the order list,
    and leaves the match cache as it was: every
    [getMatchingSizeForSecurity] returns after the cancel what it returned
    before. *)
Theorem cancelOrder_removes_order_keeps_matches (c : OrderCache) (id : string) :
  wf c -> is_Some (_orderIndex c !! id) ->
  let c' := cancelOrder id c in
  _orderIndex c' !! id = None /\
  (forall u, id ∉ at_key ∅ u (_userOrdersIndex c')) /\
  (forall s, id ∉ at_key ∅ s (_securityOrdersIndex c')) /\
  (forall s, ~ In id (at_key [] s (_securityLongOrdersIndex c'))) /\
  (forall s, ~ In id (at_key [] s (_securityShortOrdersIndex c'))) /\
  ~ In id (ids (getAllOrders c')) /\
  _matchedQuantity c' = _matchedQuantity c /\
  (forall q, getMatchedQuantityInCache c' q = getMatchedQuantityInCache c q) /\
  (forall q, query true q c' = query true q c).
Proof.
  intros Hwf [p Hp]. apply (wf_index c Hwf) in Hp as [-> Hin].
  apply In_ids in Hin as (o & Ho & Hid).
  pose proof (cancelSingleOrder_wf id 0 c Hwf) as Hwf'.
  pose proof (cancelSingleOrder_live id 0 c o Hwf Ho Hid eq_refl) as Heq.
  unfold cancelOrder. cbv zeta.
  assert (Hgone : ~ In id (ids (_orders (cancelSingleOrder id 0 c)))).
  { rewrite Heq. simpl. rewrite In_ids. intros (x & Hx & Hi).
    apply filter_In in Hx as [_ Hx]. apply negb_true_iff in Hx.
    now apply points_to_false in Hx. }
  assert (Hmq : _matchedQuantity (cancelSingleOrder id 0 c) = _matchedQuantity c)
    by now rewrite Heq.
  repeat split.
  - destruct (_orderIndex (cancelSingleOrder id 0 c) !! id) eqn:E; [|reflexivity].
    apply (wf_index _ Hwf') in E as [_ E]. contradiction.
  - intros u Hu. apply (wf_user _ Hwf') in Hu as (x & Hx & Hi & _).
    apply Hgone, In_ids. eauto.
  - intros s Hs. apply (wf_sec _ Hwf') in Hs as (x & Hx & Hi & _).
    apply Hgone, In_ids. eauto.
  - intros s Hs. rewrite (wf_long _ Hwf') in Hs.
    apply In_side_list in Hs as (x & Hx & Hi & _). apply Hgone, In_ids. eauto.
  - intros s Hs. rewrite (wf_short _ Hwf') in Hs.
    apply In_side_list in Hs as (x & Hx & Hi & _). apply Hgone, In_ids. eauto.
  - exact Hgone.
  - exact Hmq.
  - intros q. unfold getMatchedQuantityInCache. now rewrite Hmq.
  - intros q. unfold query. rewrite !getMatchingSizeForSecurity_eager. simpl.
    unfold getMatchedQuantityInCache. rewrite Hmq.
    assert (Hkeys : is_Some (_securityOrdersIndex (cancelSingleOrder id 0 c) !! q)
                    <-> is_Some (_securityOrdersIndex c !! q)).
    { rewrite Heq. simpl.
      destruct (decide (securityId o = q)) as [<-|Hne].
      - rewrite lookup_insert_eq. split; [intros _|eauto].
        destruct (_securityOrdersIndex c !! securityId o) eqn:E; [eauto|].
        exfalso.
        assert (H : id ∈ at_key ∅ (securityId o) (_securityOrdersIndex c))
          by (apply (wf_sec c Hwf); eauto).
        rewrite (at_key_None _ _ _ E) in H. now apply not_elem_of_empty in H.
      - rewrite lookup_insert_ne, touch_lookup_ne by assumption. tauto. }
    destruct (_securityOrdersIndex (cancelSingleOrder id 0 c) !! q) eqn:E1,
             (_securityOrdersIndex c !! q) eqn:E2; try reflexivity.
    + exfalso. destruct (proj1 Hkeys) as [? ?]; [eauto|discriminate].
    + exfalso. destruct (proj2 Hkeys) as [? ?]; [eauto|discriminate].
Qed.

Lemma cancelOrder_removes_order_keeps_matches_witness :
  let c := add_all true scenarioA empty_cache in
  wf c /\ is_Some (_orderIndex c !! "OrdId2") /\
  query true "SecId2" (cancelOrder "OrdId2" c) = Some 2700.
Proof.
  assert (Hwf : wf (add_all true scenarioA empty_cache)).
  { apply add_all_wf; [apply wf_empty|].
    repeat constructor; vm_compute; intuition discriminate. }
  assert (Hin : is_Some (_orderIndex (add_all true scenarioA empty_cache)
                           !! "OrdId2")) by (vm_compute; eauto).
  split; [exact Hwf|]. split; [exact Hin|].
  pose proof (cancelOrder_removes_order_keeps_matches _ "OrdId2" Hwf Hin) as H.
  cbv zeta in H. destruct H as (_ & _ & _ & _ & _ & _ & _ & _ & H).
  rewrite H. vm_compute. reflexivity.
Defined.

(** ** Cancelling by security and minimum quantity *)

(** The ids under a key of a set index are ids of listed orders, so the
    cast of their number to [unsigned int] loses nothing while the order
    list has fewer than 2^32 entries. *)
Lemma keys_size_small (keys : gset string) c :
  wf c -> Z.of_nat (length (_orders c)) < UINT_MODULUS ->
  (forall i, i ∈ keys -> In i (ids (_orders c))) ->
  wrap32 (Z.of_nat (size keys)) = Z.of_nat (size keys).
Proof.
  intros Hwf Hlen Hsub. apply wrap32_small.
  assert (Hle : (size keys <= length (_orders c))%nat).
  { replace (length (_orders c)) with (size (list_to_set (ids (_orders c))
                                               : gset string)).
    - apply subseteq_size. intros i Hi.
      apply elem_of_list_to_set, list_elem_of_In. now apply Hsub.
    - rewrite size_list_to_set by apply (wf_nodup c Hwf).
      unfold ids. now rewrite length_map. }
  unfold is_uint. lia.
Qed.

Lemma cancelOrdersForSecIdWithMinimumQty_None hw s m c :
  wf c -> Z.of_nat (length (_orders c)) < UINT_MODULUS ->
  cancelOrdersForSecIdWithMinimumQty hw s m c = None <->
  _multiThread c = true /\ hw = 0 /\
  exists o, In o (_orders c) /\ securityId o = s.
Proof.
  intros Hwf Hlen. unfold cancelOrdersForSecIdWithMinimumQty.
  pose proof (wf_sec c Hwf s) as Hsec. unfold at_key in Hsec.
  destruct (_securityOrdersIndex c !! s) as [keys|].
  - rewrite cancelOrders_None, (keys_size_small keys c Hwf Hlen).
    2:{ intros i Hi. apply Hsec in Hi as (o & Ho & <- & _).
        apply In_ids. eauto. }
    assert (Hne : Z.of_nat (size keys) <> 0 <->
                  exists o, In o (_orders c) /\ securityId o = s).
    { split.
      - intros Hn. destruct (set_choose_L keys) as [i Hi].
        + intros ->. now rewrite size_empty in Hn.
        + apply Hsec in Hi as (o & Ho & _ & Hs). eauto.
      - intros (o & Ho & Hs) Hn.
        assert (Hi : orderId o ∈ keys) by (apply Hsec; eauto).
        assert (size keys = 0%nat) by lia.
        apply size_empty_inv in H. now apply H in Hi. }
    rewrite Hne. tauto.
  - split; [discriminate|]. intros (_ & _ & o & Ho & Hs).
    assert (Hi : orderId o ∈ (∅ : gset string)) by (apply Hsec; eauto).
    now apply not_elem_of_empty in Hi.
Qed.

(** C7, with the case in which the code departs from it: for every
    well-formed cache, security [s] and threshold [m], a call
    [cancelOrdersForSecIdWithMinimumQty s m] that returns has
    removed exactly the live orders of [s] whose total [qty] (not
    [workingQty]) is at least [m]; every other order stays in the order
    list, unchanged and in the same place, and the indexes follow the
    order list (the cache is well formed again).  The call does not
    return in one case: with multi-threading on (the default), on a
    machine where [hardware_concurrency()] is 0, for a security with at
    least one live order, [cancelOrders] divides by zero before it
    cancels anything, whatever the threshold.  (The order list has fewer
    than 2^32 entries.) *)
Theorem cancelOrdersForSecIdWithMinimumQty_exact
    (hardware_concurrency : Z) (c : OrderCache) (s : string) (m : Z) :
  wf c -> Z.of_nat (length (getAllOrders c)) < UINT_MODULUS ->
  let r := cancelOrdersForSecIdWithMinimumQty hardware_concurrency s m c in
  (r = None <->
     _multiThread c = true /\ hardware_concurrency = 0 /\
     exists o, In o (getAllOrders c) /\ securityId o = s) /\
  (forall c', r = Some c' ->
     getAllOrders c' =
       List.filter
         (fun o => negb (String.eqb (securityId o) s && (m <=? qty o)))
         (getAllOrders c) /\
     wf c').
Proof.
  intros Hwf Hlen r. split.
  - now apply cancelOrdersForSecIdWithMinimumQty_None.
  - intros c' Hr. split.
    + eapply cancelOrdersForSecIdWithMinimumQty_orders; eassumption.
    + eapply cancelOrdersForSecIdWithMinimumQty_wf; eassumption.
Qed.

Lemma cancelOrdersForSecIdWithMinimumQty_exact_witness :
  let c := add_all true scenarioF empty_cache in
  wf c /\ Z.of_nat (length (getAllOrders c)) < UINT_MODULUS /\
  List.map workingQty (getAllOrders c) = [0; 200; 200] /\
  _multiThread c = true /\
  cancelOrdersForSecIdWithMinimumQty 0 "SecId1" 300 c = None /\
  (fun c' => List.map orderId (getAllOrders c')) <$>
    cancelOrdersForSecIdWithMinimumQty 4 "SecId1" 300 c = Some ["1"] /\
  (fun c' => List.map orderId (getAllOrders c')) <$>
    cancelOrdersForSecIdWithMinimumQty 0 "SecId1" 300
      (set_multiThread false c) = Some ["1"].
Proof.
  intros c.
  assert (Hwf : wf c).
  { apply add_all_wf; [apply wf_empty|].
    repeat constructor; vm_compute; intuition discriminate. }
  assert (Hlen : Z.of_nat (length (getAllOrders c)) < UINT_MODULUS)
    by (vm_compute; reflexivity).
  split; [exact Hwf|]. split; [exact Hlen|].
  split; [vm_compute; reflexivity|]. split; [vm_compute; reflexivity|].
  split; [|split; vm_compute; reflexivity].
  destruct (cancelOrdersForSecIdWithMinimumQty_exact 0 c "SecId1" 300 Hwf Hlen)
    as [H _].
  apply H. split; [vm_compute; reflexivity|]. split; [reflexivity|].
  exists (Order_new "1" "SecId1" "Buy" 200 "User1" "Company1").
  vm_compute. auto.
Defined.
(** ** Duplicate ids *)

(** C8: for every cache that already holds an order with id [i], calling
    [addOrder] (in either matching mode, validation lenient) with any order
    whose id is [i] returns the cache unchanged: nothing is inserted in the
    order list or in any index, no matching runs, and the stored order is
    not modified. *)
Theorem addOrder_duplicate_is_noop (eager : bool) (c : OrderCache) (o : Order) :
  is_Some (_orderIndex c !! orderId o) -> addOrder eager o c = c.
Proof.
  intros H. apply addOrder_dup. unfold exists_. now apply bool_decide_eq_true.
Qed.

Lemma addOrder_duplicate_is_noop_witness :
  let c := addOrder true (Order_new "1" "SecId1" "Sell" 500 "User2" "Company1")
             empty_cache in
  let dup := Order_new "1" "SecId1" "Buy" 300 "User3" "Company2" in
  is_Some (_orderIndex c !! orderId dup) /\ addOrder true dup c = c.
Proof.
  split.
  - vm_compute. eauto.
  - apply addOrder_duplicate_is_noop. vm_compute. eauto.
Defined.

(** ** Working-quantity bounds *)

Lemma fillLots_saturating n o :
  Order_ok o -> 0 <= n ->
  workingQty (fillLots n o) = Z.max 0 (workingQty o - n) /\
  Order_ok (fillLots n o).
Proof.
  intros Hok Hn. split; [now apply fillLots_workingQty | now apply fillLots_ok].
Qed.

Lemma unfillLots_no_overflow n o :
  Order_ok o -> 0 <= n -> workingQty o + n < UINT_MODULUS ->
  workingQty (unfillLots n o) = Z.min (qty o) (workingQty o + n).
Proof.
  unfold Order_ok, unfillLots. intros [Hw Hq] Hn Hlt.
  rewrite wrap32_small by (unfold is_uint; lia).
  destruct (Z.ltb_spec (qty o) (workingQty o + n)); simpl; lia.
Qed.

Lemma run_keeps_bounds hw eager ops outs c :
  Forall Op_ok ops -> run hw eager ops empty_cache = Some (outs, c) ->
  Forall Order_ok (getAllOrders c).
Proof.
  intros Hok Hr. apply (wf_ok c). eapply run_wf; [apply wf_empty| |]; eassumption.
Qed.

(** C9, evaluated where the code departs from it: an order of 10 lots
    with 5 working lots satisfies [0 <= workingQty <= qty]; the call
    [unfillLots(4294967295)] leaves 4 working lots, where the saturating
    add [min(qty, workingQty + n)] is 10.  ([m_workingQty += qty] wraps
    around before the comparison with [m_qty]; [fillLots] compares before
    it subtracts.)  The bounds themselves are kept: see [unfillLots_ok],
    [fillLots_saturating] and [run_keeps_bounds]. *)
Theorem unfillLots_wraps_around :
  let o := fillLots 5 (Order_new "Ord1" "SecId1" "Buy" 10 "User1" "CompanyA") in
  Order_ok o /\
  workingQty o = 5 /\
  workingQty (unfillLots 4294967295 o) = 4 /\
  Z.min (qty o) (workingQty o + 4294967295) = 10 /\
  Order_ok (unfillLots 4294967295 o).
Proof. vm_compute. intuition discriminate. Qed.

(** ** The order list against the book of a call sequence *)

Lemma statics_filter_rev (f : Order -> bool) os b :
  (forall o, f (static o) = f o) ->
  statics os = rev (statics b) ->
  statics (List.filter f os) = rev (statics (List.filter f b)).
Proof.
  intros Hf H.
  rewrite <- !filter_statics by assumption. rewrite H. apply filter_rev.
Qed.

Lemma exists_has_id c b id :
  wf c -> statics (_orders c) = rev (statics b) ->
  exists_ c id = has_id id b.
Proof.
  intros Hwf H. apply eq_true_iff_eq.
  rewrite (exists_true c id Hwf), has_id_true.
  rewrite <- (ids_statics (_orders c)), H, <- (ids_statics b).
  unfold ids. rewrite map_rev. symmetry. apply in_rev.
Qed.

Lemma lazy_loop_statics longs : forall q c,
  statics (_orders (snd (lazy_loop longs q c))) = statics (_orders c).
Proof.
  induction longs as [|p rest IH]; intros q c; simpl; [reflexivity|].
  pose proof (matchOrderInCache_statics p c) as H.
  destruct (matchOrderInCache p c) as [m c']. simpl in H.
  now rewrite IH.
Qed.

Lemma getMatchingSizeForSecurity_statics eager s c v c' :
  getMatchingSizeForSecurity eager s c = Some (v, c') ->
  statics (_orders c') = statics (_orders c).
Proof.
  unfold getMatchingSizeForSecurity.
  destruct (_securityOrdersIndex c !! s); [|now intros [= _ <-]].
  destruct eager; [now intros [= _ <-]|].
  destruct (negb (_multiThread c) || (size_ c <? 2)%nat); [|discriminate].
  pose proof (lazy_loop_statics
    (at_key [] s (touch [] s (_securityLongOrdersIndex c))) 0
    (set_securityLongOrdersIndex
       (touch [] s (_securityLongOrdersIndex c)) c)) as H.
  simpl in *. destruct (lazy_loop _ _ _) as [q c2]. now intros [= _ <-].
Qed.

Lemma step_book hw eager op c b out c' :
  wf c -> statics (_orders c) = rev (statics b) ->
  step hw eager op c = Some (out, c') ->
  statics (_orders c') = rev (statics (book_step op b)).
Proof.
  intros Hwf H. destruct op as [o|id|u|s m|s]; simpl.
  - intros [= _ <-]. rewrite <- (exists_has_id c b _ Hwf H).
    destruct (exists_ c (orderId o)) eqn:Ex.
    + now rewrite addOrder_dup.
    + rewrite addOrder_new_statics by assumption.
      rewrite H. unfold statics. rewrite List.map_app, rev_app_distr.
      reflexivity.
  - intros [= _ <-]. unfold cancelOrder.
    rewrite cancelSingleOrder_orders by assumption.
    rewrite (filter_ext_in' _
      (fun o => negb (String.eqb (orderId o) id)) (_orders c)).
    + now apply statics_filter_rev.
    + intros o _. unfold points_to. rewrite passes_minQty_0.
      now rewrite andb_true_r.
  - destruct (cancelOrdersForUser hw u c) as [c1|] eqn:E; [|discriminate].
    intros [= _ <-]. rewrite (cancelOrdersForUser_orders _ _ _ _ Hwf E).
    now apply statics_filter_rev.
  - destruct (cancelOrdersForSecIdWithMinimumQty hw s m c) as [c1|] eqn:E;
      [|discriminate].
    intros [= _ <-].
    rewrite (cancelOrdersForSecIdWithMinimumQty_orders _ _ _ _ _ Hwf E).
    now apply statics_filter_rev.
  - destruct (getMatchingSizeForSecurity eager s c) as [[v c1]|] eqn:E;
      [|discriminate].
    intros [= _ <-]. rewrite <- H.
    eapply getMatchingSizeForSecurity_statics, E.
Qed.

Lemma run_book hw eager ops : forall c b outs c',
  wf c -> Forall Op_ok ops -> statics (_orders c) = rev (statics b) ->
  run hw eager ops c = Some (outs, c') ->
  wf c' /\
  statics (_orders c') =
  rev (statics (foldl (fun b op => book_step op b) b ops)).
Proof.
  induction ops as [|op ops IH]; intros c b outs c' Hwf Hok H; simpl.
  - intros [= _ <-]. auto.
  - apply Forall_cons in Hok as [Hop Hok].
    destruct (step hw eager op c) as [[out c1]|] eqn:Es; [|discriminate].
    destruct (run hw eager ops c1) as [[outs1 c2]|] eqn:Er; [|discriminate].
    intros [= _ <-].
    apply (IH c1 (book_step op b) outs1 c2); try assumption.
    + eapply step_wf; eassumption.
    + eapply step_book; eassumption.
Qed.

(** C10: [addOrder] puts each accepted order in front of the order list,
    so after any sequence of calls on an empty cache [getAllOrders]
    returns the live orders, the accepted and not yet cancelled ones,
    newest first: the reverse of the insertion order, on every machine
    (whatever [hardware_concurrency()] returns).  In the shipped (eager)
    configuration every call sequence runs to its end where
    [hardware_concurrency()] is not 0 (where it is 0, a batch cancel of a
    non-empty id set stops at the division in [cancelOrders]).
    [getAllOrders] is a read of the list, so the order within a snapshot
    is fixed. *)
Theorem getAllOrders_reverse_insertion_order (hardware_concurrency : Z)
    (ops : list Op) :
  Forall Op_ok ops ->
  (hardware_concurrency <> 0 ->
   exists outs c,
     run hardware_concurrency true ops empty_cache = Some (outs, c)) /\
  forall eager outs c,
    run hardware_concurrency eager ops empty_cache = Some (outs, c) ->
    statics (getAllOrders c) = rev (statics (book ops)) /\
    forall eager' o,
      ~ In (orderId o) (ids (getAllOrders c)) ->
      statics (getAllOrders (addOrder eager' o c)) =
      static o :: statics (getAllOrders c).
Proof.
  intros Hok. split; [intros Hhw; now apply run_eager_total|].
  intros eager outs c Hr.
  destruct (run_book _ eager ops empty_cache [] outs c wf_empty Hok eq_refl Hr)
    as [Hwf H].
  split; [exact H|].
  intros eager' o Hni. apply addOrder_new_statics.
  now apply (exists_false c _ Hwf).
Qed.

Lemma getAllOrders_reverse_insertion_order_witness :
  Forall Op_ok sample_calls /\
  exists outs c,
    run 4 true sample_calls empty_cache = Some (outs, c) /\
    List.map orderId (book sample_calls) = ["1"; "4"; "5"] /\
    List.map orderId (getAllOrders c) = ["5"; "4"; "1"].
Proof.
  assert (Hok : Forall Op_ok sample_calls).
  { repeat constructor; vm_compute; intuition discriminate. }
  split; [exact Hok|].
  destruct (getAllOrders_reverse_insertion_order 4 sample_calls Hok)
    as [Htot Hall].
  destruct (Htot ltac:(discriminate)) as (outs & c & Hr).
  destruct (Hall true outs c Hr) as [H _].
  exists outs, c. split; [exact Hr|]. split; [reflexivity|].
  change (List.map orderId (getAllOrders c)) with (ids (getAllOrders c)).
  rewrite <- ids_statics, H. reflexivity.
Defined.

(** ** Class [Order]: fills and their inverses *)

Lemma set_workingQty_inj w o :
  set_workingQty w o = o <-> w = workingQty o.
Proof.
  destruct o as [i s sd q u cp w0]. unfold set_workingQty. simpl.
  split; [intros [= ->]; reflexivity | intros ->; reflexivity].
Qed.

Lemma filledQty_ok o : Order_ok o -> filledQty o = qty o - workingQty o.
Proof.
  intros [Hw Hq]. unfold filledQty. apply wrap32_small.
  unfold is_uint. lia.
Qed.

Lemma workingQty_unfillLots n o :
  workingQty (unfillLots n o) =
  if qty o <? wrap32 (workingQty o + n) then qty o
  else wrap32 (workingQty o + n).
Proof. unfold unfillLots. simpl. now destruct (qty o <? _). Qed.

Lemma unfillLots_set n o :
  unfillLots n o = set_workingQty (workingQty (unfillLots n o)) o.
Proof. unfold unfillLots. simpl. now destruct (qty o <? _). Qed.

Lemma fillLots_set n o :
  fillLots n o = set_workingQty (workingQty (fillLots n o)) o.
Proof. unfold fillLots. now destruct (n <? workingQty o). Qed.

Lemma qty_fillLots n o : qty (fillLots n o) = qty o.
Proof. unfold fillLots. now destruct (n <? workingQty o). Qed.

Lemma qty_unfillLots n o : qty (unfillLots n o) = qty o.
Proof. unfold unfillLots. simpl. now destruct (qty o <? _). Qed.

Lemma unfill_fill_set n m o :
  unfillLots n (fillLots m o) =
  set_workingQty (workingQty (unfillLots n (fillLots m o))) o.
Proof.
  rewrite (unfillLots_set n (fillLots m o)).
  generalize (workingQty (unfillLots n (fillLots m o))). intros w.
  unfold fillLots. now destruct (m <? workingQty o).
Qed.

Lemma fill_unfill_set n m o :
  fillLots n (unfillLots m o) =
  set_workingQty (workingQty (fillLots n (unfillLots m o))) o.
Proof.
  rewrite (fillLots_set n (unfillLots m o)).
  generalize (workingQty (fillLots n (unfillLots m o))). intros w.
  unfold unfillLots. simpl. now destruct (qty o <? _).
Qed.

(** X1: [fillLots(n)] moves [min(n, workingQty)] lots from the working to
    the filled count of an order: afterwards working and filled lots still
    add up to [qty], the filled count has grown by exactly that amount,
    and the order is filled exactly when [n] covered all its working
    lots. *)
Theorem fillLots_moves_lots (n : Z) (o : Order) :
  Order_ok o -> is_uint n ->
  workingQty (fillLots n o) + filledQty (fillLots n o) = qty o /\
  filledQty (fillLots n o) = filledQty o + Z.min n (workingQty o) /\
  (isFilled (fillLots n o) = true <-> workingQty o <= n).
Proof.
  intros Hok [Hn _].
  pose proof (fillLots_ok n o Hok Hn) as Hok'.
  pose proof (fillLots_workingQty n o Hok Hn) as Hw.
  rewrite (filledQty_ok _ Hok'), (filledQty_ok _ Hok), qty_fillLots, Hw.
  destruct Hok as [Hb Hq].
  split; [lia|]. split; [lia|].
  unfold isFilled. rewrite Hw, Z.eqb_eq. lia.
Qed.

Lemma fillLots_moves_lots_witness :
  let o := Order_new "Ord1" "SecId1" "Buy" 10 "User1" "CompanyA" in
  Order_ok o /\ is_uint 6 /\
  workingQty (fillLots 6 o) = 4 /\ filledQty (fillLots 6 o) = 6.
Proof.
  intros o.
  assert (Hok : Order_ok o) by (vm_compute; intuition discriminate).
  assert (Hn : is_uint 6) by (vm_compute; intuition discriminate).
  split; [exact Hok|]. split; [exact Hn|].
  destruct (fillLots_moves_lots 6 o Hok Hn) as (_ & H & _).
  split; [reflexivity|]. rewrite H. reflexivity.
Defined.

(** X2: a fill followed by an unfill of the same amount gives the order
    back exactly when the fill did not saturate ([n <= workingQty]) or the
    order had no fills at all; in every other case the order ends with
    more working lots than it started with. *)
Theorem fill_then_unfill_restores (n : Z) (o : Order) :
  Order_ok o -> is_uint n ->
  (unfillLots n (fillLots n o) = o <->
   n <= workingQty o \/ workingQty o = qty o) /\
  workingQty o <= workingQty (unfillLots n (fillLots n o)).
Proof.
  intros Hok Hn. pose proof Hn as [Hn0 Hn1].
  pose proof (fillLots_workingQty n o Hok Hn0) as Hw.
  rewrite unfill_fill_set, set_workingQty_inj.
  rewrite workingQty_unfillLots, qty_fillLots, Hw.
  destruct Hok as [Hb Hq]. unfold UINT_MODULUS in *.
  assert (Hs : wrap32 (Z.max 0 (workingQty o - n) + n) =
               Z.max 0 (workingQty o - n) + n).
  { apply wrap32_small. unfold is_uint, UINT_MODULUS in *. lia. }
  rewrite Hs.
  destruct (Z.ltb_spec (qty o) (Z.max 0 (workingQty o - n) + n));
    cbn [workingQty set_workingQty]; lia.
Qed.

Lemma fill_then_unfill_restores_witness :
  let o := fillLots 6 (Order_new "Ord1" "SecId1" "Buy" 10 "User1" "CompanyA") in
  Order_ok o /\ is_uint 3 /\ unfillLots 3 (fillLots 3 o) = o /\
  workingQty (unfillLots 9 (fillLots 9 o)) = 9.
Proof.
  intros o.
  assert (Hok : Order_ok o) by (vm_compute; intuition discriminate).
  assert (Hn : is_uint 3) by (vm_compute; intuition discriminate).
  split; [exact Hok|]. split; [exact Hn|].
  split; [|reflexivity].
  apply (fill_then_unfill_restores 3 o Hok Hn). left. vm_compute. discriminate.
Defined.

(** X3: an unfill followed by a fill of the same amount gives the order
    back exactly when the unfill stayed within [qty], or the order was
    filled and [n] is at least [qty]; otherwise lots are lost. *)
Theorem unfill_then_fill_restores (n : Z) (o : Order) :
  Order_ok o -> is_uint n ->
  (fillLots n (unfillLots n o) = o <->
   workingQty o + n <= qty o \/ (workingQty o = 0 /\ qty o <= n)) /\
  workingQty (fillLots n (unfillLots n o)) <= workingQty o.
Proof.
  intros Hok Hn. pose proof Hn as [Hn0 Hn1].
  pose proof (unfillLots_ok n o Hok) as Hok'.
  pose proof (fillLots_workingQty n _ Hok' Hn0) as Hw.
  rewrite fill_unfill_set, set_workingQty_inj.
  rewrite Hw, workingQty_unfillLots.
  destruct Hok as [Hb Hq]. unfold UINT_MODULUS in *.
  destruct (Z.lt_ge_cases (workingQty o + n) 4294967296) as [Hlt|Hge].
  - assert (Hs : wrap32 (workingQty o + n) = workingQty o + n).
    { apply wrap32_small. unfold is_uint, UINT_MODULUS. lia. }
    rewrite Hs.
    destruct (Z.ltb_spec (qty o) (workingQty o + n));
      cbn [workingQty set_workingQty]; lia.
  - assert (Hs : wrap32 (workingQty o + n) = workingQty o + n - 4294967296).
    { unfold wrap32, UINT_MODULUS.
      symmetry. apply (Z.mod_unique _ _ 1); lia. }
    rewrite Hs.
    destruct (Z.ltb_spec (qty o) (workingQty o + n - 4294967296));
      cbn [workingQty set_workingQty]; lia.
Qed.

Lemma unfill_then_fill_restores_witness :
  let o := fillLots 6 (Order_new "Ord1" "SecId1" "Buy" 10 "User1" "CompanyA") in
  Order_ok o /\ is_uint 5 /\ fillLots 5 (unfillLots 5 o) = o /\
  workingQty (fillLots 8 (unfillLots 8 o)) = 2.
Proof.
  intros o.
  assert (Hok : Order_ok o) by (vm_compute; intuition discriminate).
  assert (Hn : is_uint 5) by (vm_compute; intuition discriminate).
  split; [exact Hok|]. split; [exact Hn|].
  split; [|reflexivity].
  apply (unfill_then_fill_restores 5 o Hok Hn). left. vm_compute. discriminate.
Defined.

(** ** [utils::chunks] *)

Lemma take_take_drop {A} (n m : nat) (l : list A) :
  take n l ++ take m (drop n l) = take (n + m) l.
Proof.
  revert l. induction n as [|n IH]; intros l; [reflexivity|].
  destruct l as [|x l]; simpl.
  - now rewrite take_nil.
  - now rewrite IH.
Qed.

Lemma drop_nil_length {A} (n : nat) (l : list A) :
  length (drop n l) = 0%nat -> (length l <= n)%nat.
Proof. rewrite length_drop. lia. Qed.

Lemma ceil_step (len k : Z) :
  0 < k -> (len - k + k - 1) / k = (len + k - 1) / k - 1.
Proof.
  intros Hk. replace (len - k + k - 1) with (len + k - 1 + (-1) * k) by lia.
  rewrite Z.div_add by lia. lia.
Qed.

Lemma ceil_small (len k : Z) : 0 < k -> 0 <= len <= k -> (len + k - 1) / k <= 1.
Proof.
  intros Hk Hl. apply Z.lt_succ_r. apply Z.div_lt_upper_bound; lia.
Qed.

Lemma ceil_large (len k : Z) : 0 < k -> k < len -> 2 <= (len + k - 1) / k.
Proof. intros Hk Hl. apply Z.div_le_lower_bound; lia. Qed.

(** What the loop does from any point on: [counter] chunks have been or
    are being handed out, [rest] is what lies between [chunkBegin] and
    [end]. *)
Lemma chunks_loop_spec {A} (k maxChunks : Z) :
  0 < k -> is_uint maxChunks ->
  forall (fuel : nat) (rest : list A) (counter : Z),
    (length rest < fuel)%nat -> 1 <= counter ->
    let B := Z.max 1 (maxChunks - counter + 1) in
    exists cs,
      chunks_loop fuel rest k maxChunks counter = Some cs /\
      concat cs = take (Z.to_nat (B * k)) rest /\
      Z.of_nat (length cs) =
        Z.min B (Z.max 1 ((Z.of_nat (length rest) + k - 1) / k)) /\
      forall (i : nat) ch, cs !! i = Some ch ->
        ch = take (Z.to_nat k) (drop (i * Z.to_nat k) rest).
Proof.
  intros Hk [Hm0 Hm1]. induction fuel as [|fuel IH]; intros rest counter Hf Hc B.
  { lia. }
  cbn [chunks_loop].
  destruct (Z.ltb_spec k 0) as [|_]; [lia|].
  set (len := Z.of_nat (length rest)) in *.
  set (n := if len <? k then length rest else Z.to_nat k).
  assert (Hn : n = Nat.min (length rest) (Z.to_nat k)).
  { unfold n. destruct (Z.ltb_spec len k); unfold len in *; lia. }
  assert (Htake : take n rest = take (Z.to_nat k) rest).
  { rewrite Hn. destruct (Nat.le_ge_cases (length rest) (Z.to_nat k)) as [Hle|Hle].
    - rewrite Nat.min_l by assumption.
      rewrite !take_ge by lia. reflexivity.
    - now rewrite Nat.min_r by assumption. }
  assert (Hlen' : Z.of_nat (length (drop n rest)) = len - Z.of_nat n).
  { rewrite length_drop. unfold len. lia. }
  destruct (Z.ltb_spec 0 (Z.of_nat (length (drop n rest)))) as [Hpos|Hzero];
    [destruct (Z.ltb_spec counter maxChunks) as [Hlt|Hge]|]; cbn [andb].
  - (* another turn *)
    assert (Hnk : n = Z.to_nat k) by lia.
    assert (Hw : wrap32 (counter + 1) = counter + 1).
    { apply wrap32_small. unfold is_uint. lia. }
    rewrite Hw.
    destruct (IH (drop n rest) (counter + 1)) as (cs & Hcs & Hcat & Hlen & Hel).
    { rewrite length_drop. lia. }
    { lia. }
    rewrite Hcs. cbn [option_map]. eexists. split; [reflexivity|].
    split; [|split].
    + cbn [concat]. rewrite Hcat, Htake, Hnk, take_take_drop. f_equal.
      unfold B.
      replace (Z.max 1 (maxChunks - (counter + 1) + 1))
        with (maxChunks - counter) by lia.
      replace (Z.max 1 (maxChunks - counter + 1))
        with (maxChunks - counter + 1) by lia.
      rewrite <- Z2Nat.inj_add by nia. f_equal. lia.
    + cbn [length]. rewrite Nat2Z.inj_succ, Hlen, Hlen', Hnk.
      rewrite Z2Nat.id by lia.
      replace (len - k + k - 1) with (len - k + k - 1) by reflexivity.
      rewrite ceil_step by lia.
      pose proof (ceil_large len k Hk ltac:(lia)). unfold B. lia.
    + intros [|i] ch; cbn [lookup list_lookup].
      * intros [= <-]. simpl. exact Htake.
      * intros Hi. rewrite (Hel i ch Hi), drop_drop, Hnk.
        cbn [Nat.mul]. reflexivity.
  - (* [maxChunks] reached *)
    assert (Hnk : n = Z.to_nat k) by lia.
    eexists. split; [reflexivity|]. split; [|split].
    + cbn [concat]. rewrite app_nil_r, Htake. f_equal. unfold B.
      replace (Z.max 1 (maxChunks - counter + 1)) with 1 by lia. lia.
    + cbn [length]. unfold B. lia.
    + intros [|i] ch; cbn [lookup list_lookup]; [|discriminate].
      intros [= <-]. exact Htake.
  - (* the range is used up *)
    assert (Hall : (length rest <= n)%nat) by lia.
    assert (Hlk : len <= k) by lia.
    eexists. split; [reflexivity|]. split; [|split].
    + cbn [concat]. rewrite app_nil_r. rewrite !take_ge; try reflexivity; try lia.
      unfold B. unfold len in *. nia.
    + cbn [length].
      pose proof (ceil_small len k Hk ltac:(unfold len; lia)). unfold B. lia.
    + intros [|i] ch; cbn [lookup list_lookup]; [|discriminate].
      intros [= <-]. exact Htake.
Qed.

Lemma chunks_spec {A} (l : list A) (chunkSize maxChunks : Z)
    (fuel : nat) :
  0 < chunkSize -> is_uint maxChunks -> (length l < fuel)%nat ->
  exists cs,
    chunks fuel l chunkSize maxChunks = Some cs /\
    concat cs = take (Z.to_nat (Z.max 1 maxChunks * chunkSize)) l /\
    Z.of_nat (length cs) =
      Z.min (Z.max 1 maxChunks)
            (Z.max 1 ((Z.of_nat (length l) + chunkSize - 1) / chunkSize)) /\
    (forall (i : nat) ch, cs !! i = Some ch ->
       ch = take (Z.to_nat chunkSize) (drop (i * Z.to_nat chunkSize) l)) /\
    (Z.of_nat (length l) <= Z.max 1 maxChunks * chunkSize -> concat cs = l).
Proof.
  intros Hk Hm Hf.
  destruct (chunks_loop_spec chunkSize maxChunks Hk Hm fuel l 1 Hf ltac:(lia))
    as (cs & Hcs & Hcat & Hlen & Hel).
  replace (maxChunks - 1 + 1) with maxChunks in * by lia.
  exists cs. split; [exact Hcs|]. split; [exact Hcat|].
  split; [exact Hlen|]. split; [exact Hel|].
  intros Hle. rewrite Hcat. apply take_ge. lia.
Qed.


(** X4: with a positive chunk size [chunks] hands the range to the functor
    piece by piece, in order and without gaps: call [i] receives the
    [chunkSize] elements from position [i * chunkSize] on (fewer at the
    end of the range); there is always at least one call, also on an
    empty range, and at most [maxChunks] (but one even when [maxChunks] is
    0); when [maxChunks] calls suffice, the calls together cover the whole
    range. *)
Theorem chunks_partitions_range {A} (l : list A) (chunkSize maxChunks : Z)
    (fuel : nat) :
  0 < chunkSize -> is_uint maxChunks -> (length l < fuel)%nat ->
  exists cs,
    chunks fuel l chunkSize maxChunks = Some cs /\
    concat cs = take (Z.to_nat (Z.max 1 maxChunks * chunkSize)) l /\
    Z.of_nat (length cs) =
      Z.min (Z.max 1 maxChunks)
            (Z.max 1 ((Z.of_nat (length l) + chunkSize - 1) / chunkSize)) /\
    (forall (i : nat) ch, cs !! i = Some ch ->
       ch = take (Z.to_nat chunkSize) (drop (i * Z.to_nat chunkSize) l)) /\
    (Z.of_nat (length l) <= Z.max 1 maxChunks * chunkSize -> concat cs = l).
Proof. apply chunks_spec. Qed.

Lemma chunks_partitions_range_witness :
  0 < 3 /\ is_uint UINT_MAX /\
  chunks 8 [1; 2; 3; 4; 5; 6; 7] 3 UINT_MAX = Some [[1; 2; 3]; [4; 5; 6]; [7]] /\
  chunks 8 [1; 2; 3; 4; 5; 6; 7] 3 2 = Some [[1; 2; 3]; [4; 5; 6]] /\
  exists cs, chunks 8 [1; 2; 3; 4; 5; 6; 7] 3 UINT_MAX = Some cs /\
             concat cs = [1; 2; 3; 4; 5; 6; 7].
Proof.
  assert (Hk : 0 < 3) by lia.
  assert (Hm : is_uint UINT_MAX) by (vm_compute; intuition discriminate).
  split; [exact Hk|]. split; [exact Hm|].
  split; [reflexivity|]. split; [reflexivity|].
  destruct (chunks_partitions_range [1; 2; 3; 4; 5; 6; 7] 3 UINT_MAX 8 Hk Hm)
    as (cs & Hcs & _ & _ & _ & Hall).
  - simpl. lia.
  - exists cs. split; [exact Hcs|]. apply Hall. vm_compute. discriminate.
Defined.

Lemma chunks_loop_zero {A} (maxChunks : Z) (rest : list A) :
  is_uint maxChunks -> rest <> [] ->
  forall (fuel : nat) (counter : Z),
    1 <= counter ->
    let B := Z.max 1 (maxChunks - counter + 1) in
    chunks_loop fuel rest 0 maxChunks counter =
    if (Z.to_nat B <=? fuel)%nat then Some (replicate (Z.to_nat B) []) else None.
Proof.
  intros [Hm0 Hm1] Hne.
  assert (Hlen : 0 < Z.of_nat (length rest)).
  { destruct rest; [congruence | simpl; lia]. }
  induction fuel as [|fuel IH]; intros counter Hc B.
  - simpl. destruct (Nat.leb_spec (Z.to_nat B) 0); [unfold B in *; lia | reflexivity].
  - cbn [chunks_loop].
    destruct (Z.ltb_spec 0 0) as [|_]; [lia|].
    destruct (Z.ltb_spec (Z.of_nat (length rest)) 0) as [|_]; [lia|].
    change (Z.to_nat 0) with 0%nat. rewrite drop_0, take_0.
    destruct (Z.ltb_spec 0 (Z.of_nat (length rest))) as [_|]; [|lia].
    cbn [andb].
    destruct (Z.ltb_spec counter maxChunks) as [Hlt|Hge].
    + assert (Hw : wrap32 (counter + 1) = counter + 1).
      { apply wrap32_small. unfold is_uint. lia. }
      rewrite Hw, IH by lia.
      replace (Z.to_nat B) with (S (Z.to_nat (Z.max 1 (maxChunks - (counter + 1) + 1))))
        by (unfold B; lia).
      cbn [Nat.leb].
      destruct (_ <=? fuel)%nat; reflexivity.
    + replace (Z.to_nat B) with 1%nat by (unfold B; lia). reflexivity.
Qed.

(** X5: with [chunkSize = 0] the loop never advances.  On an empty range
    the functor is called once, with the empty range.  On a range that is
    not empty it is called [maxChunks] times (once if [maxChunks] is 0),
    every time with an empty range, and no element is ever handed out:
    the loop only ends because of the call counter, after 4294967295 calls
    with the default [maxChunks = UINT_MAX]. *)
Theorem chunks_zero_chunkSize {A} (l : list A) (maxChunks : Z) (fuel : nat) :
  is_uint maxChunks ->
  (l = [] -> chunks (S fuel) l 0 maxChunks = Some [[]]) /\
  (l <> [] ->
   chunks fuel l 0 maxChunks =
   if (Z.to_nat (Z.max 1 maxChunks) <=? fuel)%nat
   then Some (replicate (Z.to_nat (Z.max 1 maxChunks)) [])
   else None).
Proof.
  intros Hm. split.
  - intros ->. reflexivity.
  - intros Hne. unfold chunks.
    rewrite (chunks_loop_zero maxChunks l Hm Hne fuel 1) by lia.
    replace (maxChunks - 1 + 1) with maxChunks by lia. reflexivity.
Qed.

Lemma chunks_zero_chunkSize_witness :
  is_uint 3 /\
  chunks 5 ["a"; "b"] 0 3 = Some [[]; []; []] /\
  chunks 2 ["a"; "b"] 0 3 = None.
Proof.
  assert (Hm : is_uint 3) by (vm_compute; intuition discriminate).
  split; [exact Hm|].
  split.
  - apply (chunks_zero_chunkSize ["a"; "b"] 3 5 Hm). discriminate.
  - apply (chunks_zero_chunkSize ["a"; "b"] 3 2 Hm). discriminate.
Defined.

Lemma chunks_nonempty_pieces {A} (l : list A) (k : Z) (cs : list (list A)) :
  0 < k -> l <> [] ->
  Z.of_nat (length cs) <= Z.max 1 ((Z.of_nat (length l) + k - 1) / k) ->
  (forall (i : nat) ch, cs !! i = Some ch ->
     ch = take (Z.to_nat k) (drop (i * Z.to_nat k) l)) ->
  Forall (fun ch => ch <> []) cs.
Proof.
  intros Hk Hne Hlen Hel. apply Forall_lookup. intros i ch Hi.
  pose proof (lookup_lt_Some _ _ _ Hi) as Hlt.
  rewrite (Hel i ch Hi). intros Hnil.
  apply (f_equal length) in Hnil. rewrite length_take, length_drop in Hnil.
  simpl in Hnil.
  assert (Hl : 0 < Z.of_nat (length l)).
  { destruct l; [congruence | simpl; lia]. }
  assert (Hik : Z.of_nat i * k < Z.of_nat (length l)).
  { destruct (Z.le_gt_cases (Z.of_nat (length l)) k) as [Hs|Hb].
    - pose proof (ceil_small (Z.of_nat (length l)) k Hk ltac:(lia)). 
      assert (i = 0%nat) by lia. subst i. lia.
    - pose proof (ceil_large (Z.of_nat (length l)) k Hk Hb).
      assert (Hi1 : Z.of_nat i + 1 <= (Z.of_nat (length l) + k - 1) / k) by lia.
      pose proof (Z.mul_div_le (Z.of_nat (length l) + k - 1) k Hk). nia. }
  assert (Hik' : (i * Z.to_nat k < length l)%nat) by nia.
  lia.
Qed.

(** X6: the chunk size that [cancelOrders] computes, used with [chunks] as
    in its threaded branch.  When [hardware_concurrency()] yields at least
    one thread, the id set is cut into at most [nthreads] chunks that
    together hold every id once, in order, and no chunk is empty unless
    the set is.  When it yields 0 (as the standard allows) and there is
    at least one id to cancel, the chunk size is a division by zero. *)
Theorem cancelOrders_chunk_plan (ids_ : list string) (nthreads : Z) :
  is_uint nthreads -> Z.of_nat (length ids_) < UINT_MODULUS ->
  (nthreads = 0 -> ids_ <> [] ->
   cancelOrders_chunkSize nthreads (Z.of_nat (length ids_)) = None) /\
  (1 <= nthreads ->
   exists k cs,
     cancelOrders_chunkSize nthreads (Z.of_nat (length ids_)) = Some k /\
     chunks (S (length ids_)) ids_ k UINT_MAX = Some cs /\
     concat cs = ids_ /\
     (1 <= Z.of_nat (length cs) <= nthreads) /\
     (ids_ <> [] -> Forall (fun ch => ch <> []) cs)).
Proof.
  intros [Hn0 Hn1] Hsz.
  assert (Hmax : is_uint UINT_MAX) by (vm_compute; intuition discriminate).
  destruct (decide (ids_ = [])) as [->|Hne].
  { (* nothing to cancel: one call on the empty range *)
    split; [congruence|]. intros Hn.
    exists 0, [[]]. unfold cancelOrders_chunkSize. simpl length.
    change (Z.of_nat 0) with 0.
    destruct (Z.leb_spec 0 nthreads); [|lia].
    rewrite orb_true_r. split; [reflexivity|]. split; [reflexivity|].
    split; [reflexivity|]. split; [simpl; lia|]. congruence. }
  set (size := Z.of_nat (length ids_)) in *.
  assert (Hpos : 0 < size).
  { unfold size. destruct ids_; [congruence | simpl; lia]. }
  unfold cancelOrders_chunkSize. split.
  - intros -> _.
    destruct (Z.leb_spec size 0); [lia|]. reflexivity.
  - intros Hn.
    destruct ((nthreads =? 1) || (size <=? nthreads)) eqn:Eone.
    + (* one chunk with everything *)
      destruct (chunks_spec ids_ size UINT_MAX (S (length ids_))
                  Hpos Hmax ltac:(lia)) as (cs & Hcs & _ & Hlen & Hel & Hall).
      exists size, cs. split; [reflexivity|]. split; [exact Hcs|].
      assert (Hone : (size + size - 1) / size = 1).
      { symmetry. apply (Z.div_unique _ _ 1 (size - 1)); lia. }
      fold size in Hlen. rewrite Hone in Hlen.
      split; [apply Hall; fold size; change (Z.max 1 UINT_MAX) with 4294967295;
             unfold UINT_MODULUS in Hsz; nia|].
      split; [unfold UINT_MAX in Hlen; lia|].
      intros _. apply (chunks_nonempty_pieces ids_ size cs Hpos Hne);
        [fold size; rewrite Hone; lia | exact Hel].
    + apply orb_false_iff in Eone as [E1 E2].
      apply Z.eqb_neq in E1. apply Z.leb_gt in E2.
      destruct (Z.eqb_spec nthreads 0); [lia|].
      assert (Hw1 : wrap32 (size - 1) = size - 1).
      { apply wrap32_small. unfold is_uint. lia. }
      set (k := 1 + (size - 1) / nthreads).
      assert (Hq : 0 <= (size - 1) / nthreads <= size - 1).
      { split; [apply Z.div_pos; lia|].
        apply Z.div_le_upper_bound; nia. }
      assert (Hw2 : wrap32 (1 + (size - 1) / nthreads) = k).
      { apply wrap32_small. unfold is_uint, k. lia. }
      rewrite Hw1, Hw2.
      assert (Hk : 0 < k) by (unfold k; lia).
      destruct (chunks_spec ids_ k UINT_MAX (S (length ids_))
                  Hk Hmax ltac:(lia)) as (cs & Hcs & _ & Hlen & Hel & Hall).
      fold size in Hlen.
      assert (Hcover : size - 1 < nthreads * k).
      { unfold k. pose proof (Z.mul_succ_div_gt (size - 1) nthreads ltac:(lia)).
        lia. }
      assert (Hceil : (size + k - 1) / k <= nthreads).
      { apply Z.lt_succ_r. apply Z.div_lt_upper_bound; nia. }
      assert (Hceil0 : 0 <= (size + k - 1) / k) by (apply Z.div_pos; lia).
      exists k, cs. split; [reflexivity|]. split; [exact Hcs|].
      split; [apply Hall; fold size; change (Z.max 1 UINT_MAX) with 4294967295;
             unfold UINT_MODULUS in Hsz; nia|].
      split; [unfold UINT_MAX in Hlen; lia|].
      intros _. apply (chunks_nonempty_pieces ids_ k cs Hk Hne);
        [fold size; unfold UINT_MAX in Hlen; lia | exact Hel].
Qed.

Lemma cancelOrders_chunk_plan_witness :
  is_uint 4 /\
  cancelOrders_chunkSize 4 10 = Some 3 /\
  chunks 11 ["a"; "b"; "c"; "d"; "e"; "f"; "g"; "h"; "i"; "j"] 3 UINT_MAX =
    Some [["a"; "b"; "c"]; ["d"; "e"; "f"]; ["g"; "h"; "i"]; ["j"]] /\
  exists k cs,
    cancelOrders_chunkSize 4
      (Z.of_nat (length ["a"; "b"; "c"; "d"; "e"; "f"; "g"; "h"; "i"; "j"]))
      = Some k /\
    chunks 11 ["a"; "b"; "c"; "d"; "e"; "f"; "g"; "h"; "i"; "j"] k UINT_MAX
      = Some cs /\
    Z.of_nat (length cs) <= 4.
Proof.
  assert (Hn : is_uint 4) by (vm_compute; intuition discriminate).
  split; [exact Hn|]. split; [reflexivity|]. split; [reflexivity|].
  destruct (cancelOrders_chunk_plan
              ["a"; "b"; "c"; "d"; "e"; "f"; "g"; "h"; "i"; "j"] 4 Hn)
    as [_ H].
  - vm_compute. reflexivity.
  - destruct H as (k & cs & Hk & Hcs & _ & Hlen & _); [lia|].
    exists k, cs. split; [exact Hk|]. split; [exact Hcs|]. lia.
Defined.

(** ** Reading the cache: [getOrder], [exists], [size] *)

Lemma getOrder_deref id c : wf c -> getOrder id c = deref (_orders c) id.
Proof.
  intros Hwf. unfold getOrder.
  destruct (_orderIndex c !! id) as [p|] eqn:E.
  - apply (wf_index c Hwf) in E as [-> _]. reflexivity.
  - symmetry. apply deref_None. intros Hin.
    assert (H : _orderIndex c !! id = Some id)
      by (apply (wf_index c Hwf); auto).
    congruence.
Qed.

Lemma size_orders c : wf c -> size_ c = length (_orders c).
Proof.
  intros Hwf. unfold size_.
  rewrite <- size_dom.
  assert (Hd : dom (_orderIndex c) = list_to_set (ids (_orders c))).
  { apply set_eq. intros i.
    rewrite elem_of_dom, elem_of_list_to_set, list_elem_of_In. split.
    - intros [p Hp]. now apply (wf_index c Hwf) in Hp as [_ Hin].
    - intros Hin. exists i. apply (wf_index c Hwf). auto. }
  rewrite Hd, size_list_to_set by apply (wf_nodup c Hwf).
  unfold ids. now rewrite length_map.
Qed.

(** X7: [getOrder(id)] (and [cache[id]]) returns the order of the list
    whose id is [id], with its current working quantity; it fails (the
    [std::out_of_range] of [at]) exactly for the ids for which [exists]
    is false. *)
Theorem getOrder_finds_live_orders (c : OrderCache) (id : string) :
  wf c ->
  (forall o, getOrder id c = Some o <->
             In o (getAllOrders c) /\ orderId o = id) /\
  (getOrder id c = None <-> exists_ c id = false).
Proof.
  intros Hwf. rewrite (getOrder_deref id c Hwf). unfold getAllOrders. split.
  - intros o. split.
    + apply deref_Some.
    + intros [Hin <-]. apply deref_In; [apply (wf_nodup c Hwf) | exact Hin].
  - rewrite deref_None. symmetry. now apply exists_false.
Qed.

Lemma getOrder_finds_live_orders_witness :
  let c := add_all true scenarioA empty_cache in
  wf c /\
  (workingQty <$> getOrder "OrdId8" c) = Some 4900 /\
  getOrder "OrdId9" c = None.
Proof.
  intros c.
  assert (Hwf : wf c).
  { apply add_all_wf; [apply wf_empty|].
    repeat constructor; vm_compute; intuition discriminate. }
  split; [exact Hwf|]. split; [reflexivity|].
  apply (getOrder_finds_live_orders c "OrdId9" Hwf). reflexivity.
Defined.

Lemma matchOrderInCache_subject O c o :
  wf c -> deref (_orders c) O = Some o ->
  exists o',
    deref (_orders (snd (matchOrderInCache O c))) O = Some o' /\
    static o' = static o /\
    0 <= workingQty o' <= workingQty o /\
    fst (matchOrderInCache O c) = workingQty o - workingQty o'.
Proof.
  intros Hwf Ho.
  pose proof (deref_ok _ _ _ (wf_ok c Hwf) Ho) as [Hb Hq].
  destruct (matchOrderInCache_unfold O c o Hwf Ho)
    as [(_ & Hm & Hos & _) | (_ & _ & Hm & Hos & _)].
  - exists o. rewrite Hos, Hm. split; [exact Ho|]. split; [reflexivity|]. lia.
  - destruct (match_loop_total O
                (side_list (negb (isBuySide o)) (securityId o) (_orders c))
                (_orders c) 0 o (wf_ok c Hwf) Ho ltac:(lia) ltac:(lia))
      as (o' & Ho' & Hw & Hs).
    exists o'. rewrite Hos, Hm. split; [exact Ho'|].
    split; [|split; [exact Hw | lia]].
    pose proof (match_loop_statics O
                  (side_list (negb (isBuySide o)) (securityId o) (_orders c))
                  (_orders c) 0) as Hst.
    apply deref_Some in Ho' as [Hin' Hid'].
    apply deref_Some in Ho as [Hin Hid].
    assert (Hs' : In (static o') (statics (_orders c))).
    { rewrite <- Hst. unfold statics. now apply in_map. }
    unfold statics in Hs'. apply in_map_iff in Hs' as (x & Hx & Hinx).
    assert (x = o).
    { apply (NoDup_ids_inj (_orders c)); try assumption.
      - apply (wf_nodup c Hwf).
      - apply (f_equal orderId) in Hx. simpl in Hx. congruence. }
    subst x. now symmetry.
Qed.

(** X8: an order added under a new id can be read back with [getOrder].
    Without matching at insertion it comes back as it was passed in.
    With it, the order comes back with the same immutable fields and with
    its working quantity lowered by exactly the amount by which the
    matched size of its security has grown. *)
Theorem addOrder_then_getOrder (eager : bool) (o : Order) (c : OrderCache) :
  wf c -> Order_ok o -> exists_ c (orderId o) = false ->
  exists o',
    getOrder (orderId o) (addOrder eager o c) = Some o' /\
    static o' = static o /\
    0 <= workingQty o' <= workingQty o /\
    (eager = false -> o' = o) /\
    getMatchedQuantityInCache (addOrder eager o c) (securityId o) =
      wrap32 (getMatchedQuantityInCache c (securityId o) +
              (if eager then workingQty o - workingQty o' else 0)).
Proof.
  intros Hwf Hok Hnew.
  pose proof (addOrder_wf eager o c Hwf Hok) as Hwf'.
  rewrite (getOrder_deref _ _ Hwf').
  pose proof (addOrder_lazy_new o c Hnew) as (Hos & Hmq & _).
  pose proof (addOrder_lazy_wf o c Hwf Hok) as Hwfl.
  assert (Hhead : deref (_orders (addOrder false o c)) (orderId o) = Some o).
  { rewrite Hos. apply deref_head. }
  assert (Hmq' : getMatchedQuantityInCache (addOrder false o c) (securityId o) =
                 getMatchedQuantityInCache c (securityId o)).
  { unfold getMatchedQuantityInCache. now rewrite Hmq. }
  destruct eager.
  - rewrite addOrder_eager_lazy, Hnew.
    destruct (matchOrderInCache_subject _ _ _ Hwfl Hhead)
      as (o' & Ho' & Hst & Hw & Hm).
    destruct (matchOrderInCache_cache _ _ _ Hwfl Hhead) as [_ Hcache].
    exists o'. split; [exact Ho'|]. split; [exact Hst|]. split; [exact Hw|].
    split; [discriminate|].
    rewrite Hcache, String.eqb_refl, Hmq', Hm. reflexivity.
  - exists o. split; [exact Hhead|]. split; [reflexivity|].
    destruct Hok as [Hb _]. split; [lia|]. split; [reflexivity|].
    rewrite Hmq', Z.add_0_r. symmetry. apply wrap32_small.
    now apply getMatched_uint.
Qed.

Lemma addOrder_then_getOrder_witness :
  let c := add_all true (take 7 scenarioA) empty_cache in
  let o := Order_new "OrdId8" "SecId2" "Sell" 5000 "User8" "CompanyE" in
  wf c /\ Order_ok o /\ exists_ c (orderId o) = false /\
  exists o', getOrder "OrdId8" (addOrder true o c) = Some o' /\
             workingQty o' = 5000 - 100 /\
             getMatchedQuantityInCache (addOrder true o c) "SecId2" = 2700.
Proof.
  intros c o.
  assert (Hwf : wf c).
  { apply add_all_wf; [apply wf_empty|].
    repeat constructor; vm_compute; intuition discriminate. }
  assert (Hok : Order_ok o) by (vm_compute; intuition discriminate).
  assert (Hnew : exists_ c (orderId o) = false) by reflexivity.
  split; [exact Hwf|]. split; [exact Hok|]. split; [exact Hnew|].
  destruct (addOrder_then_getOrder true o c Hwf Hok Hnew)
    as (o' & Ho' & _).
  exists o'. split; [exact Ho'|].
  assert (E : getOrder "OrdId8" (addOrder true o c) =
              Some (set_workingQty 4900 o)) by reflexivity.
  change (orderId o) with "OrdId8" in Ho'.
  rewrite E in Ho'. injection Ho' as <-. split; reflexivity.
Defined.

Lemma deref_filter_other id id' os :
  id' <> id ->
  deref (List.filter (fun o => negb (points_to id o)) os) id' = deref os id'.
Proof.
  intros Hne. unfold deref. induction os as [|x os IH]; [reflexivity|].
  simpl. destruct (points_to id x) eqn:Ex; simpl.
  - apply points_to_true in Ex.
    assert (Ex' : points_to id' x = false)
      by (apply points_to_false; congruence).
    now rewrite Ex'.
  - destruct (points_to id' x); [reflexivity | exact IH].
Qed.

Lemma cancelOrder_orders id c :
  wf c ->
  _orders (cancelOrder id c) =
  List.filter (fun o => negb (points_to id o)) (_orders c).
Proof.
  intros Hwf. unfold cancelOrder. rewrite cancelSingleOrder_orders by assumption.
  apply filter_ext_in'. intros o _.
  now rewrite passes_minQty_0, andb_true_r.
Qed.

(** X9: after [cancelOrder(id)] a lookup of [id] fails, and the lookup of
    every other id gives what it gave before, working quantity
    included. *)
Theorem cancelOrder_then_getOrder (c : OrderCache) (id : string) :
  wf c ->
  getOrder id (cancelOrder id c) = None /\
  exists_ (cancelOrder id c) id = false /\
  forall id', id' <> id ->
    getOrder id' (cancelOrder id c) = getOrder id' c.
Proof.
  intros Hwf.
  pose proof (cancelSingleOrder_wf id 0 c Hwf) as Hwf'.
  fold (cancelOrder id c) in Hwf'.
  pose proof (cancelOrder_orders id c Hwf) as Hos.
  assert (Hgone : ~ In id (ids (_orders (cancelOrder id c)))).
  { rewrite Hos. intros Hin. apply In_ids in Hin as (x & Hx & Hid).
    apply filter_In in Hx as [_ Hx].
    apply negb_true_iff, points_to_false in Hx. contradiction. }
  split; [|split].
  - rewrite (getOrder_deref _ _ Hwf'). now apply deref_None.
  - now apply exists_false.
  - intros id' Hne.
    rewrite (getOrder_deref _ _ Hwf'), (getOrder_deref _ _ Hwf), Hos.
    now apply deref_filter_other.
Qed.

Lemma cancelOrder_then_getOrder_witness :
  let c := add_all true scenarioA empty_cache in
  wf c /\
  getOrder "OrdId2" (cancelOrder "OrdId2" c) = None /\
  getOrder "OrdId8" (cancelOrder "OrdId2" c) = getOrder "OrdId8" c.
Proof.
  intros c.
  assert (Hwf : wf c).
  { apply add_all_wf; [apply wf_empty|].
    repeat constructor; vm_compute; intuition discriminate. }
  split; [exact Hwf|].
  destruct (cancelOrder_then_getOrder c "OrdId2" Hwf) as (H1 & _ & H2).
  split; [exact H1|]. apply H2. discriminate.
Defined.

(** ** [size] and [exists] against the order list *)

Lemma length_statics os : length (statics os) = length os.
Proof. unfold statics. apply length_map. Qed.

Lemma length_filter_remove id os :
  NoDup (ids os) ->
  (In id (ids os) ->
   length (List.filter (fun o => negb (points_to id o)) os) = pred (length os)) /\
  (~ In id (ids os) ->
   List.filter (fun o => negb (points_to id o)) os = os).
Proof.
  intros Hnd. split.
  - rewrite <- list_erase_filter by assumption.
    induction os as [|x os IH]; [contradiction|].
    simpl in Hnd. apply NoDup_cons in Hnd as [Hx Hnd].
    cbn [list_erase]. destruct (points_to id x) eqn:Ex; [reflexivity|].
    apply points_to_false in Ex. intros [Hin|Hin]; [contradiction|].
    cbn [length]. rewrite (IH Hnd Hin).
    destruct os; [contradiction | reflexivity].
  - intros Hni. apply filter_none. intros x Hx.
    apply negb_true_iff, points_to_false. intros Hid. apply Hni.
    apply In_ids. eauto.
Qed.

(** X11: [addOrder] raises [size()] by one when the id is new and leaves
    it alone for a duplicate; [cancelOrder] lowers it by one when the id
    is in the cache and leaves it alone otherwise. *)
Theorem size_after_add_and_cancel (eager : bool) (o : Order) (id : string)
    (c : OrderCache) :
  wf c -> Order_ok o ->
  size_ (addOrder eager o c) =
    (if exists_ c (orderId o) then size_ c else S (size_ c)) /\
  size_ (cancelOrder id c) =
    (if exists_ c id then pred (size_ c) else size_ c).
Proof.
  intros Hwf Hok. split.
  - destruct (exists_ c (orderId o)) eqn:Ex.
    + now rewrite addOrder_dup.
    + rewrite (size_orders _ (addOrder_wf eager o c Hwf Hok)).
      rewrite <- length_statics, (addOrder_new_statics eager o c Ex).
      cbn [length]. now rewrite length_statics, size_orders.
  - pose proof (cancelSingleOrder_wf id 0 c Hwf) as Hwf'.
    fold (cancelOrder id c) in Hwf'. rewrite (size_orders _ Hwf').
    rewrite (cancelOrder_orders id c Hwf).
    destruct (length_filter_remove id (_orders c) (wf_nodup c Hwf)) as [Hin Hout].
    rewrite (size_orders c Hwf).
    destruct (exists_ c id) eqn:Ex.
    + apply (exists_true c id Hwf) in Ex. now apply Hin.
    + apply (exists_false c id Hwf) in Ex. now rewrite Hout.
Qed.

Lemma size_after_add_and_cancel_witness :
  let c := add_all true scenarioA empty_cache in
  let o := Order_new "OrdId9" "SecId1" "Buy" 10 "User1" "CompanyA" in
  wf c /\ Order_ok o /\
  size_ c = 8%nat /\
  size_ (addOrder true o c) = 9%nat /\
  size_ (cancelOrder "OrdId3" c) = 7%nat.
Proof.
  intros c o.
  assert (Hwf : wf c).
  { apply add_all_wf; [apply wf_empty|].
    repeat constructor; vm_compute; intuition discriminate. }
  assert (Hok : Order_ok o) by (vm_compute; intuition discriminate).
  split; [exact Hwf|]. split; [exact Hok|]. split; [reflexivity|].
  destruct (size_after_add_and_cancel true o "OrdId3" c Hwf Hok) as [Ha Hc].
  split; [rewrite Ha | rewrite Hc]; reflexivity.
Defined.

(** ** Cancelling: whole-state equalities *)

Lemma map_eq_at_key {V} (d : V) (m1 m2 : gmap string V) :
  (forall k, at_key d k m1 = at_key d k m2) ->
  (forall k, is_Some (m1 !! k) <-> is_Some (m2 !! k)) ->
  m1 = m2.
Proof.
  intros Hv Hk. apply map_eq. intros k.
  specialize (Hv k). specialize (Hk k). unfold at_key in Hv.
  destruct (m1 !! k) as [v1|], (m2 !! k) as [v2|]; simpl in *.
  - now subst.
  - destruct Hk as [Hk _]. destruct (Hk (ex_intro _ _ eq_refl)); discriminate.
  - destruct Hk as [_ Hk]. destruct (Hk (ex_intro _ _ eq_refl)); discriminate.
  - reflexivity.
Qed.

Lemma same_keys_refl c : same_keys c c.
Proof. unfold same_keys. tauto. Qed.

Lemma same_keys_trans c1 c2 c3 :
  same_keys c1 c2 -> same_keys c2 c3 -> same_keys c1 c3.
Proof.
  intros (A1 & A2 & A3 & A4) (B1 & B2 & B3 & B4).
  repeat split; intros H;
    first [ now apply A1, B1 | now apply B1, A1
          | now apply A2, B2 | now apply B2, A2
          | now apply A3, B3 | now apply B3, A3
          | now apply A4, B4 | now apply B4, A4 ].
Qed.

Lemma same_keys_sym c1 c2 : same_keys c1 c2 -> same_keys c2 c1.
Proof.
  intros (A1 & A2 & A3 & A4).
  repeat split; intros H;
    first [ now apply A1 | now apply A2 | now apply A3 | now apply A4 ].
Qed.

(** Two well-formed caches are equal as soon as they hold the same
    orders, the same matched quantities, the same thread flag and the
    same index keys. *)
Lemma wf_cache_eq c1 c2 :
  wf c1 -> wf c2 ->
  _orders c1 = _orders c2 ->
  _multiThread c1 = _multiThread c2 ->
  _matchedQuantity c1 = _matchedQuantity c2 ->
  same_keys c1 c2 ->
  c1 = c2.
Proof.
  intros Hwf1 Hwf2 Hos Hmt Hmq (K1 & K2 & K3 & K4).
  destruct (wf_same_orders c1 c2 Hwf1 Hwf2 ltac:(now rewrite Hos))
    as (Hi & Hu & Hs & Hl & Hsh).
  assert (Eu : _userOrdersIndex c1 = _userOrdersIndex c2).
  { apply (map_eq_at_key ∅); [now intros k; rewrite Hu | intros k; now rewrite K1]. }
  assert (Es : _securityOrdersIndex c1 = _securityOrdersIndex c2).
  { apply (map_eq_at_key ∅); [now intros k; rewrite Hs | intros k; now rewrite K2]. }
  assert (El : _securityLongOrdersIndex c1 = _securityLongOrdersIndex c2).
  { apply (map_eq_at_key []); [now intros k; rewrite Hl | intros k; now rewrite K3]. }
  assert (Esh : _securityShortOrdersIndex c1 = _securityShortOrdersIndex c2).
  { apply (map_eq_at_key []); [now intros k; rewrite Hsh | intros k; now rewrite K4]. }
  destruct c1, c2; simpl in *. congruence.
Qed.

Lemma at_key_nonempty_set k (m : gmap string (gset string)) i :
  i ∈ at_key ∅ k m -> is_Some (m !! k).
Proof.
  unfold at_key. destruct (m !! k); simpl; [eauto | set_solver].
Qed.

Lemma at_key_nonempty_list k (m : gmap string (list string)) i :
  In i (at_key [] k m) -> is_Some (m !! k).
Proof.
  unfold at_key. destruct (m !! k); simpl; [eauto | contradiction].
Qed.

Lemma keys_update {V} (d : V) k v (m : gmap string V) :
  is_Some (m !! k) ->
  forall j, is_Some (<[k := v]> (touch d k m) !! j) <-> is_Some (m !! j).
Proof.
  intros Hk j. destruct (decide (k = j)) as [->|Hne].
  - rewrite lookup_insert_eq. split; [auto | eauto].
  - rewrite lookup_insert_ne, touch_lookup_ne by assumption. reflexivity.
Qed.

(** [cancelSingleOrder] neither adds nor removes an index key. *)
Lemma cancelSingleOrder_keys id m c :
  wf c -> same_keys c (cancelSingleOrder id m c).
Proof.
  intros Hwf.
  destruct (deref (_orders c) id) as [o|] eqn:Ed.
  2:{ apply deref_None in Ed.
      rewrite (cancelSingleOrder_absent id m c Hwf Ed). apply same_keys_refl. }
  apply deref_Some in Ed as [Hin Hid].
  destruct (passes_minQty m o) eqn:Ep.
  2:{ rewrite (cancelSingleOrder_skip id m c o Hwf Hin Hid Ep).
      apply same_keys_refl. }
  rewrite (cancelSingleOrder_live id m c o Hwf Hin Hid Ep).
  assert (Hu : is_Some (_userOrdersIndex c !! user o)).
  { apply (at_key_nonempty_set _ _ id). apply (wf_user c Hwf). eauto. }
  assert (Hs : is_Some (_securityOrdersIndex c !! securityId o)).
  { apply (at_key_nonempty_set _ _ id). apply (wf_sec c Hwf). eauto. }
  unfold same_keys. cbn [_userOrdersIndex _securityOrdersIndex
    _securityLongOrdersIndex _securityShortOrdersIndex].
  split; [now apply keys_update|]. split; [now apply keys_update|].
  destruct (isBuySide o) eqn:Eb.
  - split; [|tauto]. apply keys_update.
    apply (at_key_nonempty_list _ _ id). rewrite (wf_long c Hwf).
    apply In_side_list. exists o. split; [assumption|]. split; [assumption|].
    now apply on_side_true.
  - split; [tauto|]. apply keys_update.
    apply (at_key_nonempty_list _ _ id). rewrite (wf_short c Hwf).
    apply In_side_list. exists o. split; [assumption|]. split; [assumption|].
    now apply on_side_true.
Qed.

Lemma cancelOrders_list_keys l m : forall c,
  wf c -> same_keys c (cancelOrders_list l m c).
Proof.
  induction l as [|id l IH]; intros c Hwf; simpl; [apply same_keys_refl|].
  eapply same_keys_trans; [now apply cancelSingleOrder_keys|].
  apply IH. now apply cancelSingleOrder_wf.
Qed.

Lemma cancelOrders_list_matched l m : forall c,
  _matchedQuantity (cancelOrders_list l m c) = _matchedQuantity c /\
  _multiThread (cancelOrders_list l m c) = _multiThread c.
Proof.
  induction l as [|id l IH]; intros c; simpl; [tauto|].
  destruct (IH (cancelSingleOrder id m c)) as [-> ->].
  apply cancelSingleOrder_matched.
Qed.

Lemma cancelOrders_list_any_order l l' m c :
  wf c -> l ≡ₚ l' -> cancelOrders_list l m c = cancelOrders_list l' m c.
Proof.
  intros Hwf Hp.
  apply wf_cache_eq; try now apply cancelOrders_list_wf.
  - now apply cancelOrders_list_perm.
  - destruct (cancelOrders_list_matched l m c) as [_ ->].
    now destruct (cancelOrders_list_matched l' m c) as [_ ->].
  - destruct (cancelOrders_list_matched l m c) as [-> _].
    now destruct (cancelOrders_list_matched l' m c) as [-> _].
  - eapply same_keys_trans.
    + apply same_keys_sym. now apply cancelOrders_list_keys.
    + now apply cancelOrders_list_keys.
Qed.

(** X12: the batch cancellations do not depend on the order in which the
    [unordered_set] of ids is traversed: cancelling the ids one by one in
    any order gives the cache that a returning [cancelOrders] gives, all
    indexes included; and [cancelOrders] returns unless multi-threading
    is on and [hardware_concurrency()] is 0. *)
Theorem cancelOrders_any_traversal_order (hardware_concurrency : Z)
    (l : list string) (keys : gset string) (m : Z) (c : OrderCache) :
  wf c -> l ≡ₚ elements keys ->
  (forall c', cancelOrders hardware_concurrency keys m c = Some c' ->
              cancelOrders_list l m c = c') /\
  ((_multiThread c = true -> hardware_concurrency <> 0) ->
   cancelOrders hardware_concurrency keys m c =
   Some (cancelOrders_list l m c)).
Proof.
  intros Hwf Hp.
  pose proof (cancelOrders_list_any_order l (elements keys) m c Hwf Hp) as E.
  split.
  - intros c' Hc. now rewrite (cancelOrders_Some _ _ _ _ _ Hc).
  - intros Hhw. rewrite E. now apply cancelOrders_returns.
Qed.

Lemma cancelOrders_any_traversal_order_witness :
  let c := add_all true scenarioA empty_cache in
  let keys : gset string := {[ "OrdId2"; "OrdId5"; "OrdId7" ]} in
  wf c /\
  cancelOrders 4 keys 0 c = Some (cancelOrders_list (rev (elements keys)) 0 c).
Proof.
  intros c keys.
  assert (Hwf : wf c).
  { apply add_all_wf; [apply wf_empty|].
    repeat constructor; vm_compute; intuition discriminate. }
  split; [exact Hwf|].
  apply cancelOrders_any_traversal_order; [exact Hwf| |discriminate].
  symmetry. apply Permutation_rev.
Defined.

Lemma cancel_effect hw eager op c out c' :
  wf c -> is_cancel op = true -> step hw eager op c = Some (out, c') ->
  out = None /\ wf c' /\
  _orders c' = List.filter (survives op) (_orders c) /\
  _matchedQuantity c' = _matchedQuantity c /\
  _multiThread c' = _multiThread c /\
  same_keys c c'.
Proof.
  intros Hwf Hc. destruct op as [o|id|u|s m|s]; try discriminate; simpl.
  - intros [= <- <-]. split; [reflexivity|].
    split; [now apply cancelSingleOrder_wf|].
    split; [now apply cancelOrder_orders|].
    split; [apply cancelSingleOrder_matched|].
    split; [apply cancelSingleOrder_matched|].
    now apply cancelSingleOrder_keys.
  - destruct (cancelOrdersForUser hw u c) as [c1|] eqn:E; [|discriminate].
    intros [= <- <-]. split; [reflexivity|].
    split; [eapply cancelOrdersForUser_wf; eassumption|].
    split; [eapply cancelOrdersForUser_orders; eassumption|].
    rewrite (cancelOrdersForUser_Some _ _ _ _ E).
    destruct (_userOrdersIndex c !! u) as [ks|];
      [|split; [reflexivity|]; split; [reflexivity|]; apply same_keys_refl].
    split; [apply cancelOrders_list_matched|].
    split; [apply cancelOrders_list_matched|].
    now apply cancelOrders_list_keys.
  - destruct (cancelOrdersForSecIdWithMinimumQty hw s m c) as [c1|] eqn:E;
      [|discriminate].
    intros [= <- <-]. split; [reflexivity|].
    split; [eapply cancelOrdersForSecIdWithMinimumQty_wf; eassumption|].
    split; [eapply cancelOrdersForSecIdWithMinimumQty_orders; eassumption|].
    rewrite (cancelOrdersForSecIdWithMinimumQty_Some _ _ _ _ _ E).
    destruct (_securityOrdersIndex c !! s) as [ks|];
      [|split; [reflexivity|]; split; [reflexivity|]; apply same_keys_refl].
    split; [apply cancelOrders_list_matched|].
    split; [apply cancelOrders_list_matched|].
    now apply cancelOrders_list_keys.
Qed.

(** A cancelling call returns unless multi-threading is on and
    [hardware_concurrency()] is 0. *)
Lemma cancel_step_total hw eager op c :
  (_multiThread c = true -> hw <> 0) ->
  is_cancel op = true -> exists c', step hw eager op c = Some (None, c').
Proof.
  intros Hhw. destruct op; try discriminate; simpl; intros _; eauto.
  - destruct (cancelOrdersForUser_returns hw usr c Hhw) as [c' ->]. eauto.
  - destruct (cancelOrdersForSecIdWithMinimumQty_returns hw sec minQty c Hhw)
      as [c' ->]. eauto.
Qed.

Lemma run_two hw eager op1 op2 c c1 c2 :
  step hw eager op1 c = Some (None, c1) ->
  step hw eager op2 c1 = Some (None, c2) ->
  run hw eager [op1; op2] c = Some ([], c2).
Proof. intros H1 H2. simpl. now rewrite H1, H2. Qed.

(** X13: any two cancelling calls ([cancelOrder], [cancelOrdersForUser],
    [cancelOrdersForSecIdWithMinimumQty], in any combination) can be
    swapped: both orders of calling them return and end in the same
    cache, indexes and matched quantities included.  This is for calls
    that cannot stop at the division in [cancelOrders]: multi-threading
    is off, or [hardware_concurrency()] is not 0. *)
Theorem cancellations_commute (hardware_concurrency : Z) (eager : bool)
    (op1 op2 : Op) (c : OrderCache) :
  wf c -> is_cancel op1 = true -> is_cancel op2 = true ->
  (_multiThread c = true -> hardware_concurrency <> 0) ->
  run hardware_concurrency eager [op1; op2] c =
  run hardware_concurrency eager [op2; op1] c /\
  exists c', run hardware_concurrency eager [op1; op2] c = Some ([], c') /\
             getAllOrders c' =
             List.filter (fun o => survives op1 o && survives op2 o)
               (getAllOrders c).
Proof.
  intros Hwf H1 H2 Hhw. set (hw := hardware_concurrency) in *.
  destruct (cancel_step_total hw eager op1 c Hhw H1) as [c1 E1].
  destruct (cancel_effect _ _ _ _ _ _ Hwf H1 E1) as (_ & W1 & O1 & M1 & T1 & K1).
  destruct (cancel_step_total hw eager op2 c Hhw H2) as [c2 E2].
  destruct (cancel_effect _ _ _ _ _ _ Hwf H2 E2) as (_ & W2 & O2 & M2 & T2 & K2).
  destruct (cancel_step_total hw eager op2 c1) as [c12 E12];
    [now rewrite T1 | assumption |].
  destruct (cancel_step_total hw eager op1 c2) as [c21 E21];
    [now rewrite T2 | assumption |].
  destruct (cancel_effect _ _ _ _ _ _ W1 H2 E12) as (_ & W12 & O12 & M12 & T12 & K12).
  destruct (cancel_effect _ _ _ _ _ _ W2 H1 E21) as (_ & W21 & O21 & M21 & T21 & K21).
  rewrite (run_two _ _ _ _ _ _ _ E1 E12), (run_two _ _ _ _ _ _ _ E2 E21).
  assert (E : c12 = c21).
  { apply wf_cache_eq; try assumption.
    - rewrite O12, O1, O21, O2. apply filter_filter_comm.
    - congruence.
    - congruence.
    - apply (same_keys_trans _ c).
      + apply same_keys_sym. exact (same_keys_trans _ _ _ K1 K12).
      + exact (same_keys_trans _ _ _ K2 K21). }
  split; [now rewrite E|].
  exists c12. split; [reflexivity|].
  unfold getAllOrders. rewrite O12, O1. apply filter_filter.
Qed.

Lemma cancellations_commute_witness :
  let c := add_all true scenarioA empty_cache in
  wf c /\ (_multiThread c = true -> 4 <> 0) /\
  run 4 true [OpCancelSec "SecId2" 2000; OpCancelUser "User4"] c =
  run 4 true [OpCancelUser "User4"; OpCancelSec "SecId2" 2000] c.
Proof.
  intros c.
  assert (Hwf : wf c).
  { apply add_all_wf; [apply wf_empty|].
    repeat constructor; vm_compute; intuition discriminate. }
  assert (Hhw : _multiThread c = true -> 4 <> 0) by (intros _; discriminate).
  split; [exact Hwf|]. split; [exact Hhw|].
  destruct (cancellations_commute 4 true (OpCancelSec "SecId2" 2000)
              (OpCancelUser "User4") c Hwf eq_refl eq_refl Hhw) as [H _].
  exact H.
Defined.

Lemma filter_idem {A} (f : A -> bool) l :
  List.filter f (List.filter f l) = List.filter f l.
Proof.
  rewrite filter_filter. apply filter_ext_in'. intros x _. now destruct (f x).
Qed.

(** X14: every cancelling call that cannot stop at the division in
    [cancelOrders] (multi-threading off, or [hardware_concurrency()] not
    0) is idempotent, and it changes nothing at all, not even an index
    key, when no order in the cache meets its criterion (an unknown id, a
    user or security without orders, a threshold above every
    quantity). *)
Theorem cancellations_idempotent (hardware_concurrency : Z) (eager : bool)
    (op : Op) (c : OrderCache) :
  wf c -> is_cancel op = true ->
  (_multiThread c = true -> hardware_concurrency <> 0) ->
  run hardware_concurrency eager [op; op] c =
  run hardware_concurrency eager [op] c /\
  (exists c', run hardware_concurrency eager [op] c = Some ([], c')) /\
  ((forall o, In o (getAllOrders c) -> survives op o = true) ->
   run hardware_concurrency eager [op] c = Some ([], c)).
Proof.
  intros Hwf Hc Hhw. set (hw := hardware_concurrency) in *.
  destruct (cancel_step_total hw eager op c Hhw Hc) as [c1 E1].
  destruct (cancel_effect _ _ _ _ _ _ Hwf Hc E1) as (_ & W1 & O1 & M1 & T1 & K1).
  destruct (cancel_step_total hw eager op c1) as [c2 E2];
    [now rewrite T1 | assumption |].
  destruct (cancel_effect _ _ _ _ _ _ W1 Hc E2) as (_ & W2 & O2 & M2 & T2 & K2).
  rewrite (run_two _ _ _ _ _ _ _ E1 E2). simpl. rewrite E1.
  split; [|split; [eauto|]].
  - f_equal. f_equal. apply wf_cache_eq; try assumption.
    + rewrite O2, O1. apply filter_idem.
    + apply same_keys_sym. assumption.
  - intros Hall. f_equal. f_equal. apply wf_cache_eq; try assumption.
    + rewrite O1. now apply filter_none.
    + apply same_keys_sym. assumption.
Qed.

Lemma cancellations_idempotent_witness :
  let c := add_all true scenarioA empty_cache in
  wf c /\ (_multiThread c = true -> 4 <> 0) /\
  run 4 true [OpCancelUser "User4"; OpCancelUser "User4"] c =
  run 4 true [OpCancelUser "User4"] c.
Proof.
  intros c.
  assert (Hwf : wf c).
  { apply add_all_wf; [apply wf_empty|].
    repeat constructor; vm_compute; intuition discriminate. }
  assert (Hhw : _multiThread c = true -> 4 <> 0) by (intros _; discriminate).
  split; [exact Hwf|]. split; [exact Hhw|].
  destruct (cancellations_idempotent 4 true (OpCancelUser "User4") c Hwf
              eq_refl Hhw) as [H _].
  exact H.
Defined.

(** X15: a [cancelOrdersForUser(u)] that cannot stop at the division in
    [cancelOrders] (multi-threading off, or [hardware_concurrency()] not
    0) returns and has removed exactly the orders of user [u]; every
    other order stays as it is, working quantity included, no matched
    quantity changes, and a user without an index entry is ignored. *)
Theorem cancelOrdersForUser_exact (hardware_concurrency : Z)
    (c : OrderCache) (u : string) :
  wf c -> (_multiThread c = true -> hardware_concurrency <> 0) ->
  exists c',
    cancelOrdersForUser hardware_concurrency u c = Some c' /\
    getAllOrders c' =
      List.filter (fun o => negb (String.eqb (user o) u)) (getAllOrders c) /\
    at_key ∅ u (_userOrdersIndex c') = ∅ /\
    _matchedQuantity c' = _matchedQuantity c /\
    (forall q, query true q c' = query true q c) /\
    (_userOrdersIndex c !! u = None -> c' = c) /\
    wf c'.
Proof.
  intros Hwf Hhw.
  destruct (cancelOrdersForUser_returns hardware_concurrency u c Hhw)
    as [c' Ec].
  exists c'. split; [exact Ec|].
  assert (Es : step hardware_concurrency true (OpCancelUser u) c =
               Some (None, c')) by (simpl; now rewrite Ec).
  destruct (cancel_effect _ true (OpCancelUser u) c None c' Hwf eq_refl Es)
    as (_ & W & O & M & T & (_ & K & _)).
  unfold getAllOrders. split; [exact O|]. split; [|split; [exact M|split; [|split; [|exact W]]]].
  - apply set_eq. intros i. split; [|set_solver].
    intros Hi. apply (wf_user c' W) in Hi as (o & Ho & _ & Hu).
    rewrite O in Ho. apply filter_In in Ho as [_ Ho].
    apply negb_true_iff, String.eqb_neq in Ho. contradiction.
  - intros q. unfold query. rewrite !getMatchingSizeForSecurity_eager. simpl.
    unfold getMatchedQuantityInCache. rewrite M.
    specialize (K q).
    destruct (_securityOrdersIndex c' !! q), (_securityOrdersIndex c !! q);
      try reflexivity.
    + destruct K as [K _]. destruct (K (ex_intro _ _ eq_refl)); discriminate.
    + destruct K as [_ K]. destruct (K (ex_intro _ _ eq_refl)); discriminate.
  - intros Hn. unfold cancelOrdersForUser in Ec. rewrite Hn in Ec.
    now injection Ec.
Qed.

Lemma cancelOrdersForUser_exact_witness :
  let c := add_all true
             [ Order_new "1" "SecId1" "Buy" 200 "User1" "Company1";
               Order_new "2" "SecId2" "Sell" 300 "User1" "Company1";
               Order_new "3" "SecId3" "Buy" 400 "User2" "Company2" ]
             empty_cache in
  wf c /\ (_multiThread c = true -> 4 <> 0) /\
  (fun c' => List.map orderId (getAllOrders c')) <$>
    cancelOrdersForUser 4 "User1" c = Some ["3"].
Proof.
  intros c.
  assert (Hwf : wf c).
  { apply add_all_wf; [apply wf_empty|].
    repeat constructor; vm_compute; intuition discriminate. }
  assert (Hhw : _multiThread c = true -> 4 <> 0) by (intros _; discriminate).
  split; [exact Hwf|]. split; [exact Hhw|].
  destruct (cancelOrdersForUser_exact 4 c "User1" Hwf Hhw)
    as (c' & -> & H & _).
  simpl. rewrite H. reflexivity.
Defined.

(** ** Pairings leave nothing to trade *)

Lemma eligible_true o x :
  eligible o x = true <->
  isBuySide x = negb (isBuySide o) /\ securityId x = securityId o /\
  company o <> company x.
Proof.
  unfold eligible. rewrite andb_true_iff, on_side_true, negb_true_iff.
  rewrite String.eqb_neq. tauto.
Qed.

Lemma eligible_sym o x : eligible o x = eligible x o.
Proof.
  apply eq_true_iff_eq. rewrite !eligible_true.
  destruct (isBuySide o), (isBuySide x); simpl; intuition congruence.
Qed.

Lemma eligible_static o x : eligible (static o) (static x) = eligible o x.
Proof. reflexivity. Qed.

Lemma company_static o : company (static o) = company o.
Proof. reflexivity. Qed.

Lemma reduced_company x x' : reduced x x' -> company x' = company x.
Proof. intros [H _]. apply (f_equal company) in H. exact H. Qed.

Lemma reduced_eligible x x' y y' :
  reduced x x' -> reduced y y' -> eligible x' y' = eligible x y.
Proof.
  intros [Hx _] [Hy _].
  rewrite <- (eligible_static x' y'), <- (eligible_static x y). congruence.
Qed.

Lemma reduced_filled x x' :
  Order_ok x' -> reduced x x' -> isFilled x = true -> isFilled x' = true.
Proof.
  intros [Hw _] [_ Hle]. unfold isFilled. rewrite !Z.eqb_eq. lia.
Qed.

Lemma deref_reduced st st' p :
  Forall2 reduced st st' ->
  match deref st p, deref st' p with
  | Some a, Some a' => reduced a a'
  | None, None => True
  | _, _ => False
  end.
Proof.
  unfold deref. induction 1 as [|x x' st st' Hx _ IH]; simpl; [exact I|].
  assert (E : points_to p x' = points_to p x).
  { unfold points_to. now rewrite (reduced_orderId _ _ Hx). }
  rewrite E. destruct (points_to p x); [exact Hx | exact IH].
Qed.

Lemma reduced_In st st' x' :
  Forall2 reduced st st' -> In x' st' -> exists x, In x st /\ reduced x x'.
Proof.
  induction 1 as [|x y st st' Hx _ IH]; simpl; [contradiction|].
  intros [<-|Hin]; [eauto|].
  destruct (IH Hin) as (z & Hz & Hr). eauto.
Qed.

Lemma trade_qty_zero_iff x y st a b :
  Forall Order_ok st -> deref st x = Some a -> deref st y = Some b ->
  (trade_qty x y st = 0 <->
   isFilled a = true \/ isFilled b = true \/ company a = company b).
Proof.
  intros Hok Ha Hb. unfold trade_qty. rewrite Ha, Hb.
  pose proof (deref_ok _ _ _ Hok Ha) as [Hwa _].
  pose proof (deref_ok _ _ _ Hok Hb) as [Hwb _].
  unfold isFilled.
  destruct (Z.eqb_spec (workingQty a) 0), (Z.eqb_spec (workingQty b) 0),
    (String.eqb_spec (company a) (company b)); simpl;
    try (split; [tauto | reflexivity]).
  split; [lia | intuition congruence].
Qed.

Lemma trade_qty_nonneg x y st : Forall Order_ok st -> 0 <= trade_qty x y st.
Proof.
  intros Hok. unfold trade_qty.
  destruct (deref st x) as [a|] eqn:Ha; [|lia].
  destruct (deref st y) as [b|] eqn:Hb; [|lia].
  pose proof (deref_ok _ _ _ Hok Ha) as [Hwa _].
  pose proof (deref_ok _ _ _ Hok Hb) as [Hwb _].
  destruct (_ || _); lia.
Qed.

Lemma trade_ok x y st : Forall Order_ok st -> Forall Order_ok (trade x y st).
Proof.
  intros Hok. pose proof (trade_qty_nonneg x y st Hok).
  unfold trade. destruct (_ =? 0); [assumption|]. fills_ok.
Qed.

Lemma trade_reduced x y st :
  Forall Order_ok st -> Forall2 reduced st (trade x y st).
Proof.
  intros Hok. pose proof (trade_qty_nonneg x y st Hok).
  unfold trade. destruct (_ =? 0); [apply reduced_refl|].
  eapply reduced_trans; [apply reduced_modify; eassumption|].
  apply reduced_modify; [fills_ok | assumption].
Qed.

Lemma run_pairings_step s t x y P st T :
  run_pairings s ((t, x, y) :: P) (st, T) =
  run_pairings s P
    (trade x y st, if String.eqb t s then T + trade_qty x y st else T).
Proof. reflexivity. Qed.

Lemma run_pairings_ok s P : forall st T,
  Forall Order_ok st -> Forall Order_ok (fst (run_pairings s P (st, T))).
Proof.
  induction P as [|[[t x] y] P IH]; intros st T Hok; [assumption|].
  rewrite run_pairings_step. apply IH. now apply trade_ok.
Qed.

Lemma run_pairings_reduced s P : forall st T,
  Forall Order_ok st -> Forall2 reduced st (fst (run_pairings s P (st, T))).
Proof.
  induction P as [|[[t x] y] P IH]; intros st T Hok; [apply reduced_refl|].
  rewrite run_pairings_step.
  eapply reduced_trans; [now apply trade_reduced|].
  apply IH. now apply trade_ok.
Qed.

(** A pairing that moves nothing keeps moving nothing, whatever is
    traded in between. *)
Lemma trade_qty_zero_reduced x y st st' :
  Forall Order_ok st -> Forall Order_ok st' -> Forall2 reduced st st' ->
  trade_qty x y st = 0 -> trade_qty x y st' = 0.
Proof.
  intros Hok Hok' Hr H0.
  pose proof (deref_reduced st st' x Hr) as Hx.
  pose proof (deref_reduced st st' y Hr) as Hy.
  destruct (deref st x) as [a|] eqn:Ea, (deref st' x) as [a'|] eqn:Ea';
    try contradiction; [|unfold trade_qty; now rewrite Ea'].
  destruct (deref st y) as [b|] eqn:Eb, (deref st' y) as [b'|] eqn:Eb';
    try contradiction; [|unfold trade_qty; now rewrite Ea', Eb'].
  apply (trade_qty_zero_iff x y st' a' b' Hok' Ea' Eb').
  apply (trade_qty_zero_iff x y st a b Hok Ea Eb) in H0.
  destruct H0 as [Hf|[Hf|Hc]].
  - left. eapply reduced_filled; eauto. eapply deref_ok; eauto.
  - right. left. eapply reduced_filled; eauto. eapply deref_ok; eauto.
  - right. right.
    rewrite (reduced_company _ _ Hx), (reduced_company _ _ Hy). exact Hc.
Qed.

(** Right after a pairing has had its turn it has nothing left to move. *)
Lemma trade_qty_after_trade x y st :
  Forall Order_ok st -> x <> y -> trade_qty x y (trade x y st) = 0.
Proof.
  intros Hok Hne. unfold trade.
  destruct (Z.eqb_spec (trade_qty x y st) 0) as [E0|E0]; [exact E0|].
  destruct (deref st x) as [a|] eqn:Ea;
    [|exfalso; apply E0; unfold trade_qty; now rewrite Ea].
  destruct (deref st y) as [b|] eqn:Eb;
    [|exfalso; apply E0; unfold trade_qty; now rewrite Ea, Eb].
  pose proof (deref_ok _ _ _ Hok Ea) as [Hwa Hqa].
  pose proof (deref_ok _ _ _ Hok Eb) as [Hwb Hqb].
  assert (Hq : trade_qty x y st = Z.min (workingQty a) (workingQty b)).
  { unfold trade_qty in *. rewrite Ea, Eb in *.
    destruct (_ || _); [congruence | reflexivity]. }
  set (q := trade_qty x y st) in *.
  set (st' := modify y (fillLots q) (modify x (fillLots q) st)).
  assert (Ha' : deref st' x = Some (fillLots q a)).
  { unfold st'. rewrite deref_modify_other by auto with node_db.
    apply deref_modify_same; auto with node_db. }
  assert (Hb' : deref st' y = Some (fillLots q b)).
  { unfold st'. apply deref_modify_same; auto with node_db.
    rewrite deref_modify_other; auto with node_db. }
  assert (Hok' : Forall Order_ok st') by (unfold st'; fills_ok).
  apply (trade_qty_zero_iff x y st' _ _ Hok' Ha' Hb').
  unfold isFilled. rewrite !Z.eqb_eq.
  rewrite !fillLots_exact by lia. lia.
Qed.

(** After a run of pairings none of them has anything left to move. *)
Lemma run_pairings_settles s P : forall st T,
  Forall Order_ok st ->
  (forall p, In p P -> snd (fst p) <> snd p) ->
  forall p, In p P ->
    trade_qty (snd (fst p)) (snd p) (fst (run_pairings s P (st, T))) = 0.
Proof.
  induction P as [|[[t x] y] P IH]; intros st T Hok Hne p Hp; [contradiction|].
  rewrite run_pairings_step.
  pose proof (trade_ok x y st Hok) as Hok1.
  destruct Hp as [<-|Hp].
  - simpl. eapply trade_qty_zero_reduced.
    + exact Hok1.
    + now apply run_pairings_ok.
    + now apply run_pairings_reduced.
    + apply trade_qty_after_trade; [assumption|].
      apply (Hne (t, x, y)). now left.
  - apply IH; auto. intros p' Hp'. apply Hne. now right.
Qed.

(** Pairings that move nothing leave the store and the count alone. *)
Lemma run_pairings_idle s P : forall st T,
  (forall p, In p P -> trade_qty (snd (fst p)) (snd p) st = 0) ->
  run_pairings s P (st, T) = (st, T).
Proof.
  induction P as [|[[t x] y] P IH]; intros st T H0; [reflexivity|].
  rewrite run_pairings_step.
  pose proof (H0 (t, x, y) (or_introl eq_refl)) as E. simpl in E.
  unfold trade. rewrite E. simpl. rewrite Z.add_0_r.
  destruct (String.eqb t s); apply IH; intros p Hp; apply H0; now right.
Qed.

(** ** Eager matching leaves nothing to trade *)

Lemma can_trade_false x y :
  can_trade x y = false <->
  (eligible x y = true -> isFilled x = true \/ isFilled y = true).
Proof.
  unfold can_trade.
  destruct (eligible x y), (isFilled x), (isFilled y); simpl;
    intuition discriminate.
Qed.

Lemma settled_filter f os : settled os -> settled (List.filter f os).
Proof.
  intros H x y Hx Hy. apply filter_In in Hx as [Hx _].
  apply filter_In in Hy as [Hy _]. now apply H.
Qed.

Lemma matchOrderInCache_store O c o :
  wf c -> deref (_orders c) O = Some o ->
  _orders (snd (matchOrderInCache O c)) =
  fst (run_pairings (securityId o)
         (against (securityId o) O
            (side_list (negb (isBuySide o)) (securityId o) (_orders c)))
         (_orders c, 0)).
Proof. intros Hwf Ho. now destruct (matchOrderInCache_pairings O c o Hwf Ho). Qed.

(** After [matchOrderInCache(O)] the order [O] cannot trade with any
    order of the cache. *)
Lemma matchOrderInCache_subject_settled O c o x' y' :
  wf c -> deref (_orders c) O = Some o ->
  let os' := _orders (snd (matchOrderInCache O c)) in
  In x' os' -> In y' os' -> orderId x' = O -> can_trade x' y' = false.
Proof.
  intros Hwf Ho os' Hx' Hy' Hid. apply can_trade_false. intros Hel.
  pose proof (matchOrderInCache_wf O c Hwf) as Hwf'.
  pose proof (matchOrderInCache_reduced O c Hwf) as Hred.
  fold os' in Hred.
  destruct (reduced_In _ _ _ Hred Hx') as (x & Hx & Hrx).
  destruct (reduced_In _ _ _ Hred Hy') as (y & Hy & Hry).
  assert (x = o).
  { apply deref_Some in Ho as [Hin Hoid].
    apply (NoDup_ids_inj (_orders c)); try assumption; [apply Hwf|].
    rewrite <- (reduced_orderId _ _ Hrx). congruence. }
  subst x.
  rewrite (reduced_eligible _ _ _ _ Hrx Hry) in Hel.
  pose proof Hel as Hel'. apply eligible_true in Hel' as (Hside & Hsec & Hco).
  assert (Hcp : In (orderId y)
                  (side_list (negb (isBuySide o)) (securityId o) (_orders c))).
  { apply In_side_list. exists y. split; [assumption|]. split; [reflexivity|].
    now apply on_side_true. }
  pose proof (run_pairings_settles (securityId o)
                (against (securityId o) O
                   (side_list (negb (isBuySide o)) (securityId o) (_orders c)))
                (_orders c) 0 (wf_ok c Hwf)) as Hset.
  rewrite <- (matchOrderInCache_store O c o Hwf Ho) in Hset. fold os' in Hset.
  specialize (Hset ltac:(intros p Hp; apply In_against in Hp as (z & Hz & ->);
                         simpl; intros ->;
                         now destruct (side_list_live c z o z Hwf Ho Hz))).
  specialize (Hset (securityId o, O, orderId y)
                ltac:(unfold against; apply in_map_iff; eauto)).
  simpl in Hset.
  assert (Hdx : deref os' O = Some x').
  { rewrite <- Hid. apply deref_In; [apply Hwf' | assumption]. }
  assert (Hdy : deref os' (orderId y) = Some y').
  { rewrite <- (reduced_orderId _ _ Hry).
    apply deref_In; [apply Hwf' | assumption]. }
  apply (trade_qty_zero_iff O (orderId y) os' x' y' (wf_ok _ Hwf') Hdx Hdy)
    in Hset.
  destruct Hset as [H|[H|H]]; [now left | now right |].
  exfalso. apply Hco.
  now rewrite <- (reduced_company _ _ Hrx), <- (reduced_company _ _ Hry).
Qed.

Lemma wf_In_ok c x : wf c -> In x (_orders c) -> Order_ok x.
Proof.
  intros Hwf Hin. exact (proj1 (List.Forall_forall _ _) (wf_ok c Hwf) x Hin).
Qed.

Lemma can_trade_sym x y : can_trade x y = can_trade y x.
Proof.
  unfold can_trade. rewrite (eligible_sym x y).
  destruct (eligible y x), (isFilled x), (isFilled y); reflexivity.
Qed.

Lemma matchOrderInCache_settles O c o :
  wf c -> deref (_orders c) O = Some o ->
  (forall x y, In x (_orders c) -> In y (_orders c) ->
               orderId x <> O -> orderId y <> O -> can_trade x y = false) ->
  settled (_orders (snd (matchOrderInCache O c))).
Proof.
  intros Hwf Ho Hold x' y' Hx' Hy'.
  destruct (String.eqb_spec (orderId x') O) as [Ex|Ex].
  { now apply (matchOrderInCache_subject_settled O c o). }
  destruct (String.eqb_spec (orderId y') O) as [Ey|Ey].
  { rewrite can_trade_sym.
    now apply (matchOrderInCache_subject_settled O c o). }
  pose proof (matchOrderInCache_wf O c Hwf) as Hwf'.
  pose proof (matchOrderInCache_reduced O c Hwf) as Hred.
  destruct (reduced_In _ _ _ Hred Hx') as (x & Hx & Hrx).
  destruct (reduced_In _ _ _ Hred Hy') as (y & Hy & Hry).
  apply can_trade_false. intros Hel.
  rewrite (reduced_eligible _ _ _ _ Hrx Hry) in Hel.
  assert (Hxy : can_trade x y = false).
  { apply Hold; try assumption.
    - now rewrite <- (reduced_orderId _ _ Hrx).
    - now rewrite <- (reduced_orderId _ _ Hry). }
  destruct (proj1 (can_trade_false x y) Hxy Hel) as [H|H]; [left|right].
  - eapply reduced_filled; eauto. now apply (wf_In_ok _ x' Hwf').
  - eapply reduced_filled; eauto. now apply (wf_In_ok _ y' Hwf').
Qed.

Lemma addOrder_settled o c :
  wf c -> Order_ok o -> settled (_orders c) ->
  settled (_orders (addOrder true o c)).
Proof.
  intros Hwf Hok Hs. rewrite addOrder_eager_lazy.
  destruct (exists_ c (orderId o)) eqn:Ex; [assumption|].
  pose proof (addOrder_lazy_new o c Ex) as (Hos & _).
  pose proof (addOrder_lazy_wf o c Hwf Hok) as Hwfl.
  apply (matchOrderInCache_settles _ _ o); [assumption | |].
  - rewrite Hos. apply deref_head.
  - rewrite Hos. intros x y [<-|Hx] [<-|Hy] Hnx Hny; try congruence.
    now apply Hs.
Qed.

Lemma run_invariant (P : OrderCache -> Prop) hw eager ops :
  (forall op c out c',
     In op ops -> Op_ok op -> wf c -> P c ->
     step hw eager op c = Some (out, c') -> P c') ->
  forall c outs c',
    wf c -> Forall Op_ok ops -> P c ->
    run hw eager ops c = Some (outs, c') -> wf c' /\ P c'.
Proof.
  induction ops as [|op ops IH]; intros Hstep c outs c' Hwf Hok HP; simpl.
  - intros [= _ <-]. auto.
  - apply Forall_cons in Hok as [Hop Hok].
    destruct (step hw eager op c) as [[out c1]|] eqn:Es; [|discriminate].
    destruct (run hw eager ops c1) as [[outs1 c2]|] eqn:Er; [|discriminate].
    intros [= _ <-].
    apply (IH ltac:(intros op' x o' x' Hin; apply Hstep; now right)
              c1 outs1 c2); try assumption.
    + eapply step_wf; eassumption.
    + eapply Hstep; try eassumption. now left.
Qed.

Lemma step_settled hw op c out c' :
  Op_ok op -> wf c -> settled (_orders c) ->
  step hw true op c = Some (out, c') -> settled (_orders c').
Proof.
  intros Hop Hwf Hs Hstep.
  destruct (is_cancel op) eqn:Ec.
  - destruct (cancel_effect hw true op c out c' Hwf Ec Hstep)
      as (_ & _ & -> & _).
    now apply settled_filter.
  - destruct op as [o|id|u|s m|s]; try discriminate; simpl in Hstep.
    + injection Hstep as _ <-. now apply addOrder_settled.
    + rewrite getMatchingSizeForSecurity_eager in Hstep.
      now injection Hstep as _ <-.
Qed.

(** X16: with matching at insertion nothing that could trade is ever
    left in the cache.  After any sequence of calls on an empty cache,
    whenever a buy order and a sell order of the same security belong to
    different companies, at least one of the two has no working lots
    left. *)
Theorem eager_matching_leaves_no_tradable_pair (hardware_concurrency : Z)
    (ops : list Op) (outs : list Z) (c : OrderCache) :
  Forall Op_ok ops ->
  run hardware_concurrency true ops empty_cache = Some (outs, c) ->
  forall b s,
    In b (getAllOrders c) -> In s (getAllOrders c) ->
    isBuySide b = true -> isBuySide s = false ->
    securityId b = securityId s -> company b <> company s ->
    workingQty b = 0 \/ workingQty s = 0.
Proof.
  intros Hok Hr b s Hb Hs Hbuy Hsell Hsec Hco.
  destruct (run_invariant (fun c => settled (_orders c))
              hardware_concurrency true ops
              ltac:(intros op x out x' _ Hop Hwf HP Hst;
                    exact (step_settled _ op x out x' Hop Hwf HP Hst))
              empty_cache outs c wf_empty Hok
              ltac:(intros x y [])
              Hr) as [_ Hset].
  specialize (Hset b s Hb Hs).
  assert (Hel : eligible b s = true).
  { apply eligible_true. rewrite Hbuy, Hsell. auto. }
  pose proof (proj1 (can_trade_false b s) Hset Hel) as H.
  unfold isFilled in H. rewrite !Z.eqb_eq in H. exact H.
Qed.

Lemma eager_matching_leaves_no_tradable_pair_witness :
  let c := add_all true scenarioA empty_cache in
  let b := mkOrder "OrdId4" "SecId2" "Buy" 600 "User4" "CompanyC" 0 in
  let s := mkOrder "OrdId2" "SecId2" "Sell" 3000 "User2" "CompanyB" 400 in
  Forall Op_ok (List.map OpAdd scenarioA) /\
  run 4 true (List.map OpAdd scenarioA) empty_cache = Some ([], c) /\
  In b (getAllOrders c) /\ In s (getAllOrders c) /\
  (workingQty b = 0 \/ workingQty s = 0).
Proof.
  intros c b s.
  assert (Hok : Forall Op_ok (List.map OpAdd scenarioA)).
  { repeat constructor; vm_compute; intuition discriminate. }
  assert (Hr : run 4 true (List.map OpAdd scenarioA) empty_cache =
               Some ([], c))
    by (vm_compute; reflexivity).
  assert (Hb : In b (getAllOrders c))
    by (vm_compute; repeat (first [left; reflexivity | right])).
  assert (Hs : In s (getAllOrders c))
    by (vm_compute; repeat (first [left; reflexivity | right])).
  split; [exact Hok|]. split; [exact Hr|]. split; [exact Hb|].
  split; [exact Hs|].
  apply (eager_matching_leaves_no_tradable_pair 4 _ [] c Hok Hr b s Hb Hs);
    [reflexivity | reflexivity | reflexivity | discriminate].
Defined.

(** ** The lazy query: one pass settles the security *)

Lemma lazy_loop_frame longs : forall q c,
  let c' := snd (lazy_loop longs q c) in
  _multiThread c' = _multiThread c /\
  _orderIndex c' = _orderIndex c /\
  _securityOrdersIndex c' = _securityOrdersIndex c.
Proof.
  induction longs as [|b rest IH]; intros q c; simpl; [auto|].
  pose proof (matchOrderInCache_frame b c) as (H1 & H2 & _ & H4 & _).
  destruct (matchOrderInCache b c) as [m c1]. simpl in *.
  destruct (IH (to_int (wrap32 (to_uint q + m))) c1) as (G1 & G2 & G3).
  repeat split; congruence.
Qed.

(** The store and the cached counts after the serial loop. *)
Lemma lazy_loop_effect s : forall longs q c,
  wf c ->
  (forall b, In b longs -> In b (side_list true s (_orders c))) ->
  let r := run_pairings s
             (flat_map (fun b => against s b (side_list false s (_orders c)))
                longs)
             (_orders c, 0) in
  _orders (snd (lazy_loop longs q c)) = fst r /\
  forall k,
    getMatchedQuantityInCache (snd (lazy_loop longs q c)) k =
    if String.eqb k s
    then wrap32 (getMatchedQuantityInCache c k + snd r)
    else getMatchedQuantityInCache c k.
Proof.
  induction longs as [|b rest IH]; intros q c Hwf Hlongs.
  { simpl. split; [reflexivity|]. intros k.
    destruct (String.eqb k s); [|reflexivity].
    rewrite Z.add_0_r. symmetry. apply wrap32_small.
    now apply getMatched_uint. }
  destruct (proj1 (In_side_list true s (_orders c) b)
              (Hlongs b (or_introl eq_refl))) as (ob & Hob & Hid & Hside).
  apply on_side_true in Hside as [Hbuy Hsec].
  assert (Hd : deref (_orders c) b = Some ob)
    by (rewrite <- Hid; apply deref_In; [apply Hwf|assumption]).
  destruct (matchOrderInCache_pairings b c ob Hwf Hd) as [Hm Hos].
  destruct (matchOrderInCache_cache b c ob Hwf Hd) as [_ Hcache].
  rewrite Hbuy, Hsec in Hm, Hos. simpl negb in Hm, Hos.
  rewrite Hsec in Hcache.
  pose proof (matchOrderInCache_wf b c Hwf) as Hwf'.
  pose proof (matchOrderInCache_statics b c) as Hst.
  cbn [lazy_loop flat_map]. rewrite run_pairings_app.
  destruct (matchOrderInCache b c) as [m c'] eqn:E.
  simpl in Hm, Hos, Hwf', Hst, Hcache.
  set (ss := side_list false s (_orders c)) in *.
  destruct (IH (to_int (wrap32 (to_uint q + m))) c' Hwf') as [IHos IHc].
  { intros b' Hb'. rewrite (side_list_statics_eq true s _ _ Hst).
    apply Hlongs. now right. }
  rewrite (side_list_statics_eq false s _ _ Hst) in IHos, IHc. fold ss in IHos, IHc.
  rewrite (surjective_pairing (run_pairings s (against s b ss) (_orders c, 0))).
  rewrite <- Hm, <- Hos.
  rewrite (run_pairings_shift s _ (_orders c') m).
  cbn [fst snd]. split; [exact IHos|].
  intros k. rewrite IHc, Hcache.
  destruct (String.eqb k s); [|reflexivity].
  rewrite wrap32_add_l. f_equal. lia.
Qed.

Lemma In_pairsL s os p :
  In p (pairsL s os) <->
  exists b x, p = (s, b, x) /\
              In b (side_list true s os) /\ In x (side_list false s os).
Proof.
  unfold pairsL. rewrite in_flat_map. split.
  - intros (b & Hb & Hp). apply In_against in Hp as (x & Hx & ->). eauto.
  - intros (b & x & -> & Hb & Hx). exists b. split; [assumption|].
    unfold against. apply in_map_iff. eauto.
Qed.

(** X17: without matching at insertion, one [getMatchingSizeForSecurity]
    call (serial branch) matches everything that can be matched in the
    queried security: afterwards no buy and sell order of that security
    from different companies both have working lots.  Asking again at
    once therefore returns 0, not the matched size, and changes neither
    the orders nor the cached matched quantities. *)
Theorem lazy_query_settles_security (s : string) (c : OrderCache)
    (v : Z) (c1 : OrderCache) :
  wf c -> getMatchingSizeForSecurity false s c = Some (v, c1) ->
  settled_for s (getAllOrders c1) /\
  exists c2,
    getMatchingSizeForSecurity false s c1 = Some (0, c2) /\
    getAllOrders c2 = getAllOrders c1 /\
    forall k, getMatchedQuantityInCache c2 k = getMatchedQuantityInCache c1 k.
Proof.
  intros Hwf. unfold getMatchingSizeForSecurity at 1.
  destruct (_securityOrdersIndex c !! s) as [ks|] eqn:Ek.
  2:{ intros [= <- <-]. split.
      - intros x y Hx _ Hsec. exfalso.
        now apply (key_absent_no_orders c s Hwf Ek x Hx).
      - exists c. unfold getMatchingSizeForSecurity. rewrite Ek. auto. }
  destruct (negb (_multiThread c) || (size_ c <? 2)%nat) eqn:Eb; [|discriminate].
  set (c0 := set_securityLongOrdersIndex
               (touch [] s (_securityLongOrdersIndex c)) c).
  assert (Hwf0 : wf c0) by now apply wf_touch_long.
  assert (Hlongs : at_key [] s (_securityLongOrdersIndex c0) =
                   side_list true s (_orders c)) by apply (wf_long c0 Hwf0).
  rewrite Hlongs.
  pose proof (lazy_loop_effect s (side_list true s (_orders c)) 0 c0 Hwf0
                ltac:(auto)) as [Hos _].
  pose proof (lazy_loop_wf (side_list true s (_orders c)) 0 c0 Hwf0) as Hwf1.
  pose proof (lazy_loop_frame (side_list true s (_orders c)) 0 c0)
    as (Hmt & Hidx & Hsi).
  destruct (lazy_loop (side_list true s (_orders c)) 0 c0) as [q c1'] eqn:El.
  intros [= _ <-]. cbn [snd] in *.
  change (_orders c0) with (_orders c) in Hos.
  fold (pairsL s (_orders c)) in Hos.
  unfold getAllOrders.
  assert (Hnd : NoDup (ids (_orders c))) by apply Hwf.
  assert (Hst : statics (_orders c1') = statics (_orders c)).
  { rewrite Hos. apply (run_pairings_statics s (pairsL s (_orders c)) (_orders c, 0)). }
  (* every pairing of the pass is used up *)
  assert (Hzero : forall p, In p (pairsL s (_orders c)) ->
            trade_qty (snd (fst p)) (snd p) (_orders c1') = 0).
  { rewrite Hos. apply run_pairings_settles; [apply Hwf|].
    intros p Hp. apply In_pairsL in Hp as (b & x & -> & Hb & Hx). simpl.
    intros ->. exact (side_lists_disjoint s _ x Hnd Hb Hx). }
  assert (Hbs : forall b x, In b (_orders c1') -> In x (_orders c1') ->
            isBuySide b = true -> eligible b x = true -> securityId b = s ->
            isFilled b = true \/ isFilled x = true).
  { intros b x Hb Hx Hbuy Hel Hsec.
    pose proof Hel as Hel'. apply eligible_true in Hel' as (Hside & Hsx & Hco).
    rewrite Hbuy in Hside. simpl in Hside.
    assert (Hp : In (s, orderId b, orderId x) (pairsL s (_orders c))).
    { apply In_pairsL. exists (orderId b), (orderId x). split; [reflexivity|].
      rewrite <- !(side_list_statics_eq _ s _ _ Hst).
      split; apply In_side_list; [exists b | exists x];
        (split; [assumption|]); (split; [reflexivity|]);
        apply on_side_true; split; congruence. }
    specialize (Hzero _ Hp). simpl in Hzero.
    apply (trade_qty_zero_iff _ _ _ b x (wf_ok _ Hwf1)) in Hzero.
    - destruct Hzero as [H|[H|H]]; [now left | now right | contradiction].
    - apply deref_In; [apply Hwf1 | assumption].
    - apply deref_In; [apply Hwf1 | assumption]. }
  split.
  - intros x y Hx Hy Hsec. apply can_trade_false. intros Hel.
    destruct (isBuySide x) eqn:Ebuy.
    + now apply Hbs.
    + rewrite eligible_sym in Hel.
      pose proof Hel as Hel'. apply eligible_true in Hel' as (Hside & Hsy & _).
      rewrite Ebuy in Hside.
      assert (Hby : isBuySide y = true)
        by (destruct (isBuySide y); [reflexivity | discriminate]).
      destruct (Hbs y x Hy Hx Hby Hel ltac:(congruence)) as [H|H];
        [now right | now left].
  - (* the second call *)
    unfold getMatchingSizeForSecurity.
    rewrite Hsi. change (_securityOrdersIndex c0) with (_securityOrdersIndex c).
    rewrite Ek.
    assert (Eb1 : negb (_multiThread c1') || (size_ c1' <? 2)%nat = true).
    { unfold size_. rewrite Hmt, Hidx. exact Eb. }
    rewrite Eb1.
    set (c2 := set_securityLongOrdersIndex
                 (touch [] s (_securityLongOrdersIndex c1')) c1').
    assert (Hwf2 : wf c2) by now apply wf_touch_long.
    assert (Hlongs2 : at_key [] s (_securityLongOrdersIndex c2) =
                      side_list true s (_orders c1')) by apply (wf_long c2 Hwf2).
    rewrite Hlongs2.
    pose proof (lazy_loop_effect s (side_list true s (_orders c1')) 0 c2 Hwf2
                  ltac:(auto)) as [Hos2 Hc2].
    pose proof (lazy_loop_pairings s (side_list true s (_orders c1')) 0 c2 0
                  Hwf2 ltac:(auto) eq_refl) as Hv.
    change (_orders c2) with (_orders c1') in Hos2, Hc2, Hv.
    fold (pairsL s (_orders c1')) in Hos2, Hc2, Hv.
    assert (Hidle : run_pairings s (pairsL s (_orders c1')) (_orders c1', 0) =
                    (_orders c1', 0)).
    { apply run_pairings_idle. intros p Hp. apply Hzero.
      apply In_pairsL in Hp as (b & x & -> & Hb & Hx). apply In_pairsL.
      exists b, x. split; [reflexivity|].
      now rewrite <- !(side_list_statics_eq _ s _ _ Hst). }
    rewrite Hidle in Hos2, Hc2, Hv. cbn [fst snd] in *.
    destruct (lazy_loop (side_list true s (_orders c1')) 0 c2) as [q2 c3].
    cbn [fst snd] in *.
    exists c3. split; [f_equal; f_equal; exact Hv|]. split; [exact Hos2|].
    intros k. rewrite Hc2.
    change (getMatchedQuantityInCache c2 k) with (getMatchedQuantityInCache c1' k).
    destruct (String.eqb k s); [|reflexivity].
    rewrite Z.add_0_r. apply wrap32_small. now apply getMatched_uint.
Qed.

Lemma lazy_query_settles_security_witness :
  let c := add_all false scenarioA (set_multiThread false empty_cache) in
  wf c /\
  exists c1,
    getMatchingSizeForSecurity false "SecId2" c = Some (2700, c1) /\
    query false "SecId2" c1 = Some 0.
Proof.
  intros c.
  assert (Hwf : wf c).
  { apply add_all_wf; [apply wf_set_multiThread, wf_empty|].
    repeat constructor; vm_compute; intuition discriminate. }
  split; [exact Hwf|].
  pose (c1 := snd (default (0, c) (getMatchingSizeForSecurity false "SecId2" c))).
  assert (E1 : getMatchingSizeForSecurity false "SecId2" c = Some (2700, c1))
    by (vm_compute; reflexivity).
  exists c1. split; [exact E1|].
  destruct (lazy_query_settles_security "SecId2" c 2700 c1 Hwf E1)
    as (_ & c2 & H2 & _).
  unfold query. rewrite H2. reflexivity.
Defined.

(** ** What a call can and cannot change *)

Lemma lazy_loop_reduced longs : forall q c,
  wf c -> Forall2 reduced (_orders c) (_orders (snd (lazy_loop longs q c))).
Proof.
  induction longs as [|b rest IH]; intros q c Hwf; simpl; [apply reduced_refl|].
  pose proof (matchOrderInCache_reduced b c Hwf) as Hr.
  pose proof (matchOrderInCache_wf b c Hwf) as Hwf'.
  destruct (matchOrderInCache b c) as [m c']. simpl in *.
  eapply reduced_trans; [exact Hr | now apply IH].
Qed.

Lemma reduced_same_id os os' x x' :
  NoDup (ids os) -> Forall2 reduced os os' ->
  In x os -> In x' os' -> orderId x' = orderId x -> reduced x x'.
Proof.
  intros Hnd Hr Hx Hx' Hid.
  destruct (reduced_In _ _ _ Hr Hx') as (z & Hz & Hrz).
  assert (z = x).
  { apply (NoDup_ids_inj os); try assumption.
    rewrite <- (reduced_orderId _ _ Hrz). exact Hid. }
  now subst z.
Qed.

Lemma step_reduced hw eager op c out c' x x' :
  wf c -> Op_ok op -> step hw eager op c = Some (out, c') ->
  In x (_orders c) -> In x' (_orders c') -> orderId x' = orderId x ->
  reduced x x'.
Proof.
  intros Hwf Hop Hstep Hx Hx' Hid.
  assert (Hsame : forall f, _orders c' = List.filter f (_orders c) -> reduced x x').
  { intros f E. rewrite E in Hx'. apply filter_In in Hx' as [Hx' _].
    rewrite (NoDup_ids_inj (_orders c) x' x); try assumption;
      [split; [reflexivity | lia] | apply Hwf]. }
  destruct (is_cancel op) eqn:Ec.
  { destruct (cancel_effect hw eager op c out c' Hwf Ec Hstep)
      as (_ & _ & E & _).
    now apply (Hsame _ E). }
  assert (Hid' : _orders c' = _orders c -> reduced x x').
  { intros E. apply (Hsame (fun _ => true)). rewrite E. symmetry.
    now apply filter_none. }
  destruct op as [o|id|u|s m|s]; try discriminate; simpl in Hstep.
  - injection Hstep as _ <-.
    destruct (exists_ c (orderId o)) eqn:Ex.
    { apply Hid'. now rewrite addOrder_dup. }
    pose proof (addOrder_lazy_new o c Ex) as (Hos & _).
    pose proof (addOrder_lazy_wf o c Hwf Hop) as Hwfl.
    destruct eager.
    + rewrite addOrder_eager_lazy, Ex in Hx'.
      apply (reduced_same_id (_orders (addOrder false o c))
               (_orders (snd (matchOrderInCache (orderId o)
                                (addOrder false o c)))) x x');
        try assumption.
      * apply Hwfl.
      * now apply matchOrderInCache_reduced.
      * rewrite Hos. now right.
    + rewrite Hos in Hx'. destruct Hx' as [<-|Hx'].
      * exfalso. apply (exists_false c _ Hwf) in Ex. apply Ex.
        rewrite Hid. apply In_ids. eauto.
      * rewrite (NoDup_ids_inj (_orders c) x' x); try assumption;
          [split; [reflexivity | lia] | apply Hwf].
  - unfold getMatchingSizeForSecurity in Hstep.
    destruct (_securityOrdersIndex c !! s);
      [|injection Hstep as _ <-; now apply Hid'].
    destruct eager; [injection Hstep as _ <-; now apply Hid'|].
    destruct (negb (_multiThread c) || (size_ c <? 2)%nat); [|discriminate].
    set (c0 := set_securityLongOrdersIndex
                 (touch [] s (_securityLongOrdersIndex c)) c) in *.
    pose proof (lazy_loop_reduced
                  (at_key [] s (_securityLongOrdersIndex c0)) 0 c0
                  (wf_touch_long c s Hwf)) as Hr.
    destruct (lazy_loop _ 0 c0) as [q c2]. injection Hstep as _ <-.
    apply (reduced_same_id (_orders c) (_orders c2)); try assumption.
    apply Hwf.
Qed.

(** X18: no call ever gives an order working lots back or touches its
    immutable fields.  An order that is in the cache before and after a
    call (add, any cancel, query; either matching mode) has the same id,
    security, side, quantity, user and company afterwards, and at most
    as many working lots as before. *)
Theorem calls_never_raise_working_lots (hardware_concurrency : Z)
    (eager : bool) (op : Op) (c : OrderCache) (out : option Z)
    (c' : OrderCache) :
  wf c -> Op_ok op ->
  step hardware_concurrency eager op c = Some (out, c') ->
  forall x x',
    In x (getAllOrders c) -> In x' (getAllOrders c') ->
    orderId x' = orderId x ->
    static x' = static x /\ 0 <= workingQty x' <= workingQty x.
Proof.
  intros Hwf Hop Hstep x x' Hx Hx' Hid.
  destruct (step_reduced _ eager op c out c' x x' Hwf Hop Hstep Hx Hx' Hid)
    as [Hs Hle].
  pose proof (step_wf _ eager op c out c' Hwf Hop Hstep) as Hwf'.
  destruct (wf_In_ok c' x' Hwf' Hx') as [Hw _].
  split; [exact Hs | lia].
Qed.

Lemma calls_never_raise_working_lots_witness :
  let c := add_all true (take 7 scenarioA) empty_cache in
  let o := Order_new "OrdId8" "SecId2" "Sell" 5000 "User8" "CompanyE" in
  let x := mkOrder "OrdId5" "SecId2" "Buy" 100 "User5" "CompanyB" 100 in
  let x' := mkOrder "OrdId5" "SecId2" "Buy" 100 "User5" "CompanyB" 0 in
  wf c /\ Op_ok (OpAdd o) /\
  In x (getAllOrders c) /\ In x' (getAllOrders (addOrder true o c)) /\
  0 <= workingQty x' <= workingQty x.
Proof.
  intros c o x x'.
  assert (Hwf : wf c).
  { apply add_all_wf; [apply wf_empty|].
    repeat constructor; vm_compute; intuition discriminate. }
  assert (Hok : Op_ok (OpAdd o)) by (vm_compute; intuition discriminate).
  assert (Hx : In x (getAllOrders c))
    by (vm_compute; repeat (first [left; reflexivity | right])).
  assert (Hx' : In x' (getAllOrders (addOrder true o c)))
    by (vm_compute; repeat (first [left; reflexivity | right])).
  split; [exact Hwf|]. split; [exact Hok|]. split; [exact Hx|].
  split; [exact Hx'|].
  apply (calls_never_raise_working_lots 4 true (OpAdd o) c None
           (addOrder true o c) Hwf Hok eq_refl x x' Hx Hx' eq_refl).
Defined.

(** X19: [addOrder] changes no order but possible counterparties of the
    new one.  An order on the same side, of another security, or of the
    same company as the new order is in the cache afterwards exactly as
    it was, and the matched size of every other security is what it
    was. *)
Theorem addOrder_changes_only_counterparties (eager : bool) (o : Order)
    (c : OrderCache) :
  wf c -> Order_ok o -> exists_ c (orderId o) = false ->
  (forall x, In x (getAllOrders c) -> eligible o x = false ->
             In x (getAllOrders (addOrder eager o c))) /\
  (forall q, q <> securityId o ->
             getMatchedQuantityInCache (addOrder eager o c) q =
             getMatchedQuantityInCache c q).
Proof.
  intros Hwf Hok Hnew.
  pose proof (addOrder_lazy_new o c Hnew) as (Hos & Hmq & _).
  pose proof (addOrder_lazy_wf o c Hwf Hok) as Hwfl.
  assert (Hhead : deref (_orders (addOrder false o c)) (orderId o) = Some o).
  { rewrite Hos. apply deref_head. }
  unfold getAllOrders. destruct eager.
  - rewrite addOrder_eager_lazy, Hnew. split.
    + intros x Hx Hel.
      apply (matchOrderInCache_keeps _ _ o); try assumption.
      * rewrite Hos. now right.
      * intros Hid. apply (exists_false c _ Hwf) in Hnew. apply Hnew.
        rewrite <- Hid. apply In_ids. eauto.
    + intros q Hq.
      destruct (matchOrderInCache_cache _ _ _ Hwfl Hhead) as [_ Hcache].
      rewrite Hcache. rewrite (proj2 (String.eqb_neq _ _) Hq).
      unfold getMatchedQuantityInCache. now rewrite Hmq.
  - split.
    + intros x Hx _. rewrite Hos. now right.
    + intros q _. unfold getMatchedQuantityInCache. now rewrite Hmq.
Qed.

Lemma addOrder_changes_only_counterparties_witness :
  let c := add_all true (take 7 scenarioA) empty_cache in
  let o := Order_new "OrdId8" "SecId2" "Sell" 5000 "User8" "CompanyE" in
  let x := mkOrder "OrdId2" "SecId2" "Sell" 3000 "User2" "CompanyB" 400 in
  wf c /\ Order_ok o /\ exists_ c (orderId o) = false /\
  In x (getAllOrders c) /\ eligible o x = false /\
  In x (getAllOrders (addOrder true o c)).
Proof.
  intros c o x.
  assert (Hwf : wf c).
  { apply add_all_wf; [apply wf_empty|].
    repeat constructor; vm_compute; intuition discriminate. }
  assert (Hok : Order_ok o) by (vm_compute; intuition discriminate).
  assert (Hnew : exists_ c (orderId o) = false) by (vm_compute; reflexivity).
  assert (Hx : In x (getAllOrders c))
    by (vm_compute; repeat (first [left; reflexivity | right])).
  assert (Hel : eligible o x = false) by (vm_compute; reflexivity).
  split; [exact Hwf|]. split; [exact Hok|]. split; [exact Hnew|].
  split; [exact Hx|]. split; [exact Hel|].
  destruct (addOrder_changes_only_counterparties true o c Hwf Hok Hnew)
    as [H _].
  exact (H x Hx Hel).
Defined.
(** ** Which call sequences run to their end *)

(** No call changes the [_multiThread] flag. *)
Lemma step_multiThread hw eager op c out c' :
  step hw eager op c = Some (out, c') -> _multiThread c' = _multiThread c.
Proof.
  destruct op as [o|id|u|s m|s]; simpl.
  - intros [= _ <-]. destruct (exists_ c (orderId o)) eqn:Ex.
    + now rewrite addOrder_dup.
    + destruct (addOrder_lazy_new o c Ex) as (_ & _ & Hmt).
      destruct eager; [|assumption].
      rewrite addOrder_eager_lazy, Ex.
      now destruct (matchOrderInCache_frame (orderId o) (addOrder false o c))
        as [-> _].
  - intros [= _ <-]. apply cancelSingleOrder_matched.
  - destruct (cancelOrdersForUser hw u c) as [c1|] eqn:E; [|discriminate].
    intros [= _ <-]. rewrite (cancelOrdersForUser_Some _ _ _ _ E).
    destruct (_userOrdersIndex c !! u); [|reflexivity].
    apply cancelOrders_list_matched.
  - destruct (cancelOrdersForSecIdWithMinimumQty hw s m c) as [c1|] eqn:E;
      [|discriminate].
    intros [= _ <-].
    rewrite (cancelOrdersForSecIdWithMinimumQty_Some _ _ _ _ _ E).
    destruct (_securityOrdersIndex c !! s); [|reflexivity].
    apply cancelOrders_list_matched.
  - unfold getMatchingSizeForSecurity.
    destruct (_securityOrdersIndex c !! s); [|now intros [= _ <-]].
    destruct eager; [now intros [= _ <-]|].
    destruct (negb (_multiThread c) || (size_ c <? 2)%nat); [|discriminate].
    set (c0 := set_securityLongOrdersIndex
                 (touch [] s (_securityLongOrdersIndex c)) c).
    pose proof (lazy_loop_frame
                  (at_key [] s (_securityLongOrdersIndex c0)) 0 c0) as [H _].
    destruct (lazy_loop _ 0 c0) as [q c2]. intros [= _ <-]. exact H.
Qed.

(** A call returns when multi-threading is off (the queries then take
    their serial branch and [cancelOrders] uses one thread), and in the
    shipped eager configuration when [hardware_concurrency()] is not 0. *)
Lemma step_total hw eager op c :
  _multiThread c = false \/ (eager = true /\ hw <> 0) ->
  exists out c', step hw eager op c = Some (out, c').
Proof.
  intros H.
  assert (Hhw : _multiThread c = true -> hw <> 0).
  { intros Hmt. destruct H as [H|[_ H]]; [congruence | exact H]. }
  destruct op as [o|id|u|s m|s]; simpl; eauto.
  - destruct (cancelOrdersForUser_returns hw u c Hhw) as [c' ->]. eauto.
  - destruct (cancelOrdersForSecIdWithMinimumQty_returns hw s m c Hhw)
      as [c' ->]. eauto.
  - destruct H as [Hmt|[-> _]].
    + unfold getMatchingSizeForSecurity.
      destruct (_securityOrdersIndex c !! s); [|eauto].
      destruct eager; [eauto|]. rewrite Hmt. cbn [negb orb].
      destruct (lazy_loop _ _ _). eauto.
    + rewrite getMatchingSizeForSecurity_eager. eauto.
Qed.

Lemma run_total hw eager ops : forall c,
  _multiThread c = false \/ (eager = true /\ hw <> 0) ->
  exists outs c', run hw eager ops c = Some (outs, c').
Proof.
  induction ops as [|op ops IH]; intros c H; simpl; [eauto|].
  destruct (step_total hw eager op c H) as (out & c1 & E). rewrite E.
  destruct (IH c1) as (outs & c2 & ->); [|eauto].
  now rewrite (step_multiThread _ _ _ _ _ _ E).
Qed.

(** X10: after any sequence of calls on an empty cache, in either
    matching mode and with multi-threading on or off, [size()] is the
    number of orders [getAllOrders()] returns, which is the number of
    orders accepted and not cancelled since; and [exists(id)] is true
    exactly for the ids of those orders.  With multi-threading off every
    sequence runs to its end in both modes, lazy queries included (they
    take their serial branch); with matching at insertion it does so
    wherever [hardware_concurrency()] is not 0.  (With multi-threading on
    the lazy query of two or more orders starts threads and is not
    covered.) *)
Theorem size_and_exists_track_orders (hardware_concurrency : Z)
    (eager multiThread : bool) (ops : list Op) :
  Forall Op_ok ops ->
  let c0 := set_multiThread multiThread empty_cache in
  (multiThread = false \/ (eager = true /\ hardware_concurrency <> 0) ->
   exists outs c, run hardware_concurrency eager ops c0 = Some (outs, c)) /\
  forall outs c,
    run hardware_concurrency eager ops c0 = Some (outs, c) ->
    size_ c = length (getAllOrders c) /\
    size_ c = length (book ops) /\
    (forall id, exists_ c id = true <-> In id (ids (getAllOrders c))) /\
    (forall id, exists_ c id = has_id id (book ops)).
Proof.
  intros Hok c0. split; [intros H; now apply run_total|].
  intros outs c Hr.
  destruct (run_book _ eager ops c0 [] outs c
              (wf_set_multiThread _ _ wf_empty) Hok eq_refl Hr) as [Hwf H].
  fold (book ops) in H. unfold getAllOrders.
  split; [now apply size_orders|]. split; [|split].
  - rewrite (size_orders c Hwf), <- (length_statics (_orders c)), H.
    now rewrite length_rev, length_statics.
  - intros id. now apply exists_true.
  - intros id. now apply exists_has_id.
Qed.

Lemma size_and_exists_track_orders_witness :
  Forall Op_ok sample_calls /\
  exists outs c,
    run 0 false sample_calls (set_multiThread false empty_cache) =
      Some (outs, c) /\
    outs = [300] /\ size_ c = 3%nat /\ exists_ c "2" = false.
Proof.
  assert (Hok : Forall Op_ok sample_calls).
  { repeat constructor; vm_compute; intuition discriminate. }
  assert (E : fst <$> run 0 false sample_calls
                        (set_multiThread false empty_cache) = Some [300])
    by (vm_compute; reflexivity).
  split; [exact Hok|].
  destruct (size_and_exists_track_orders 0 false false sample_calls Hok)
    as [Htot Hall].
  destruct (Htot (or_introl eq_refl)) as (outs & c & Hr).
  exists outs, c. split; [exact Hr|].
  destruct (Hall outs c Hr) as (_ & Hsz & _ & Hex).
  split; [rewrite Hr in E; now injection E|].
  split; [rewrite Hsz; reflexivity | rewrite Hex; reflexivity].
Defined.

(** ** Securities in which nothing can match *)

Lemma getMatched_same c c' :
  _matchedQuantity c' = _matchedQuantity c ->
  forall q, getMatchedQuantityInCache c' q = getMatchedQuantityInCache c q.
Proof. intros E q. unfold getMatchedQuantityInCache. now rewrite E. Qed.

(** A new order whose possible counterparties are all of its own company
    is stored as it is and matches nothing. *)
Lemma matchOrderInCache_no_partner O c o :
  wf c -> deref (_orders c) O = Some o ->
  (forall y, In y (_orders c) -> eligible o y = false) ->
  _orders (snd (matchOrderInCache O c)) = _orders c /\
  fst (matchOrderInCache O c) = 0.
Proof.
  intros Hwf Ho Hnone.
  destruct (matchOrderInCache_pairings O c o Hwf Ho) as [Hm Hos].
  rewrite Hm, Hos.
  rewrite run_pairings_idle; [auto|].
  intros p Hp. apply In_against in Hp as (y & Hy & ->). simpl.
  apply In_side_list in Hy as (oy & Hoy & Hid & Hside).
  assert (Hdy : deref (_orders c) y = Some oy).
  { rewrite <- Hid. apply deref_In; [apply Hwf | assumption]. }
  apply (trade_qty_zero_iff O y _ o oy (wf_ok c Hwf) Ho Hdy).
  right. right. specialize (Hnone oy Hoy). unfold eligible in Hnone.
  rewrite Hside in Hnone. simpl in Hnone.
  apply negb_false_iff in Hnone. now apply String.eqb_eq.
Qed.

Lemma step_no_partner hw (ops : list Op) (s : string) op c out c' :
  (forall x y, In (OpAdd x) ops -> In (OpAdd y) ops ->
               securityId x = s -> eligible x y = false) ->
  In op ops -> Op_ok op -> wf c ->
  (getMatchedQuantityInCache c s = 0 /\
   forall o, In o (_orders c) -> securityId o = s -> In (OpAdd o) ops) ->
  step hw true op c = Some (out, c') ->
  getMatchedQuantityInCache c' s = 0 /\
  forall o, In o (_orders c') -> securityId o = s -> In (OpAdd o) ops.
Proof.
  intros Hpairs Hin Hop Hwf [Hz Hfrom] Hstep.
  destruct (is_cancel op) eqn:Ec.
  { destruct (cancel_effect hw true op c out c' Hwf Ec Hstep)
      as (_ & _ & Hos & Hmq & _).
    split; [now rewrite (getMatched_same c c' Hmq)|].
    intros o Ho. rewrite Hos in Ho. apply filter_In in Ho as [Ho _].
    now apply Hfrom. }
  destruct op as [o|id|u|t m|t]; try discriminate; simpl in Hstep.
  2:{ rewrite getMatchingSizeForSecurity_eager in Hstep.
      injection Hstep as _ <-. auto. }
  injection Hstep as _ <-.
  destruct (exists_ c (orderId o)) eqn:Ex.
  { rewrite addOrder_dup by assumption. auto. }
  pose proof (addOrder_lazy_new o c Ex) as (Hos & Hmq & _).
  pose proof (addOrder_lazy_wf o c Hwf Hop) as Hwfl.
  assert (Hhead : deref (_orders (addOrder false o c)) (orderId o) = Some o).
  { rewrite Hos. apply deref_head. }
  destruct (matchOrderInCache_cache _ _ _ Hwfl Hhead) as [_ Hcache].
  rewrite addOrder_eager_lazy, Ex.
  destruct (String.eqb_spec (securityId o) s) as [Hs|Hs].
  - (* an order of [s]: nobody to trade with *)
    destruct (matchOrderInCache_no_partner _ _ o Hwfl Hhead) as [Hos' Hm].
    { rewrite Hos. intros y [<-|Hy].
      - apply Hpairs; assumption.
      - destruct (eligible o y) eqn:El; [|reflexivity].
        pose proof El as El'. apply eligible_true in El' as (_ & Hsy & _).
        rewrite <- El. apply Hpairs; try assumption.
        apply Hfrom; [assumption | congruence]. }
    split.
    + rewrite Hcache, Hm, Hs, String.eqb_refl.
      rewrite (getMatched_same c _ Hmq), Hz. reflexivity.
    + rewrite Hos', Hos. intros x [<-|Hx] Hsx; [assumption | now apply Hfrom].
  - (* an order of another security *)
    split.
    + rewrite Hcache. rewrite (proj2 (String.eqb_neq s (securityId o)))
        by congruence.
      now rewrite (getMatched_same c _ Hmq).
    + intros x' Hx' Hsx.
      pose proof (matchOrderInCache_reduced (orderId o) _ Hwfl) as Hred.
      pose proof (matchOrderInCache_wf (orderId o) _ Hwfl) as Hwf'.
      destruct (reduced_In _ _ _ Hred Hx') as (z & Hz' & Hrz).
      assert (Hsz : securityId z = s).
      { destruct Hrz as [Hst _]. apply (f_equal securityId) in Hst.
        simpl in Hst. congruence. }
      rewrite Hos in Hz'. destruct Hz' as [<-|Hz']; [contradiction|].
      assert (Hkeep : In z (_orders (snd (matchOrderInCache (orderId o)
                                            (addOrder false o c))))).
      { apply (matchOrderInCache_keeps _ _ o); try assumption.
        - rewrite Hos. now right.
        - intros Hid. apply (exists_false c _ Hwf) in Ex. apply Ex.
          rewrite <- Hid. apply In_ids. eauto.
        - unfold eligible. rewrite on_side_other_security by congruence.
          reflexivity. }
      assert (z = x').
      { apply (NoDup_ids_inj _ z x' (wf_nodup _ Hwf')); try assumption.
        symmetry. now apply reduced_orderId. }
      subst z. now apply Hfrom.
Qed.

(** X20: a security in which no two of the orders ever added could be
    counterparties (all on one side, or all of one company) never
    matches.  Whatever else is added, cancelled or queried, its matched
    size stays 0 and its orders stay in the cache exactly as they were
    passed in. *)
Theorem security_without_counterparties_never_matches
    (hardware_concurrency : Z) (ops : list Op) (s : string) (outs : list Z)
    (c : OrderCache) :
  Forall Op_ok ops ->
  (forall x y, In (OpAdd x) ops -> In (OpAdd y) ops ->
               securityId x = s -> eligible x y = false) ->
  run hardware_concurrency true ops empty_cache = Some (outs, c) ->
  query true s c = Some 0 /\
  forall o, In o (getAllOrders c) -> securityId o = s -> In (OpAdd o) ops.
Proof.
  intros Hok Hpairs Hr.
  destruct (run_invariant
              (fun c => getMatchedQuantityInCache c s = 0 /\
                        forall o, In o (_orders c) -> securityId o = s ->
                                  In (OpAdd o) ops)
              hardware_concurrency true ops
              ltac:(intros op x out x' Hin Hop Hwf HP Hst;
                    exact (step_no_partner _ ops s op x out x' Hpairs Hin Hop
                             Hwf HP Hst))
              empty_cache outs c wf_empty Hok
              ltac:(split; [reflexivity | intros o []])
              Hr) as [_ [Hz Hfrom]].
  split; [|exact Hfrom].
  unfold query. rewrite getMatchingSizeForSecurity_eager. simpl.
  rewrite Hz. now destruct (_securityOrdersIndex c !! s).
Qed.

Lemma security_without_counterparties_never_matches_witness :
  let ops :=
    [ OpAdd (Order_new "1" "SecId3" "Buy" 2000 "User1" "CompanyA");
      OpAdd (Order_new "2" "SecId3" "Sell" 2000 "User2" "CompanyA");
      OpAdd (Order_new "3" "SecId1" "Sell" 500 "User3" "CompanyB");
      OpAdd (Order_new "4" "SecId1" "Buy" 300 "User1" "CompanyA");
      OpQuery "SecId1" ] in
  Forall Op_ok ops /\
  exists outs c,
    run 4 true ops empty_cache = Some (outs, c) /\
    outs = [300] /\ query true "SecId3" c = Some 0.
Proof.
  intros ops.
  assert (Hok : Forall Op_ok ops).
  { repeat constructor; vm_compute; intuition discriminate. }
  assert (Hpairs : forall x y, In (OpAdd x) ops -> In (OpAdd y) ops ->
                     securityId x = "SecId3" -> eligible x y = false).
  { intros x y Hx Hy Hs. unfold ops in Hx, Hy. simpl in Hx, Hy.
    destruct Hx as [Hx|[Hx|[Hx|[Hx|[Hx|[]]]]]]; try discriminate Hx;
      injection Hx as <-; try discriminate Hs;
      destruct Hy as [Hy|[Hy|[Hy|[Hy|[Hy|[]]]]]]; try discriminate Hy;
      injection Hy as <-; reflexivity. }
  assert (E : fst <$> run 4 true ops empty_cache = Some [300])
    by (vm_compute; reflexivity).
  split; [exact Hok|].
  destruct (run_eager_total 4 ops ltac:(discriminate) empty_cache)
    as (outs & c & Hr).
  exists outs, c. split; [exact Hr|].
  split.
  - rewrite Hr in E. now injection E.
  - exact (proj1 (security_without_counterparties_never_matches
                    4 ops "SecId3" outs c Hok Hpairs Hr)).
Defined.

(** ** Conservation of lots *)

Lemma sum_on_cons f b s o os :
  sum_on f b s (o :: os) =
  (if on_side b s o then f o else 0) + sum_on f b s os.
Proof.
  unfold sum_on. simpl. destruct (on_side b s o); simpl; lia.
Qed.

Lemma sum_on_nil f b s : sum_on f b s [] = 0.
Proof. reflexivity. Qed.

Lemma sum_on_statics f b s : forall os os',
  (forall o, f (static o) = f o) ->
  statics os' = statics os -> sum_on f b s os' = sum_on f b s os.
Proof.
  induction os as [|o os IH]; intros [|o' os'] Hf H; try discriminate;
    [reflexivity|].
  change (static o' :: statics os' = static o :: statics os) in H.
  assert (Ho : static o' = static o) by congruence.
  assert (Ht : statics os' = statics os) by congruence.
  rewrite !sum_on_cons, (IH os' Hf Ht).
  rewrite <- (on_side_static b s o'), <- (on_side_static b s o), Ho.
  now rewrite <- (Hf o'), <- (Hf o), Ho.
Qed.

Lemma sum_on_none f b s os :
  (forall o, In o os -> securityId o <> s) -> sum_on f b s os = 0.
Proof.
  induction os as [|o os IH]; intros H; [reflexivity|].
  rewrite sum_on_cons, on_side_other_security by (apply H; now left).
  rewrite IH; [reflexivity|]. intros x Hx. apply H. now right.
Qed.

Lemma sum_on_bounds b s os :
  Forall Order_ok os ->
  0 <= sum_on workingQty b s os <= sum_on qty b s os.
Proof.
  induction 1 as [|o os [Hw _] _ IH]; [rewrite !sum_on_nil; lia|].
  rewrite !sum_on_cons. destruct (on_side b s o); lia.
Qed.

Lemma sum_on_filled b s os :
  Forall Order_ok os ->
  sum_on filledQty b s os = sum_on qty b s os - sum_on workingQty b s os.
Proof.
  induction 1 as [|o os Ho _ IH]; [reflexivity|].
  rewrite !sum_on_cons, IH, (filledQty_ok o Ho).
  destruct (on_side b s o); lia.
Qed.

Lemma modify_absent p f os : ~ In p (ids os) -> modify p f os = os.
Proof.
  intros Hni. unfold modify. induction os as [|x os IH]; [reflexivity|].
  simpl. simpl in Hni.
  destruct (points_to p x) eqn:E.
  - apply points_to_true in E. tauto.
  - f_equal. apply IH. tauto.
Qed.

Lemma on_side_fillLots b s q o : on_side b s (fillLots q o) = on_side b s o.
Proof.
  rewrite <- (on_side_static b s (fillLots q o)), static_fillLots.
  apply on_side_static.
Qed.

(** Filling one order lowers the working total of its side, and of no
    other side or security. *)
Lemma sum_on_fill b s p q a : forall st,
  NoDup (ids st) -> deref st p = Some a ->
  0 <= q <= workingQty a -> workingQty a < UINT_MODULUS ->
  sum_on workingQty b s (modify p (fillLots q) st) =
  sum_on workingQty b s st - (if on_side b s a then q else 0).
Proof.
  induction st as [|x st IH]; intros Hnd Hd Hq Hlt; [discriminate|].
  simpl in Hnd. apply NoDup_cons in Hnd as [Hx Hnd].
  unfold deref in Hd. simpl in Hd. unfold modify. simpl.
  destruct (points_to p x) eqn:E.
  - injection Hd as ->. apply points_to_true in E.
    fold (modify p (fillLots q) st).
    rewrite modify_absent by (rewrite <- E; now rewrite <- list_elem_of_In).
    rewrite !sum_on_cons, on_side_fillLots, fillLots_exact by lia.
    destruct (on_side b s a); lia.
  - fold (modify p (fillLots q) st). rewrite !sum_on_cons, (IH Hnd Hd Hq Hlt).
    lia.
Qed.

Lemma NoDup_ids_modify p q st :
  NoDup (ids st) -> NoDup (ids (modify p (fillLots q) st)).
Proof. now rewrite ids_modify by apply orderId_fillLots. Qed.

Lemma NoDup_ids_trade x y st : NoDup (ids st) -> NoDup (ids (trade x y st)).
Proof.
  intros H. rewrite <- ids_statics, statics_trade, ids_statics. exact H.
Qed.

(** A pairing of two orders on opposite sides of security [t] lowers the
    working totals of both sides of [t] by what it moves. *)
Lemma trade_sums x y st a c t b s :
  Forall Order_ok st -> NoDup (ids st) -> x <> y ->
  deref st x = Some a -> deref st y = Some c ->
  securityId a = t -> securityId c = t ->
  isBuySide c = negb (isBuySide a) ->
  sum_on workingQty b s (trade x y st) =
  sum_on workingQty b s st -
  (if String.eqb s t then trade_qty x y st else 0).
Proof.
  intros Hok Hnd Hne Ha Hc Hsa Hsc Hside.
  pose proof (deref_ok _ _ _ Hok Ha) as [Hwa Hqa].
  pose proof (deref_ok _ _ _ Hok Hc) as [Hwc Hqc].
  unfold trade.
  destruct (Z.eqb_spec (trade_qty x y st) 0) as [E0|E0].
  { rewrite E0. destruct (String.eqb s t); lia. }
  assert (Hq : trade_qty x y st = Z.min (workingQty a) (workingQty c)).
  { unfold trade_qty in *. rewrite Ha, Hc in *.
    destruct (_ || _); [congruence | reflexivity]. }
  set (q := trade_qty x y st) in *.
  rewrite (sum_on_fill b s y q c); try lia.
  - rewrite (sum_on_fill b s x q a); try assumption; try lia.
    unfold on_side. rewrite Hsa, Hsc, Hside, (String.eqb_sym t s).
    destruct (String.eqb s t), (isBuySide a), b; simpl; lia.
  - now apply NoDup_ids_modify.
  - rewrite deref_modify_other; auto with node_db.
Qed.

(** [p] points to an order of side [bb] of security [t]. *)
Lemma sided_trade x y st p a :
  deref st p = Some a ->
  exists a', deref (trade x y st) p = Some a' /\ static a' = static a.
Proof.
  intros Ha. unfold trade. destruct (_ =? 0); [eauto|].
  rewrite !deref_modify by apply orderId_fillLots. rewrite Ha.
  destruct (String.eqb x p), (String.eqb y p); simpl; eexists;
    (split; [reflexivity|]); now rewrite ?static_fillLots.
Qed.

Lemma static_side a a' :
  static a' = static a ->
  securityId a' = securityId a /\ isBuySide a' = isBuySide a.
Proof.
  intros H. split.
  - now apply (f_equal securityId) in H.
  - unfold isBuySide. apply (f_equal side) in H. simpl in H. now rewrite H.
Qed.

Lemma against_sums t O b s : forall ys st o,
  Forall Order_ok st -> NoDup (ids st) ->
  deref st O = Some o -> securityId o = t ->
  (forall y, In y ys ->
     y <> O /\ exists c, deref st y = Some c /\ securityId c = t /\
                         isBuySide c = negb (isBuySide o)) ->
  sum_on workingQty b s (fst (run_pairings t (against t O ys) (st, 0))) =
  sum_on workingQty b s st -
  (if String.eqb s t
   then snd (run_pairings t (against t O ys) (st, 0)) else 0).
Proof.
  induction ys as [|y ys IH]; intros st o Hok Hnd Ho Hso Hys.
  { simpl. destruct (String.eqb s t); lia. }
  cbn [against List.map]. fold (against t O ys).
  rewrite run_pairings_step, String.eqb_refl.
  destruct (Hys y (or_introl eq_refl)) as (Hne & c & Hc & Hsc & Hside).
  destruct (sided_trade O y st O o Ho) as (o' & Ho' & Hso').
  destruct (static_side _ _ Hso') as [Hsec' Hbuy'].
  rewrite (run_pairings_shift t _ (trade O y st) (0 + _)). cbn [fst snd].
  rewrite (IH (trade O y st) o'); try assumption.
  - rewrite (trade_sums O y st o c t b s); auto.
    destruct (String.eqb s t); lia.
  - now apply trade_ok.
  - now apply NoDup_ids_trade.
  - congruence.
  - intros z Hz. destruct (Hys z (or_intror Hz)) as (Hnz & cz & Hcz & Hsz & Hbz).
    split; [assumption|].
    destruct (sided_trade O y st z cz Hcz) as (cz' & Hcz' & Hst).
    destruct (static_side _ _ Hst) as [H1 H2].
    exists cz'. split; [assumption|]. split; congruence.
Qed.

Lemma matchOrderInCache_sums O c o b s :
  wf c -> deref (_orders c) O = Some o ->
  sum_on workingQty b s (_orders (snd (matchOrderInCache O c))) =
  sum_on workingQty b s (_orders c) -
  (if String.eqb s (securityId o) then fst (matchOrderInCache O c) else 0).
Proof.
  intros Hwf Ho.
  destruct (matchOrderInCache_pairings O c o Hwf Ho) as [Hm Hos].
  rewrite Hm, Hos.
  apply (against_sums (securityId o) O b s _ _ o);
    [apply Hwf | apply Hwf | assumption | reflexivity |].
  intros y Hy.
  destruct (side_list_live c O o y Hwf Ho Hy) as [Hne _].
  split; [assumption|].
  apply In_side_list in Hy as (oy & Hoy & Hid & Hside).
  apply on_side_true in Hside as [Hb Hs].
  exists oy. split; [|auto].
  rewrite <- Hid. apply deref_In; [apply Hwf | assumption].
Qed.

Lemma addOrder_conserves o c :
  wf c -> Order_ok o -> workingQty o = qty o ->
  (forall s,
     sum_on filledQty true s (_orders c) = sum_on filledQty false s (_orders c) /\
     getMatchedQuantityInCache c s =
       wrap32 (sum_on filledQty true s (_orders c))) ->
  forall s,
    let c' := addOrder true o c in
    sum_on filledQty true s (_orders c') = sum_on filledQty false s (_orders c') /\
    getMatchedQuantityInCache c' s =
      wrap32 (sum_on filledQty true s (_orders c')).
Proof.
  intros Hwf Hok Hfresh Hinv s c'. unfold c'.
  destruct (exists_ c (orderId o)) eqn:Ex.
  { rewrite addOrder_dup by assumption. apply Hinv. }
  pose proof (addOrder_lazy_new o c Ex) as (Hos & Hmq & _).
  pose proof (addOrder_lazy_wf o c Hwf Hok) as Hwfl.
  assert (Hhead : deref (_orders (addOrder false o c)) (orderId o) = Some o).
  { rewrite Hos. apply deref_head. }
  destruct (matchOrderInCache_cache _ _ _ Hwfl Hhead) as [_ Hcache].
  pose proof (matchOrderInCache_wf (orderId o) _ Hwfl) as Hwf'.
  pose proof (matchOrderInCache_statics (orderId o) (addOrder false o c)) as Hst.
  rewrite addOrder_eager_lazy, Ex.
  set (cm := snd (matchOrderInCache (orderId o) (addOrder false o c))) in *.
  set (m := fst (matchOrderInCache (orderId o) (addOrder false o c))) in *.
  assert (HF : forall b,
    sum_on filledQty b s (_orders cm) =
    sum_on filledQty b s (_orders c) +
    (if String.eqb s (securityId o) then m else 0)).
  { intros b.
    rewrite (sum_on_filled b s _ (wf_ok _ Hwf')), (sum_on_filled b s _ (wf_ok _ Hwf)).
    rewrite (sum_on_statics qty b s _ _ ltac:(reflexivity) Hst).
    unfold cm, m.
    rewrite (matchOrderInCache_sums _ _ o b s Hwfl Hhead).
    rewrite Hos, !sum_on_cons, Hfresh.
    destruct (on_side b s o), (String.eqb s (securityId o)); lia. }
  destruct (Hinv s) as [Heq Hc].
  split.
  - rewrite !HF. lia.
  - rewrite Hcache, (getMatched_same c _ Hmq), HF, Hc.
    destruct (String.eqb s (securityId o)).
    + apply wrap32_add_l.
    + now rewrite Z.add_0_r.
Qed.

Lemma add_all_conserves os : forall c,
  wf c -> Forall (fun o => Order_ok o /\ workingQty o = qty o) os ->
  (forall s,
     sum_on filledQty true s (_orders c) = sum_on filledQty false s (_orders c) /\
     getMatchedQuantityInCache c s =
       wrap32 (sum_on filledQty true s (_orders c))) ->
  forall s,
    let c' := add_all true os c in
    wf c' /\
    sum_on filledQty true s (_orders c') = sum_on filledQty false s (_orders c') /\
    getMatchedQuantityInCache c' s =
      wrap32 (sum_on filledQty true s (_orders c')).
Proof.
  induction os as [|o os IH]; intros c Hwf Hos Hinv s; simpl.
  - split; [assumption | apply Hinv].
  - apply Forall_cons in Hos as [[Hok Hfresh] Hos].
    apply IH; [now apply addOrder_wf | assumption |].
    intros q. now apply addOrder_conserves.
Qed.

(** X21: lots are conserved.  When orders are only added (each one new
    from its constructor), the lots filled on the buy side of a security
    are at all times the lots filled on its sell side, this total is what
    [getMatchingSizeForSecurity] reports (modulo 2^32), and it never
    exceeds the quantity offered on either side. *)
Theorem matched_lots_are_conserved (os : list Order) (s : string) :
  Forall (fun o => Order_ok o /\ workingQty o = qty o) os ->
  let c := add_all true os empty_cache in
  let bought := sum_on filledQty true s (getAllOrders c) in
  let sold := sum_on filledQty false s (getAllOrders c) in
  bought = sold /\
  query true s c = Some (wrap32 bought) /\
  0 <= bought <=
    Z.min (sum_on qty true s (getAllOrders c))
          (sum_on qty false s (getAllOrders c)).
Proof.
  intros Hos c bought sold.
  destruct (add_all_conserves os empty_cache wf_empty Hos
              ltac:(intros q; split; reflexivity) s) as (Hwf & Heq & Hc).
  fold c in Hwf, Heq, Hc. unfold getAllOrders in *.
  fold bought in Heq, Hc. fold sold in Heq.
  split; [exact Heq|]. split.
  - unfold query. rewrite getMatchingSizeForSecurity_eager. simpl.
    destruct (_securityOrdersIndex c !! s) eqn:Ek.
    + rewrite to_uint_to_int by now apply getMatched_uint.
      now rewrite Hc.
    + unfold bought. rewrite sum_on_none; [reflexivity|].
      now apply key_absent_no_orders.
  - pose proof (sum_on_bounds true s _ (wf_ok c Hwf)) as Hb.
    pose proof (sum_on_bounds false s _ (wf_ok c Hwf)) as Hs.
    pose proof (sum_on_filled true s _ (wf_ok c Hwf)) as Fb.
    pose proof (sum_on_filled false s _ (wf_ok c Hwf)) as Fs.
    fold bought in Fb. fold sold in Fs. lia.
Qed.

Lemma matched_lots_are_conserved_witness :
  let c := add_all true scenarioA empty_cache in
  Forall (fun o => Order_ok o /\ workingQty o = qty o) scenarioA /\
  sum_on filledQty true "SecId2" (getAllOrders c) = 2700 /\
  sum_on filledQty false "SecId2" (getAllOrders c) = 2700 /\
  query true "SecId2" c = Some 2700.
Proof.
  intros c.
  assert (Hos : Forall (fun o => Order_ok o /\ workingQty o = qty o) scenarioA).
  { repeat constructor; vm_compute; intuition discriminate. }
  split; [exact Hos|].
  destruct (matched_lots_are_conserved scenarioA "SecId2" Hos) as (Heq & Hq & _).
  fold c in Heq, Hq.
  assert (E : sum_on filledQty true "SecId2" (getAllOrders c) = 2700)
    by (vm_compute; reflexivity).
  split; [exact E|]. split; [rewrite <- Heq; exact E|].
  rewrite Hq, E. reflexivity.
Defined.

(** ** The indexes against the order list *)

(** X22: after any sequence of calls on an empty cache, in either
    matching mode and with multi-threading on or off, all indexes agree
    with the order list: ids are distinct; the id index knows exactly the
    ids in the list; the by-user and by-security sets hold exactly the ids
    of the orders of that user or security; the buy and sell vectors of a
    security hold the ids of its buy and sell orders, oldest first; and
    every order satisfies [0 <= workingQty <= qty].  With multi-threading
    off every sequence runs to its end in both modes, lazy queries
    included (they take their serial branch); with matching at insertion
    it does so wherever [hardware_concurrency()] is not 0.  (With
    multi-threading on the lazy query of two or more orders starts
    threads and is not covered.) *)
Theorem indexes_agree_with_order_list (hardware_concurrency : Z)
    (eager multiThread : bool) (ops : list Op) :
  Forall Op_ok ops ->
  let c0 := set_multiThread multiThread empty_cache in
  (multiThread = false \/ (eager = true /\ hardware_concurrency <> 0) ->
   exists outs c, run hardware_concurrency eager ops c0 = Some (outs, c)) /\
  forall outs c,
    run hardware_concurrency eager ops c0 = Some (outs, c) ->
    let os := getAllOrders c in
    NoDup (ids os) /\
    (forall i, is_Some (_orderIndex c !! i) <-> In i (ids os)) /\
    (forall u i, i ∈ at_key ∅ u (_userOrdersIndex c) <->
       exists o, In o os /\ orderId o = i /\ user o = u) /\
    (forall s i, i ∈ at_key ∅ s (_securityOrdersIndex c) <->
       exists o, In o os /\ orderId o = i /\ securityId o = s) /\
    (forall s, at_key [] s (_securityLongOrdersIndex c) =
       rev (ids (List.filter
                   (fun o => isBuySide o && String.eqb (securityId o) s) os))) /\
    (forall s, at_key [] s (_securityShortOrdersIndex c) =
       rev (ids (List.filter
                   (fun o => negb (isBuySide o) && String.eqb (securityId o) s)
                   os))) /\
    Forall Order_ok os.
Proof.
  intros Hok c0. split; [intros H; now apply run_total|].
  intros outs c Hr os.
  pose proof (run_wf _ eager ops c0 outs c
                (wf_set_multiThread _ _ wf_empty) Hok Hr) as Hwf.
  unfold os, getAllOrders.
  split; [apply Hwf|]. split; [|split; [apply Hwf|split; [apply Hwf|]]].
  - intros i. split.
    + intros [p Hp]. now apply (wf_index c Hwf) in Hp.
    + intros Hin. exists i. apply (wf_index c Hwf). auto.
  - split; [|split; [|apply Hwf]]; intros s.
    + rewrite (wf_long c Hwf). unfold side_list. do 2 f_equal.
      apply filter_ext_in'. intros o _. unfold on_side.
      now destruct (isBuySide o).
    + rewrite (wf_short c Hwf). reflexivity.
Qed.

Lemma indexes_agree_with_order_list_witness :
  Forall Op_ok sample_calls /\
  exists outs c,
    run 0 false sample_calls (set_multiThread false empty_cache) =
      Some (outs, c) /\
    outs = [300] /\
    NoDup (ids (getAllOrders c)) /\
    at_key [] "SecId2" (_securityLongOrdersIndex c) = ["5"].
Proof.
  assert (Hok : Forall Op_ok sample_calls).
  { repeat constructor; vm_compute; intuition discriminate. }
  assert (E : (fun r => (fst r,
                         at_key [] "SecId2" (_securityLongOrdersIndex (snd r))))
                <$> run 0 false sample_calls
                      (set_multiThread false empty_cache) =
              Some ([300], ["5"]))
    by (vm_compute; reflexivity).
  split; [exact Hok|].
  destruct (indexes_agree_with_order_list 0 false false sample_calls Hok)
    as [Htot Hall].
  destruct (Htot (or_introl eq_refl)) as (outs & c & Hr).
  exists outs, c. split; [exact Hr|].
  destruct (Hall outs c Hr) as (Hnd & _).
  rewrite Hr in E. simpl in E. injection E as E1 E2.
  split; [exact E1|]. split; [exact Hnd | exact E2].
Defined.

(** ** The two matching modes on the orders of the queried security *)

Lemma filter_modify_other (g : Order -> bool) p f st :
  (forall z, In z st -> orderId z = p -> g z = false) ->
  (forall z, g (f z) = g z) ->
  List.filter g (modify p f st) = List.filter g st.
Proof.
  intros Hp Hf. unfold modify. induction st as [|z st IH]; [reflexivity|].
  simpl. destruct (points_to p z) eqn:E.
  - apply points_to_true in E.
    rewrite Hf, (Hp z (or_introl eq_refl) E).
    apply IH. intros w Hw. apply Hp. now right.
  - destruct (g z); [f_equal|]; apply IH; intros w Hw; apply Hp; now right.
Qed.

Lemma securityId_fillLots q o : securityId (fillLots q o) = securityId o.
Proof. unfold fillLots. now destruct (q <? workingQty o). Qed.

Lemma In_modify p f st z' :
  In z' (modify p f st) -> exists z, In z st /\ (z' = z \/ z' = f z).
Proof.
  unfold modify. rewrite in_map_iff. intros (z & Hz & Hin).
  exists z. split; [assumption|]. destruct (points_to p z); auto.
Qed.

(** A pairing of orders of another security leaves the orders of
    security [s] as they are. *)
Lemma trade_other_security s x y st :
  (forall z, In z st -> orderId z = x \/ orderId z = y -> securityId z <> s) ->
  List.filter (fun o => String.eqb (securityId o) s) (trade x y st) =
  List.filter (fun o => String.eqb (securityId o) s) st.
Proof.
  intros H. unfold trade. destruct (_ =? 0); [reflexivity|].
  rewrite filter_modify_other.
  - apply filter_modify_other.
    + intros z Hz Hid. apply String.eqb_neq. apply H; auto.
    + intros z. now rewrite securityId_fillLots.
  - intros z' Hz' Hid. apply String.eqb_neq.
    apply In_modify in Hz' as (z & Hz & [->| ->]).
    + apply H; auto.
    + rewrite securityId_fillLots. rewrite orderId_fillLots in Hid.
      apply H; auto.
  - intros z. now rewrite securityId_fillLots.
Qed.

Lemma In_statics_back st st' z' :
  statics st' = statics st -> In z' st' ->
  exists z, In z st /\ static z = static z'.
Proof.
  intros Hst Hz'.
  assert (H : In (static z') (statics st)).
  { rewrite <- Hst. unfold statics. now apply in_map. }
  unfold statics in H. apply in_map_iff in H as (z & Hz & Hin). eauto.
Qed.

Lemma run_pairings_other_security s P : forall st T,
  (forall p z, In p P -> In z st ->
     orderId z = snd (fst p) \/ orderId z = snd p -> securityId z <> s) ->
  List.filter (fun o => String.eqb (securityId o) s)
    (fst (run_pairings s P (st, T))) =
  List.filter (fun o => String.eqb (securityId o) s) st.
Proof.
  induction P as [|[[t x] y] P IH]; intros st T H; [reflexivity|].
  rewrite run_pairings_step, IH.
  - apply trade_other_security. intros z Hz Hid.
    apply (H (t, x, y) z); auto. now left.
  - intros p z' Hp Hz' Hid.
    destruct (In_statics_back st (trade x y st) z' (statics_trade x y st) Hz')
      as (z & Hz & Hst).
    assert (E1 : orderId z = orderId z')
      by (apply (f_equal orderId) in Hst; exact Hst).
    assert (E2 : securityId z = securityId z')
      by (apply (f_equal securityId) in Hst; exact Hst).
    rewrite <- E2. apply (H p z); auto; [now right | now rewrite E1].
Qed.

(** X23: after a sequence of [addOrder] calls, the first lazy query of a
    security (threads off) does for that security what eager matching
    has done while the orders came in: both return the same size, and the
    orders of the queried security end with the same working quantities
    in both modes. *)
Theorem lazy_query_agrees_with_eager_on_orders (os : list Order) (s : string) :
  Forall Order_ok os ->
  let c_eager := add_all true os empty_cache in
  let c0 := add_all false os (set_multiThread false empty_cache) in
  exists v c_lazy,
    getMatchingSizeForSecurity false s c0 = Some (v, c_lazy) /\
    query true s c_eager = Some v /\
    List.filter (fun o => String.eqb (securityId o) s) (getAllOrders c_lazy) =
    List.filter (fun o => String.eqb (securityId o) s) (getAllOrders c_eager).
Proof.
  intros Hok c_eager c0.
  (* eager *)
  pose proof (eager_inv_add_all os _ _ eager_inv_empty Hok) as Hinv.
  fold (accepted os) in Hinv. fold c_eager in Hinv.
  destruct Hinv as (Hwfe & Hnd & Hrun). destruct (Hrun s) as [Hose _].
  (* lazy, before the query *)
  assert (Hinv0 : lazy_inv (set_multiThread false empty_cache) []).
  { split; [apply wf_set_multiThread, wf_empty|]. split; reflexivity. }
  pose proof (lazy_inv_add_all os _ _ Hinv0 Hok) as Hinvl.
  fold (accepted os) in Hinvl. fold c0 in Hinvl.
  destruct Hinvl as (Hwf & Hos & Hmt).
  set (A := accepted os) in *.
  (* the values *)
  pose proof (query_eager_value os s Hok) as Hve.
  pose proof (query_lazy_value os s Hok) as Hvl.
  fold c_eager in Hve. fold c0 in Hvl. fold A in Hve, Hvl.
  rewrite (pairs_eager_lazy_total s A A Hnd) in Hve.
  unfold query in Hvl.
  destruct (getMatchingSizeForSecurity false s c0) as [[v c_lazy]|] eqn:Eq;
    [|discriminate].
  simpl in Hvl. injection Hvl as Hv.
  exists v, c_lazy. split; [reflexivity|]. split; [now rewrite Hve, Hv|].
  (* the store after the lazy query *)
  assert (Hl : _orders c_lazy = fst (run_pairings s (pairsL s A) (A, 0))).
  { unfold getMatchingSizeForSecurity in Eq.
    destruct (_securityOrdersIndex c0 !! s) eqn:Ek.
    - rewrite Hmt in Eq. cbn [negb orb] in Eq.
      set (c1 := set_securityLongOrdersIndex
                   (touch [] s (_securityLongOrdersIndex c0)) c0) in *.
      assert (Hwf1 : wf c1) by now apply wf_touch_long.
      assert (Hlongs : at_key [] s (_securityLongOrdersIndex c1) =
                       side_list true s (_orders c1)) by apply (wf_long c1 Hwf1).
      rewrite Hlongs in Eq.
      pose proof (lazy_loop_effect s (side_list true s (_orders c1)) 0 c1 Hwf1
                    ltac:(auto)) as [He _].
      destruct (lazy_loop (side_list true s (_orders c1)) 0 c1) as [q c2].
      injection Eq as _ <-. cbn [snd] in He. rewrite He.
      change (_orders c1) with (_orders c0). rewrite Hos. reflexivity.
    - injection Eq as _ <-. rewrite (pairsL_nil s A); [exact Hos|].
      rewrite <- Hos. now apply key_absent_no_orders. }
  unfold getAllOrders. rewrite Hose, Hl.
  rewrite (run_pairings_partition s (label_is s) (pairsE A) (A, 0))
    by (intros p q Hp Hq Hlp Hlq; exact (pairsE_apart s A p q Hnd Hp Hq Hlp Hlq)).
  rewrite (pairs_eager_lazy s A (A, 0) Hnd).
  rewrite (surjective_pairing (run_pairings s (pairsL s A) (A, 0))).
  rewrite run_pairings_other_security; [reflexivity|].
  intros p z' Hp Hz' Hid.
  apply filter_In in Hp as [Hp Hlab].
  destruct (pairsE_orders A p Hp) as (ox & oy & Hox & Hoy & Hix & Hiy & Hsx & Hsy).
  unfold label_is in Hlab. apply negb_true_iff, String.eqb_neq in Hlab.
  destruct (In_statics_back A _ z'
              (run_pairings_statics s (pairsL s A) (A, 0)) Hz')
    as (z & Hz & Hst).
  assert (E1 : orderId z = orderId z')
    by (apply (f_equal orderId) in Hst; exact Hst).
  assert (E2 : securityId z = securityId z')
    by (apply (f_equal securityId) in Hst; exact Hst).
  rewrite <- E2.
  destruct Hid as [Hid|Hid].
  - rewrite (NoDup_ids_inj A z ox Hnd Hz Hox) by congruence. congruence.
  - rewrite (NoDup_ids_inj A z oy Hnd Hz Hoy) by congruence. congruence.
Qed.

Lemma lazy_query_agrees_with_eager_on_orders_witness :
  Forall Order_ok scenarioA /\
  exists v c_lazy,
    getMatchingSizeForSecurity false "SecId2"
      (add_all false scenarioA (set_multiThread false empty_cache)) =
      Some (v, c_lazy) /\
    v = 2700 /\
    List.map workingQty
      (List.filter (fun o => String.eqb (securityId o) "SecId2")
         (getAllOrders c_lazy)) = [4900; 0; 0; 0; 400].
Proof.
  assert (Hok : Forall Order_ok scenarioA).
  { repeat constructor; vm_compute; intuition discriminate. }
  assert (Ee : query true "SecId2" (add_all true scenarioA empty_cache) =
               Some 2700) by (vm_compute; reflexivity).
  assert (Eo : List.map workingQty
                 (List.filter (fun o => String.eqb (securityId o) "SecId2")
                    (getAllOrders (add_all true scenarioA empty_cache))) =
               [4900; 0; 0; 0; 400]) by (vm_compute; reflexivity).
  split; [exact Hok|].
  destruct (lazy_query_agrees_with_eager_on_orders scenarioA "SecId2" Hok)
    as (v & c_lazy & Hq & Hv & Hos).
  exists v, c_lazy. split; [exact Hq|].
  split; [rewrite Ee in Hv; now injection Hv|].
  rewrite Hos. exact Eo.
Defined.

(** ** How much is matched *)

Lemma add_all_settled os : forall c,
  wf c -> Forall Order_ok os -> settled (_orders c) ->
  settled (_orders (add_all true os c)).
Proof.
  induction os as [|o os IH]; intros c Hwf Hok Hs; simpl; [assumption|].
  apply Forall_cons in Hok as [Ho Hok].
  apply IH; [now apply addOrder_wf | assumption | now apply addOrder_settled].
Qed.

Lemma sum_on_unfilled b s os :
  sum_on workingQty b s os <> 0 ->
  exists o, In o os /\ on_side b s o = true /\ isFilled o = false.
Proof.
  induction os as [|o os IH]; [rewrite sum_on_nil; congruence|].
  rewrite sum_on_cons. intros H.
  destruct (on_side b s o) eqn:E.
  - destruct (Z.eqb_spec (workingQty o) 0) as [E0|E0].
    + destruct IH as (x & Hx & Hs & Hf); [lia|]. exists x. simpl. auto.
    + exists o. simpl. split; [auto|]. split; [assumption|].
      unfold isFilled. now apply Z.eqb_neq.
  - destruct IH as (x & Hx & Hs & Hf); [lia|]. exists x. simpl. auto.
Qed.

Lemma sum_on_all_filled b s os :
  (forall o, In o os -> on_side b s o = true -> isFilled o = true) ->
  sum_on workingQty b s os = 0.
Proof.
  intros H. destruct (Z.eq_dec (sum_on workingQty b s os) 0) as [E|E];
    [assumption|].
  destruct (sum_on_unfilled b s os E) as (o & Ho & Hs & Hf).
  rewrite (H o Ho Hs) in Hf. discriminate.
Qed.

(** X24: when no buy order of a security shares its company with a sell
    order of that security, eager matching matches as much as can be
    matched at all: after a sequence of [addOrder] calls (orders new from
    their constructor) the matched size of the security is the smaller of
    the total quantity bought and the total quantity sold (modulo
    2^32). *)
Theorem distinct_companies_match_smaller_side (os : list Order) (s : string) :
  Forall (fun o => Order_ok o /\ workingQty o = qty o) os ->
  let c := add_all true os empty_cache in
  (forall b x, In b (getAllOrders c) -> In x (getAllOrders c) ->
     isBuySide b = true -> isBuySide x = false ->
     securityId b = s -> securityId x = s -> company b <> company x) ->
  query true s c =
  Some (wrap32 (Z.min (sum_on qty true s (getAllOrders c))
                      (sum_on qty false s (getAllOrders c)))).
Proof.
  intros Hos c Hco.
  assert (Hok : Forall Order_ok os).
  { eapply Forall_impl; [exact Hos|]. now intros o [H _]. }
  destruct (add_all_conserves os empty_cache wf_empty Hos
              ltac:(intros q; split; reflexivity) s) as (Hwf & Heq & Hc).
  fold c in Hwf, Heq, Hc.
  pose proof (add_all_settled os empty_cache wf_empty Hok ltac:(intros x y []))
    as Hset.
  fold c in Hset. unfold getAllOrders in *.
  pose proof (sum_on_bounds true s _ (wf_ok c Hwf)) as Hb.
  pose proof (sum_on_bounds false s _ (wf_ok c Hwf)) as Hs.
  rewrite (sum_on_filled true s _ (wf_ok c Hwf)) in Heq, Hc.
  rewrite (sum_on_filled false s _ (wf_ok c Hwf)) in Heq.
  assert (Hmin : sum_on qty true s (_orders c) -
                 sum_on workingQty true s (_orders c) =
                 Z.min (sum_on qty true s (_orders c))
                       (sum_on qty false s (_orders c))).
  { destruct (Z.eq_dec (sum_on workingQty true s (_orders c)) 0) as [E|E];
      [lia|].
    destruct (sum_on_unfilled true s _ E) as (b & Hbin & Hbs & Hbf).
    apply on_side_true in Hbs as [Hbuy Hsec].
    assert (E' : sum_on workingQty false s (_orders c) = 0).
    { apply sum_on_all_filled. intros x Hx Hxs.
      apply on_side_true in Hxs as [Hsell Hsx].
      specialize (Hset b x Hbin Hx).
      assert (Hel : eligible b x = true).
      { apply eligible_true. rewrite Hbuy, Hsell, Hsec, Hsx.
        split; [reflexivity|]. split; [reflexivity|]. now apply Hco. }
      destruct (proj1 (can_trade_false b x) Hset Hel) as [H|H];
        [congruence | assumption]. }
    lia. }
  unfold query. rewrite getMatchingSizeForSecurity_eager. simpl.
  destruct (_securityOrdersIndex c !! s) eqn:Ek.
  - rewrite to_uint_to_int by now apply getMatched_uint.
    now rewrite Hc, Hmin.
  - rewrite !sum_on_none by now apply key_absent_no_orders. reflexivity.
Qed.

Lemma distinct_companies_match_smaller_side_witness :
  Forall (fun o => Order_ok o /\ workingQty o = qty o) testM2 /\
  sum_on qty true "SecId2" (getAllOrders (add_all true testM2 empty_cache)) = 7000 /\
  sum_on qty false "SecId2" (getAllOrders (add_all true testM2 empty_cache)) = 6500 /\
  query true "SecId2" (add_all true testM2 empty_cache) = Some 6500.
Proof.
  assert (Hos : Forall (fun o => Order_ok o /\ workingQty o = qty o) testM2).
  { repeat constructor; vm_compute; intuition discriminate. }
  assert (Eb : sum_on qty true "SecId2"
                 (getAllOrders (add_all true testM2 empty_cache)) = 7000)
    by (vm_compute; reflexivity).
  assert (Es : sum_on qty false "SecId2"
                 (getAllOrders (add_all true testM2 empty_cache)) = 6500)
    by (vm_compute; reflexivity).
  assert (Hco : forall b x,
            In b (getAllOrders (add_all true testM2 empty_cache)) ->
            In x (getAllOrders (add_all true testM2 empty_cache)) ->
            isBuySide b = true -> isBuySide x = false ->
            securityId b = "SecId2" -> securityId x = "SecId2" ->
            company b <> company x).
  { intros b x Hb Hx. vm_compute in Hb, Hx.
    destruct Hb as [<-|[<-|[<-|[<-|[<-|[]]]]]];
      destruct Hx as [<-|[<-|[<-|[<-|[<-|[]]]]]];
      intros; discriminate. }
  split; [exact Hos|]. split; [exact Eb|]. split; [exact Es|].
  rewrite (distinct_companies_match_smaller_side testM2 "SecId2" Hos Hco).
  rewrite Eb, Es. reflexivity.
Defined.

(** ** What one [addOrder] matches *)

Lemma lots_available_cons o y os :
  lots_available o (y :: os) =
  (if eligible o y then workingQty y else 0) + lots_available o os.
Proof.
  unfold lots_available. simpl. destruct (eligible o y); simpl; lia.
Qed.

Lemma eligible_fillLots_r o q y : eligible o (fillLots q y) = eligible o y.
Proof.
  rewrite <- (eligible_static o (fillLots q y)), static_fillLots.
  apply eligible_static.
Qed.

Lemma eligible_static_l o o' y :
  static o' = static o -> eligible o' y = eligible o y.
Proof.
  intros H. rewrite <- (eligible_static o' y), H. apply eligible_static.
Qed.

Lemma eligible_irrefl o : eligible o o = false.
Proof.
  unfold eligible, on_side. destruct (isBuySide o); reflexivity.
Qed.

Lemma lots_available_nonneg o os :
  Forall Order_ok os -> 0 <= lots_available o os.
Proof.
  induction 1 as [|y os [Hw _] _ IH]; [reflexivity|].
  rewrite lots_available_cons. destruct (eligible o y); lia.
Qed.

Lemma lots_available_zero o os :
  (forall y, In y os -> eligible o y = true -> isFilled y = true) ->
  lots_available o os = 0.
Proof.
  induction os as [|y os IH]; intros H; [reflexivity|].
  rewrite lots_available_cons, IH by (intros z Hz; apply H; now right).
  destruct (eligible o y) eqn:E; [|reflexivity].
  pose proof (H y (or_introl eq_refl) E) as Hf.
  unfold isFilled in Hf. apply Z.eqb_eq in Hf. lia.
Qed.

Lemma lots_available_fill o p q a : forall st,
  NoDup (ids st) -> deref st p = Some a ->
  0 <= q <= workingQty a -> workingQty a < UINT_MODULUS ->
  lots_available o (modify p (fillLots q) st) =
  lots_available o st - (if eligible o a then q else 0).
Proof.
  induction st as [|x st IH]; intros Hnd Hd Hq Hlt; [discriminate|].
  simpl in Hnd. apply NoDup_cons in Hnd as [Hx Hnd].
  unfold deref in Hd. simpl in Hd. unfold modify. simpl.
  destruct (points_to p x) eqn:E.
  - injection Hd as ->. apply points_to_true in E.
    fold (modify p (fillLots q) st).
    rewrite modify_absent by (rewrite <- E; now rewrite <- list_elem_of_In).
    rewrite !lots_available_cons, eligible_fillLots_r, fillLots_exact by lia.
    destruct (eligible o a); lia.
  - fold (modify p (fillLots q) st).
    rewrite !lots_available_cons, (IH Hnd Hd Hq Hlt). lia.
Qed.

(** A pairing of [O] with one of its counterparties takes what it moves
    from the lots available to [O]. *)
Lemma lots_available_trade o O y st a c :
  Forall Order_ok st -> NoDup (ids st) -> O <> y ->
  deref st O = Some a -> deref st y = Some c ->
  static a = static o ->
  isBuySide c = negb (isBuySide o) -> securityId c = securityId o ->
  lots_available o (trade O y st) = lots_available o st - trade_qty O y st.
Proof.
  intros Hok Hnd Hne Ha Hc Hst Hside Hsec.
  pose proof (deref_ok _ _ _ Hok Ha) as [Hwa Hqa].
  pose proof (deref_ok _ _ _ Hok Hc) as [Hwc Hqc].
  unfold trade.
  destruct (Z.eqb_spec (trade_qty O y st) 0) as [E0|E0]; [lia|].
  assert (Hq : trade_qty O y st = Z.min (workingQty a) (workingQty c) /\
               company a <> company c).
  { unfold trade_qty in *. rewrite Ha, Hc in *.
    destruct (isFilled a || isFilled c) eqn:Ef; simpl in *; [congruence|].
    destruct (String.eqb_spec (company a) (company c)); [congruence|].
    auto. }
  destruct Hq as [Hq Hco].
  set (q := trade_qty O y st) in *.
  rewrite (lots_available_fill o y q c); try lia.
  - rewrite (lots_available_fill o O q a); try assumption; try lia.
    rewrite <- (eligible_static o a), Hst, eligible_static, eligible_irrefl.
    assert (El : eligible o c = true).
    { apply eligible_true. split; [assumption|]. split; [assumption|].
      apply (f_equal company) in Hst. simpl in Hst. congruence. }
    rewrite El. lia.
  - now apply NoDup_ids_modify.
  - rewrite deref_modify_other; auto with node_db.
Qed.

Lemma lots_available_against t o O : forall ys st a,
  Forall Order_ok st -> NoDup (ids st) ->
  deref st O = Some a -> static a = static o ->
  (forall y, In y ys ->
     y <> O /\ exists c, deref st y = Some c /\
                         securityId c = securityId o /\
                         isBuySide c = negb (isBuySide o)) ->
  lots_available o (fst (run_pairings t (against t O ys) (st, 0))) =
  lots_available o st - snd (run_pairings t (against t O ys) (st, 0)).
Proof.
  induction ys as [|y ys IH]; intros st a Hok Hnd Ha Hst Hys.
  { simpl. lia. }
  cbn [against List.map]. fold (against t O ys).
  rewrite run_pairings_step, String.eqb_refl.
  destruct (Hys y (or_introl eq_refl)) as (Hne & c & Hc & Hsc & Hside).
  destruct (sided_trade O y st O a Ha) as (a' & Ha' & Hsa').
  rewrite (run_pairings_shift t _ (trade O y st) (0 + _)). cbn [fst snd].
  rewrite (IH (trade O y st) a'); try assumption.
  - rewrite (lots_available_trade o O y st a c); auto. lia.
  - now apply trade_ok.
  - now apply NoDup_ids_trade.
  - congruence.
  - intros z Hz. destruct (Hys z (or_intror Hz)) as (Hnz & cz & Hcz & Hsz & Hbz).
    split; [assumption|].
    destruct (sided_trade O y st z cz Hcz) as (cz' & Hcz' & Hstz).
    destruct (static_side _ _ Hstz) as [H1 H2].
    exists cz'. split; [assumption|]. split; congruence.
Qed.

(** One eager [addOrder] of a new id takes from the counterparties what
    they offer, up to the working lots of the new order. *)
Lemma addOrder_available (o : Order) (c : OrderCache) :
  wf c -> Order_ok o -> exists_ c (orderId o) = false ->
  let m := Z.min (workingQty o) (lots_available o (getAllOrders c)) in
  let c' := addOrder true o c in
  (workingQty <$> getOrder (orderId o) c') = Some (workingQty o - m) /\
  lots_available o (getAllOrders c') = lots_available o (getAllOrders c) - m /\
  getMatchedQuantityInCache c' (securityId o) =
    wrap32 (getMatchedQuantityInCache c (securityId o) + m).
Proof.
  intros Hwf Hok Hnew m c'. unfold getAllOrders in *.
  pose proof (addOrder_wf true o c Hwf Hok) as Hwf'. fold c' in Hwf'.
  pose proof (addOrder_lazy_new o c Hnew) as (Hos & Hmq & _).
  pose proof (addOrder_lazy_wf o c Hwf Hok) as Hwfl.
  set (cl := addOrder false o c) in *.
  set (O := orderId o) in *.
  assert (Hhead : deref (_orders cl) O = Some o).
  { rewrite Hos. apply deref_head. }
  assert (Ec' : c' = snd (matchOrderInCache O cl)).
  { unfold c', O, cl. rewrite addOrder_eager_lazy.
    fold O. now rewrite Hnew. }
  destruct (matchOrderInCache_subject O cl o Hwfl Hhead)
    as (o' & Ho' & Hst & Hw & Hm).
  destruct (matchOrderInCache_cache O cl o Hwfl Hhead) as [_ Hcache].
  destruct (matchOrderInCache_pairings O cl o Hwfl Hhead) as [Hmp Hosp].
  rewrite <- Ec' in Ho', Hcache, Hosp.
  set (mq := fst (matchOrderInCache O cl)) in *.
  (* the counterparties lose what the new order gains *)
  assert (Hav : lots_available o (_orders c') =
                lots_available o (_orders c) - mq).
  { rewrite Hosp, Hmp.
    rewrite (lots_available_against (securityId o) o O _ (_orders cl) o);
      try assumption; try reflexivity; try apply Hwfl.
    - rewrite Hos, lots_available_cons, eligible_irrefl. lia.
    - intros y Hy.
      destruct (side_list_live cl O o y Hwfl Hhead Hy) as [Hne _].
      split; [assumption|].
      apply In_side_list in Hy as (oy & Hoy & Hid & Hside).
      apply on_side_true in Hside as [Hb Hs].
      exists oy. split; [|auto].
      rewrite <- Hid. apply deref_In; [apply Hwfl | assumption]. }
  (* the new order is filled, or nothing is left for it *)
  assert (Hmin : mq = m).
  { pose proof (lots_available_nonneg o (_orders c') (wf_ok c' Hwf')) as Hnn.
    unfold m. destruct (isFilled o') eqn:Ef.
    - unfold isFilled in Ef. apply Z.eqb_eq in Ef. lia.
    - assert (Hz : lots_available o (_orders c') = 0).
      { apply lots_available_zero. intros y' Hy' Hel.
        apply deref_Some in Ho' as [Hin' Hid'].
        pose proof (matchOrderInCache_subject_settled O cl o o' y' Hwfl Hhead)
          as Hcan.
        cbn zeta in Hcan. rewrite <- Ec' in Hcan.
        specialize (Hcan Hin' Hy' Hid').
        rewrite <- (eligible_static_l o o' y' Hst) in Hel.
        destruct (proj1 (can_trade_false o' y') Hcan Hel); congruence. }
      lia. }
  split; [|split].
  - rewrite (getOrder_deref _ _ Hwf'). fold O. rewrite Ho'. simpl.
    f_equal. lia.
  - now rewrite Hav, Hmin.
  - rewrite Hcache, String.eqb_refl, Hmin.
    now rewrite (getMatched_same c cl Hmq).
Qed.

(** X25: what one [addOrder] matches (eager mode, new id): the smaller of
    the working lots of the new order and the working lots that its
    possible counterparties (other side, same security, another company)
    still offer.  The new order loses that many working lots, its
    counterparties together lose as many, and the matched size of the
    security grows by it. *)
Theorem addOrder_matches_what_is_available (o : Order) (c : OrderCache) :
  wf c -> Order_ok o -> exists_ c (orderId o) = false ->
  let m := Z.min (workingQty o) (lots_available o (getAllOrders c)) in
  let c' := addOrder true o c in
  (workingQty <$> getOrder (orderId o) c') = Some (workingQty o - m) /\
  lots_available o (getAllOrders c') = lots_available o (getAllOrders c) - m /\
  getMatchedQuantityInCache c' (securityId o) =
    wrap32 (getMatchedQuantityInCache c (securityId o) + m).
Proof. exact (addOrder_available o c). Qed.

Lemma addOrder_matches_what_is_available_witness :
  let c := add_all true (take 7 scenarioA) empty_cache in
  let o := Order_new "OrdId8" "SecId2" "Sell" 5000 "User8" "CompanyE" in
  wf c /\ Order_ok o /\ exists_ c (orderId o) = false /\
  lots_available o (getAllOrders c) = 100 /\
  (workingQty <$> getOrder "OrdId8" (addOrder true o c)) = Some 4900.
Proof.
  intros c o.
  assert (Hwf : wf c).
  { apply add_all_wf; [apply wf_empty|].
    repeat constructor; vm_compute; intuition discriminate. }
  assert (Hok : Order_ok o) by (vm_compute; intuition discriminate).
  assert (Hnew : exists_ c (orderId o) = false) by (vm_compute; reflexivity).
  assert (El : lots_available o (getAllOrders c) = 100)
    by (vm_compute; reflexivity).
  split; [exact Hwf|]. split; [exact Hok|]. split; [exact Hnew|].
  split; [exact El|].
  destruct (addOrder_matches_what_is_available o c Hwf Hok Hnew) as [H _].
  change (orderId o) with "OrdId8" in H. rewrite H, El. reflexivity.
Defined.
(** ** Adding an order and cancelling it again: what is not restored *)

Lemma lots_available_without o id os :
  (forall x, In x os -> orderId x = id -> eligible o x = false) ->
  lots_available o (List.filter (fun x => negb (points_to id x)) os) =
  lots_available o os.
Proof.
  induction os as [|x os IH]; intros H; [reflexivity|].
  cbn [List.filter]. rewrite lots_available_cons.
  destruct (points_to id x) eqn:Ep; cbn [negb].
  - apply points_to_true in Ep.
    rewrite (H x (or_introl eq_refl) Ep).
    rewrite IH by (intros y Hy; apply H; now right). lia.
  - rewrite lots_available_cons.
    rewrite IH by (intros y Hy; apply H; now right). reflexivity.
Qed.

(** C4 (amended): for every well-formed cache [S] and every order [O]
    whose id is not in [S], [addOrder O] followed by [cancelOrder] of its
    id gives a well-formed cache with the same orders in the same places
    (same immutable fields), the same by-id map and the same contents of
    every by-user set, by-security set, buy list and sell list.  What is
    not restored is what the add matched.  Let [m] be the quantity the add
    matched: with matching at insertion the smaller of [O]'s working
    quantity and the working lots that the orders [O] can trade with
    (other side of its security, another company) offer in [S]; without
    it, 0.  Those orders keep their position and immutable fields and
    none of them gained lots, together they have lost exactly [m] working
    lots, and every other order is unchanged.  The per-security maps may
    have gained empty entries.  The match cache of [O]'s security has
    grown by [m] modulo 2^32 (the other securities keep their value), so
    that it did not decrease as long as the sum stays below 2^32. *)
Theorem add_then_cancel_restores (eager : bool) (c : OrderCache) (o : Order) :
  wf c -> Order_ok o -> ~ In (orderId o) (ids (getAllOrders c)) ->
  let c' := cancelOrder (orderId o) (addOrder eager o c) in
  let m := if eager
           then Z.min (workingQty o) (lots_available o (getAllOrders c))
           else 0 in
  wf c' /\
  Forall2 reduced (getAllOrders c) (getAllOrders c') /\
  (forall x, In x (getAllOrders c) -> eligible o x = false ->
             In x (getAllOrders c')) /\
  lots_available o (getAllOrders c') =
    lots_available o (getAllOrders c) - m /\
  _multiThread c' = _multiThread c /\
  _orderIndex c' = _orderIndex c /\
  (forall u, at_key ∅ u (_userOrdersIndex c') =
             at_key ∅ u (_userOrdersIndex c)) /\
  (forall s, at_key ∅ s (_securityOrdersIndex c') =
             at_key ∅ s (_securityOrdersIndex c)) /\
  (forall s, at_key [] s (_securityLongOrdersIndex c') =
             at_key [] s (_securityLongOrdersIndex c)) /\
  (forall s, at_key [] s (_securityShortOrdersIndex c') =
             at_key [] s (_securityShortOrdersIndex c)) /\
  0 <= m <= workingQty o /\
  (forall q, getMatchedQuantityInCache c' q =
     if String.eqb q (securityId o)
     then wrap32 (getMatchedQuantityInCache c q + m)
     else getMatchedQuantityInCache c q) /\
  (getMatchedQuantityInCache c (securityId o) + m < UINT_MODULUS ->
   forall q, getMatchedQuantityInCache c q <= getMatchedQuantityInCache c' q).
Proof.
  intros Hwf Hok Hni c' m.
  destruct (add_then_cancel_frame eager c o Hwf Hok Hni)
    as (Hwf' & Hred & Hkeep & Hmt & Hi & Hu & Hs & Hl & Hsh & m0 & _ & Hq0 & _).
  fold c' in Hwf', Hred, Hkeep, Hmt, Hi, Hu, Hs, Hl, Hsh, Hq0.
  unfold getAllOrders in *.
  pose proof (proj2 (exists_false c _ Hwf) Hni) as Ex.
  pose proof (addOrder_wf eager o c Hwf Hok) as Hwf1.
  pose proof (addOrder_new_statics eager o c Ex) as Hst1.
  set (c1 := addOrder eager o c) in *.
  (* the cancelled order was no counterparty of itself *)
  assert (Hav' : lots_available o (_orders c') = lots_available o (_orders c1)).
  { unfold c', cancelOrder at 1. fold (cancelOrder (orderId o) c1).
    rewrite (cancelOrder_orders _ _ Hwf1).
    apply lots_available_without. intros x Hx Hid.
    assert (Hsx : In (static x) (static o :: statics (_orders c))).
    { rewrite <- Hst1. unfold statics. now apply in_map. }
    destruct Hsx as [Hsx|Hsx].
    - rewrite <- (eligible_static o x), <- Hsx, eligible_static.
      apply eligible_irrefl.
    - exfalso. apply Hni. rewrite <- Hid, <- (ids_statics (_orders c)).
      apply In_ids. exists (static x). auto. }
  (* the match cache is the one after the add *)
  assert (Hmq' : forall q, getMatchedQuantityInCache c' q =
                           getMatchedQuantityInCache c1 q).
  { apply getMatched_same. apply cancelSingleOrder_matched. }
  pose proof (getMatched_uint c (securityId o) Hwf) as Hu0.
  pose proof (lots_available_nonneg o (_orders c) (wf_ok c Hwf)) as Hnn.
  destruct Hok as [Hw Hqo].
  assert (Hm : 0 <= m <= workingQty o) by (unfold m; destruct eager; lia).
  assert (Hcore :
    lots_available o (_orders c1) = lots_available o (_orders c) - m /\
    getMatchedQuantityInCache c1 (securityId o) =
      wrap32 (getMatchedQuantityInCache c (securityId o) + m)).
  { unfold m, c1. destruct eager.
    - destruct (addOrder_available o c Hwf (conj Hw Hqo) Ex) as (_ & H1 & H2).
      split; assumption.
    - destruct (addOrder_lazy_new o c Ex) as (Hos & Hmq & _).
      rewrite Hos, lots_available_cons, eligible_irrefl.
      rewrite (getMatched_same c _ Hmq), Z.add_0_r.
      rewrite wrap32_small by assumption. split; [lia | reflexivity]. }
  destruct Hcore as [Hav Hcache].
  assert (Hq : forall q, getMatchedQuantityInCache c' q =
     if String.eqb q (securityId o)
     then wrap32 (getMatchedQuantityInCache c q + m)
     else getMatchedQuantityInCache c q).
  { intros q. destruct (String.eqb_spec q (securityId o)) as [->|Hne].
    - now rewrite Hmq', Hcache.
    - rewrite Hq0. now rewrite (proj2 (String.eqb_neq _ _) Hne). }
  repeat (split; [assumption|]).
  split; [now rewrite Hav', Hav|].
  repeat (split; [assumption|]).
  intros Hlt q. rewrite Hq.
  destruct (String.eqb_spec q (securityId o)) as [->|Hne]; [|lia].
  rewrite wrap32_small by (unfold is_uint in *; lia). lia.
Qed.

Lemma add_then_cancel_restores_witness :
  let S := addOrder true
             (Order_new "S1" "SecId1" "Sell" 100 "User1" "CompanyB")
             empty_cache in
  let O := Order_new "B1" "SecId1" "Buy" 50 "User2" "CompanyA" in
  wf S /\ Order_ok O /\ ~ In (orderId O) (ids (getAllOrders S)) /\
  lots_available O (getAllOrders S) = 100 /\
  lots_available O
    (getAllOrders (cancelOrder (orderId O) (addOrder true O S))) = 50 /\
  _orderIndex (cancelOrder (orderId O) (addOrder true O S)) = _orderIndex S.
Proof.
  cbv zeta.
  set (S := addOrder true _ empty_cache).
  set (O := Order_new "B1" "SecId1" "Buy" 50 "User2" "CompanyA").
  assert (Hwf : wf S).
  { apply addOrder_wf; [apply wf_empty|]. vm_compute. intuition discriminate. }
  assert (Hok : Order_ok O) by (vm_compute; intuition discriminate).
  assert (Hni : ~ In (orderId O) (ids (getAllOrders S))).
  { vm_compute. intros [H|[]]. discriminate. }
  assert (El : lots_available O (getAllOrders S) = 100)
    by (vm_compute; reflexivity).
  split; [exact Hwf|]. split; [exact Hok|]. split; [exact Hni|].
  split; [exact El|].
  destruct (add_then_cancel_restores true S O Hwf Hok Hni)
    as (_ & _ & _ & Hav & _ & H & _).
  split; [|exact H]. rewrite Hav, El. reflexivity.
Defined.

(** ** Counterparties are served oldest first *)

Lemma side_list_app b s l l' :
  side_list b s (l ++ l') = side_list b s l' ++ side_list b s l.
Proof.
  unfold side_list, ids. now rewrite List.filter_app, List.map_app, rev_app_distr.
Qed.

Lemma against_app t x ys zs :
  against t x (ys ++ zs) = against t x ys ++ against t x zs.
Proof. unfold against. apply List.map_app. Qed.

Lemma deref_run_against_other t s O : forall ys st T p,
  p <> O -> ~ In p ys ->
  deref (fst (run_pairings s (against t O ys) (st, T))) p = deref st p.
Proof.
  induction ys as [|y ys IH]; intros st T p HO Hys; [reflexivity|].
  cbn [against List.map]. fold (against t O ys).
  rewrite run_pairings_step, IH; [|assumption|intros H; apply Hys; now right].
  apply deref_trade_other; [assumption|].
  intros ->. apply Hys. now left.
Qed.

(** X26: the counterparties of a new order are served in the order in
    which they were added.  If [addOrder] (eager mode, new id) takes lots
    from a counterparty [y], then every older possible counterparty [x]
    (other side, same security, another company) has no working lots
    left afterwards. *)
Theorem older_counterparties_are_served_first (o : Order) (c : OrderCache)
    (l1 l2 l3 : list Order) (x y x' y' : Order) :
  wf c -> Order_ok o -> exists_ c (orderId o) = false ->
  getAllOrders c = l1 ++ y :: l2 ++ x :: l3 ->
  eligible o x = true -> eligible o y = true ->
  getOrder (orderId x) (addOrder true o c) = Some x' ->
  getOrder (orderId y) (addOrder true o c) = Some y' ->
  workingQty y' < workingQty y ->
  workingQty x' = 0.
Proof.
  intros Hwf Hok Hnew Hsplit Hex Hey Hx' Hy' Hlt. unfold getAllOrders in Hsplit.
  pose proof (addOrder_wf true o c Hwf Hok) as Hwf'.
  rewrite (getOrder_deref _ _ Hwf') in Hx'.
  rewrite (getOrder_deref _ _ Hwf') in Hy'.
  pose proof (addOrder_lazy_new o c Hnew) as (Hos & _).
  pose proof (addOrder_lazy_wf o c Hwf Hok) as Hwfl.
  rewrite addOrder_eager_lazy, Hnew in Hx', Hy'.
  set (cl := addOrder false o c) in *.
  set (O := orderId o) in *.
  assert (Hhead : deref (_orders cl) O = Some o).
  { rewrite Hos. apply deref_head. }
  rewrite (matchOrderInCache_store O cl o Hwfl Hhead) in Hx', Hy'.
  set (t := securityId o) in *.
  set (bb := negb (isBuySide o)) in *.
  (* the candidates, oldest first *)
  pose proof (proj1 (eligible_true o x) Hex) as (Hxs & Hxt & Hxc).
  pose proof (proj1 (eligible_true o y) Hey) as (Hys & Hyt & Hyc).
  assert (Hox : on_side bb t x = true) by (now apply on_side_true).
  assert (Hoy : on_side bb t y = true) by (now apply on_side_true).
  set (A := side_list bb t l3 ++ [orderId x]).
  set (B := side_list bb t l2 ++ orderId y :: side_list bb t l1).
  assert (Hcps : side_list bb t (_orders cl) = A ++ B).
  { rewrite Hos, side_list_cons.
    assert (E : on_side bb t o = false).
    { unfold on_side, bb. now destruct (isBuySide o). }
    rewrite E, Hsplit. unfold A, B.
    rewrite side_list_app, side_list_cons, Hoy.
    rewrite side_list_app, side_list_cons, Hox.
    rewrite <- !app_assoc. reflexivity. }
  assert (Hnd : NoDup (A ++ B)).
  { rewrite <- Hcps. apply NoDup_side_list, Hwfl. }
  assert (HyB : In (orderId y) B).
  { unfold B. apply in_or_app. right. now left. }
  assert (HyA : ~ In (orderId y) A).
  { intros Hin. apply NoDup_app in Hnd as (_ & Hdis & _).
    apply (Hdis (orderId y)); now apply list_elem_of_In. }
  assert (HneO : forall z, In z (A ++ B) -> z <> O).
  { intros z Hz. rewrite <- Hcps in Hz.
    now destruct (side_list_live cl O o z Hwfl Hhead Hz). }
  rewrite Hcps, against_app, run_pairings_app in Hx', Hy'.
  set (r1 := run_pairings t (against t O A) (_orders cl, 0)) in *.
  assert (Hok1 : Forall Order_ok (fst r1))
    by (apply run_pairings_ok, Hwfl).
  rewrite (surjective_pairing r1) in Hx', Hy'.
  (* after the turn of [x] *)
  assert (F1 : trade_qty O (orderId x) (fst r1) = 0).
  { apply (run_pairings_settles t (against t O A) (_orders cl) 0
             (wf_ok _ Hwfl)
             ltac:(intros p Hp; apply In_against in Hp as (z & Hz & ->);
                   simpl; intros E; symmetry in E; revert E;
                   apply HneO, in_or_app; now left)
             (t, O, orderId x)).
    unfold against. apply in_map_iff. exists (orderId x).
    split; [reflexivity|]. unfold A. apply in_or_app. right. now left. }
  assert (Hxin : In x (_orders cl)).
  { rewrite Hos, Hsplit. right. apply in_or_app. right. right.
    apply in_or_app. right. now left. }
  assert (Hyin : In y (_orders cl)).
  { rewrite Hos, Hsplit. right. apply in_or_app. right. now left. }
  assert (F2 : deref (fst r1) (orderId y) = Some y).
  { unfold r1. rewrite deref_run_against_other; try assumption.
    - apply deref_In; [apply Hwfl | assumption].
    - apply HneO, in_or_app. now right. }
  pose proof (run_pairings_reduced t (against t O A) (_orders cl) 0
                (wf_ok _ Hwfl)) as Hred1.
  fold r1 in Hred1.
  pose proof (deref_reduced _ _ O Hred1) as HrO.
  pose proof (deref_reduced _ _ (orderId x) Hred1) as Hrx.
  rewrite Hhead in HrO.
  rewrite (deref_In (_orders cl) x (wf_nodup _ Hwfl) Hxin) in Hrx.
  destruct (deref (fst r1) O) as [o1|] eqn:Eo1; [|contradiction].
  destruct (deref (fst r1) (orderId x)) as [x1|] eqn:Ex1; [|contradiction].
  apply (trade_qty_zero_iff O (orderId x) (fst r1) o1 x1 Hok1 Eo1 Ex1) in F1.
  destruct F1 as [Hf|[Hf|Hco]].
  - (* the new order was filled before [y] had its turn *)
    exfalso.
    rewrite (run_pairings_filled_subject t t O o1 B (fst r1) (snd r1) Eo1 Hf)
      in Hy'.
    cbn [fst] in Hy'. rewrite F2 in Hy'. injection Hy' as <-. lia.
  - (* [x] was filled *)
    pose proof (run_pairings_reduced t (against t O B) (fst r1) (snd r1) Hok1)
      as Hred2.
    pose proof (deref_reduced _ _ (orderId x) Hred2) as Hrx2.
    rewrite Ex1, Hx' in Hrx2.
    pose proof (run_pairings_ok t (against t O B) (fst r1) (snd r1) Hok1) as Hok2.
    pose proof (deref_ok _ _ _ Hok2 Hx') as Hokx'.
    pose proof (reduced_filled x1 x' Hokx' Hrx2 Hf) as Hfx'.
    unfold isFilled in Hfx'. now apply Z.eqb_eq in Hfx'.
  - exfalso. apply Hxc.
    now rewrite <- (reduced_company _ _ HrO), <- (reduced_company _ _ Hrx).
Qed.

Lemma older_counterparties_are_served_first_witness :
  let c := add_all true
             [ Order_new "S1" "SecId1" "Sell" 100 "User1" "CompanyA";
               Order_new "S2" "SecId1" "Sell" 100 "User2" "CompanyB" ]
             empty_cache in
  let o := Order_new "B1" "SecId1" "Buy" 150 "User3" "CompanyC" in
  wf c /\ Order_ok o /\ exists_ c (orderId o) = false /\
  List.map workingQty (getAllOrders (addOrder true o c)) = [0; 50; 0].
Proof.
  intros c o.
  assert (Hwf : wf c).
  { apply add_all_wf; [apply wf_empty|].
    repeat constructor; vm_compute; intuition discriminate. }
  assert (Hok : Order_ok o) by (vm_compute; intuition discriminate).
  assert (Hnew : exists_ c (orderId o) = false) by (vm_compute; reflexivity).
  split; [exact Hwf|]. split; [exact Hok|]. split; [exact Hnew|].
  pose (x := Order_new "S1" "SecId1" "Sell" 100 "User1" "CompanyA").
  pose (y := Order_new "S2" "SecId1" "Sell" 100 "User2" "CompanyB").
  assert (H0 : workingQty (set_workingQty 0 x) = 0).
  { apply (older_counterparties_are_served_first o c [] [] [] x y
             (set_workingQty 0 x) (set_workingQty 50 y) Hwf Hok Hnew);
      try (vm_compute; reflexivity). }
  vm_compute. reflexivity.
Defined.

(** ** The log of fills of the extended interface *)

Lemma match_loop_x_erase order isBuy : forall cps os acc log,
  fst (match_loop_x order cps os acc isBuy log) = match_loop order cps os acc.
Proof.
  induction cps as [|cp rest IH]; intros os acc log; [reflexivity|].
  cbn [match_loop_x match_loop].
  destruct (deref os order) as [o|]; [|reflexivity].
  destruct (deref os cp) as [c|]; [|reflexivity].
  destruct (isFilled c || String.eqb (company o) (company c)); [apply IH|].
  destruct (Z.min (workingQty o) (workingQty c) =? 0); [apply IH|].
  cbn zeta.
  destruct (deref _ order) as [o'|]; [|reflexivity].
  destruct (isFilled o'); [reflexivity | apply IH].
Qed.

Lemma filled_by_nil p : filled_by p [] = 0.
Proof. reflexivity. Qed.

Lemma filled_by_cons p f log :
  filled_by p (f :: log) =
  (if names p f then fill_qty f else 0) + filled_by p log.
Proof. unfold filled_by. simpl. destruct (names p f); simpl; lia. Qed.

Lemma filled_by_app p l1 l2 :
  filled_by p (l1 ++ l2) = filled_by p l1 + filled_by p l2.
Proof.
  induction l1 as [|f l1 IH]; [reflexivity|].
  rewrite <- app_comm_cons, !filled_by_cons, IH. lia.
Qed.

Lemma filled_by_unnamed p log :
  (forall f, In f log -> names p f = false) -> filled_by p log = 0.
Proof.
  induction log as [|f log IH]; intros H; [reflexivity|].
  rewrite filled_by_cons, (H f (or_introl eq_refl)), IH; [reflexivity|].
  intros g Hg. apply H. now right.
Qed.

Lemma deref_modify_back p q os y c2 :
  deref (modify p (fillLots q) os) y = Some c2 ->
  exists c, deref os y = Some c /\ static c2 = static c.
Proof.
  rewrite deref_modify by apply orderId_fillLots.
  destruct (String.eqb p y), (deref os y) as [c|]; simpl; try discriminate;
    intros [= <-]; exists c; (split; [reflexivity|]);
    now rewrite ?static_fillLots.
Qed.

(** What one run of the loop appends to the log: a fill for every pair
    it fills, with the lots it moved, and nothing else. *)
Lemma match_loop_x_log O isBuy : forall cps os acc log o,
  Forall Order_ok os -> deref os O = Some o ->
  (forall y, In y cps -> y <> O) ->
  let r := match_loop_x O cps os acc isBuy log in
  exists fills,
    snd r = log ++ fills /\
    (forall f, In f fills ->
       0 < fill_qty f /\
       exists y cy, In y cps /\ deref os y = Some cy /\
                    company o <> company cy /\
                    buyOrderId f = (if isBuy then O else y) /\
                    sellOrderId f = (if isBuy then y else O)) /\
    (forall p a, deref os p = Some a ->
       exists a', deref (fst (fst r)) p = Some a' /\
                  workingQty a - workingQty a' = filled_by p fills).
Proof.
  induction cps as [|cp rest IH]; intros os acc log o Hok Ho Hne r.
  { exists []. unfold r. simpl. split; [now rewrite app_nil_r|].
    split; [intros f []|]. intros p a Ha. exists a. split; [assumption|].
    rewrite filled_by_nil. lia. }
  assert (Hrest : forall y, In y rest -> y <> O)
    by (intros y Hy; apply Hne; now right).
  assert (Hcp : cp <> O) by (apply Hne; now left).
  assert (Hskip :
    (exists fills,
       snd (match_loop_x O rest os acc isBuy log) = log ++ fills /\
       (forall f, In f fills ->
          0 < fill_qty f /\
          exists y cy, In y (cp :: rest) /\ deref os y = Some cy /\
                       company o <> company cy /\
                       buyOrderId f = (if isBuy then O else y) /\
                       sellOrderId f = (if isBuy then y else O)) /\
       (forall p a, deref os p = Some a ->
          exists a', deref (fst (fst (match_loop_x O rest os acc isBuy log))) p
                     = Some a' /\
                     workingQty a - workingQty a' = filled_by p fills))).
  { destruct (IH os acc log o Hok Ho Hrest) as (fills & Hl & Hf & Hp).
    exists fills. split; [assumption|]. split; [|assumption].
    intros f Hin. destruct (Hf f Hin) as (Hq & y & cy & Hy & Hrestf).
    split; [assumption|]. exists y, cy. split; [now right | assumption]. }
  unfold r. cbn [match_loop_x]. rewrite Ho.
  destruct (deref os cp) as [c|] eqn:Ec.
  2:{ exists []. simpl. split; [now rewrite app_nil_r|].
      split; [intros f []|]. intros p a Ha. exists a. split; [assumption|].
      rewrite filled_by_nil. lia. }
  destruct (isFilled c || String.eqb (company o) (company c)) eqn:Eskip;
    [exact Hskip|].
  destruct (Z.eqb_spec (Z.min (workingQty o) (workingQty c)) 0) as [E0|E0];
    [exact Hskip|].
  clear Hskip. cbn zeta.
  pose proof (deref_ok _ _ _ Hok Ho) as [Hwo Hqo].
  pose proof (deref_ok _ _ _ Hok Ec) as [Hwc Hqc].
  set (q := Z.min (workingQty o) (workingQty c)) in *.
  assert (Hq : 0 < q) by (unfold q in *; lia).
  apply orb_false_iff in Eskip as [_ Ecomp]. apply String.eqb_neq in Ecomp.
  pose proof (proj2 (deref_Some _ _ _ Ho)) as HidO.
  pose proof (proj2 (deref_Some _ _ _ Ec)) as Hidc.
  set (os2 := modify cp (fillLots q) (modify O (fillLots q) os)).
  set (fill := if isBuy then mkOrderFill (orderId o) (orderId c) q
               else mkOrderFill (orderId c) (orderId o) q).
  assert (Ho2 : deref os2 O = Some (fillLots q o)).
  { unfold os2. rewrite deref_modify_other by auto with node_db.
    apply deref_modify_same; auto with node_db. }
  assert (Hok2 : Forall Order_ok os2) by (unfold os2; fills_ok).
  assert (Hfill : 0 < fill_qty fill /\
            exists y cy, In y (cp :: rest) /\ deref os y = Some cy /\
                         company o <> company cy /\
                         buyOrderId fill = (if isBuy then O else y) /\
                         sellOrderId fill = (if isBuy then y else O)).
  { split; [unfold fill; now destruct isBuy|].
    exists cp, c. split; [now left|]. split; [assumption|].
    split; [assumption|].
    unfold fill. destruct isBuy; simpl; rewrite HidO, Hidc; auto. }
  assert (Hnames : forall p, names p fill =
                             String.eqb O p || String.eqb cp p).
  { intros p. unfold names, fill. destruct isBuy; simpl;
      rewrite HidO, Hidc; [reflexivity | apply orb_comm]. }
  (* the effect of this turn on any order *)
  assert (Hturn : forall p a, deref os p = Some a ->
            exists a2, deref os2 p = Some a2 /\
              workingQty a - workingQty a2 =
              (if names p fill then fill_qty fill else 0)).
  { intros p a Ha. rewrite Hnames.
    assert (Hqf : fill_qty fill = q) by (unfold fill; now destruct isBuy).
    rewrite Hqf. unfold os2.
    rewrite !deref_modify by apply orderId_fillLots. rewrite Ha.
    destruct (String.eqb_spec O p) as [EO|HO], (String.eqb_spec cp p) as [E|Hc];
      simpl.
    - congruence.
    - subst p. assert (a = o) by congruence. subst a.
      eexists. split; [reflexivity|]. rewrite fillLots_exact; lia.
    - subst p. assert (a = c) by congruence. subst a.
      eexists. split; [reflexivity|]. rewrite fillLots_exact; lia.
    - exists a. split; [reflexivity | lia]. }
  assert (Hstop :
    exists fills,
      log ++ [fill] = log ++ fills /\
      (forall f, In f fills ->
         0 < fill_qty f /\
         exists y cy, In y (cp :: rest) /\ deref os y = Some cy /\
                      company o <> company cy /\
                      buyOrderId f = (if isBuy then O else y) /\
                      sellOrderId f = (if isBuy then y else O)) /\
      (forall p a, deref os p = Some a ->
         exists a', deref os2 p = Some a' /\
                    workingQty a - workingQty a' = filled_by p fills)).
  { exists [fill]. split; [reflexivity|]. split.
    - intros f [<-|[]]. exact Hfill.
    - intros p a Ha. destruct (Hturn p a Ha) as (a2 & Ha2 & Hd).
      exists a2. split; [assumption|].
      rewrite filled_by_cons, filled_by_nil. lia. }
  fold os2. fold fill. rewrite Ho2.
  destruct (isFilled (fillLots q o)); [exact Hstop|]. clear Hstop.
  destruct (IH os2 (wrap32 (acc + q)) (log ++ [fill]) (fillLots q o)
              Hok2 Ho2 Hrest) as (fills & Hl & Hf & Hp).
  exists (fill :: fills). split; [|split].
  - rewrite Hl, <- app_assoc. reflexivity.
  - intros f [<-|Hin]; [exact Hfill|].
    destruct (Hf f Hin) as (Hqf & y & cy2 & Hy & Hd & Hc & Hb & Hs).
    split; [assumption|].
    unfold os2 in Hd.
    apply deref_modify_back in Hd as (cy1 & Hd & Hs1).
    apply deref_modify_back in Hd as (cy & Hd & Hs0).
    exists y, cy. split; [now right|]. split; [assumption|].
    split; [|auto].
    rewrite company_fillLots in Hc.
    replace (company cy) with (company cy2); [assumption|].
    transitivity (company cy1).
    + now apply (f_equal company) in Hs1.
    + now apply (f_equal company) in Hs0.
  - intros p a Ha. destruct (Hturn p a Ha) as (a2 & Ha2 & Hd).
    destruct (Hp p a2 Ha2) as (a' & Ha' & Hd').
    exists a'. split; [assumption|]. rewrite filled_by_cons. lia.
Qed.

(** Leaving the log out gives back the shipped [matchOrderInCache]. *)
Lemma matchOrderInCache_x_erase O cx :
  fst (matchOrderInCache_x O cx) = fst (matchOrderInCache O (base cx)) /\
  base (snd (matchOrderInCache_x O cx)) = snd (matchOrderInCache O (base cx)).
Proof.
  unfold matchOrderInCache_x, matchOrderInCache.
  destruct (deref (_orders (base cx)) O) as [o|]; [|auto].
  destruct (isFilled o); [auto|]. cbn zeta.
  set (c1 := if isBuySide o then set_securityShortOrdersIndex _ _ else _).
  set (cps := if isBuySide o then at_key _ _ _ else _).
  destruct (length cps =? 0)%nat; [auto|].
  pose proof (match_loop_x_erase O (isBuySide o) cps (_orders c1) 0
                (_orderMatches cx)) as He.
  destruct (match_loop_x O cps (_orders c1) 0 (isBuySide o) (_orderMatches cx))
    as [[os' m] log'].
  simpl in He. rewrite <- He. auto.
Qed.

Lemma matchOrderInCache_x_log O cx o :
  wf (base cx) -> deref (_orders (base cx)) O = Some o ->
  let cx' := snd (matchOrderInCache_x O cx) in
  exists fills,
    _orderMatches cx' = _orderMatches cx ++ fills /\
    (forall f, In f fills ->
       0 < fill_qty f /\
       exists y, In y (_orders (base cx)) /\ eligible o y = true /\
                 buyOrderId f = (if isBuySide o then O else orderId y) /\
                 sellOrderId f = (if isBuySide o then orderId y else O)) /\
    (forall p a, deref (_orders (base cx)) p = Some a ->
       exists a', deref (_orders (base cx')) p = Some a' /\
                  workingQty a - workingQty a' = filled_by p fills).
Proof.
  intros Hwf Ho cx'.
  assert (Hnone : forall c2,
            _orderMatches c2 = _orderMatches cx ->
            _orders (base c2) = _orders (base cx) ->
            exists fills,
              _orderMatches c2 = _orderMatches cx ++ fills /\
              (forall f, In f fills ->
                 0 < fill_qty f /\
                 exists y, In y (_orders (base cx)) /\ eligible o y = true /\
                   buyOrderId f = (if isBuySide o then O else orderId y) /\
                   sellOrderId f = (if isBuySide o then orderId y else O)) /\
              (forall p a, deref (_orders (base cx)) p = Some a ->
                 exists a', deref (_orders (base c2)) p = Some a' /\
                            workingQty a - workingQty a' = filled_by p fills)).
  { intros c2 Hl Hos. exists []. split; [now rewrite app_nil_r|].
    split; [intros f []|]. intros p a Ha. exists a. rewrite Hos.
    split; [assumption|]. rewrite filled_by_nil. lia. }
  unfold cx', matchOrderInCache_x. rewrite Ho.
  destruct (isFilled o); [now apply Hnone|]. cbn zeta.
  pose proof (counterParties_side_list (base cx) o Hwf) as Hcp.
  set (cps := side_list (negb (isBuySide o)) (securityId o) (_orders (base cx)))
    in *.
  set (c1 := if isBuySide o then set_securityShortOrdersIndex _ _ else _).
  assert (Hos1 : _orders c1 = _orders (base cx))
    by (unfold c1; now destruct (isBuySide o)).
  assert (Hcps : (if isBuySide o
                  then at_key [] (securityId o) (_securityShortOrdersIndex c1)
                  else at_key [] (securityId o) (_securityLongOrdersIndex c1))
                 = cps).
  { rewrite <- Hcp. unfold c1. now destruct (isBuySide o). }
  rewrite Hcps, Hos1.
  destruct (length cps =? 0)%nat; [now apply Hnone|].
  destruct (match_loop_x_log O (isBuySide o) cps (_orders (base cx)) 0
              (_orderMatches cx) o (wf_ok _ Hwf) Ho)
    as (fills & Hl & Hf & Hp).
  { intros y Hy. now destruct (side_list_live (base cx) O o y Hwf Ho Hy). }
  destruct (match_loop_x O cps (_orders (base cx)) 0 (isBuySide o)
              (_orderMatches cx)) as [[os' m] log'].
  simpl in Hl, Hp. simpl.
  exists fills. split; [assumption|]. split; [|assumption].
  intros f Hin. destruct (Hf f Hin) as (Hq & y & cy & Hy & Hd & Hc & Hb & Hs).
  split; [assumption|].
  apply deref_Some in Hd as [Hcy Hid].
  exists cy. split; [assumption|]. rewrite Hid. split; [|auto].
  apply In_side_list in Hy as (oy & Hoy & Hidy & Hside).
  assert (oy = cy).
  { apply (NoDup_ids_inj (_orders (base cx))); try assumption;
      [apply Hwf | congruence]. }
  subst oy. unfold eligible. rewrite Hside. simpl.
  now apply negb_true_iff, String.eqb_neq.
Qed.

Lemma base_addOrder_x o cx :
  base (addOrder_x o cx) = addOrder true o (base cx).
Proof.
  unfold addOrder_x. rewrite addOrder_eager_lazy.
  destruct (exists_ (base cx) (orderId o)); [reflexivity|].
  now destruct (matchOrderInCache_x_erase (orderId o)
                  (mkOrderCacheX (addOrder false o (base cx)) (_orderMatches cx))).
Qed.

Lemma addOrder_x_log o cx :
  wf (base cx) -> Order_ok o -> exists_ (base cx) (orderId o) = false ->
  let cx' := addOrder_x o cx in
  exists fills,
    _orderMatches cx' = _orderMatches cx ++ fills /\
    (forall f, In f fills ->
       0 < fill_qty f /\
       exists y, In y (_orders (base cx)) /\ eligible o y = true /\
         buyOrderId f = (if isBuySide o then orderId o else orderId y) /\
         sellOrderId f = (if isBuySide o then orderId y else orderId o)) /\
    (exists o', deref (_orders (base cx')) (orderId o) = Some o' /\
                workingQty o - workingQty o' = filled_by (orderId o) fills) /\
    (forall x, In x (_orders (base cx)) ->
       exists x', deref (_orders (base cx')) (orderId x) = Some x' /\
                  workingQty x - workingQty x' = filled_by (orderId x) fills).
Proof.
  intros Hwf Hok Hnew cx'.
  pose proof (addOrder_lazy_new o (base cx) Hnew) as (Hos & _).
  pose proof (addOrder_lazy_wf o (base cx) Hwf Hok) as Hwfl.
  set (cl := mkOrderCacheX (addOrder false o (base cx)) (_orderMatches cx)).
  assert (Hhead : deref (_orders (base cl)) (orderId o) = Some o).
  { simpl. rewrite Hos. apply deref_head. }
  destruct (matchOrderInCache_x_log (orderId o) cl o Hwfl Hhead)
    as (fills & Hl & Hf & Hp).
  assert (E : cx' = snd (matchOrderInCache_x (orderId o) cl)).
  { unfold cx', addOrder_x. now rewrite Hnew. }
  rewrite <- E in Hl, Hp. simpl in Hl.
  exists fills. split; [assumption|]. split; [|split].
  - intros f Hin. destruct (Hf f Hin) as (Hq & y & Hy & Hel & Hb & Hs).
    split; [assumption|]. exists y. split; [|auto].
    simpl in Hy. rewrite Hos in Hy. destruct Hy as [<-|Hy]; [|assumption].
    rewrite eligible_irrefl in Hel. discriminate.
  - now apply Hp.
  - intros x Hx. apply Hp. simpl. rewrite Hos.
    rewrite deref_cons_other.
    + apply deref_In; [apply Hwf | assumption].
    + intros Hid. apply (exists_false _ _ Hwf) in Hnew. apply Hnew.
      rewrite Hid. apply In_ids. eauto.
Qed.

Lemma addOrder_then_getOrder_aux o c :
  wf c -> Order_ok o -> exists_ c (orderId o) = false ->
  exists o',
    deref (_orders (addOrder true o c)) (orderId o) = Some o' /\
    getMatchedQuantityInCache (addOrder true o c) (securityId o) =
      wrap32 (getMatchedQuantityInCache c (securityId o) +
              (workingQty o - workingQty o')).
Proof.
  intros Hwf Hok Hnew.
  pose proof (addOrder_lazy_new o c Hnew) as (Hos & Hmq & _).
  pose proof (addOrder_lazy_wf o c Hwf Hok) as Hwfl.
  assert (Hhead : deref (_orders (addOrder false o c)) (orderId o) = Some o).
  { rewrite Hos. apply deref_head. }
  rewrite addOrder_eager_lazy, Hnew.
  destruct (matchOrderInCache_subject _ _ _ Hwfl Hhead)
    as (o' & Ho' & _ & _ & Hm).
  destruct (matchOrderInCache_cache _ _ _ Hwfl Hhead) as [_ Hcache].
  exists o'. split; [exact Ho'|].
  rewrite Hcache, String.eqb_refl, Hm.
  now rewrite (getMatched_same c _ Hmq).
Qed.

(** X27: with the extended interface every [addOrder] (new id) appends to
    the match log exactly the fills of that order.  The cache itself is
    what [addOrder] gives without the log; each appended fill has a
    positive quantity and names the new order on its own side and a
    possible counterparty (other side, same security, another company) on
    the other; the fills add up to the amount by which the matched size
    of the security grows; and every order has lost as many working lots
    as the appended fills that name it say. *)
Theorem addOrder_x_logs_its_fills (o : Order) (cx : OrderCacheX) :
  wf (base cx) -> Order_ok o -> exists_ (base cx) (orderId o) = false ->
  let cx' := addOrder_x o cx in
  base cx' = addOrder true o (base cx) /\
  exists fills,
    getAllOrderMatches cx' = getAllOrderMatches cx ++ fills /\
    (forall f, In f fills ->
       0 < fill_qty f /\
       exists y, In y (getAllOrders (base cx)) /\ eligible o y = true /\
         buyOrderId f = (if isBuySide o then orderId o else orderId y) /\
         sellOrderId f = (if isBuySide o then orderId y else orderId o)) /\
    getMatchedQuantityInCache (base cx') (securityId o) =
      wrap32 (getMatchedQuantityInCache (base cx) (securityId o) +
              filled_by (orderId o) fills) /\
    (forall x, In x (getAllOrders (base cx)) ->
       exists x', getOrder (orderId x) (base cx') = Some x' /\
                  workingQty x - workingQty x' = filled_by (orderId x) fills).
Proof.
  intros Hwf Hok Hnew cx'. unfold getAllOrderMatches, getAllOrders.
  pose proof (base_addOrder_x o cx) as Hb. fold cx' in Hb.
  split; [exact Hb|].
  destruct (addOrder_x_log o cx Hwf Hok Hnew)
    as (fills & Hl & Hf & (o' & Ho' & Hdo) & Hp).
  fold cx' in Hl, Ho', Hp.
  pose proof (addOrder_wf true o _ Hwf Hok) as Hwf'. rewrite <- Hb in Hwf'.
  exists fills. split; [assumption|]. split; [assumption|]. split.
  - destruct (addOrder_then_getOrder_aux o (base cx) Hwf Hok Hnew)
      as (o2 & Ho2 & Hc).
    rewrite <- Hb in Ho2, Hc. rewrite Ho' in Ho2. injection Ho2 as <-.
    now rewrite Hc, Hdo.
  - intros x Hx. rewrite (getOrder_deref _ _ Hwf'). now apply Hp.
Qed.

Lemma base_add_all_x os : forall cx,
  base (add_all_x os cx) = add_all true os (base cx).
Proof.
  induction os as [|o os IH]; intros cx; [reflexivity|].
  simpl. now rewrite IH, base_addOrder_x.
Qed.

Lemma addOrder_x_logs_its_fills_witness :
  let cx := add_all_x
              [ Order_new "1" "SecId1" "Buy" 10000 "User1" "CompanyA";
                Order_new "2" "SecId1" "Sell" 2000 "User2" "CompanyB";
                Order_new "3" "SecId1" "Sell" 1500 "User3" "CompanyC" ]
              empty_cache_x in
  let o := Order_new "4" "SecId1" "Sell" 2500 "User4" "CompanyD" in
  wf (base cx) /\ Order_ok o /\ exists_ (base cx) (orderId o) = false /\
  getAllOrderMatches cx =
    [ mkOrderFill "1" "2" 2000; mkOrderFill "1" "3" 1500 ] /\
  getAllOrderMatches (addOrder_x o cx) =
    [ mkOrderFill "1" "2" 2000; mkOrderFill "1" "3" 1500;
      mkOrderFill "1" "4" 2500 ] /\
  base (addOrder_x o cx) = addOrder true o (base cx).
Proof.
  intros cx o.
  assert (Hwf : wf (base cx)).
  { unfold cx. rewrite base_add_all_x.
    apply add_all_wf; [apply wf_empty|].
    repeat constructor; vm_compute; intuition discriminate. }
  assert (Hok : Order_ok o) by (vm_compute; intuition discriminate).
  assert (Hnew : exists_ (base cx) (orderId o) = false)
    by (vm_compute; reflexivity).
  split; [exact Hwf|]. split; [exact Hok|]. split; [exact Hnew|].
  split; [vm_compute; reflexivity|]. split; [vm_compute; reflexivity|].
  exact (proj1 (addOrder_x_logs_its_fills o cx Hwf Hok Hnew)).
Defined.

Lemma add_all_x_ledger os : forall cx,
  wf (base cx) ->
  Forall (fun o => Order_ok o /\ workingQty o = qty o) os ->
  (forall x, In x (_orders (base cx)) ->
     filledQty x = filled_by (orderId x) (_orderMatches cx)) ->
  (forall f, In f (_orderMatches cx) ->
     In (buyOrderId f) (ids (_orders (base cx))) /\
     In (sellOrderId f) (ids (_orders (base cx)))) ->
  let cx' := add_all_x os cx in
  wf (base cx') /\
  forall x, In x (_orders (base cx')) ->
    filledQty x = filled_by (orderId x) (_orderMatches cx').
Proof.
  induction os as [|o os IH]; intros cx Hwf Hos Hled Hids; [simpl; auto|].
  apply Forall_cons in Hos as [[Hok Hfresh] Hos].
  cbn [add_all_x foldl]. fold (add_all_x os (addOrder_x o cx)).
  pose proof (base_addOrder_x o cx) as Hb.
  pose proof (addOrder_wf true o _ Hwf Hok) as Hwf'. rewrite <- Hb in Hwf'.
  destruct (exists_ (base cx) (orderId o)) eqn:Ex.
  { assert (E : addOrder_x o cx = cx) by (unfold addOrder_x; now rewrite Ex).
    rewrite E. now apply IH. }
  destruct (addOrder_x_log o cx Hwf Hok Ex)
    as (fills & Hl & Hf & (o' & Ho' & Hdo) & Hp).
  pose proof (addOrder_new_statics true o (base cx) Ex) as Hst.
  rewrite <- Hb in Hst.
  assert (Hidl : ids (_orders (base (addOrder_x o cx))) =
                 orderId o :: ids (_orders (base cx))).
  { rewrite <- ids_statics, Hst. simpl. now rewrite ids_statics. }
  assert (HnewO : ~ In (orderId o) (ids (_orders (base cx))))
    by now apply (exists_false _ _ Hwf).
  apply IH; try assumption.
  - (* the ledger after this add *)
    intros x' Hx'.
    pose proof (wf_In_ok _ x' Hwf' Hx') as Hokx'.
    rewrite (filledQty_ok x' Hokx'), Hl, filled_by_app.
    assert (Hin : In (orderId x') (orderId o :: ids (_orders (base cx)))).
    { rewrite <- Hidl. apply In_ids. eauto. }
    assert (Hdx' : deref (_orders (base (addOrder_x o cx))) (orderId x') =
                   Some x') by (apply deref_In; [apply Hwf' | assumption]).
    assert (Hqx' : forall x, static x' = static x -> qty x' = qty x).
    { intros x H. now apply (f_equal qty) in H. }
    assert (Hsx' : In (static x') (static o :: statics (_orders (base cx)))).
    { rewrite <- Hst. unfold statics. now apply in_map. }
    destruct Hin as [Hid|Hid].
    + (* the new order *)
      rewrite <- Hid in Hdx'. rewrite Ho' in Hdx'. injection Hdx' as ->.
      rewrite (filled_by_unnamed (orderId x') (_orderMatches cx)).
      * destruct Hsx' as [Hs|Hs].
        -- rewrite (Hqx' o (eq_sym Hs)). rewrite Hid in Hdo. lia.
        -- exfalso. apply HnewO. rewrite Hid. rewrite <- (ids_statics (_orders _)).
           apply In_ids. exists (static x'). auto.
      * intros f Hfin. destruct (Hids f Hfin) as [H1 H2].
        unfold names. apply orb_false_iff.
        split; apply String.eqb_neq; congruence.
    + (* an order that was there before *)
      apply In_ids in Hid as (x & Hx & Hidx).
      destruct (Hp x Hx) as (x2 & Hx2 & Hd).
      rewrite Hidx, Hdx' in Hx2. injection Hx2 as <-.
      rewrite <- Hidx, <- (Hled x Hx), (filledQty_ok x (wf_In_ok _ x Hwf Hx)).
      assert (Hq : qty x' = qty x).
      { destruct Hsx' as [Hs|Hs].
        - exfalso. apply HnewO. apply (f_equal orderId) in Hs. simpl in Hs.
          rewrite Hs, <- Hidx. apply In_ids. eauto.
        - unfold statics in Hs. apply in_map_iff in Hs as (z & Hz & Hzin).
          assert (z = x).
          { apply (NoDup_ids_inj (_orders (base cx))); try assumption;
              [apply Hwf|].
            apply (f_equal orderId) in Hz. simpl in Hz. congruence. }
          subst z. now apply Hqx'. }
      lia.
  - (* the log names only orders of the cache *)
    intros f Hfin. rewrite Hl in Hfin. rewrite Hidl.
    apply in_app_or in Hfin as [Hfin|Hfin].
    + destruct (Hids f Hfin). split; now right.
    + destruct (Hf f Hfin) as (_ & y & Hy & _ & Hbf & Hsf).
      rewrite Hbf, Hsf.
      assert (In (orderId y) (ids (_orders (base cx))))
        by (apply In_ids; eauto).
      destruct (isBuySide o); split; simpl; auto.
Qed.

(** X28: the match log accounts for every filled lot.  After a sequence
    of [addOrder] calls with the extended interface (each order new from
    its constructor), the filled quantity of every order in the cache is
    the sum of the quantities of the logged fills that name it.
    [getOrderMatchesBySecurity] does not select by security: for every
    security with an index entry it returns the whole log, the fills of
    all other securities included. *)
Theorem fill_log_accounts_for_every_order (os : list Order) :
  Forall (fun o => Order_ok o /\ workingQty o = qty o) os ->
  let cx := add_all_x os empty_cache_x in
  base cx = add_all true os empty_cache /\
  (forall x, In x (getAllOrders (base cx)) ->
     filledQty x = filled_by (orderId x) (getAllOrderMatches cx)) /\
  (forall s, is_Some (_securityOrdersIndex (base cx) !! s) ->
     getOrderMatchesBySecurity true s cx = getAllOrderMatches cx).
Proof.
  intros Hos cx. split; [apply base_add_all_x|].
  destruct (add_all_x_ledger os empty_cache_x wf_empty Hos
              ltac:(intros x []) ltac:(intros f [])) as [_ Hled].
  split; [exact Hled|].
  intros s [ks Hs]. unfold getOrderMatchesBySecurity. now rewrite Hs.
Qed.

Lemma fill_log_accounts_for_every_order_witness :
  let os := [ Order_new "1" "SecId1" "Buy" 100 "User1" "CompanyA";
              Order_new "2" "SecId1" "Sell" 60 "User2" "CompanyB";
              Order_new "3" "SecId2" "Sell" 70 "User2" "CompanyB";
              Order_new "4" "SecId2" "Buy" 50 "User1" "CompanyA" ] in
  Forall (fun o => Order_ok o /\ workingQty o = qty o) os /\
  getAllOrderMatches (add_all_x os empty_cache_x) =
    [ mkOrderFill "1" "2" 60; mkOrderFill "4" "3" 50 ] /\
  getOrderMatchesBySecurity true "SecId1" (add_all_x os empty_cache_x) =
    getAllOrderMatches (add_all_x os empty_cache_x).
Proof.
  intros os.
  assert (Hos : Forall (fun o => Order_ok o /\ workingQty o = qty o) os).
  { repeat constructor; vm_compute; intuition discriminate. }
  split; [exact Hos|]. split; [vm_compute; reflexivity|].
  destruct (fill_log_accounts_for_every_order os Hos) as (_ & _ & H).
  apply H. vm_compute. eauto.
Defined.
